(* ===== verification/_CoqProject ===== *)
-Q . S2P
Prelude.v
GoLib.v
Wire.v
Api.v
Registry.v
Resolver.v
Net.v
Cancel.v
Backend.v
Relay.v
Interleave.v
Sessions.v
Session.v
Outcomes.v
Deadline.v
Server.v
RouteTable.v
Staleness.v
RouteStatus.v
Requeue.v
Discovery.v
Config.v
Lifecycle.v
ControlPlane.v
Settle.v
Flags.v
Startup.v
Wiring.v
DeepCopy.v
Metrics.v
EndToEnd.v
System.v
Process.v
