(* ===== verification/Prelude.v ===== *)
(** * pg-k8s-proxy: a verification of the PostgreSQL gateway

    pg-k8s-proxy lets PostgreSQL clients reach any database of a Kubernetes
    cluster through one address.  A PostgresRoute object binds a database name to a
    backend; the control plane turns all routes into a lookup table; the data plane
    reads a client's startup packet, finds the route of the database it asks for,
    connects to the backend and relays the session, exchanging the backend's
    cancellation key for one of its own.  The Go sources are under [src/src/].

    ** The parts and the files that model them

    - [Prelude]: notations, tactics, hint databases, results ([Ok]/[Err]) and
      generic lemmas on bytes, big-endian numbers, lists and maps.
    - [GoLib]: what the sources use of Go's standard library: error values with
      [errors.Is], the verbs of [fmt], [strconv], [net.JoinHostPort],
      [sort.SliceStable], [io.ReadFull] on a stream that ends with an error.
    - [Wire]: [internal/pgwire/protocol.go] and [message.go]: startup packets,
      cancel requests, message framing, error responses.
    - [Api]: the types of [api/v1alpha1/postgresroute_types.go] and the fields of
      Kubernetes objects the program reads.
    - [Registry]: [internal/registry/registry.go]: the table, the store, [Build]
      with its conflict order [less], and the resolution of one route.  The type
      class [Resolver] is the interface of the same name.
    - [Resolver]: [internal/registry/resolver.go]: [ClientResolver], an instance of
      that interface over a reader of Services and Secrets.
    - [Net]: connections, with deadlines that expire and with peers that may fall silent
      without hanging up; the metrics of [internal/proxy/metrics.go] as events of a
      trace, and the monad [gw] in which the handlers of the data plane run: a
      function from the world (client, backend, key table, random draws, trace) to
      a result and a world, or [None] for a panic or a call that does not return.
    - [Cancel]: [internal/proxy/cancel.go]: the table of issued keys.
    - [Backend]: dialling and the TLS upgrade of [internal/proxy/session.go]; the
      type class [Network] stands for the dialler, the two TLS handshakes and
      certificate verification.
    - [Relay]: [internal/proxy/relay.go]: the two directions of a session, the
      rewriting of BackendKeyData, and the forwarding of cancel requests, one
      direction after the other.
    - [Interleave]: the same relay as the code runs it, two goroutines that take
      steps in any order ([istep]), chunk by chunk, with executable schedules; a read
      from a silent peer is a step that cannot be taken until the connection is closed.
    - [Sessions]: any number of such relays side by side ([gstep]), sharing the table
      of keys and the random source, and the closing of their clients by [drain]; each
      keeps a record of what its backend had to say when it began.
    - [Session]: the rest of [internal/proxy/session.go]: [negotiate], [handle] and
      [serve], with the connection limit and the connection set.
    - [Outcomes]: the endings of [handle], their causes, and what each returns, counts
      and tells the client.
    - [Deadline]: the deadline [handle] sets before the negotiation, against a client
      whose bytes arrive over time.
    - [Server]: [internal/proxy/server.go]: [New] and its defaults, [acceptLoop],
      and the life of the process as a step relation [pstep] over any number of
      sessions, the accept loop and [drain].
    - [Lifecycle]: [Start] around them ([lstep]): binding the socket, the listening
      flag, the closing of the listener; and [serve] as a path of [pstep].
    - [Metrics]: the metric vectors of [internal/proxy/metrics.go] as state, the
      events of a trace as updates of it, and a logic for what a handler adds to its
      trace.
    - [RouteTable]: [internal/controller/routetable.go]: [rebuild],
      [notifyChanged] and the debounced loop of [Start] as a step relation [sstep]
      beside a changing cluster.
    - [Staleness]: the same loop on a clock ([kstep]), in an environment that delivers
      events, takes triggers and runs due rebuilds within a latency.
    - [RouteStatus]: [internal/controller/postgresroute_controller.go].
    - [Requeue]: its [RequeueAfter] against the debounce of the builder, on that clock.
    - [Discovery]: [internal/controller/servicediscovery_controller.go].
    - [Config]: [internal/config/config.go] and [env.go], the probes of
      [internal/health/server.go], and [newGateway], [buildServerTLS] and
      [readinessCheck] of [cmd/pg-k8s-proxy/run.go].
    - [ControlPlane]: the API server, the watch events, the cache, the builder of
      [RouteTable], its channel of announcements and the work queue of [RouteStatus]
      as one step relation [cstep].
    - [Settle]: the steps of [cstep] that the control plane takes on its own ([own]),
      and how much of them is left to do ([work]).
    - [Flags]: [BindFlags] and the flag values of [internal/config/config.go], each
      flag a view of one field of the configuration.
    - [Startup]: what is registered before [main]: the API group
      ([api/v1alpha1/groupversion_info.go]) and the metrics; and [buildScheme].
    - [Wiring]: [run] and the commands of [cmd/pg-k8s-proxy/], [SetupWithManager] of
      the three controllers, the informers of the table builder, [New] and [Start] of
      the probe server, and [internal/version/version.go].
    - [DeepCopy]: [api/v1alpha1/zz_generated.deepcopy.go] over a heap with locations;
      the immutable values of [Api] are what the objects of that heap read as.
    - [EndToEnd]: the rebuild loop of [RouteTable], the resolver and [Discovery] on one
      side and [handle] on the other.
    - [System]: the whole process as one step relation [wstep]: [cstep] beside any
      number of connections, each in the pieces of [handle] between which shared state
      is read ([mstep]), the relays among them as in [Sessions].
    - [Process]: [pstep] and [wstep] in one relation [jstep], a connection being handled
      while it holds its slot and the end of the grace period closing what is left.

    Definitions carry the names of the Go functions; a name with an underscore is a
    part of a function (a loop body, a branch) or a field made unambiguous.

    ** What the theorems show

    - Routing: [Build] does not depend on the order of its input; a name is served
      exactly by its owner (the first claimant by priority, age, namespace and
      name) if that resolves, every route gets one decision, the decisions report
      the table truthfully, and adding a route disturbs no name it does not win.
      Resolution keeps the TLS policy and the trust anchors of the route.
    - Control plane: the rebuild loop converges to the table of the current cluster
      in every interleaving and never starves a pending rebuild; the status written
      agrees with the table and settles after one patch; discovery creates, updates
      and deletes exactly the generated route of a Service, as long as the route of the
      generated name carries a label.  Builder and reconciler
      together: in every interleaving, with failing and racing patches, once all is
      quiet and no announcement was dropped, every status tells the truth.  Left to
      itself the control plane comes to rest in every fair run, and it can from every
      state it reaches: a measure that no step of its own raises, and every step that is
      not idle lowers, counts what is left to do.  On a clock, the table in force is
      never older than the debounce and three latencies of the environment, whatever
      changes and whenever, and so the one requeue of the reconciler is enough for a
      route that is new.
    - Composition: what a client gets is what the owner of its database resolved to,
      from the routes in the cluster, generated ones among them, to the bytes, once the
      control plane is at rest, and at any moment by a cluster that is recent; and in
      every interleaving of everything, nobody is connected anywhere else.
    - Sessions: from a startup packet in any of the three negotiations to the closed
      connections, a session dials only the route's address, sends it exactly the
      client's bytes with the route's database, and shows the client the backend's
      bytes with every key replaced; plaintext is refused where TLS is required; a
      backend that must speak verified TLS gets no byte of the session otherwise;
      an unknown database is refused as PostgreSQL does; however a connection ends,
      its backend is closed, its gauge balanced and its slot returned; a client that
      does not get its startup packet through before the deadline loses its slot.  Every
      connection has exactly one of ten endings, which decides what is returned, counted
      and answered.
    - Concurrency: every interleaving of the two goroutines of a relay ends as the
      sequential relay does and none runs for ever, so what is shown of [relay] holds
      of the concurrent code; and a relay is stuck only while both its peers are silent.
    - Cancellation: keys are the first free draws of the random source, lead to the
      session they were issued for and to the key its own backend sent, and are the only
      thing a cancel request can use to reach a backend; with any number of sessions in
      flight no client can cancel the query of another.
    - The wire: round trips of packets and messages, what the parameter parser
      accepts, bounds on what is read before authentication, and when a re-encoded
      startup packet is byte-identical.
    - The process: the connection limit, the connection set and the wait group hold
      in every interleaving of sessions with shutdown, for the bookkeeping alone and for
      the whole process with everything the sessions do; in every fair run shutdown
      completes, idle sessions being ended by the close that follows the grace period; a
      client that a forced shutdown has closed exchanges no more bytes; nothing is
      accepted behind a closed listener, and the probe answers 200 while the accept loop
      runs and 503 before and after [Start]; the labels of the metrics are bounded by the routes.
    - Configuration: where each setting comes from, what [Validate] accepts, and that
      what it accepts starts exactly the components of the role: the
      reconcilers only outside the role proxy and only on the leader, within the
      namespaces and the Secrets it was given.
    - Values: a deep copy reads as its original and shares nothing with it.

    Some theorems state behaviour that differs from a comment or a document
    ([missing_ca_reason], [undeclared_port_reason], [label_loss_unnoticed],
    [unlabelled_route_overwritten], [descriptor_exhaustion_fatal],
    [malformed_startup_uncounted], [env_port_unchecked], [dropped_stale],
    [draining_still_ready], and the clauses of [relay_table] and [startup_reencode] on
    repeated keys and trailing bytes).

    ** Parameters and their laws

    Code outside the repository is an argument of the definitions that use it:
    [UnicodeTables] (which characters above ASCII are printable), [Network],
    [KubeReader] and [X509] (the cached client, parsing of PEM), [KubeMeta] (the
    condition helpers of apimachinery), [ControllerRuntime] (CreateOrUpdate, owner
    references, selectors), [LabelsParser], [Files], [Pflag] (how the text of a flag
    is read), [Manager] (the errors of the controller manager and its informers),
    [SchemeLib] and [MetricsLib] (schemes and the metrics registry) and the deep copies
    of the Kubernetes types.  Where theorems rely on documented
    behaviour of such code it is a class of laws ([KubeErrorsOk], [KubeMetaOk],
    [ControllerRuntimeOk], [SchemeLibOk], [MetricsLibOk], and [Copies], the contract of a
    deep copy), instantiated at the end of the file.

    ** Fuel and bounds

    Loops that are not structural run on fuel, and theorems show that it is enough:
    the parameter parser on the length of the payload, the relay loop on the length
    of what the backend sends plus one (every message consumes a byte at least), the
    negotiation on its own four rounds.  The retry loop of [issue] runs on the list
    of coming random draws: theorems that it returns ask for more distinct keys among
    the draws than the table holds ([enough_draws]).  [c_limit] and [w_cut] say after
    how many bytes a peer stops accepting, or a client is cut off; theorems hold for
    all their values unless they say otherwise.  Integers of fixed width are Z with
    the wrap-around or the range check written out where the code has one.

    ** What is not modelled

    Logging, TCP and TLS themselves, HTTP, and how the controller manager elects a
    leader and schedules what is registered with it.  Of the deadlines, the one on the
    client's handshake expires ([Deadline], for gateways without TLS, whose handshake
    reads through a library); elsewhere a read or a write that fails may be one that a
    deadline has overtaken.  A write does not block: it is taken or it fails.  A rebuild reads the cache in one step, a reconcile is one
    step of [cstep], and a session of [pstep] is one step per call of [serve]'s
    bookkeeping ([Lifecycle] shows that a run of [serve] is a path of such steps).  In
    [wstep] a connection looks its route up and dials it in one step, which is faithful
    since the route is copied out of the table.  A dial or a handshake gives the same
    answer whether the context is done or not, so a session that shutdown overtakes
    before its dial may succeed in the model where the code fails it at once.  The peers
    of a session send a finite number of bytes; that they may take their time is in the
    interleaving, and that they may then keep silent for ever is in [Interleave] and what
    is built on it ([c_idle]).  A backend whose side has been half-closed ends its own
    stream, as PostgreSQL does.  [shutdown_completes] asks that the goroutine of every
    accepted connection has run its first statement, which enters it into the set that
    [drain] closes, by the end of the grace period.  The clock of [Staleness] covers the
    builder and the requeue of a new route; the time that announcements and patches take
    is not bounded.  Of the objects of a deep copy a slice is a whole array.

    No operation of the packages under [src/src/] that changes state is left out; what
    the map does not cover of their lines is comments, imports, blank lines, interface
    assertions, declarations of types whose fields the model carries as arguments, and
    accessors that return one field. *)

From stdpp Require Import base list list_numbers gmap strings pretty sorting.
From Stdlib Require Import ZArith Lia.
From Stdlib Require Import Init.Byte Strings.Byte.

#[global] Open Scope Z_scope.

(** ** Notations, tactics and hint databases of the development *)

Declare Scope go_scope.
Delimit Scope go_scope with go.

(** [gosimpl] is the rewrite database of the functional equations; [go] holds
    the lemmas that [go_auto] applies. *)
Create Rewrite HintDb gosimpl.
Create HintDb go.

Ltac go_auto := eauto with go lia.

(** Case analysis on the innermost scrutinee of a [match] or [if] in a
    hypothesis or in the goal, keeping the equation. *)
Ltac go_case_in H :=
  match type of H with
  | context [match ?x with _ => _ end] =>
      lazymatch x with
      | context [match _ with _ => _ end] => fail
      | _ => let E := fresh "E" in destruct x eqn:E
      end
  end.

Ltac go_case :=
  match goal with
  | |- context [match ?x with _ => _ end] =>
      lazymatch x with
      | context [match _ with _ => _ end] => fail
      | _ => let E := fresh "E" in destruct x eqn:E
      end
  end.

(** Decide the integer comparisons of the goal that [lia] settles. *)
Ltac zbool :=
  repeat match goal with
  | |- context [?a =? ?b] =>
      first [ rewrite (proj2 (Z.eqb_eq a b)) by lia
            | rewrite (proj2 (Z.eqb_neq a b)) by lia ]
  | |- context [?a <? ?b] =>
      first [ rewrite (proj2 (Z.ltb_lt a b)) by lia
            | rewrite (proj2 (Z.ltb_ge a b)) by lia ]
  | |- context [?a <=? ?b] =>
      first [ rewrite (proj2 (Z.leb_le a b)) by lia
            | rewrite (proj2 (Z.leb_gt a b)) by lia ]
  end.

(** ** Bytes and strings

    A Go [byte] is [Byte.byte]; a [[]byte] is a list of them.  A Go [string] is
    an immutable byte sequence, which is what [String.string] is. *)

Abbreviation bytes := (list byte).

#[global] Instance byte_eq_dec : EqDecision byte := Byte.byte_eq_dec.

Definition byte_to_Z (b : byte) : Z := Z.of_N (Byte.to_N b).

(** The conversion [byte(v)], which keeps the low eight bits. *)
Definition byte_of_Z (v : Z) : byte :=
  default x00 (Byte.of_N (Z.to_N (v mod 256))).

(** The conversions [[]byte(s)] and [string(b)]. *)
Definition bytes_of (s : string) : bytes := String.list_byte_of_string s.
Definition string_of (b : bytes) : string := String.string_of_list_byte b.

(** A C string holds no zero byte. *)
Definition no_nul (b : bytes) : Prop := Forall (λ x, x ≠ x00) b.

#[global] Instance no_nul_dec b : Decision (no_nul b).
Proof. unfold no_nul. apply _. Defined.

(** ** Fixed-width integers *)

(** [uint32(v)]. *)
Definition u32 (v : Z) : Z := v mod 2 ^ 32.

(** [int32(v)]: two's complement. *)
Definition i32 (v : Z) : Z := (v + 2 ^ 31) mod 2 ^ 32 - 2 ^ 31.

Definition is_u32 (v : Z) : Prop := 0 <= v < 2 ^ 32.
Definition is_i32 (v : Z) : Prop := - 2 ^ 31 <= v < 2 ^ 31.

(** [binary.BigEndian.Uint32]; every caller passes at least four bytes (Go
    would panic on fewer). *)
Definition Uint32 (b : bytes) : Z :=
  match b with
  | b0 :: b1 :: b2 :: b3 :: _ =>
      Z.lor (byte_to_Z b3)
        (Z.lor (Z.shiftl (byte_to_Z b2) 8)
           (Z.lor (Z.shiftl (byte_to_Z b1) 16) (Z.shiftl (byte_to_Z b0) 24)))
  | _ => 0
  end.

(** [binary.BigEndian.AppendUint32]. *)
Definition AppendUint32 (buf : bytes) (v : Z) : bytes :=
  buf ++ [byte_of_Z (Z.shiftr v 24); byte_of_Z (Z.shiftr v 16);
          byte_of_Z (Z.shiftr v 8); byte_of_Z v].

#[global] Arguments Uint32 : simpl never.
#[global] Arguments AppendUint32 : simpl never.
#[global] Arguments i32 : simpl never.
#[global] Arguments u32 : simpl never.
#[global] Arguments byte_of_Z : simpl never.
#[global] Arguments byte_to_Z : simpl never.

(** ** Results of fallible code *)

Inductive result (E A : Type) : Type :=
| Ok (a : A)
| Err (e : E).
Arguments Ok {E A} a.
Arguments Err {E A} e.

Notation "'let!' x := m 'in' k" :=
  (match m with Ok x => k | Err e => Err e end)
  (at level 10, x name, m at level 100, k at level 200) : go_scope.

(** ** Lemmas on bytes and integers *)

Lemma byte_to_Z_range b : 0 <= byte_to_Z b < 256.
Proof. unfold byte_to_Z. pose proof (Byte.to_N_bounded b). lia. Qed.

Lemma byte_of_Z_to_Z b : byte_of_Z (byte_to_Z b) = b.
Proof.
  unfold byte_of_Z. rewrite Z.mod_small by apply byte_to_Z_range.
  unfold byte_to_Z. by rewrite N2Z.id, Byte.of_to_N.
Qed.

Lemma byte_to_Z_of_Z v : byte_to_Z (byte_of_Z v) = v mod 256.
Proof.
  unfold byte_of_Z.
  destruct (Byte.of_N (Z.to_N (v mod 256))) as [b|] eqn:E; simpl.
  - apply Byte.to_of_N in E. unfold byte_to_Z. rewrite E.
    apply Z2N.id. apply Z.mod_pos_bound. lia.
  - apply Byte.of_N_None_iff in E.
    pose proof (Z.mod_pos_bound v 256). lia.
Qed.

#[global] Instance byte_to_Z_inj : Inj (=) (=) byte_to_Z.
Proof.
  intros a b H. rewrite <- (byte_of_Z_to_Z a), <- (byte_of_Z_to_Z b).
  by rewrite H.
Qed.

Lemma land_shiftl_low a b k :
  0 <= k → 0 <= a < 2 ^ k → Z.land a (Z.shiftl b k) = 0.
Proof.
  intros Hk Ha. apply Z.bits_inj'. intros n Hn. rewrite Z.land_spec, Z.bits_0.
  destruct (decide (n < k)).
  - rewrite Z.shiftl_spec_low by lia. apply andb_false_r.
  - rewrite <- (Z.mod_small a (2 ^ k)) by lia.
    by rewrite Z.mod_pow2_bits_high by lia.
Qed.

Lemma lor_shiftl_add a b k :
  0 <= k → 0 <= a < 2 ^ k → Z.lor a (Z.shiftl b k) = a + b * 2 ^ k.
Proof.
  intros Hk Ha. pose proof (land_shiftl_low a b k Hk Ha) as Hl.
  rewrite <- Z.lxor_lor by done. rewrite <- Z.add_nocarry_lxor by done.
  by rewrite Z.shiftl_mul_pow2.
Qed.

Lemma Uint32_arith b0 b1 b2 b3 r :
  Uint32 (b0 :: b1 :: b2 :: b3 :: r) =
  byte_to_Z b3 + byte_to_Z b2 * 2 ^ 8 + byte_to_Z b1 * 2 ^ 16
  + byte_to_Z b0 * 2 ^ 24.
Proof.
  pose proof (byte_to_Z_range b0). pose proof (byte_to_Z_range b1).
  pose proof (byte_to_Z_range b2). pose proof (byte_to_Z_range b3).
  cbv [Uint32].
  assert (∀ x y k j, 0 <= k <= j →
    Z.lor (Z.shiftl x k) (Z.shiftl y j)
    = Z.shiftl (Z.lor x (Z.shiftl y (j - k))) k) as Hsh.
  { intros x y k j ?. rewrite Z.shiftl_lor, Z.shiftl_shiftl by lia.
    do 2 f_equal. lia. }
  rewrite (Hsh _ _ 16 24) by lia. rewrite (Hsh _ _ 8 16) by lia.
  rewrite !lor_shiftl_add; simpl (_ - _); lia.
Qed.

Lemma Uint32_range b : is_u32 (Uint32 b).
Proof.
  unfold is_u32. destruct b as [|b0 [|b1 [|b2 [|b3 r]]]]; [unfold Uint32; lia..|].
  rewrite Uint32_arith.
  pose proof (byte_to_Z_range b0). pose proof (byte_to_Z_range b1).
  pose proof (byte_to_Z_range b2). pose proof (byte_to_Z_range b3). lia.
Qed.

(** Reading back what [AppendUint32] wrote gives the value modulo 2^32. *)
Lemma Uint32_AppendUint32 v r : Uint32 (AppendUint32 [] v ++ r) = u32 v.
Proof.
  unfold AppendUint32, u32. cbn [app]. rewrite Uint32_arith, !byte_to_Z_of_Z.
  rewrite !Z.shiftr_div_pow2 by lia.
  change (2 ^ 32) with 4294967296. change (2 ^ 24) with 16777216.
  change (2 ^ 16) with 65536. change (2 ^ 8) with 256.
  Z.to_euclidean_division_equations. lia.
Qed.

Lemma AppendUint32_Uint32 b0 b1 b2 b3 :
  AppendUint32 [] (Uint32 [b0; b1; b2; b3]) = [b0; b1; b2; b3].
Proof.
  unfold AppendUint32. cbn [app]. rewrite Uint32_arith.
  rewrite !Z.shiftr_div_pow2 by lia.
  pose proof (byte_to_Z_range b0). pose proof (byte_to_Z_range b1).
  pose proof (byte_to_Z_range b2). pose proof (byte_to_Z_range b3).
  change (2 ^ 24) with 16777216.
  change (2 ^ 16) with 65536. change (2 ^ 8) with 256.
  repeat f_equal; apply (inj byte_to_Z); rewrite byte_to_Z_of_Z;
    Z.to_euclidean_division_equations; lia.
Qed.

Lemma AppendUint32_app buf v : AppendUint32 buf v = buf ++ AppendUint32 [] v.
Proof. done. Qed.

Lemma length_AppendUint32 v : length (AppendUint32 [] v) = 4%nat.
Proof. done. Qed.

(** The appended bytes depend on the value modulo 2^32 only. *)
Lemma AppendUint32_u32 buf v : AppendUint32 buf (u32 v) = AppendUint32 buf v.
Proof.
  unfold AppendUint32, u32. apply f_equal.
  rewrite !Z.shiftr_div_pow2 by lia.
  change (2 ^ 32) with 4294967296. change (2 ^ 24) with 16777216.
  change (2 ^ 16) with 65536. change (2 ^ 8) with 256.
  repeat (apply (f_equal2 cons); [apply (inj byte_to_Z); rewrite !byte_to_Z_of_Z;
    Z.to_euclidean_division_equations; lia|]). done.
Qed.

Lemma i32_range v : is_i32 (i32 v).
Proof. unfold is_i32, i32. pose proof (Z.mod_pos_bound (v + 2^31) (2^32)). lia. Qed.

(** [int32(uint32(v))] is the identity on int32 values, and back. *)
Lemma i32_u32 v : is_i32 v → i32 (u32 v) = v.
Proof.
  unfold is_i32, i32, u32. change (2 ^ 32) with 4294967296.
  change (2 ^ 31) with 2147483648. intros.
  Z.to_euclidean_division_equations. lia.
Qed.

Lemma u32_i32 v : is_u32 v → u32 (i32 v) = v.
Proof.
  unfold is_u32, i32, u32. change (2 ^ 32) with 4294967296.
  change (2 ^ 31) with 2147483648. intros.
  Z.to_euclidean_division_equations. lia.
Qed.

Lemma u32_small v : is_u32 v → u32 v = v.
Proof. unfold is_u32, u32. intros. by apply Z.mod_small. Qed.

#[export] Hint Resolve byte_to_Z_range Uint32_range i32_range : go.

(** ** Lemmas on strings *)

Lemma string_of_bytes_of s : string_of (bytes_of s) = s.
Proof. apply String.string_of_list_byte_of_string. Qed.

Lemma bytes_of_string_of b : bytes_of (string_of b) = b.
Proof. apply String.list_byte_of_string_of_list_byte. Qed.

#[global] Instance bytes_of_inj : Inj (=) (=) bytes_of.
Proof.
  intros s t H. rewrite <- (string_of_bytes_of s), <- (string_of_bytes_of t).
  by rewrite H.
Qed.

Lemma bytes_of_app s t : bytes_of (s +:+ t) = bytes_of s ++ bytes_of t.
Proof.
  induction s as [|c s IH]; [done|].
  unfold bytes_of, String.list_byte_of_string in *. simpl. by f_equal.
Qed.

Lemma bytes_of_nonempty s : s ≠ "" → ∃ c t, bytes_of s = c :: t.
Proof. destruct s as [|c s]; [done|]. intros _. by eexists _, _. Qed.

Lemma no_nul_app a b : no_nul (a ++ b) ↔ no_nul a ∧ no_nul b.
Proof. apply Forall_app. Qed.

#[export] Hint Rewrite string_of_bytes_of bytes_of_string_of bytes_of_app
  @length_app @app_nil_r : gosimpl.

(** *** Lists *)

Lemma filter_agree {A} (P Q : A → Prop) `{∀ x, Decision (P x), ∀ x, Decision (Q x)} (l : list A) :
  (∀ x, x ∈ l → P x ↔ Q x) → filter P l = filter Q l.
Proof.
  induction l as [|x l IH]; intros Hpq; [done|]. rewrite !filter_cons.
  rewrite IH by (intros y Hy; apply Hpq; set_solver).
  assert (P x ↔ Q x) as Hx by (apply Hpq; set_solver).
  destruct (decide (P x)), (decide (Q x)); first [done|exfalso; tauto].
Qed.

(** *** Sums over finite sets *)

Section SumOver.
Context `{Countable A}.
Implicit Types (f g : A → nat) (X Y : gset A).

(** A sum over a set does not see elements that add nothing. *)
Lemma sum_over_grow f X Y :
  X ⊆ Y → (∀ x, x ∉ X → f x = 0%nat) → sum_list_with f (elements Y) = sum_list_with f (elements X).
Proof.
  intros Hs Hf. rewrite (union_difference_L X Y) by done.
  rewrite elements_disj_union, sum_list_with_app by set_solver.
  assert (∀ l, (∀ x, x ∈ l → x ∉ X) → sum_list_with f l = 0%nat) as Hz.
  { induction l as [|x l IH]; intros Hl; cbn; [done|]. rewrite IH, Hf by set_solver. done. }
  rewrite (Hz (elements (Y ∖ X))); [lia|]. intros x Hx%elem_of_elements. set_solver.
Qed.

(** Two functions that differ at one element. *)
Lemma sum_over_change f g X Y k :
  (∀ x, x ∉ X → f x = 0%nat) → (∀ x, x ∉ Y → g x = 0%nat) → (∀ x, x ≠ k → g x = f x) →
  (sum_list_with g (elements Y) + f k = sum_list_with f (elements X) + g k)%nat.
Proof.
  intros Hf Hg Heq. set (W := {[k]} ∪ ((X ∪ Y) ∖ {[k]})).
  assert (X ⊆ W ∧ Y ⊆ W) as [HX HY].
  { split; intros x Hx; destruct (decide (x = k)); set_solver. }
  rewrite <- (sum_over_grow g Y W), <- (sum_over_grow f X W) by done. unfold W.
  rewrite elements_union_singleton by set_solver. cbn.
  assert (∀ l, k ∉ l → sum_list_with g l = sum_list_with f l) as Hsame.
  { induction l as [|x l IH]; intros Hl; cbn; [done|]. rewrite IH, Heq by set_solver. done. }
  rewrite (Hsame (elements ((X ∪ Y) ∖ {[k]}))); [lia|]. rewrite elem_of_elements. set_solver.
Qed.
End SumOver.

(** *** Sums over finite maps *)

Section MapSum.
Context `{Countable K} {X : Type}.
Implicit Types (f : X → nat) (m : gmap K X).

Definition map_sum f m : nat := map_fold (λ _ x n, f x + n)%nat 0%nat m.

Lemma map_sum_insert_None f m k x : m !! k = None → map_sum f (<[k := x]> m) = (f x + map_sum f m)%nat.
Proof. intros Hk. unfold map_sum. rewrite map_fold_insert_L; [done|intros; lia|done]. Qed.

Lemma map_sum_lookup f m k x : m !! k = Some x → map_sum f m = (f x + map_sum f (delete k m))%nat.
Proof.
  intros Hk. rewrite <- (insert_delete_id m k x Hk) at 1. apply map_sum_insert_None, lookup_delete_eq.
Qed.

Lemma map_sum_insert f m k x : map_sum f (<[k := x]> m) = (f x + map_sum f (delete k m))%nat.
Proof. rewrite <- insert_delete_eq. apply map_sum_insert_None, lookup_delete_eq. Qed.

(** An entry that changes. *)
Lemma map_sum_update f m k x y :
  m !! k = Some x → (map_sum f (<[k := y]> m) + f x = map_sum f m + f y)%nat.
Proof. intros Hk. rewrite map_sum_insert, (map_sum_lookup f m k x Hk). lia. Qed.

(** A map with the same keys and the same sizes. *)
Lemma map_sum_agree f m m' :
  (∀ k, f <$> m !! k = f <$> m' !! k) → map_sum f m = map_sum f m'.
Proof.
  revert m'. induction m as [|k x m Hk IH] using map_ind; intros m' Hag.
  - assert (m' = ∅) as ->; [|done]. apply map_empty. intros k. specialize (Hag k).
    rewrite lookup_empty in Hag. by destruct (m' !! k).
  - pose proof (Hag k) as Hx. rewrite lookup_insert_eq in Hx. destruct (m' !! k) as [y|] eqn:Hy; [|done].
    injection Hx as Hx. rewrite map_sum_insert_None, (map_sum_lookup f m' k y), Hx by done.
    f_equal. apply IH. intros j. destruct (decide (j = k)) as [->|Hne].
    + by rewrite Hk, lookup_delete_eq.
    + rewrite lookup_delete_ne, <- Hag, lookup_insert_ne by done. done.
Qed.
End MapSum.
