(* ===== verification/GoLib.v ===== *)
(** The parts of Go's standard library the gateway calls: error values and
    [errors.Is], the formatting verbs of [fmt], [strconv]'s number parsing and
    quoting, [net]'s host/port joining, [sort.SliceStable] and [io.ReadFull]. *)

From stdpp Require Import base list gmap strings pretty sorting.
From Stdlib Require Import ZArith Lia.
From Stdlib Require Import Init.Byte.
From S2P Require Import Prelude.

(** ** Errors *)

(** The package-level error variables that the code compares against. *)
Inductive sentinel :=
| io_EOF
| io_ErrUnexpectedEOF
| net_ErrClosed
| context_Canceled
| ErrStartupTooLarge
| ErrBackendNotFound
| ErrPortNotFound
| ErrInvalidBackend
| ErrCABundle.

#[global] Instance sentinel_eq_dec : EqDecision sentinel.
Proof. solve_decision. Defined.

(** An error value made outside the program (a socket error, a TLS failure, a
    Kubernetes API status): its text, the sentinels [errors.Is] finds in it,
    whether it is a [net.Error] whose [Timeout] reports true, and the API status
    reason it carries, if any. *)
Record ext_error := ExtError {
  ext_text : string;
  ext_is : list sentinel;
  ext_timeout : bool;
  ext_reason : option string
}.

#[global] Instance ext_error_eq_dec : EqDecision ext_error.
Proof. solve_decision. Defined.

(** One piece of a [fmt] format with the argument its verb consumes. *)
Inductive piece (E : Type) :=
| Lit (s : string)   (* literal text *)
| PS (s : string)    (* %s or %v of a string *)
| PQ (s : string)    (* %q of a string *)
| PC (b : byte)      (* %q of a byte *)
| PD (z : Z)         (* %d *)
| PW (e : E).        (* %w *)
Arguments Lit {E} s.
Arguments PS {E} s.
Arguments PQ {E} s.
Arguments PC {E} b.
Arguments PD {E} z.
Arguments PW {E} e.

Inductive error :=
| ESentinel (s : sentinel)
| ENew (msg : string)                (* errors.New *)
| EExt (x : ext_error)
| Errorf (ps : list (piece error))   (* fmt.Errorf *)
| EJoin (es : list error).           (* errors.Join of the non-nil errors *)

(** [errors.Is]. *)
Fixpoint Is (e : error) (target : sentinel) : bool :=
  match e with
  | ESentinel s => bool_decide (s = target)
  | ENew _ => false
  | EExt x => bool_decide (target ∈ ext_is x)
  | Errorf ps =>
      existsb (fun p => match p with PW e' => Is e' target | _ => false end) ps
  | EJoin es => existsb (fun e' => Is e' target) es
  end.

(** [errors.Join]: nil when both are nil. *)
Definition Join (a b : option error) : option error :=
  match a, b with
  | None, None => None
  | Some x, None => Some (EJoin [x])
  | None, Some y => Some (EJoin [y])
  | Some x, Some y => Some (EJoin [x; y])
  end.

(** ** Quoting ([%q], [strconv.Quote]) *)

(** [unicode.IsPrint] on the runes outside ASCII is table data; it is the only
    part of quoting left as a parameter. *)
Class UnicodeTables := unicode_IsPrint : Z → bool.

(** [strconv.IsPrint]. *)
Definition IsPrint `{UnicodeTables} (r : Z) : bool :=
  if r <? 128 then (32 <=? r) && (r <? 127) else unicode_IsPrint r.

Definition hexdigit (d : Z) : byte :=
  byte_of_Z (if d <? 10 then 48 + d else 87 + d).

(** The low [n] hexadecimal digits of [r], most significant first. *)
Fixpoint hex (n : nat) (r : Z) : bytes :=
  match n with
  | O => []
  | S m => hex m (r / 16) ++ [hexdigit (r mod 16)]
  end.

Definition in_range (lo hi z : Z) : bool := (lo <=? z) && (z <=? hi).

(** [utf8.DecodeRuneInString] at the head of the string: the rune and its
    width, or [None] when the encoding is invalid ([RuneError] of width 1). *)
Definition DecodeRune (b : bytes) : option (Z * nat) :=
  match b with
  | [] => None
  | c0 :: t =>
      let x := byte_to_Z c0 in
      let second := match t with c :: _ => byte_to_Z c | [] => 0 end in
      let third := match t with _ :: c :: _ => byte_to_Z c | _ => 0 end in
      let fourth := match t with _ :: _ :: c :: _ => byte_to_Z c | _ => 0 end in
      let cont := in_range 128 191 in
      if x <? 128 then Some (x, 1%nat)
      else if in_range 194 223 x then
        if cont second then Some ((x - 192) * 64 + (second - 128), 2%nat) else None
      else if in_range 224 239 x then
        if in_range (if x =? 224 then 160 else 128) (if x =? 237 then 159 else 191) second
           && cont third
        then Some ((x - 224) * 4096 + (second - 128) * 64 + (third - 128), 3%nat)
        else None
      else if in_range 240 244 x then
        if in_range (if x =? 240 then 144 else 128) (if x =? 244 then 143 else 191) second
           && cont third && cont fourth
        then Some ((x - 240) * 262144 + (second - 128) * 4096 + (third - 128) * 64
                   + (fourth - 128), 4%nat)
        else None
      else None
  end.

(** [appendEscapedRune] for the rune [r] read from the bytes [src]. *)
Definition escape_rune `{UnicodeTables} (quote : Z) (r : Z) (src : bytes) : bytes :=
  let bs := byte_of_Z 92 in
  if (r =? quote) || (r =? 92) then [bs; byte_of_Z r]
  else if IsPrint r then src
  else if r =? 7 then [bs; byte_of_Z 97]
  else if r =? 8 then [bs; byte_of_Z 98]
  else if r =? 12 then [bs; byte_of_Z 102]
  else if r =? 10 then [bs; byte_of_Z 110]
  else if r =? 13 then [bs; byte_of_Z 114]
  else if r =? 9 then [bs; byte_of_Z 116]
  else if r =? 11 then [bs; byte_of_Z 118]
  else if (r <? 32) || (r =? 127) then [bs; byte_of_Z 120] ++ hex 2 r
  else if r <? 65536 then [bs; byte_of_Z 117] ++ hex 4 r
  else [bs; byte_of_Z 85] ++ hex 8 r.

(** The loop of [appendQuotedWith]; each round consumes at least one byte, so
    the length of the input is enough fuel. *)
Fixpoint quote_loop `{UnicodeTables} (fuel : nat) (quote : Z) (b : bytes) : bytes :=
  match fuel, b with
  | S n, c :: t =>
      match DecodeRune b with
      | Some (r, w) => escape_rune quote r (take w b) ++ quote_loop n quote (drop w b)
      | None => [byte_of_Z 92; byte_of_Z 120] ++ hex 2 (byte_to_Z c) ++ quote_loop n quote t
      end
  | _, _ => []
  end.

(** [strconv.Quote]. *)
Definition Quote `{UnicodeTables} (s : string) : string :=
  string_of ([byte_of_Z 34] ++ quote_loop (String.length s) 34 (bytes_of s)
             ++ [byte_of_Z 34]).

(** [%q] of a byte: a quoted rune literal; the byte is its code point. *)
Definition QuoteByte `{UnicodeTables} (b : byte) : string :=
  let r := byte_to_Z b in
  let utf8 := if r <? 128 then [b]
              else [byte_of_Z (192 + r / 64); byte_of_Z (128 + r mod 64)] in
  string_of ([byte_of_Z 39] ++ escape_rune 39 r utf8 ++ [byte_of_Z 39]).

(** ** Formatting *)

Definition render_piece `{UnicodeTables} {E} (render : E → string) (p : piece E) : string :=
  match p with
  | Lit s => s
  | PS s => s
  | PQ s => Quote s
  | PC b => QuoteByte b
  | PD z => pretty z
  | PW e => render e
  end.

Definition concat_strings (l : list string) : string := foldr String.append "" l.

(** The text of a sentinel error. *)
Definition sentinel_text (s : sentinel) : string :=
  match s with
  | io_EOF => "EOF"
  | io_ErrUnexpectedEOF => "unexpected EOF"
  | net_ErrClosed => "use of closed network connection"
  | context_Canceled => "context canceled"
  | ErrStartupTooLarge => "pgwire: startup packet exceeds maximum length"
  | ErrBackendNotFound => "backend not found"
  | ErrPortNotFound => "port not found"
  | ErrInvalidBackend => "invalid backend"
  | ErrCABundle => "CA bundle unavailable"
  end.

Definition newline : string := string_of [byte_of_Z 10].

Fixpoint join_lines (l : list string) : string :=
  match l with
  | [] => ""
  | [x] => x
  | x :: t => x +:+ newline +:+ join_lines t
  end.

(** The method [Error] of an error value. *)
Fixpoint Error `{UnicodeTables} (e : error) : string :=
  match e with
  | ESentinel s => sentinel_text s
  | ENew m => m
  | EExt x => ext_text x
  | Errorf ps => concat_strings (map (render_piece Error) ps)
  | EJoin es => join_lines (map Error es)
  end.

(** [fmt.Sprintf]. *)
Definition Sprintf `{UnicodeTables} (ps : list (piece error)) : string :=
  concat_strings (map (render_piece Error) ps).

(** ** Numbers ([strconv]) *)

Definition digit_value (c : byte) : option Z :=
  let z := byte_to_Z c in
  if (48 <=? z) && (z <=? 57) then Some (z - 48) else None.

Fixpoint digits_value (acc : Z) (b : bytes) : option Z :=
  match b with
  | [] => Some acc
  | c :: t => match digit_value c with
              | Some d => digits_value (acc * 10 + d) t
              | None => None
              end
  end.

(** [strconv.ParseUint(s, 10, bits)]; [None] stands for its two errors. *)
Definition ParseUint (bits : Z) (s : string) : option Z :=
  match bytes_of s with
  | [] => None
  | b => match digits_value 0 b with
         | Some v => if v <? 2 ^ bits then Some v else None
         | None => None
         end
  end.

(** [strconv.ParseInt(s, 10, bits)]. *)
Definition ParseInt (bits : Z) (s : string) : option Z :=
  let unsigned (b : bytes) : option Z :=
    match b with [] => None | _ => digits_value 0 b end in
  let bound := 2 ^ (bits - 1) in
  match bytes_of s with
  | [] => None
  | c :: t =>
      if bool_decide (c = x2b)
      then match unsigned t with
           | Some v => if v <? bound then Some v else None
           | None => None
           end
      else if bool_decide (c = x2d)
      then match unsigned t with
           | Some v => if v <=? bound then Some (- v) else None
           | None => None
           end
      else match unsigned (c :: t) with
           | Some v => if v <? bound then Some v else None
           | None => None
           end
  end.

(** ** Host and port ([net]) *)

(** [bytealg.IndexByte] and [LastIndexByte]. *)
Fixpoint IndexByte (b : bytes) (c : byte) : option nat :=
  match b with
  | [] => None
  | x :: t => if bool_decide (x = c) then Some 0%nat else S <$> IndexByte t c
  end.

Fixpoint LastIndexByte (b : bytes) (c : byte) : option nat :=
  match b with
  | [] => None
  | x :: t => match LastIndexByte t c with
              | Some i => Some (S i)
              | None => if bool_decide (x = c) then Some 0%nat else None
              end
  end.

Definition contains (b : bytes) (c : byte) : bool :=
  match IndexByte b c with Some _ => true | None => false end.

(** [net.JoinHostPort]: an address that holds a colon goes in brackets. *)
Definition JoinHostPort (host port : string) : string :=
  if contains (bytes_of host) x3a
  then "[" +:+ host +:+ "]:" +:+ port
  else host +:+ ":" +:+ port.

(** [net.SplitHostPort]; [None] stands for its address errors. *)
Definition SplitHostPort (hostport : string) : option (string * string) :=
  let b := bytes_of hostport in
  match LastIndexByte b x3a with
  | None => None
  | Some i =>
      let port := string_of (drop (S i) b) in
      match b with
      | x5b :: _ =>
          match IndexByte b x5d with
          | None => None
          | Some e =>
              if bool_decide (S e = i) then
                if contains (drop 1 b) x5b then None
                else if contains (drop (S e) b) x5d then None
                else Some (string_of (take (e - 1) (drop 1 b)), port)
              else None
          end
      | _ =>
          if contains (take i b) x3a then None
          else if contains b x5b then None
          else if contains b x5d then None
          else Some (string_of (take i b), port)
      end
  end.

(** ** Sorting ([sort.SliceStable], [sort.Strings])

    A stable sort by a strict weak order has one result; insertion computes it. *)

Section Sort.
Context {A : Type}.

Fixpoint insert_stable (less : A → A → bool) (x : A) (l : list A) : list A :=
  match l with
  | [] => [x]
  | y :: t => if less y x then y :: insert_stable less x t else x :: y :: t
  end.

Definition SliceStable (less : A → A → bool) (l : list A) : list A :=
  foldr (insert_stable less) [] l.
End Sort.

Definition Strings (l : list string) : list string := SliceStable String.ltb l.

(** ** Byte streams ([io.Reader]) *)

(** What a reader will deliver: the remaining bytes, then an error for ever. *)
Record stream := Stream { st_data : bytes; st_err : error }.

(** [io.ReadFull] into a buffer of [n] bytes: the bytes stored in the buffer,
    the error, and the reader afterwards. *)
Definition ReadFull (n : nat) (s : stream) : bytes * option error * stream :=
  if (n <=? length (st_data s))%nat
  then (take n (st_data s), None, Stream (drop n (st_data s)) (st_err s))
  else
    let err :=
      match st_data s, st_err s with
      | _ :: _, ESentinel io_EOF => ESentinel io_ErrUnexpectedEOF
      | _, e => e
      end in
    (st_data s, Some err, Stream [] (st_err s)).

(** [io.Copy]'s reading side: everything up to the end of the stream; [io.EOF]
    is the normal end and is not an error. *)
Definition ReadAll (s : stream) : bytes * option error * stream :=
  (st_data s,
   match st_err s with ESentinel io_EOF => None | e => Some e end,
   Stream [] (st_err s)).

(** ** Lemmas *)

Lemma ReadFull_app a r e n :
  length a = n → ReadFull n (Stream (a ++ r) e) = (a, None, Stream r e).
Proof.
  intros <-. unfold ReadFull. simpl.
  replace (length a <=? length (a ++ r))%nat with true
    by (symmetry; apply Nat.leb_le; rewrite length_app; lia).
  by rewrite take_app_length, drop_app_length.
Qed.

Lemma ReadFull_ok n s got s' :
  ReadFull n s = (got, None, s') →
  st_data s = got ++ st_data s' ∧ length got = n ∧ st_err s' = st_err s.
Proof.
  unfold ReadFull. case_match eqn:Hn; [|done]. intros [= <- <-]; simpl.
  apply Nat.leb_le in Hn. rewrite take_drop, length_take. split_and!; [done|lia|done].
Qed.

Lemma ReadFull_err n s got e s' :
  ReadFull n s = (got, Some e, s') →
  (length (st_data s) < n)%nat ∧ got = st_data s ∧ st_data s' = [] ∧
  st_err s' = st_err s.
Proof.
  unfold ReadFull. case_match eqn:Hn; [done|]. intros [= <- <- <-]; simpl.
  apply Nat.leb_gt in Hn. done.
Qed.

(** *** Stable sorting *)

Section SortLemmas.
Context {A : Type} (less : A → A → bool).
Context (less_asym : ∀ x y, less x y = true → less y x = false).
Context (less_negtrans : ∀ x y z, less y x = false → less z y = false → less z x = false).

Abbreviation before := (λ x y, less y x = false).

Lemma insert_stable_perm x l : insert_stable less x l ≡ₚ x :: l.
Proof.
  induction l as [|y l IH]; simpl; [done|].
  case_match; [|done]. rewrite IH. apply Permutation_swap.
Qed.

Lemma SliceStable_perm l : SliceStable less l ≡ₚ l.
Proof.
  induction l as [|x l IH]; simpl; [done|]. by rewrite insert_stable_perm, IH.
Qed.

Lemma insert_stable_sorted x l :
  StronglySorted before l → StronglySorted before (insert_stable less x l).
Proof.
  induction 1 as [|y l Hl IH Hy]; simpl; [by repeat constructor|].
  destruct (less y x) eqn:E.
  - constructor; [done|]. rewrite insert_stable_perm. constructor; auto.
  - constructor; [by constructor|]. constructor; [done|].
    eapply Forall_impl; [exact Hy|]. simpl. intros z Hz. eauto.
Qed.

Lemma SliceStable_sorted l : StronglySorted before (SliceStable less l).
Proof. induction l; simpl; [constructor|by apply insert_stable_sorted]. Qed.

(** The sorted list does not depend on the order of the input when no two
    distinct elements are equivalent. *)
Lemma SliceStable_unique l1 l2 :
  l1 ≡ₚ l2 →
  (∀ x y, x ∈ l1 → y ∈ l1 → less x y = false → less y x = false → x = y) →
  SliceStable less l1 = SliceStable less l2.
Proof.
  intros Hp Heq. eapply (StronglySorted_unique_strong before).
  - intros x y Hx Hy Hxy Hyx.
    rewrite SliceStable_perm in Hx. rewrite SliceStable_perm, <- Hp in Hy. auto.
  - apply SliceStable_sorted.
  - apply SliceStable_sorted.
  - by rewrite !SliceStable_perm.
Qed.
End SortLemmas.

(** *** Searching bytes *)

Lemma IndexByte_hit a c r : c ∉ a → IndexByte (a ++ c :: r) c = Some (length a).
Proof.
  induction a as [|x a IH]; intros Hc; simpl.
  - by rewrite bool_decide_eq_true_2.
  - apply not_elem_of_cons in Hc as [Hx Ha].
    rewrite bool_decide_eq_false_2 by done. by rewrite IH.
Qed.

Lemma IndexByte_Some b c i :
  IndexByte b c = Some i → b = take i b ++ c :: drop (S i) b ∧ c ∉ take i b.
Proof.
  revert i. induction b as [|x b IH]; intros i; simpl; [done|].
  case_bool_decide as Hx.
  - intros [= <-]. simpl. subst. by split; [|apply not_elem_of_nil].
  - destruct (IndexByte b c) as [j|]; simpl; [|done]. intros [= <-].
    destruct (IH j eq_refl) as [Hb Hn]. simpl. split.
    + by f_equal.
    + by apply not_elem_of_cons.
Qed.

Lemma IndexByte_None b c : IndexByte b c = None ↔ c ∉ b.
Proof.
  induction b as [|x b IH]; simpl.
  - split; [intros _; apply not_elem_of_nil|done].
  - rewrite not_elem_of_cons. case_bool_decide as Hx.
    + split; [done|]. naive_solver.
    + destruct (IndexByte b c); simpl; naive_solver.
Qed.

Lemma contains_spec b c : contains b c = bool_decide (c ∈ b).
Proof.
  unfold contains. destruct (IndexByte b c) as [i|] eqn:E; symmetry.
  - apply bool_decide_eq_true_2. apply IndexByte_Some in E as [-> _].
    rewrite elem_of_app, elem_of_cons. auto.
  - apply bool_decide_eq_false_2. by apply IndexByte_None.
Qed.

Lemma no_nul_not_elem b : no_nul b ↔ x00 ∉ b.
Proof.
  unfold no_nul. rewrite Forall_forall. naive_solver.
Qed.

Lemma LastIndexByte_None b c : LastIndexByte b c = None ↔ c ∉ b.
Proof.
  induction b as [|x b IH]; simpl.
  - split; [intros _; apply not_elem_of_nil|done].
  - rewrite not_elem_of_cons, <- IH. destruct (LastIndexByte b c); simpl.
    + naive_solver.
    + case_bool_decide; clear IH; naive_solver.
Qed.

Lemma LastIndexByte_hit a c r : c ∉ r → LastIndexByte (a ++ c :: r) c = Some (length a).
Proof.
  intros Hr. induction a as [|x a IH]; simpl.
  - apply LastIndexByte_None in Hr. rewrite Hr. by rewrite bool_decide_eq_true_2.
  - by rewrite IH.
Qed.

(** *** Quoted text holds no zero byte *)

Lemma byte_of_Z_nonzero v : v mod 256 ≠ 0 → byte_of_Z v ≠ x00.
Proof.
  intros Hv H. apply (f_equal byte_to_Z) in H. rewrite byte_to_Z_of_Z in H.
  change (byte_to_Z x00) with 0 in H. done.
Qed.

Lemma hexdigit_nonzero d : 0 <= d < 16 → hexdigit d ≠ x00.
Proof.
  intros Hd. apply byte_of_Z_nonzero. case_match; rewrite Z.mod_small; lia.
Qed.

Lemma hex_no_nul n r : no_nul (hex n r).
Proof.
  revert r. induction n as [|n IH]; intros r; simpl; [constructor|].
  apply no_nul_app. split; [apply IH|]. repeat constructor.
  apply hexdigit_nonzero. apply Z.mod_pos_bound. lia.
Qed.

Lemma byte_nonzero_Z b : 0 < byte_to_Z b → b ≠ x00.
Proof. intros Hb ->. by vm_compute in Hb. Qed.

Lemma in_range_true lo hi z : in_range lo hi z = true → lo <= z <= hi.
Proof. unfold in_range. rewrite andb_true_iff, Z.leb_le, Z.leb_le. lia. Qed.

(** The bytes of a decoded rune: no zero byte, unless the rune is zero. *)
Lemma DecodeRune_no_nul b r w :
  DecodeRune b = Some (r, w) → r ≠ 0 → no_nul (take w b).
Proof.
  destruct b as [|c0 t]; simpl; [done|].
  pose proof (byte_to_Z_range c0).
  intros H0 Hr. repeat (case_match; try done); simplify_eq;
    repeat match goal with
    | E : (_ && _) = true |- _ => apply andb_true_iff in E as [? ?]
    | E : in_range _ _ _ = true |- _ => apply in_range_true in E
    | E : (_ =? _) = true |- _ => apply Z.eqb_eq in E
    | E : (_ =? _) = false |- _ => apply Z.eqb_neq in E
    | E : (_ <? _) = true |- _ => apply Z.ltb_lt in E
    | E : (_ <? _) = false |- _ => apply Z.ltb_ge in E
    end; simpl; try lia;
    repeat (apply Forall_cons_2; [apply byte_nonzero_Z; lia|]); apply Forall_nil_2.
Qed.

Lemma DecodeRune_nonneg b r w : DecodeRune b = Some (r, w) → 0 <= r.
Proof.
  destruct b as [|c0 t]; simpl; [done|]. pose proof (byte_to_Z_range c0).
  intros H0. repeat (case_match; try done); simplify_eq;
    repeat match goal with
    | E : (_ && _) = true |- _ => apply andb_true_iff in E as [? ?]
    | E : in_range _ _ _ = true |- _ => apply in_range_true in E
    | E : (_ =? _) = true |- _ => apply Z.eqb_eq in E
    | E : (_ =? _) = false |- _ => apply Z.eqb_neq in E
    end; try lia.
Qed.

Section QuoteLemmas.
Context `{UnicodeTables}.

Lemma escape_rune_no_nul q r src :
  (q = 34 ∨ q = 39) → 0 <= r → (r ≠ 0 → no_nul src) → no_nul (escape_rune q r src).
Proof.
  intros Hq Hr Hsrc. unfold escape_rune.
  assert (∀ v, 0 < v < 256 → byte_of_Z v ≠ x00) as Hb.
  { intros v ?. apply byte_of_Z_nonzero. rewrite Z.mod_small; lia. }
  destruct ((r =? q) || (r =? 92)) eqn:E0.
  { repeat constructor; apply Hb; lia. }
  destruct (IsPrint r) eqn:Ep.
  { apply Hsrc. intros ->. by vm_compute in Ep. }
  repeat case_match; repeat (apply Forall_cons_2; [apply Hb; lia|]);
    first [apply Forall_nil_2 | apply hex_no_nul].
Qed.

Lemma quote_loop_no_nul fuel b : no_nul (quote_loop fuel 34 b).
Proof.
  revert b. induction fuel as [|n IH]; intros b; [destruct b; constructor|].
  destruct b as [|c t]; [constructor|]. cbn [quote_loop].
  destruct (DecodeRune (c :: t)) as [[r w]|] eqn:E.
  - apply no_nul_app. split; [|apply IH]. apply escape_rune_no_nul; [by left| |].
    + by eapply DecodeRune_nonneg.
    + by apply DecodeRune_no_nul.
  - rewrite !no_nul_app. split_and!; [|apply hex_no_nul|apply IH].
    by repeat constructor.
Qed.

Lemma Quote_no_nul s : no_nul (bytes_of (Quote s)).
Proof.
  unfold Quote. rewrite bytes_of_string_of, !no_nul_app.
  split_and!; [by repeat constructor|apply quote_loop_no_nul|by repeat constructor].
Qed.
End QuoteLemmas.

#[export] Hint Resolve Quote_no_nul : go.
