(* ===== verification/Wire.v ===== *)
(** Package [pgwire]: startup packets, cancellation keys and the framing of
    backend messages ([internal/pgwire/protocol.go], [message.go]). *)

From stdpp Require Import base list gmap strings pretty.
From Stdlib Require Import ZArith Lia.
From Stdlib Require Import Init.Byte.
From S2P Require Import Prelude GoLib.

Local Open Scope go_scope.

(** ** Data *)

Definition ProtocolVersion3 : Z := 196608.
Definition CancelRequestCode : Z := 80877102.
Definition SSLRequestCode : Z := 80877103.
Definition GSSEncRequestCode : Z := 80877104.

Definition MsgBackendKeyData : byte := x4b.  (* 'K' *)
Definition MsgReadyForQuery : byte := x5a.   (* 'Z' *)
Definition MsgErrorResponse : byte := x45.   (* 'E' *)

Definition MaxStartupPacketLength : Z := 10000.
Definition minStartupPacketLength : Z := 8.
Definition MaxMessageLength : Z := Z.shiftl 1 20.

Record Parameter_t := MkParameter { Key : string; Value : string }.

Record CancelRequest := MkCancelRequest { ProcessID : Z; SecretKey : Z }.

Record StartupPacket := MkStartupPacket {
  Code : Z;
  Parameters : list Parameter_t;
  Cancel : CancelRequest
}.

#[global] Instance Parameter_eq_dec : EqDecision Parameter_t.
Proof. solve_decision. Defined.
#[global] Instance CancelRequest_eq_dec : EqDecision CancelRequest.
Proof. solve_decision. Defined.
#[global] Instance CancelRequest_countable : Countable CancelRequest.
Proof.
  refine (inj_countable' (λ k, (ProcessID k, SecretKey k))
                         (λ p, MkCancelRequest p.1 p.2) _).
  by intros [].
Defined.

Record Message := MkMessage { Type_ : byte; Body : bytes }.

(** ** Startup packets *)

Definition IsSSLRequest (p : StartupPacket) : bool := Code p =? SSLRequestCode.
Definition IsGSSEncRequest (p : StartupPacket) : bool := Code p =? GSSEncRequestCode.
Definition IsCancelRequest (p : StartupPacket) : bool := Code p =? CancelRequestCode.
Definition MajorVersion (p : StartupPacket) : Z := Z.shiftr (Code p) 16.

(** The loop of the method [Parameter]. *)
Fixpoint find_parameter (params : list Parameter_t) (key : string) : option string :=
  match params with
  | [] => None
  | param :: rest =>
      if bool_decide (Key param = key) then Some (Value param)
      else find_parameter rest key
  end.

Definition get_Parameter (p : StartupPacket) (key : string) : option string :=
  find_parameter (Parameters p) key.

(** The loop of [SetParameter]: the first match is overwritten in place, and
    without a match the pair is appended. *)
Fixpoint set_parameter (params : list Parameter_t) (key value : string) : list Parameter_t :=
  match params with
  | [] => [MkParameter key value]
  | param :: rest =>
      if bool_decide (Key param = key) then MkParameter (Key param) value :: rest
      else param :: set_parameter rest key value
  end.

Definition SetParameter (p : StartupPacket) (key value : string) : StartupPacket :=
  MkStartupPacket (Code p) (set_parameter (Parameters p) key value) (Cancel p).

Definition readCString (b : bytes) : result error (string * bytes) :=
  match IndexByte b x00 with
  | None => Err (ESentinel io_ErrUnexpectedEOF)
  | Some e => Ok (string_of (take e b), drop (e + 1) b)
  end.

(** [parseParameters]: every round consumes a key's terminator at least, so the
    length of the payload is enough fuel ([parse_fuel_enough] below). *)
Fixpoint parse_loop (fuel : nat) (params : list Parameter_t) (payload : bytes)
  : result error (list Parameter_t) :=
  match payload with
  | [] => Ok params
  | c :: _ =>
      if bool_decide (c = x00) then Ok params
      else match fuel with
           | O => Err (ENew "parse_loop: out of fuel")
           | S n =>
               match readCString payload with
               | Err e => Err (Errorf [Lit "pgwire: reading parameter name: "; PW e])
               | Ok (key, rest) =>
                   match readCString rest with
                   | Err e => Err (Errorf [Lit "pgwire: reading value of parameter ";
                                           PQ key; Lit ": "; PW e])
                   | Ok (value, rest') =>
                       parse_loop n (params ++ [MkParameter key value]) rest'
                   end
               end
           end
  end.

Definition parseParameters (payload : bytes) : result error (list Parameter_t) :=
  parse_loop (length payload) [] payload.

Definition decode_key (b : bytes) : CancelRequest :=
  MkCancelRequest (i32 (Uint32 (take 4 b))) (i32 (Uint32 (drop 4 b))).

Definition zero_key : CancelRequest := MkCancelRequest 0 0.

(** What [ReadStartupPacket] does with the packet body once it is read. *)
Definition decode_body (body : bytes) : result error StartupPacket :=
  let code := i32 (Uint32 (take 4 body)) in
  let packet := MkStartupPacket code [] zero_key in
  let payload := drop 4 body in
  let len := Z.of_nat (length payload) in
  if (code =? SSLRequestCode) || (code =? GSSEncRequestCode) then
    if negb (len =? 0)
    then Err (Errorf [Lit "pgwire: negotiation packet carries "; PD len; Lit " trailing bytes"])
    else Ok packet
  else if code =? CancelRequestCode then
    if negb (len =? 8)
    then Err (Errorf [Lit "pgwire: cancel request payload is "; PD len; Lit " bytes, want 8"])
    else Ok (MkStartupPacket code [] (decode_key payload))
  else if negb (MajorVersion packet =? 3) then
    Err (Errorf [Lit "pgwire: unsupported protocol version "; PD (MajorVersion packet);
                 Lit "."; PD (Z.land code 65535)])
  else
    let! params := parseParameters payload in
    Ok (MkStartupPacket code params zero_key).

Definition ReadStartupPacket (r : stream) : result error StartupPacket * stream :=
  match ReadFull 4 r with
  | (_, Some err, r1) => (Err err, r1)
  | (header, None, r1) =>
      let length := Uint32 header in
      if length <? minStartupPacketLength then
        (Err (Errorf [Lit "pgwire: startup packet length "; PD length;
                      Lit " is below the minimum of "; PD minStartupPacketLength]), r1)
      else if MaxStartupPacketLength <? length then
        (Err (Errorf [PW (ESentinel ErrStartupTooLarge); Lit ": "; PD length; Lit " > ";
                      PD MaxStartupPacketLength]), r1)
      else
        match ReadFull (Z.to_nat (length - 4)) r1 with
        | (_, Some err, r2) =>
            (Err (Errorf [Lit "pgwire: reading startup packet body: "; PW err]), r2)
        | (body, None, r2) => (decode_body body, r2)
        end
  end.

(** The size computed by the first loop of [Encode]. *)
Fixpoint params_size (params : list Parameter_t) : Z :=
  match params with
  | [] => 0
  | param :: rest =>
      Z.of_nat (String.length (Key param)) + 1
      + Z.of_nat (String.length (Value param)) + 1 + params_size rest
  end.

(** The second loop of [Encode]. *)
Fixpoint append_params (buf : bytes) (params : list Parameter_t) : bytes :=
  match params with
  | [] => buf
  | param :: rest =>
      append_params
        ((((buf ++ bytes_of (Key param)) ++ [x00]) ++ bytes_of (Value param)) ++ [x00]) rest
  end.

Definition Encode (p : StartupPacket) : bytes :=
  let size := 4 + 4 + 1 + params_size (Parameters p) in
  let buf := AppendUint32 [] (u32 size) in
  let buf := AppendUint32 buf (u32 (Code p)) in
  append_params buf (Parameters p) ++ [x00].

Definition EncodeCancelRequest (key : CancelRequest) : bytes :=
  let buf := AppendUint32 [] 16 in
  let buf := AppendUint32 buf (u32 CancelRequestCode) in
  let buf := AppendUint32 buf (u32 (ProcessID key)) in
  AppendUint32 buf (u32 (SecretKey key)).

Definition EncodeBackendKeyData (key : CancelRequest) : bytes :=
  let buf := [MsgBackendKeyData] in
  let buf := AppendUint32 buf 12 in
  let buf := AppendUint32 buf (u32 (ProcessID key)) in
  AppendUint32 buf (u32 (SecretKey key)).

Definition DecodeBackendKeyData (body : bytes) : result error CancelRequest :=
  if negb (Z.of_nat (length body) =? 8)
  then Err (Errorf [Lit "pgwire: BackendKeyData body is "; PD (Z.of_nat (length body));
                    Lit " bytes, want 8"])
  else Ok (decode_key body).

(** ** Framed messages *)

Definition Message_Encode (m : Message) : bytes :=
  let buf := [Type_ m] in
  let buf := AppendUint32 buf (u32 (Z.of_nat (length (Body m)) + 4)) in
  buf ++ Body m.

(** [mr_buf] is the backing array of [MessageReader.buf]; its length is the
    slice's capacity.  [Body] of a returned message is a prefix of it, read out
    here at the time [Next] returns. *)
Record MessageReader := MkMessageReader { mr_r : stream; mr_buf : bytes }.

Definition NewMessageReader (r : stream) : MessageReader := MkMessageReader r [].

(** [MessageReader.Next]. *)
Definition Next (mr : MessageReader) : result error Message * MessageReader :=
  match ReadFull 5 (mr_r mr) with
  | (_, Some err, r1) => (Err err, MkMessageReader r1 (mr_buf mr))
  | (header, None, r1) =>
      let type := default x00 (head header) in
      let len := Uint32 (drop 1 header) in
      if len <? 4 then
        (Err (Errorf [Lit "pgwire: message "; PC type; Lit " declares length "; PD len;
                      Lit ", want at least 4"]), MkMessageReader r1 (mr_buf mr))
      else if MaxMessageLength <? len then
        (Err (Errorf [Lit "pgwire: message "; PC type; Lit " length "; PD len;
                      Lit " exceeds the "; PD MaxMessageLength; Lit " byte limit"]),
         MkMessageReader r1 (mr_buf mr))
      else
        let bodyLen := Z.to_nat (len - 4) in
        let buf := if (length (mr_buf mr) <? bodyLen)%nat
                   then replicate bodyLen x00 else mr_buf mr in
        match ReadFull bodyLen r1 with
        | (got, err, r2) =>
            let buf' := got ++ drop (length got) buf in
            match err with
            | Some e => (Err (Errorf [Lit "pgwire: reading body of message "; PC type;
                                      Lit ": "; PW e]), MkMessageReader r2 buf')
            | None => (Ok (MkMessage type (take bodyLen buf')), MkMessageReader r2 buf')
            end
        end
  end.

(** ** Error responses *)

Definition SQLStateUndefinedDatabase : string := "3D000".
Definition SQLStateConnectionFailure : string := "08006".
Definition SQLStateTooManyConnections : string := "53300".
Definition SQLStateProtocolViolation : string := "08P01".

(** The loop over the fields. *)
Fixpoint append_fields (body : bytes) (fields : list (byte * string)) : bytes :=
  match fields with
  | [] => body
  | (code, value) :: rest => append_fields (((body ++ [code]) ++ bytes_of value) ++ [x00]) rest
  end.

Definition error_fields (sqlState message detail : string) : list (byte * string) :=
  [(x53, "FATAL"); (x56, "FATAL"); (x43, sqlState); (x4d, message)]
  ++ (if bool_decide (detail = "") then [] else [(x44, detail)]).

Definition EncodeErrorResponse (sqlState message detail : string) : bytes :=
  let body := append_fields [] (error_fields sqlState message detail) ++ [x00] in
  Message_Encode (MkMessage MsgErrorResponse body).

(** ** Startup packets: parameters *)

(** The bytes of a parameter list, without the terminator. *)
Definition params_bytes (ps : list Parameter_t) : bytes :=
  concat (map (λ p, bytes_of (Key p) ++ x00 :: bytes_of (Value p) ++ [x00]) ps).

(** A parameter that can be encoded: a nonempty key, and no zero byte. *)
Definition wf_param (p : Parameter_t) : Prop :=
  Key p ≠ "" ∧ no_nul (bytes_of (Key p)) ∧ no_nul (bytes_of (Value p)).

#[global] Instance wf_param_dec p : Decision (wf_param p).
Proof. unfold wf_param. apply _. Defined.

Lemma append_params_bytes ps buf : append_params buf ps = buf ++ params_bytes ps.
Proof.
  revert buf. induction ps as [|p ps IH]; intros buf; simpl; [by rewrite app_nil_r|].
  rewrite IH. unfold params_bytes. simpl. rewrite <- !app_assoc. simpl.
  by rewrite <- !app_assoc.
Qed.

Lemma length_bytes_of s : length (bytes_of s) = String.length s.
Proof. induction s as [|c s IH]; simpl; [done|]. f_equal. exact IH. Qed.

Lemma params_size_length ps : params_size ps = Z.of_nat (length (params_bytes ps)).
Proof.
  induction ps as [|p ps IH]; simpl; [done|]. unfold params_bytes in *. simpl.
  rewrite IH, !length_app. simpl. rewrite !length_app, !length_bytes_of. simpl. lia.
Qed.

Lemma readCString_app a r : no_nul a → readCString (a ++ x00 :: r) = Ok (string_of a, r).
Proof.
  intros Ha. unfold readCString.
  rewrite IndexByte_hit by by apply no_nul_not_elem.
  rewrite take_app_length. do 2 f_equal.
  replace (length a + 1)%nat with (length (a ++ [x00])) by (rewrite length_app; simpl; lia).
  rewrite (app_assoc a [x00] r : a ++ x00 :: r = _). by rewrite drop_app_length.
Qed.

Lemma readCString_ok b s r :
  readCString b = Ok (s, r) → b = bytes_of s ++ x00 :: r ∧ no_nul (bytes_of s).
Proof.
  unfold readCString. destruct (IndexByte b x00) as [i|] eqn:E; [|done].
  intros [= <- <-]. rewrite bytes_of_string_of.
  apply IndexByte_Some in E as [Hb Hn]. replace (i + 1)%nat with (S i) by lia.
  split; [done|]. by apply no_nul_not_elem.
Qed.

(** What the loop returns on well-formed parameters followed by a terminator
    (and any padding) or by nothing. *)
Lemma parse_loop_complete ps tail fuel acc :
  Forall wf_param ps → (tail = [] ∨ head tail = Some x00) →
  (length (params_bytes ps) <= fuel)%nat →
  parse_loop fuel acc (params_bytes ps ++ tail) = Ok (acc ++ ps).
Proof.
  intros Hps Htail. revert fuel acc. induction Hps as [|p ps Hp Hps IH];
    intros fuel acc Hf.
  - rewrite app_nil_r. destruct Htail as [->|Ht]; [by destruct fuel|].
    destruct tail as [|c t]; [done|]. simplify_eq/=. by destruct fuel.
  - destruct Hp as (Hk & Hkn & Hvn).
    destruct (bytes_of_nonempty _ Hk) as (c & t & Hct).
    assert (params_bytes (p :: ps) ++ tail
            = bytes_of (Key p) ++ x00 :: bytes_of (Value p) ++ x00 ::
              (params_bytes ps ++ tail)) as Heq.
    { unfold params_bytes. simpl. rewrite <- !app_assoc. simpl.
      by rewrite <- !app_assoc. }
    assert (length (params_bytes (p :: ps))
            = length (bytes_of (Key p)) + length (bytes_of (Value p)) + 2
              + length (params_bytes ps))%nat as Hlen.
    { unfold params_bytes. simpl. rewrite !length_app. simpl.
      rewrite !length_app. simpl. lia. }
    rewrite Heq. destruct fuel as [|fuel]; [rewrite Hct in *; simpl in *; lia|].
    assert (c ≠ x00) by (rewrite Hct in Hkn; by inversion Hkn).
    rewrite Hct at 1. simpl. rewrite bool_decide_eq_false_2 by done.
    change (c :: t ++ ?x) with ((c :: t) ++ x). rewrite <- Hct.
    rewrite readCString_app by done. rewrite readCString_app by done.
    rewrite IH by lia. rewrite !string_of_bytes_of, <- app_assoc. by destruct p.
Qed.

(** Everything the loop accepts has that shape. *)
Lemma parse_loop_sound fuel acc payload ps :
  parse_loop fuel acc payload = Ok ps →
  ∃ qs tail, ps = acc ++ qs ∧ Forall wf_param qs ∧
    payload = params_bytes qs ++ tail ∧ (tail = [] ∨ head tail = Some x00).
Proof.
  revert acc payload. induction fuel as [|fuel IH]; intros acc payload H.
  - destruct payload as [|c t]; simpl in H.
    + exists [], []. simplify_eq. by rewrite app_nil_r; auto.
    + case_bool_decide; [|done]. exists [], (c :: t). simplify_eq.
      rewrite app_nil_r. simpl. auto.
  - destruct payload as [|c t] eqn:Hp; simpl in H.
    + exists [], []. simplify_eq. by rewrite app_nil_r; auto.
    + case_bool_decide as Hc.
      { exists [], (c :: t). simplify_eq. rewrite app_nil_r. simpl. auto. }
      destruct (readCString (c :: t)) as [[k r]|e] eqn:Ek; [|done].
      destruct (readCString r) as [[v r']|e] eqn:Ev; [|done].
      apply readCString_ok in Ek as [Hk Hkn]. apply readCString_ok in Ev as [Hv Hvn].
      apply IH in H as (qs & tail & -> & Hqs & Hr' & Ht).
      exists (MkParameter k v :: qs), tail. split_and!.
      * by rewrite <- app_assoc.
      * constructor; [|done]. split_and!; [|done|done].
        simpl. intros ->. by simplify_eq/=.
      * rewrite Hk, Hv, Hr'. unfold params_bytes. simpl.
        rewrite <- !app_assoc. simpl. by rewrite <- !app_assoc.
      * done.
Qed.

(** ** Startup packets: the whole packet *)

(** A version 3 startup packet on the wire, with whatever follows its
    parameters in the body. *)
Definition packet_bytes (p : StartupPacket) (tail : bytes) : bytes :=
  AppendUint32 [] (8 + Z.of_nat (length (params_bytes (Parameters p)) + length tail))
  ++ AppendUint32 [] (Code p) ++ params_bytes (Parameters p) ++ tail.

(** A decoded protocol 3.x startup packet. *)
Definition wf_startup (p : StartupPacket) : Prop :=
  is_i32 (Code p) ∧ MajorVersion p = 3 ∧ Forall wf_param (Parameters p) ∧
  Cancel p = zero_key.

(** The list of parameters ends with an empty key or with the packet. *)
Definition ends_params (tail : bytes) : Prop := tail = [] ∨ head tail = Some x00.

Lemma Encode_packet_bytes p : Encode p = packet_bytes p [x00].
Proof.
  unfold Encode, packet_bytes. rewrite append_params_bytes, !AppendUint32_u32.
  rewrite (AppendUint32_app (AppendUint32 [] _)), <- !app_assoc.
  rewrite params_size_length. simpl length. do 2 f_equal. lia.
Qed.

Lemma major3_code p :
  MajorVersion p = 3 → 196608 <= Code p < 262144.
Proof.
  unfold MajorVersion. rewrite Z.shiftr_div_pow2 by lia. change (2 ^ 16) with 65536.
  intros. Z.to_euclidean_division_equations. lia.
Qed.

Lemma decode_body_startup code rest :
  is_i32 code → Z.shiftr code 16 = 3 →
  decode_body (AppendUint32 [] code ++ rest) =
  (let! params := parseParameters rest in Ok (MkStartupPacket code params zero_key)).
Proof.
  intros Hc H3. unfold decode_body.
  rewrite take_app_length' by done. rewrite drop_app_length' by done.
  rewrite <- (app_nil_r (AppendUint32 [] code)), Uint32_AppendUint32, i32_u32 by done.
  pose proof (major3_code (MkStartupPacket code [] zero_key) H3) as Hr. simpl in Hr.
  unfold SSLRequestCode, GSSEncRequestCode, CancelRequestCode.
  unfold MajorVersion. cbn [Code]. rewrite H3. by zbool.
Qed.

(** The reader on a packet whose announced length is in range. *)
Lemma ReadStartupPacket_framed body rest e :
  minStartupPacketLength <= 4 + Z.of_nat (length body) <= MaxStartupPacketLength →
  ReadStartupPacket (Stream (AppendUint32 [] (4 + Z.of_nat (length body)) ++ body ++ rest) e)
  = (decode_body body, Stream rest e).
Proof.
  unfold minStartupPacketLength, MaxStartupPacketLength. intros Hl.
  unfold ReadStartupPacket. rewrite ReadFull_app by done.
  rewrite <- (app_nil_r (AppendUint32 [] _)), Uint32_AppendUint32.
  rewrite u32_small by (unfold is_u32; lia).
  unfold minStartupPacketLength, MaxStartupPacketLength.
  zbool. by rewrite ReadFull_app by lia.
Qed.

Lemma ReadStartupPacket_complete p tail rest e :
  wf_startup p → ends_params tail →
  8 + Z.of_nat (length (params_bytes (Parameters p)) + length tail) <= MaxStartupPacketLength →
  ReadStartupPacket (Stream (packet_bytes p tail ++ rest) e) = (Ok p, Stream rest e).
Proof.
  intros (Hc & H3 & Hps & Hz) Ht Hl. unfold packet_bytes.
  set (body := AppendUint32 [] (Code p) ++ params_bytes (Parameters p) ++ tail).
  assert (Z.of_nat (length body)
          = 4 + Z.of_nat (length (params_bytes (Parameters p)) + length tail)) as Hb.
  { unfold body. rewrite !length_app, length_AppendUint32. lia. }
  replace (8 + _) with (4 + Z.of_nat (length body)) by lia.
  rewrite <- app_assoc. rewrite ReadStartupPacket_framed
    by (unfold minStartupPacketLength; lia).
  f_equal. unfold body. rewrite decode_body_startup by done.
  unfold parseParameters. rewrite parse_loop_complete;
    [|done|done|rewrite length_app; lia].
  simpl. destruct p. simpl in *. by subst.
Qed.

(** The reader consumes a prefix of the stream and keeps its error. *)
Lemma ReadStartupPacket_inv r p r' :
  ReadStartupPacket r = (Ok p, r') →
  ∃ body, st_data r = AppendUint32 [] (4 + Z.of_nat (length body)) ++ body ++ st_data r' ∧
    minStartupPacketLength <= 4 + Z.of_nat (length body) <= MaxStartupPacketLength ∧
    decode_body body = Ok p ∧ st_err r' = st_err r.
Proof.
  unfold ReadStartupPacket. intros H.
  destruct (ReadFull 4 r) as [[header [e|]] r1] eqn:E1; [done|].
  apply ReadFull_ok in E1 as (Hd & Hlen & He).
  destruct header as [|b0 [|b1 [|b2 [|b3 [|]]]]]; try done.
  pose proof (Uint32_range [b0; b1; b2; b3]) as Hr.
  pose proof (AppendUint32_Uint32 b0 b1 b2 b3) as Hb.
  set (n := Uint32 [b0; b1; b2; b3]) in *.
  destruct (n <? minStartupPacketLength) eqn:Emin; [done|].
  destruct (MaxStartupPacketLength <? n) eqn:Emax; [done|].
  apply Z.ltb_ge in Emin, Emax.
  destruct (ReadFull _ r1) as [[body [e|]] r2] eqn:E2; [done|]. simplify_eq.
  apply ReadFull_ok in E2 as (Hd2 & Hlen2 & He2).
  unfold minStartupPacketLength, is_u32 in *.
  exists body. replace (4 + Z.of_nat (length body)) with n by lia.
  split; [by rewrite Hd, Hd2, Hb|]. split_and!; [lia|lia|done|congruence].
Qed.

Lemma take4_Uint32 body :
  (4 <= length body)%nat → body = AppendUint32 [] (Uint32 (take 4 body)) ++ drop 4 body.
Proof.
  destruct body as [|b0 [|b1 [|b2 [|b3 t]]]]; cbn [take drop length]; try lia. intros _.
  by rewrite take_0, drop_0, (AppendUint32_Uint32 b0 b1 b2 b3).
Qed.

Lemma AppendUint32_i32 v : is_u32 v → AppendUint32 [] (i32 v) = AppendUint32 [] v.
Proof. intros. by rewrite <- AppendUint32_u32, u32_i32. Qed.

Lemma decode_body_sound body p :
  (4 <= length body)%nat → decode_body body = Ok p → MajorVersion p = 3 →
  wf_startup p ∧ ∃ tail, ends_params tail ∧
    body = AppendUint32 [] (Code p) ++ params_bytes (Parameters p) ++ tail.
Proof.
  intros Hl. unfold decode_body. intros H H3.
  pose proof (take4_Uint32 body Hl) as Hb.
  set (v := Uint32 (take 4 body)) in *.
  assert (is_u32 v) as Hv by apply Uint32_range.
  destruct ((i32 v =? SSLRequestCode) || (i32 v =? GSSEncRequestCode)) eqn:E1.
  { destruct (negb _); [done|]. simplify_eq. unfold MajorVersion in H3. simpl in H3.
    apply orb_true_iff in E1 as [E|E]; apply Z.eqb_eq in E; rewrite E in H3; done. }
  destruct (i32 v =? CancelRequestCode) eqn:E2.
  { destruct (negb _); [done|]. simplify_eq. unfold MajorVersion in H3. simpl in H3.
    apply Z.eqb_eq in E2; rewrite E2 in H3; done. }
  destruct (negb _) eqn:E3; [done|].
  destruct (parseParameters (drop 4 body)) as [ps|e] eqn:Ep; [|done]. simplify_eq.
  unfold parseParameters in Ep.
  apply parse_loop_sound in Ep as (qs & tail & -> & Hqs & Hd & Ht).
  cbn [app Code Parameters Cancel] in *.
  split.
  - split_and!; try done. apply i32_range.
  - exists tail. split; [done|]. rewrite Hb at 1. by rewrite AppendUint32_i32, Hd.
Qed.

(** ** Properties of startup packets *)

Lemma length_packet_bytes p tail :
  Z.of_nat (length (packet_bytes p tail)) =
  8 + Z.of_nat (length (params_bytes (Parameters p)) + length tail).
Proof. unfold packet_bytes. rewrite !length_app, !length_AppendUint32. lia. Qed.

(** C39: decoding an encoded version 3 startup packet gives the packet back, in
    parameter order, and leaves the bytes that follow it unread, for every
    packet up to the length limit. *)
Theorem startup_roundtrip p rest e :
  wf_startup p → Z.of_nat (length (Encode p)) <= MaxStartupPacketLength →
  ReadStartupPacket (Stream (Encode p ++ rest) e) = (Ok p, Stream rest e).
Proof.
  rewrite Encode_packet_bytes, length_packet_bytes. intros Hp Hl.
  apply ReadStartupPacket_complete; [done|by right|done].
Qed.

Definition sample_startup : StartupPacket :=
  MkStartupPacket ProtocolVersion3
    [MkParameter "user" "alice"; MkParameter "database" "billing"] zero_key.

Lemma wf_sample_startup : wf_startup sample_startup.
Proof.
  split_and!; [by vm_compute|done| |done].
  repeat constructor; vm_compute; try done; by repeat constructor.
Qed.

Lemma startup_roundtrip_witness :
  ReadStartupPacket (Stream (Encode sample_startup ++ [x01]) (ESentinel io_EOF))
  = (Ok sample_startup, Stream [x01] (ESentinel io_EOF)).
Proof.
  apply (startup_roundtrip sample_startup [x01] (ESentinel io_EOF)).
  - exact wf_sample_startup.
  - by vm_compute.
Defined.

(** A version 3 packet that was read is well formed, was sent as its header,
    its parameters and a tail that is empty or starts with the terminator, and
    re-encoding it reproduces the bytes the client sent exactly when that tail
    is the single terminator byte: padding is dropped, and a missing terminator
    is added. *)
Theorem startup_reencode r p r' :
  ReadStartupPacket r = (Ok p, r') → MajorVersion p = 3 →
  wf_startup p ∧
  ∃ tail, ends_params tail ∧ st_data r = packet_bytes p tail ++ st_data r' ∧
    (Encode p = packet_bytes p tail ↔ tail = [x00]).
Proof.
  intros H H3. apply ReadStartupPacket_inv in H as (body & Hd & Hl & Hb & _).
  apply decode_body_sound in Hb as [Hp (tail & Ht & Hbody)];
    [|unfold minStartupPacketLength in *; lia|done].
  split; [done|]. exists tail. split_and!; [done| |].
  - rewrite Hd. unfold packet_bytes. rewrite Hbody at 1 2.
    rewrite !length_app, length_AppendUint32, <- !app_assoc. do 2 f_equal. lia.
  - rewrite Encode_packet_bytes. split; [|by intros ->].
    intros Heq. assert (length tail = 1%nat) as H1.
    { apply (f_equal (λ l, Z.of_nat (length l))) in Heq.
      rewrite !length_packet_bytes in Heq. cbn [length] in Heq. lia. }
    destruct tail as [|c [|]]; try done. destruct Ht as [?|Ht]; [done|]. by simplify_eq/=.
Qed.

Definition padded_startup : bytes := packet_bytes sample_startup [x00; x00; x00].

Lemma startup_reencode_witness :
  ∃ tail, st_data (Stream padded_startup (ESentinel io_EOF))
            = packet_bytes sample_startup tail ++ [] ∧
    (Encode sample_startup = packet_bytes sample_startup tail ↔ tail = [x00]).
Proof.
  destruct (startup_reencode (Stream padded_startup (ESentinel io_EOF)) sample_startup
              (Stream [] (ESentinel io_EOF))) as [_ (tail & _ & Hd & Hiff)].
  - by vm_compute.
  - done.
  - exists tail. by split.
Defined.

(** C40: whatever the peer sends, reading a startup packet consumes at most
    [MaxStartupPacketLength] bytes of it, a prefix of the stream. *)
Theorem read_startup_bounded r res r' :
  ReadStartupPacket r = (res, r') →
  ∃ used, st_data r = used ++ st_data r' ∧
    Z.of_nat (length used) <= MaxStartupPacketLength ∧ st_err r' = st_err r.
Proof.
  unfold ReadStartupPacket. intros H.
  destruct (ReadFull 4 r) as [[header [e|]] r1] eqn:E1.
  { apply ReadFull_err in E1 as (Hl & -> & Hd & He). simplify_eq.
    exists (st_data r). rewrite Hd, app_nil_r. unfold MaxStartupPacketLength.
    split_and!; [done|lia|done]. }
  apply ReadFull_ok in E1 as (Hd & Hlen & He).
  assert (∃ used, st_data r = used ++ st_data r1 ∧
    Z.of_nat (length used) <= MaxStartupPacketLength ∧ st_err r1 = st_err r).
  { exists header. unfold MaxStartupPacketLength. split_and!; [done|lia|done]. }
  destruct (_ <? minStartupPacketLength) eqn:Emin; [by simplify_eq|].
  destruct (MaxStartupPacketLength <? _) eqn:Emax; [by simplify_eq|].
  apply Z.ltb_ge in Emin, Emax. unfold minStartupPacketLength in *.
  destruct (ReadFull _ r1) as [[body [e|]] r2] eqn:E2.
  - apply ReadFull_err in E2 as (Hl2 & -> & Hd2 & He2). simplify_eq.
    exists (st_data r). rewrite Hd2, app_nil_r, Hd, length_app.
    split_and!; [done|lia|congruence].
  - apply ReadFull_ok in E2 as (Hd2 & Hl2 & He2). simplify_eq.
    exists (header ++ body). rewrite Hd, Hd2, <- app_assoc, length_app.
    split_and!; [done|lia|congruence].
Qed.

Lemma read_startup_bounded_witness :
  ∃ used, [x00; x00; x00; x08; x00] = used ++ [] ∧
    Z.of_nat (length used) <= MaxStartupPacketLength.
Proof.
  destruct (read_startup_bounded (Stream [x00; x00; x00; x08; x00] (ESentinel io_EOF))
              (Err (Errorf [Lit "pgwire: reading startup packet body: ";
                            PW (ESentinel io_ErrUnexpectedEOF)]))
              (Stream [] (ESentinel io_EOF))) as (used & Hd & Hl & _).
  - by vm_compute.
  - by exists used.
Defined.

(** A packet announcing more than the limit is refused with an error that
    wraps [ErrStartupTooLarge], after its four length bytes only. *)
Theorem startup_too_large n rest e :
  MaxStartupPacketLength < n < 2 ^ 32 →
  ∃ err, ReadStartupPacket (Stream (AppendUint32 [] n ++ rest) e) = (Err err, Stream rest e)
    ∧ Is err ErrStartupTooLarge = true.
Proof.
  intros Hn. eexists. unfold ReadStartupPacket. rewrite ReadFull_app by done.
  rewrite <- (app_nil_r (AppendUint32 [] n)), Uint32_AppendUint32.
  unfold MaxStartupPacketLength, minStartupPacketLength in *.
  rewrite u32_small by (unfold is_u32; lia). zbool. by split.
Qed.

Lemma startup_too_large_witness :
  ∃ err, ReadStartupPacket (Stream (AppendUint32 [] 10001 ++ [x01]) (ESentinel io_EOF))
         = (Err err, Stream [x01] (ESentinel io_EOF)) ∧ Is err ErrStartupTooLarge = true.
Proof. apply (startup_too_large 10001). by vm_compute. Defined.

Lemma decode_key_range b : is_i32 (ProcessID (decode_key b)) ∧ is_i32 (SecretKey (decode_key b)).
Proof. split; apply i32_range. Qed.

(** A packet that was read has one of three shapes: a negotiation request
    with neither parameters nor key, a cancel request with an int32 key and no
    parameters, or a well-formed version 3 startup packet. *)
Lemma startup_shape r p r' :
  ReadStartupPacket r = (Ok p, r') →
  ((IsSSLRequest p || IsGSSEncRequest p) = true ∧ Parameters p = [] ∧ Cancel p = zero_key) ∨
  (IsCancelRequest p = true ∧ Parameters p = [] ∧
   is_i32 (ProcessID (Cancel p)) ∧ is_i32 (SecretKey (Cancel p))) ∨
  wf_startup p.
Proof.
  intros H. apply ReadStartupPacket_inv in H as (body & _ & Hl & Hb & _).
  unfold minStartupPacketLength in *.
  destruct (decide (MajorVersion p = 3)) as [H3|H3].
  { right; right. apply decode_body_sound in Hb as [? _]; [done|lia|done]. }
  unfold decode_body in Hb. set (code := i32 _) in *.
  destruct ((code =? SSLRequestCode) || _) eqn:E1.
  { destruct (negb _); [done|]. simplify_eq. by left. }
  destruct (code =? CancelRequestCode) eqn:E2.
  { destruct (negb _); [done|]. simplify_eq. right; left.
    split_and!; try done; apply decode_key_range. }
  destruct (negb _) eqn:E3; [done|].
  destruct (parseParameters _); [|done]. simplify_eq.
  apply negb_false_iff, Z.eqb_eq in E3. done.
Qed.

(** ** Cancellation keys *)

Definition wf_key (k : CancelRequest) : Prop :=
  is_i32 (ProcessID k) ∧ is_i32 (SecretKey k).

Definition key_bytes (k : CancelRequest) : bytes :=
  AppendUint32 [] (ProcessID k) ++ AppendUint32 [] (SecretKey k).

Lemma decode_key_bytes k : wf_key k → decode_key (key_bytes k) = k.
Proof.
  intros [Hp Hs]. unfold decode_key, key_bytes.
  rewrite take_app_length' by done. rewrite drop_app_length' by done.
  rewrite <- (app_nil_r (AppendUint32 [] (ProcessID k))).
  rewrite <- (app_nil_r (AppendUint32 [] (SecretKey k))).
  rewrite !Uint32_AppendUint32, !i32_u32 by done. by destruct k.
Qed.

Lemma key_bytes_decode b : length b = 8%nat → key_bytes (decode_key b) = b.
Proof.
  intros Hl. destruct b as [|b0 [|b1 [|b2 [|b3 [|b4 [|b5 [|b6 [|b7 [|]]]]]]]]]; try done.
  unfold key_bytes, decode_key. cbn [ProcessID SecretKey take drop].
  rewrite !AppendUint32_i32 by apply Uint32_range.
  by rewrite ?take_0, !AppendUint32_Uint32.
Qed.

Lemma EncodeCancelRequest_eq k :
  EncodeCancelRequest k = AppendUint32 [] 16 ++ AppendUint32 [] CancelRequestCode ++ key_bytes k.
Proof.
  unfold EncodeCancelRequest, key_bytes. rewrite !AppendUint32_u32.
  by rewrite !(AppendUint32_app (AppendUint32 _ _)), <- !app_assoc.
Qed.

Lemma EncodeBackendKeyData_eq k :
  EncodeBackendKeyData k = Message_Encode (MkMessage MsgBackendKeyData (key_bytes k)).
Proof.
  unfold EncodeBackendKeyData, Message_Encode, key_bytes. rewrite !AppendUint32_u32.
  by rewrite !(AppendUint32_app (AppendUint32 _ _)), <- !app_assoc.
Qed.

(** The cancel packet sent to a backend is read back as a cancel request for
    the same key, negative halves included, with nothing of it left over. *)
Theorem cancel_roundtrip k rest e :
  wf_key k →
  ReadStartupPacket (Stream (EncodeCancelRequest k ++ rest) e)
  = (Ok (MkStartupPacket CancelRequestCode [] k), Stream rest e).
Proof.
  intros Hk. rewrite EncodeCancelRequest_eq, <- app_assoc.
  set (body := AppendUint32 [] CancelRequestCode ++ key_bytes k).
  change 16 with (4 + Z.of_nat (length body)).
  rewrite ReadStartupPacket_framed by by vm_compute.
  f_equal. unfold decode_body, body. rewrite take_app_length' by done.
  rewrite drop_app_length' by done. rewrite decode_key_bytes by done. done.
Qed.

Lemma cancel_roundtrip_witness :
  wf_key (MkCancelRequest 4242 (-9)) ∧
  ReadStartupPacket (Stream (EncodeCancelRequest (MkCancelRequest 4242 (-9)) ++ [])
                       (ESentinel io_EOF))
  = (Ok (MkStartupPacket CancelRequestCode [] (MkCancelRequest 4242 (-9))),
     Stream [] (ESentinel io_EOF)).
Proof.
  split; [by vm_compute|]. apply cancel_roundtrip. by vm_compute.
Defined.

(** ** Framing *)

Lemma Next_frame m rest e buf :
  Z.of_nat (length (Body m)) + 4 <= MaxMessageLength →
  ∃ buf', Next (MkMessageReader (Stream (Message_Encode m ++ rest) e) buf)
          = (Ok m, MkMessageReader (Stream rest e) buf').
Proof.
  intros Hl. destruct m as [t body]. cbn [Body] in Hl.
  unfold Next, Message_Encode. cbn [mr_r mr_buf Type_ Body].
  rewrite AppendUint32_u32, (AppendUint32_app [t]), <- app_assoc.
  rewrite ReadFull_app by done. cbn [app head drop default].
  rewrite drop_0, <- (app_nil_r (AppendUint32 [] _)), Uint32_AppendUint32.
  change MaxMessageLength with 1048576 in *.
  rewrite u32_small by (unfold is_u32; lia). zbool.
  rewrite ReadFull_app by lia. eexists. do 3 f_equal.
  rewrite take_app_length' by lia. done.
Qed.

(** [Next] on an encoded message returns that message, whatever the reader's
    buffer held, and leaves exactly the bytes after it in the stream. *)
Theorem frame_roundtrip m rest e buf :
  Z.of_nat (length (Body m)) + 4 <= MaxMessageLength →
  (Next (MkMessageReader (Stream (Message_Encode m ++ rest) e) buf)).1 = Ok m ∧
  mr_r (Next (MkMessageReader (Stream (Message_Encode m ++ rest) e) buf)).2 = Stream rest e.
Proof. intros Hl. by destruct (Next_frame m rest e buf Hl) as [buf' ->]. Qed.

Lemma frame_roundtrip_witness :
  (Next (MkMessageReader (Stream (Message_Encode (MkMessage MsgReadyForQuery [x49]) ++ [x01])
                            (ESentinel io_EOF)) [x07; x08])).1
    = Ok (MkMessage MsgReadyForQuery [x49]) ∧
  mr_r (Next (MkMessageReader (Stream (Message_Encode (MkMessage MsgReadyForQuery [x49]) ++ [x01])
                            (ESentinel io_EOF)) [x07; x08])).2 = Stream [x01] (ESentinel io_EOF).
Proof. apply (frame_roundtrip (MkMessage MsgReadyForQuery [x49])). by vm_compute. Defined.

Lemma Next_ok mr m mr' :
  Next mr = (Ok m, mr') →
  st_data (mr_r mr) = Message_Encode m ++ st_data (mr_r mr') ∧
  Z.of_nat (length (Body m)) + 4 <= MaxMessageLength ∧
  st_err (mr_r mr') = st_err (mr_r mr).
Proof.
  unfold Next. intros H.
  destruct (ReadFull 5 (mr_r mr)) as [[header [e|]] r1] eqn:E1; [done|].
  apply ReadFull_ok in E1 as (Hd & Hlen & He).
  destruct header as [|t [|b0 [|b1 [|b2 [|b3 [|]]]]]]; try done.
  cbn [head default drop] in H.
  pose proof (Uint32_range [b0; b1; b2; b3]) as Hr.
  pose proof (AppendUint32_Uint32 b0 b1 b2 b3) as Hb.
  set (n := Uint32 [b0; b1; b2; b3]) in *.
  destruct (n <? 4) eqn:Emin; [done|]. destruct (MaxMessageLength <? n) eqn:Emax; [done|].
  apply Z.ltb_ge in Emin, Emax.
  destruct (ReadFull _ r1) as [[body [e|]] r2] eqn:E2; [done|].
  apply ReadFull_ok in E2 as (Hd2 & Hlen2 & He2).
  rewrite take_app_length' in H by done. simplify_eq. cbn [Body mr_r].
  unfold Message_Encode. cbn [Body Type_].
  rewrite AppendUint32_u32, (AppendUint32_app [t]), <- app_assoc.
  replace (Z.of_nat (length body) + 4) with n by lia.
  rewrite Hd, Hd2, Hb. split_and!; [done|lia|congruence].
Qed.

(** Every message [Next] returns is exactly the bytes it took from the
    stream: nothing of it is stale, invented or read ahead, and it is no longer
    than [MaxMessageLength]. *)
Theorem frame_exact mr m mr' :
  Next mr = (Ok m, mr') →
  st_data (mr_r mr) = Message_Encode m ++ st_data (mr_r mr') ∧
  Z.of_nat (length (Body m)) + 4 <= MaxMessageLength.
Proof. intros H. by apply Next_ok in H as (? & ? & _). Qed.

Lemma frame_exact_witness :
  let m := MkMessage MsgReadyForQuery [x49] in
  st_data (Stream (Message_Encode m ++ [x01]) (ESentinel io_EOF))
    = Message_Encode m ++ [x01] ∧ Z.of_nat (length (Body m)) + 4 <= MaxMessageLength.
Proof.
  intros m.
  apply (frame_exact (NewMessageReader (Stream (Message_Encode m ++ [x01]) (ESentinel io_EOF)))
           m (MkMessageReader (Stream [x01] (ESentinel io_EOF)) [x49])).
  by vm_compute.
Defined.

(** The result of [Next] and the stream it leaves do not depend on what the
    reader's buffer held before. *)
Lemma Next_buf r b1 b2 :
  (Next (MkMessageReader r b1)).1 = (Next (MkMessageReader r b2)).1 ∧
  mr_r (Next (MkMessageReader r b1)).2 = mr_r (Next (MkMessageReader r b2)).2.
Proof.
  unfold Next. cbn [mr_r mr_buf].
  destruct (ReadFull 5 r) as [[header [e|]] r1]; [done|].
  destruct (_ <? 4); [done|]. destruct (MaxMessageLength <? _); [done|].
  destruct (ReadFull _ r1) as [[body [e|]] r2] eqn:E2; [done|].
  apply ReadFull_ok in E2 as (_ & Hlen2 & _). cbn [fst snd mr_r].
  by rewrite !take_app_length' by done.
Qed.

(** The key message handed to a client frames as a BackendKeyData message
    whose body decodes to the same key. *)
Theorem keydata_roundtrip k rest e buf :
  wf_key k →
  ∃ body buf', Next (MkMessageReader (Stream (EncodeBackendKeyData k ++ rest) e) buf)
    = (Ok (MkMessage MsgBackendKeyData body), MkMessageReader (Stream rest e) buf')
    ∧ DecodeBackendKeyData body = Ok k.
Proof.
  intros Hk. rewrite EncodeBackendKeyData_eq.
  destruct (Next_frame (MkMessage MsgBackendKeyData (key_bytes k)) rest e buf) as [buf' ->];
    [by vm_compute|].
  exists (key_bytes k), buf'. split; [done|].
  unfold DecodeBackendKeyData. rewrite decode_key_bytes by done. done.
Qed.

Lemma keydata_roundtrip_witness :
  ∃ body buf', Next (NewMessageReader (Stream (EncodeBackendKeyData (MkCancelRequest 7 (-1)) ++ [])
                                         (ESentinel io_EOF)))
    = (Ok (MkMessage MsgBackendKeyData body), MkMessageReader (Stream [] (ESentinel io_EOF)) buf')
    ∧ DecodeBackendKeyData body = Ok (MkCancelRequest 7 (-1)).
Proof. apply keydata_roundtrip. by vm_compute. Defined.

(** ** Parsing the parameter list *)

Lemma readCString_err b e :
  readCString b = Err e → e = ESentinel io_ErrUnexpectedEOF ∧ x00 ∉ b.
Proof.
  unfold readCString. destruct (IndexByte b x00) eqn:E; [done|].
  intros [= <-]. split; [done|]. by apply IndexByte_None.
Qed.

(** With the payload's length as fuel the loop never runs out of it: every error
    is one of the two of the source, both wrapping [io.ErrUnexpectedEOF]. *)
Lemma parse_fuel_enough fuel acc payload e :
  (length payload <= fuel)%nat → parse_loop fuel acc payload = Err e →
  Is e io_ErrUnexpectedEOF = true.
Proof.
  revert acc payload. induction fuel as [|fuel IH]; intros acc payload Hf H.
  - destruct payload; simpl in *; [done|lia].
  - destruct payload as [|c t] eqn:Hp; simpl in H; [done|].
    case_bool_decide; [done|].
    destruct (readCString (c :: t)) as [[k r]|e1] eqn:Ek.
    2: { apply readCString_err in Ek as [-> _]. by simplify_eq. }
    destruct (readCString r) as [[v r']|e1] eqn:Ev.
    2: { apply readCString_err in Ev as [-> _]. by simplify_eq. }
    apply (IH _ r' ) in H; [done|].
    apply readCString_ok in Ek as [Hk _]. apply readCString_ok in Ev as [Hv _].
    apply (f_equal length) in Hk, Hv. simpl in *.
    rewrite length_app in Hk, Hv. simpl in *. lia.
Qed.

(** [parseParameters] always returns; it accepts exactly the encodings of a
    list of parameters with nonempty keys, ended by an empty key or by the
    packet, and returns that list; everything else is an error that wraps
    [io.ErrUnexpectedEOF]. *)
Theorem parse_parameters_spec payload :
  match parseParameters payload with
  | Ok ps => Forall wf_param ps ∧
      ∃ tail, ends_params tail ∧ payload = params_bytes ps ++ tail
  | Err e => Is e io_ErrUnexpectedEOF = true ∧
      ∀ ps tail, Forall wf_param ps → ends_params tail → payload ≠ params_bytes ps ++ tail
  end.
Proof.
  unfold parseParameters.
  destruct (parse_loop (length payload) [] payload) as [ps|e] eqn:E.
  - apply parse_loop_sound in E as (qs & tail & -> & Hqs & Hd & Ht). eauto.
  - split; [by eapply parse_fuel_enough|]. intros ps tail Hps Ht ->.
    rewrite parse_loop_complete in E; [done|done|done|]. rewrite length_app. lia.
Qed.

(** ** Reading and rewriting one parameter *)

Lemma find_set_parameter ps k v k' :
  find_parameter (set_parameter ps k v) k'
  = if bool_decide (k' = k) then Some v else find_parameter ps k'.
Proof.
  induction ps as [|p ps IH]; simpl.
  - repeat case_bool_decide; naive_solver.
  - destruct (bool_decide_reflect (Key p = k)) as [<-|E]; simpl.
    + repeat case_bool_decide; congruence.
    + rewrite IH. repeat case_bool_decide; congruence.
Qed.

Lemma set_parameter_keys ps k v :
  map Key (set_parameter ps k v)
  = map Key ps ++ (if bool_decide (k ∈ map Key ps) then [] else [k]).
Proof.
  induction ps as [|p ps IH]; simpl; [done|].
  destruct (bool_decide_reflect (Key p = k)) as [<-|E]; simpl.
  - rewrite bool_decide_eq_true_2 by left. by rewrite app_nil_r.
  - rewrite IH. f_equal. f_equal.
    erewrite (bool_decide_ext (k ∈ Key p :: map Key ps)); [done|].
    rewrite elem_of_cons. naive_solver.
Qed.

Lemma set_parameter_wf ps k v :
  Forall wf_param ps → wf_param (MkParameter k v) → Forall wf_param (set_parameter ps k v).
Proof.
  intros Hps Hk. induction Hps as [|p ps Hp Hps IH]; simpl; [by constructor|].
  case_bool_decide; constructor; try done. destruct Hp as (? & ? & ?).
  destruct Hk as (? & ? & ?). by split_and!.
Qed.

(** After [SetParameter] the key reads back as the new value, every other
    key reads as before, and the keys keep their positions, the new key coming
    last when it was absent. *)
Theorem set_parameter_spec p k v k' :
  get_Parameter (SetParameter p k v) k'
    = (if bool_decide (k' = k) then Some v else get_Parameter p k') ∧
  map Key (Parameters (SetParameter p k v))
    = map Key (Parameters p)
      ++ (if bool_decide (get_Parameter p k = None) then [k] else []) ∧
  Code (SetParameter p k v) = Code p.
Proof.
  unfold get_Parameter, SetParameter. cbn [Parameters Code].
  split; [apply find_set_parameter|]. split; [|done].
  rewrite set_parameter_keys. f_equal.
  assert (k ∈ map Key (Parameters p) ↔ find_parameter (Parameters p) k ≠ None) as Hiff.
  { induction (Parameters p) as [|q ps IH]; simpl.
    - split; [by intros ?%elem_of_nil|done].
    - rewrite elem_of_cons, IH. case_bool_decide as Hq.
      + split; [done|by left].
      + split; [intros [?|?]; [congruence|done]|by right]. }
  repeat case_bool_decide; tauto.
Qed.

(** ** Error responses *)

(** A reader for the body of an ErrorResponse, as the protocol describes it:
    fields of a code byte and a C string, ended by a zero byte. *)
Fixpoint decode_fields (fuel : nat) (body : bytes) : option (list (byte * string)) :=
  match fuel, body with
  | S n, c :: t =>
      if bool_decide (c = x00) then match t with [] => Some [] | _ => None end
      else match readCString t with
           | Ok (v, r) => ((c, v) ::.) <$> decode_fields n r
           | Err _ => None
           end
  | _, _ => None
  end.

Definition wf_field (f : byte * string) : Prop := f.1 ≠ x00 ∧ no_nul (bytes_of f.2).

Definition fields_bytes (fs : list (byte * string)) : bytes :=
  concat (map (λ f, f.1 :: bytes_of f.2 ++ [x00]) fs).

Lemma append_fields_bytes fs body : append_fields body fs = body ++ fields_bytes fs.
Proof.
  revert body. induction fs as [|[c v] fs IH]; intros body; simpl; [by rewrite app_nil_r|].
  rewrite IH. unfold fields_bytes. simpl. by repeat (rewrite <- !app_assoc; simpl).
Qed.

Lemma decode_fields_bytes fs fuel :
  Forall wf_field fs → (length fs < fuel)%nat →
  decode_fields fuel (fields_bytes fs ++ [x00]) = Some fs.
Proof.
  intros Hfs. revert fuel. induction Hfs as [|[c v] fs [Hc Hv] Hfs IH]; intros fuel Hf.
  - destruct fuel; simpl in *; [lia|done].
  - destruct fuel as [|fuel]; [simpl in *; lia|].
    assert (fields_bytes ((c, v) :: fs) ++ [x00]
            = c :: bytes_of v ++ x00 :: (fields_bytes fs ++ [x00])) as ->.
    { unfold fields_bytes. simpl. by rewrite <- !app_assoc. }
    simpl. rewrite bool_decide_eq_false_2 by done.
    rewrite readCString_app by done. rewrite IH by (simpl in *; lia).
    by rewrite string_of_bytes_of.
Qed.

Lemma error_fields_wf s m d :
  no_nul (bytes_of s) → no_nul (bytes_of m) → no_nul (bytes_of d) →
  Forall wf_field (error_fields s m d).
Proof.
  intros Hs Hm Hd. unfold error_fields. apply Forall_app. split.
  - repeat (constructor; [split; [done|cbn [snd]; try done]|]); [..|constructor];
      by vm_compute; repeat constructor.
  - case_bool_decide; repeat constructor; by try done.
Qed.

Lemma length_fields_bytes fs : (2 * length fs <= length (fields_bytes fs))%nat.
Proof.
  induction fs as [|[c v] fs IH]; simpl; [lia|]. unfold fields_bytes in *. simpl.
  rewrite !length_app. simpl. lia.
Qed.

Lemma EncodeErrorResponse_message s m d :
  no_nul (bytes_of s) → no_nul (bytes_of m) → no_nul (bytes_of d) →
  ∃ body, EncodeErrorResponse s m d = Message_Encode (MkMessage MsgErrorResponse body) ∧
    decode_fields (length body) body = Some (error_fields s m d).
Proof.
  intros Hs Hm Hd. unfold EncodeErrorResponse. rewrite append_fields_bytes. cbn [app].
  set (body := fields_bytes (error_fields s m d) ++ [x00]). exists body. split; [done|].
  apply decode_fields_bytes; [by apply error_fields_wf|].
  unfold body. rewrite length_app. change (length [x00]) with 1%nat.
  pose proof (length_fields_bytes (error_fields s m d)). lia.
Qed.

(** An error response whose texts hold no zero byte is one ErrorResponse
    message, and a client reading its fields finds severity FATAL twice, then the
    SQLSTATE, the message and, when there is one, the detail. *)
Theorem error_response_decodes s m d rest e buf :
  no_nul (bytes_of s) → no_nul (bytes_of m) → no_nul (bytes_of d) →
  Z.of_nat (length (EncodeErrorResponse s m d)) <= MaxMessageLength →
  ∃ body buf', Next (MkMessageReader (Stream (EncodeErrorResponse s m d ++ rest) e) buf)
    = (Ok (MkMessage MsgErrorResponse body), MkMessageReader (Stream rest e) buf') ∧
    decode_fields (length body) body = Some (error_fields s m d).
Proof.
  intros Hs Hm Hd. destruct (EncodeErrorResponse_message s m d Hs Hm Hd) as (body & -> & Hdec).
  intros Hl. destruct (Next_frame (MkMessage MsgErrorResponse body) rest e buf) as [buf' ->].
  { cbn [Body]. unfold Message_Encode in Hl. cbn [Body Type_] in Hl.
    rewrite length_app, (AppendUint32_app [_]), length_app, length_AppendUint32 in Hl.
    cbn [length] in Hl. lia. }
  by exists body, buf'.
Qed.

Lemma error_response_decodes_witness :
  ∃ body buf',
    Next (NewMessageReader (Stream (EncodeErrorResponse SQLStateUndefinedDatabase "no" "why" ++ [])
                              (ESentinel io_EOF)))
    = (Ok (MkMessage MsgErrorResponse body), MkMessageReader (Stream [] (ESentinel io_EOF)) buf') ∧
    decode_fields (length body) body = Some (error_fields SQLStateUndefinedDatabase "no" "why").
Proof.
  apply error_response_decodes;
    [vm_compute; by repeat constructor..|by vm_compute].
Defined.
