(* ===== verification/Api.v ===== *)
(** The [pgproxy.io/v1alpha1] API types and the Kubernetes object fields the
    program reads ([api/v1alpha1/postgresroute_types.go]). *)

From stdpp Require Import base list gmap strings.
From Stdlib Require Import ZArith Lia.
From S2P Require Import Prelude GoLib.

(** ** Kubernetes data *)

(** [types.NamespacedName]. *)
Record NamespacedName := MkName { nn_Namespace : string; nn_Name : string }.

#[global] Instance NamespacedName_eq_dec : EqDecision NamespacedName.
Proof. solve_decision. Defined.
#[global] Instance NamespacedName_countable : Countable NamespacedName.
Proof.
  refine (inj_countable' (λ k, (nn_Namespace k, nn_Name k)) (λ p, MkName p.1 p.2) _).
  by intros [].
Defined.

(** [intstr.IntOrString]: a number or a string, told apart by its type tag. *)
Inductive IntOrString :=
| FromInt (v : Z)
| FromString (s : string)
| FromUnknown (tag : Z).   (* a tag that is neither [intstr.Int] nor [intstr.String] *)

#[global] Instance IntOrString_eq_dec : EqDecision IntOrString.
Proof. solve_decision. Defined.

(** The fields of [metav1.OwnerReference] the program reads. *)
Record OwnerReference := MkOwner { own_UID : string; own_Controller : bool }.

#[global] Instance OwnerReference_eq_dec : EqDecision OwnerReference.
Proof. solve_decision. Defined.

(** The fields of [metav1.ObjectMeta] the program reads and writes.  Timestamps
    are instants; a missing deletion timestamp is [None]. *)
Record ObjectMeta := MkMeta {
  Namespace : string;
  Name : string;
  UID : string;
  Generation : Z;
  CreationTimestamp : Z;
  DeletionTimestamp : option Z;
  Labels : gmap string string;
  Annotations : gmap string string;
  OwnerReferences : list OwnerReference
}.

#[global] Instance ObjectMeta_eq_dec : EqDecision ObjectMeta.
Proof. solve_decision. Defined.

(** [metav1.Condition]. *)
Record Condition := MkCondition {
  c_Type : string;
  c_Status : string;
  c_ObservedGeneration : Z;
  c_LastTransitionTime : Z;
  c_Reason : string;
  c_Message : string
}.

#[global] Instance Condition_eq_dec : EqDecision Condition.
Proof. solve_decision. Defined.

(** ** PostgresRoute *)

Definition BackendTypeService : string := "Service".
Definition BackendTypeAddress : string := "Address".

Definition BackendTLSDisable : string := "Disable".
Definition BackendTLSRequire : string := "Require".
Definition BackendTLSVerifyCA : string := "VerifyCA".
Definition BackendTLSVerifyFull : string := "VerifyFull".

Record ServiceBackend := MkServiceBackend {
  sb_Name : string;
  sb_Namespace : string;
  sb_Port : IntOrString
}.

Record AddressBackend := MkAddressBackend { ab_Host : string; ab_Port : Z }.

Record Backend := MkBackend {
  b_Type : string;
  b_Service : option ServiceBackend;
  b_Address : option AddressBackend
}.

Record SecretKeyReference := MkSecretKeyReference { sk_Name : string; sk_Key : string }.

Record BackendTLS := MkBackendTLS {
  bt_Mode : string;
  bt_CASecretRef : option SecretKeyReference;
  bt_ServerName : string
}.

Record PostgresRouteSpec := MkSpec {
  Database : string;
  TargetDatabase : string;
  BackendRef : Backend;
  TLS : option BackendTLS;
  Priority : Z
}.

Record PostgresRouteStatus := MkStatus {
  ObservedGeneration : Z;
  st_Database : string;
  st_Endpoint : string;
  st_ConflictingRoute : string;
  Conditions : list Condition
}.

Record PostgresRoute := MkRoute {
  Meta : ObjectMeta;
  Spec : PostgresRouteSpec;
  Status : PostgresRouteStatus
}.

#[global] Instance ServiceBackend_eq_dec : EqDecision ServiceBackend.
Proof. solve_decision. Defined.
#[global] Instance AddressBackend_eq_dec : EqDecision AddressBackend.
Proof. solve_decision. Defined.
#[global] Instance Backend_eq_dec : EqDecision Backend.
Proof. solve_decision. Defined.
#[global] Instance SecretKeyReference_eq_dec : EqDecision SecretKeyReference.
Proof. solve_decision. Defined.
#[global] Instance BackendTLS_eq_dec : EqDecision BackendTLS.
Proof. solve_decision. Defined.
#[global] Instance PostgresRouteSpec_eq_dec : EqDecision PostgresRouteSpec.
Proof. solve_decision. Defined.
#[global] Instance PostgresRouteStatus_eq_dec : EqDecision PostgresRouteStatus.
Proof. solve_decision. Defined.
#[global] Instance PostgresRoute_eq_dec : EqDecision PostgresRoute.
Proof. solve_decision. Defined.

(** The name a list of routes is keyed by. *)
Definition route_key (r : PostgresRoute) : NamespacedName :=
  MkName (Namespace (Meta r)) (Name (Meta r)).

Definition EffectiveDatabase (r : PostgresRoute) : string :=
  if negb (bool_decide (Database (Spec r) = "")) then Database (Spec r)
  else Name (Meta r).

Definition EffectiveTargetDatabase (r : PostgresRoute) : string :=
  if negb (bool_decide (TargetDatabase (Spec r) = "")) then TargetDatabase (Spec r)
  else EffectiveDatabase r.

(** Condition types and reasons. *)
Definition ConditionAccepted : string := "Accepted".
Definition ConditionResolved : string := "Resolved".
Definition ConditionProgrammed : string := "Programmed".

Definition ReasonAccepted : string := "Accepted".
Definition ReasonDatabaseConflict : string := "DatabaseNameConflict".
Definition ReasonResolved : string := "Resolved".
Definition ReasonBackendNotFound : string := "BackendNotFound".
Definition ReasonPortNotFound : string := "PortNotFound".
Definition ReasonInvalidBackend : string := "InvalidBackend".
Definition ReasonCABundleFailed : string := "CABundleUnavailable".
Definition ReasonProgrammed : string := "Programmed".
Definition ReasonNotProgrammed : string := "NotProgrammed".

(** ** Services and Secrets *)

Record ServicePort := MkServicePort { p_Name : string; p_Port : Z }.

Record Service := MkService { svc_Meta : ObjectMeta; svc_Ports : list ServicePort }.

Record Secret := MkSecret { sec_Meta : ObjectMeta; sec_Data : gmap string bytes }.
