(* ===== verification/Registry.v ===== *)
(** Package [registry]: resolving a set of PostgresRoutes into the lookup table
    of the data plane, with the decision for every route
    ([internal/registry/registry.go]). *)

From stdpp Require Import base list gmap strings pretty sorting.
From Stdlib Require Import ZArith Lia.
From S2P Require Import Prelude GoLib Api.

Local Open Scope go_scope.

(** ** The resolver interface *)

(** A [context.Context]: the time left before its deadline in nanoseconds, if it
    has one. *)
Record context := MkContext { ctx_left : option Z }.

Definition WithTimeout (ctx : context) (d : Z) : context :=
  MkContext (Some (match ctx_left ctx with Some rem => Z.min rem d | None => d end)).

Definition Second : Z := 1000000000.
Definition ResolveTimeout : Z := 10 * Second.

(** An [x509.CertPool], by the PEM bundles that were appended to it. *)
Record CertPool := MkCertPool { pool_pem : list bytes }.

#[global] Instance CertPool_eq_dec : EqDecision CertPool.
Proof. solve_decision. Defined.

(** The interface [Resolver]: cluster state as the cache shows it during one
    build. *)
Class Resolver := {
  ResolveServicePort : context → string → string → IntOrString → result error Z;
  LoadCABundle : context → string → string → string → result error CertPool
}.

(** ** Data *)

Record TLSConfig := MkTLSConfig {
  Mode : string;
  RootCAs : option CertPool;
  ServerName : string
}.

Record Route := MkResolved {
  Source : NamespacedName;
  r_Database : string;
  r_TargetDatabase : string;
  Host : string;
  Port : Z;
  r_TLS : TLSConfig
}.

#[global] Instance TLSConfig_eq_dec : EqDecision TLSConfig.
Proof. solve_decision. Defined.
#[global] Instance Route_eq_dec : EqDecision Route.
Proof. solve_decision. Defined.

Definition zero_TLSConfig : TLSConfig := MkTLSConfig "" None "".

(** [TLSConfig.Enabled]. *)
Definition Enabled (t : TLSConfig) : bool :=
  negb (bool_decide (Mode t = "")) && negb (bool_decide (Mode t = BackendTLSDisable)).

(** [Route.Address]. *)
Definition Address (r : Route) : string := JoinHostPort (Host r) (pretty (Port r)).

Record Table := MkTable { routes : gmap string Route }.

(** [NewTable]; [None] is a nil map. *)
Definition NewTable (m : option (gmap string Route)) : Table :=
  MkTable (default ∅ m).

Definition Lookup (t : Table) (database : string) : option Route := routes t !! database.

Definition Len (t : Table) : nat := size (routes t).

Definition Databases (t : Table) : list string := Strings (map fst (map_to_list (routes t))).

Record Decision := MkDecision {
  d_Database : string;
  Accepted : bool;
  ConflictsWith : NamespacedName;
  Endpoint : string;
  ResolveErr : option error
}.

Definition no_name : NamespacedName := MkName "" "".

Definition Programmed (d : Decision) : bool :=
  Accepted d && match ResolveErr d with None => true | Some _ => false end.

(** [Table] is a pointer in the source, hence the option. *)
Record Snapshot := MkSnapshot {
  sn_Table : option Table;
  Decisions : gmap NamespacedName Decision
}.

Definition Snapshot_Decision (s : Snapshot) (key : NamespacedName) : option Decision :=
  Decisions s !! key.

(** ** The store *)

Record Store := MkStore { current : Snapshot }.

Definition NewStore : Store := MkStore (MkSnapshot (Some (NewTable None)) ∅).

Definition Load (s : Store) : Snapshot := current s.

(** [Routes]; the result may be nil as far as its type goes. *)
Definition Routes (s : Store) : option Table := sn_Table (current s).

(** [Store.Store]: a nil snapshot, or a nil table in it, is replaced. *)
Definition Store_Store (s : Store) (snapshot : option Snapshot) : Store :=
  let snapshot := default (MkSnapshot None ∅) snapshot in
  let snapshot :=
    match sn_Table snapshot with
    | None => MkSnapshot (Some (NewTable None)) (Decisions snapshot)
    | Some _ => snapshot
    end in
  MkStore snapshot.

(** ** Ordering *)

Definition less (a b : PostgresRoute) : bool :=
  if negb (Priority (Spec a) =? Priority (Spec b))
  then Priority (Spec b) <? Priority (Spec a)
  else if negb (CreationTimestamp (Meta a) =? CreationTimestamp (Meta b))
  then CreationTimestamp (Meta a) <? CreationTimestamp (Meta b)
  else if negb (bool_decide (Namespace (Meta a) = Namespace (Meta b)))
  then String.ltb (Namespace (Meta a)) (Namespace (Meta b))
  else String.ltb (Name (Meta a)) (Name (Meta b)).

(** ** Resolution *)

Section Resolve.
Context `{Resolver}.

Definition resolveTLS (ctx : context) (route : PostgresRoute) : result error TLSConfig :=
  let disabled := Ok (MkTLSConfig BackendTLSDisable None "") in
  match TLS (Spec route) with
  | None => disabled
  | Some spec =>
      if bool_decide (bt_Mode spec = "") || bool_decide (bt_Mode spec = BackendTLSDisable)
      then disabled
      else
        let out := MkTLSConfig (bt_Mode spec) None (bt_ServerName spec) in
        let needsCA := bool_decide (bt_Mode spec = BackendTLSVerifyCA)
                       || bool_decide (bt_Mode spec = BackendTLSVerifyFull) in
        if negb needsCA then Ok out
        else match bt_CASecretRef spec with
             | None => Ok out
             | Some ref =>
                 let key := if bool_decide (sk_Key ref = "") then "ca.crt" else sk_Key ref in
                 match LoadCABundle ctx (Namespace (Meta route)) (sk_Name ref) key with
                 | Err err => Err (Errorf [PW (ESentinel ErrCABundle); Lit ": "; PW err])
                 | Ok pool => Ok (MkTLSConfig (Mode out) (Some pool) (ServerName out))
                 end
             end
  end.

(** The [switch] of [resolve]: the host and the port of the backend. *)
Definition resolveBackend (ctx : context) (route : PostgresRoute) (clusterDomain : string)
  : result error (string * Z) :=
  let b := BackendRef (Spec route) in
  if bool_decide (b_Type b = BackendTypeService) then
    match b_Service b with
    | None => Err (Errorf [PW (ESentinel ErrInvalidBackend);
                           Lit ": backend.type is Service but backend.service is unset"])
    | Some backend =>
        let namespace := if bool_decide (sb_Namespace backend = "")
                         then Namespace (Meta route) else sb_Namespace backend in
        let! port := ResolveServicePort ctx namespace (sb_Name backend) (sb_Port backend) in
        Ok (sb_Name backend +:+ "." +:+ namespace +:+ ".svc." +:+ clusterDomain, port)
    end
  else if bool_decide (b_Type b = BackendTypeAddress) then
    match b_Address b with
    | None => Err (Errorf [PW (ESentinel ErrInvalidBackend);
                           Lit ": backend.type is Address but backend.address is unset"])
    | Some backend =>
        Ok (ab_Host backend, if ab_Port backend =? 0 then 5432 else ab_Port backend)
    end
  else Err (Errorf [PW (ESentinel ErrInvalidBackend); Lit ": unsupported backend type ";
                    PQ (b_Type b)]).

Definition resolve (ctx : context) (route : PostgresRoute) (clusterDomain : string)
  : result error Route :=
  let! hp := resolveBackend ctx route clusterDomain in
  let! tls := resolveTLS ctx route in
  Ok (MkResolved (route_key route) (EffectiveDatabase route) (EffectiveTargetDatabase route)
        (fst hp) (snd hp) tls).

Definition resolveBounded (ctx : context) (route : PostgresRoute) (clusterDomain : string)
  : result error Route :=
  let ctx := WithTimeout ctx ResolveTimeout in
  resolve ctx route clusterDomain.

(** ** Building the table *)

(** The locals of [Build] that its loop changes. *)
Record build_state := MkBuild {
  bs_decisions : gmap NamespacedName Decision;
  bs_table : gmap string Route;
  bs_winners : gmap string NamespacedName
}.

(** One round of the loop. *)
Definition build_step (ctx : context) (clusterDomain : string)
  (s : build_state) (route : PostgresRoute) : build_state :=
  let key := route_key route in
  let database := EffectiveDatabase route in
  match bs_winners s !! database with
  | Some winner =>
      MkBuild (<[key := MkDecision database false winner "" None]> (bs_decisions s))
              (bs_table s) (bs_winners s)
  | None =>
      let winners := <[database := key]> (bs_winners s) in
      match resolveBounded ctx route clusterDomain with
      | Err err =>
          MkBuild (<[key := MkDecision database true no_name "" (Some err)]> (bs_decisions s))
                  (bs_table s) winners
      | Ok resolved =>
          MkBuild (<[key := MkDecision database true no_name (Address resolved) None]>
                     (bs_decisions s))
                  (<[database := resolved]> (bs_table s)) winners
      end
  end.

Definition Build (ctx : context) (rs : list PostgresRoute) (clusterDomain : string) : Snapshot :=
  let ordered := SliceStable less rs in
  let s := fold_left (build_step ctx clusterDomain) ordered (MkBuild ∅ ∅ ∅) in
  MkSnapshot (Some (NewTable (Some (bs_table s)))) (bs_decisions s).
End Resolve.

(** ** The order on routes *)

Section StringOrder.

Lemma ltb_leb s t : String.ltb s t = negb (String.leb t s).
Proof.
  unfold String.ltb, String.leb. rewrite (String.compare_antisym t s).
  by destruct (String.compare s t).
Qed.

Lemma leb_le s t : String.leb s t = true ↔ String.le s t.
Proof. unfold String.le. by rewrite Is_true_true. Qed.

Lemma ltb_asym s t : String.ltb s t = true → String.ltb t s = false.
Proof.
  rewrite !ltb_leb, negb_true_iff, negb_false_iff. intros H.
  destruct (String.leb_total s t) as [?|?]; [done|congruence].
Qed.

Lemma ltb_trans s t u : String.ltb s t = true → String.ltb t u = true → String.ltb s u = true.
Proof.
  rewrite !ltb_leb, !negb_true_iff. intros H1 H2.
  destruct (String.leb u s) eqn:E; [|done].
  destruct (String.leb_total s t) as [H3|H3]; [|congruence].
  apply leb_le in E, H3. pose proof (transitivity E H3) as H4.
  apply leb_le in H4. congruence.
Qed.

Lemma ltb_total s t : s ≠ t → String.ltb s t = true ∨ String.ltb t s = true.
Proof.
  rewrite !ltb_leb, !negb_true_iff. intros Hne.
  destruct (String.leb t s) eqn:E1; [|by left]. destruct (String.leb s t) eqn:E2; [|by right].
  destruct Hne. by apply String.leb_antisym.
Qed.
End StringOrder.

Lemma less_asym a b : less a b = true → less b a = false.
Proof.
  unfold less. rewrite (Z.eqb_sym (Priority (Spec b))).
  rewrite (Z.eqb_sym (CreationTimestamp (Meta b))).
  destruct (Z.eqb_spec (Priority (Spec a)) (Priority (Spec b))) as [|Hp]; simpl; [|lia].
  destruct (Z.eqb_spec (CreationTimestamp (Meta a)) (CreationTimestamp (Meta b)));
    simpl; [|lia].
  repeat case_bool_decide; simpl; try congruence; apply ltb_asym.
Qed.

Lemma less_trans a b c : less a b = true → less b c = true → less a c = true.
Proof.
  unfold less.
  destruct (Z.eqb_spec (Priority (Spec a)) (Priority (Spec b))) as [Hab|Hab]; simpl;
  destruct (Z.eqb_spec (Priority (Spec b)) (Priority (Spec c))) as [Hbc|Hbc]; simpl;
  destruct (Z.eqb_spec (Priority (Spec a)) (Priority (Spec c))) as [Hac|Hac]; simpl;
    try lia.
  destruct (Z.eqb_spec (CreationTimestamp (Meta a)) (CreationTimestamp (Meta b)));
  destruct (Z.eqb_spec (CreationTimestamp (Meta b)) (CreationTimestamp (Meta c)));
  destruct (Z.eqb_spec (CreationTimestamp (Meta a)) (CreationTimestamp (Meta c)));
    simpl; try lia.
  case_bool_decide as H1; case_bool_decide as H2; case_bool_decide as H3; simpl;
    try congruence; intros L1 L2.
  - by eapply ltb_trans.
  - pose proof (ltb_asym _ _ L1). rewrite H3 in *. congruence.
  - by eapply ltb_trans.
Qed.

Lemma less_total a b : route_key a ≠ route_key b → less a b = true ∨ less b a = true.
Proof.
  unfold less, route_key. rewrite (Z.eqb_sym (Priority (Spec b))).
  rewrite (Z.eqb_sym (CreationTimestamp (Meta b))). intros Hne.
  destruct (Z.eqb_spec (Priority (Spec a)) (Priority (Spec b))) as [|Hp]; simpl; [|lia].
  destruct (Z.eqb_spec (CreationTimestamp (Meta a)) (CreationTimestamp (Meta b)));
    simpl; [|lia].
  repeat case_bool_decide; simpl; try congruence; apply ltb_total; congruence.
Qed.

(** Routes that compare equal have the same rank, so the order is negatively
    transitive as a sort needs it. *)
Lemma less_same_rank a b :
  less a b = false → less b a = false →
  ∀ c, less a c = less b c ∧ less c a = less c b.
Proof.
  intros Hab Hba c. destruct (decide (route_key a = route_key b)) as [Hk|Hk].
  2: { destruct (less_total _ _ Hk); congruence. }
  unfold route_key in Hk. injection Hk as Hns Hn.
  assert (Priority (Spec a) = Priority (Spec b) ∧
          CreationTimestamp (Meta a) = CreationTimestamp (Meta b)) as [Hp Ht].
  { revert Hab Hba. unfold less. rewrite (Z.eqb_sym (Priority (Spec b))).
    rewrite (Z.eqb_sym (CreationTimestamp (Meta b))).
    destruct (Z.eqb_spec (Priority (Spec a)) (Priority (Spec b))); simpl; [|lia].
    destruct (Z.eqb_spec (CreationTimestamp (Meta a)) (CreationTimestamp (Meta b))); simpl; lia. }
  unfold less. by rewrite Hp, Ht, Hns, Hn.
Qed.

Lemma less_negtrans x y z : less y x = false → less z y = false → less z x = false.
Proof.
  intros H1 H2. destruct (less z x) eqn:E; [|done].
  destruct (less x y) eqn:E1.
  - rewrite (less_trans _ _ _ E E1) in H2. done.
  - destruct (less_same_rank x y E1 H1 z) as [_ Hz]. congruence.
Qed.

(** The conflict order is a strict total order on routes with distinct
    names: asymmetric, transitive, and any two such routes compare. *)
Theorem less_strict_total a b c :
  (less a b = true → less b a = false) ∧
  (less a b = true → less b c = true → less a c = true) ∧
  (route_key a ≠ route_key b → less a b = true ∨ less b a = true).
Proof. split_and!; [apply less_asym|apply less_trans|apply less_total]. Qed.

(** ** What the loop computes *)

(** The first route of a list claiming a name. *)
Definition first_claim (db : string) (l : list PostgresRoute) : option PostgresRoute :=
  head (filter (λ r, EffectiveDatabase r = db) l).

Lemma first_claim_snoc db l r :
  first_claim db (l ++ [r]) =
  match first_claim db l with
  | Some w => Some w
  | None => if bool_decide (EffectiveDatabase r = db) then Some r else None
  end.
Proof.
  unfold first_claim. rewrite filter_app, filter_cons, filter_nil.
  destruct (filter _ l) as [|w t]; simpl; [|done].
  case_decide; case_bool_decide; done.
Qed.

Lemma first_claim_Some db l r :
  first_claim db l = Some r → r ∈ l ∧ EffectiveDatabase r = db.
Proof.
  unfold first_claim. intros H. apply head_Some_elem_of in H.
  by apply list_elem_of_filter in H as [? ?].
Qed.

Lemma first_claim_None db l r :
  first_claim db l = None → r ∈ l → EffectiveDatabase r ≠ db.
Proof.
  unfold first_claim. intros H Hr Hd.
  assert (r ∈ filter (λ r, EffectiveDatabase r = db) l) as Hin
    by by apply list_elem_of_filter.
  destruct (filter _ l); [by apply elem_of_nil in Hin|done].
Qed.

Section Built.
Context `{Resolver} (ctx : context) (clusterDomain : string).

Abbreviation resolved r := (resolveBounded ctx r clusterDomain).
Abbreviation run l := (fold_left (build_step ctx clusterDomain) l (MkBuild ∅ ∅ ∅)).

(** The decision for a route that won its name, and for one that lost it. *)
Definition won (r : PostgresRoute) : Decision :=
  match resolveBounded ctx r clusterDomain with
  | Ok rt => MkDecision (EffectiveDatabase r) true no_name (Address rt) None
  | Err e => MkDecision (EffectiveDatabase r) true no_name "" (Some e)
  end.

Definition lost (r w : PostgresRoute) : Decision :=
  MkDecision (EffectiveDatabase r) false (route_key w) "" None.

Definition served (r : PostgresRoute) : option Route :=
  match resolveBounded ctx r clusterDomain with Ok rt => Some rt | Err _ => None end.

(** The decision given the first claimant of the route's name. *)
Definition verdict (l : list PostgresRoute) (r : PostgresRoute) : Decision :=
  match first_claim (EffectiveDatabase r) l with
  | Some w => if bool_decide (route_key w = route_key r) then won r else lost r w
  | None => won r
  end.

Lemma run_snoc l r : run (l ++ [r]) = build_step ctx clusterDomain (run l) r.
Proof. apply fold_left_app. Qed.

Lemma build_step_eq s r :
  build_step ctx clusterDomain s r =
  match bs_winners s !! EffectiveDatabase r with
  | Some w => MkBuild (<[route_key r := MkDecision (EffectiveDatabase r) false w "" None]>
                         (bs_decisions s)) (bs_table s) (bs_winners s)
  | None => MkBuild (<[route_key r := won r]> (bs_decisions s))
                    (match served r with
                     | Some rt => <[EffectiveDatabase r := rt]> (bs_table s)
                     | None => bs_table s end)
                    (<[EffectiveDatabase r := route_key r]> (bs_winners s))
  end.
Proof.
  unfold build_step, won, served.
  destruct (bs_winners s !! _); [done|]. by destruct (resolved r).
Qed.

Lemma run_winners l db : bs_winners (run l) !! db = route_key <$> first_claim db l.
Proof.
  induction l as [|r l IH] using rev_ind; [done|].
  rewrite run_snoc, build_step_eq, first_claim_snoc.
  destruct (decide (EffectiveDatabase r = db)) as [<-|Hd].
  - rewrite IH. rewrite bool_decide_eq_true_2 by done.
    destruct (first_claim _ l); simpl; [by rewrite IH|]. by rewrite lookup_insert_eq.
  - rewrite bool_decide_eq_false_2 by done.
    destruct (bs_winners _ !! EffectiveDatabase r); simpl.
    + rewrite IH. by destruct (first_claim db l).
    + rewrite lookup_insert_ne, IH by done. by destruct (first_claim db l).
Qed.

Lemma run_step l r :
  run (l ++ [r]) =
  match first_claim (EffectiveDatabase r) l with
  | Some w => MkBuild (<[route_key r := lost r w]> (bs_decisions (run l)))
                      (bs_table (run l)) (bs_winners (run l))
  | None => MkBuild (<[route_key r := won r]> (bs_decisions (run l)))
                    (match served r with
                     | Some rt => <[EffectiveDatabase r := rt]> (bs_table (run l))
                     | None => bs_table (run l) end)
                    (<[EffectiveDatabase r := route_key r]> (bs_winners (run l)))
  end.
Proof.
  rewrite run_snoc, build_step_eq, run_winners. by destruct (first_claim _ l).
Qed.

Lemma run_table l db : bs_table (run l) !! db = first_claim db l ≫= served.
Proof.
  induction l as [|r l IH] using rev_ind; [done|].
  rewrite run_step, first_claim_snoc.
  destruct (first_claim (EffectiveDatabase r) l) as [w|] eqn:Ew; cbn [bs_table].
  - rewrite IH. destruct (first_claim db l) eqn:Ef; [done|].
    case_bool_decide as Hd; [congruence|done].
  - case_bool_decide as Hd.
    + subst db. rewrite Ew. destruct (served r) eqn:Es; simpl.
      * by rewrite lookup_insert_eq.
      * by rewrite IH, Ew.
    + destruct (served r).
      * rewrite lookup_insert_ne, IH by done. by destruct (first_claim db l).
      * rewrite IH. by destruct (first_claim db l).
Qed.

Lemma verdict_snoc l r x :
  x ∈ l → verdict (l ++ [r]) x = verdict l x.
Proof.
  intros Hx. unfold verdict. rewrite first_claim_snoc.
  destruct (first_claim (EffectiveDatabase x) l) eqn:Ef; [done|].
  by destruct (first_claim_None _ _ _ Ef Hx).
Qed.

Lemma run_decisions l :
  NoDup (map route_key l) →
  (∀ r, r ∈ l → bs_decisions (run l) !! route_key r = Some (verdict l r)) ∧
  (∀ k, k ∉ map route_key l → bs_decisions (run l) !! k = None).
Proof.
  induction l as [|r l IH] using rev_ind; intros Hnd.
  { split; [by intros ? ?%elem_of_nil|done]. }
  rewrite map_app in Hnd. apply NoDup_app in Hnd as (Hnd & Hdis & _).
  destruct (IH Hnd) as [IH1 IH2]. clear IH.
  assert (∀ x, x ∈ l → route_key r ≠ route_key x) as Hfresh.
  { intros x Hx Heq. apply (Hdis (route_key x)).
    - by apply list_elem_of_fmap_2.
    - simpl. rewrite Heq. by left. }
  rewrite run_step. split.
  - intros x [Hx|Hx%list_elem_of_singleton]%elem_of_app.
    + rewrite verdict_snoc by done.
      destruct (first_claim (EffectiveDatabase r) l); cbn [bs_decisions];
        (rewrite lookup_insert_ne by auto); auto.
    + subst x. unfold verdict. rewrite first_claim_snoc.
      destruct (first_claim (EffectiveDatabase r) l) as [w|] eqn:Ew; cbn [bs_decisions];
        rewrite lookup_insert_eq.
      * rewrite bool_decide_eq_false_2; [done|].
        apply first_claim_Some in Ew as [Hw _]. intros Heq. by apply (Hfresh w).
      * by rewrite !bool_decide_eq_true_2 by done.
  - intros k Hk. rewrite map_app, not_elem_of_app in Hk. destruct Hk as [Hk1 Hk2].
    simpl in Hk2. apply not_elem_of_cons in Hk2 as [Hk2 _].
    destruct (first_claim (EffectiveDatabase r) l); cbn [bs_decisions];
      (rewrite lookup_insert_ne by done); auto.
Qed.
End Built.

(** ** Ownership of a database name, stated without an algorithm *)

(** What the documentation promises: the higher priority goes first, then the older
    route, then the namespace and the name. *)
Definition precedes (a b : PostgresRoute) : Prop :=
  Priority (Spec b) < Priority (Spec a) ∨
  Priority (Spec a) = Priority (Spec b) ∧
  (CreationTimestamp (Meta a) < CreationTimestamp (Meta b) ∨
   CreationTimestamp (Meta a) = CreationTimestamp (Meta b) ∧
   (String.ltb (Namespace (Meta a)) (Namespace (Meta b)) = true ∨
    Namespace (Meta a) = Namespace (Meta b) ∧
    String.ltb (Name (Meta a)) (Name (Meta b)) = true)).

Lemma less_precedes a b : less a b = true ↔ precedes a b.
Proof.
  unfold less, precedes.
  destruct (Z.eqb_spec (Priority (Spec a)) (Priority (Spec b))) as [He|He]; cbn [negb];
    [rewrite He|rewrite Z.ltb_lt; lia].
  destruct (Z.eqb_spec (CreationTimestamp (Meta a)) (CreationTimestamp (Meta b))) as [Ht|Ht];
    cbn [negb]; [rewrite Ht|rewrite Z.ltb_lt; lia].
  destruct (bool_decide_reflect (Namespace (Meta a) = Namespace (Meta b))) as [Hn|Hn]; cbn [negb].
  - rewrite Hn. assert (String.ltb (Namespace (Meta b)) (Namespace (Meta b)) = false) as Hirr
      by (destruct (String.ltb _ _) eqn:E; [|done]; pose proof (ltb_asym _ _ E); congruence).
    rewrite Hirr. split; [intros ?; right; split; [done|right; split; [done|by right]]|].
    intros [?|(_ & [?|(_ & [?|[_ ?]])])]; try lia; done.
  - split; [intros ?; right; split; [done|right; split; [done|by left]]|].
    intros [?|(_ & [?|(_ & [?|[? _]])])]; try lia; done.
Qed.

(** [owns rs r]: [r] goes before every other route of [rs] that claims its name. *)
Definition owns (rs : list PostgresRoute) (r : PostgresRoute) : Prop :=
  r ∈ rs ∧ ∀ r', r' ∈ rs → EffectiveDatabase r' = EffectiveDatabase r → r' ≠ r → precedes r r'.

(** API objects of one kind are unique by namespace and name. *)
Definition unique_names (rs : list PostgresRoute) : Prop := NoDup (map route_key rs).

Lemma unique_names_inj rs a b :
  unique_names rs → a ∈ rs → b ∈ rs → route_key a = route_key b → a = b.
Proof.
  unfold unique_names. intros Hnd Ha Hb Hk.
  apply list_elem_of_lookup in Ha as [i Hi], Hb as [j Hj].
  assert (i = j) as ->; [|congruence].
  eapply (NoDup_lookup (map route_key rs)); [done| |].
  - by rewrite list_lookup_fmap, Hi.
  - by rewrite list_lookup_fmap, Hj, Hk.
Qed.

Lemma unique_names_perm rs1 rs2 : rs1 ≡ₚ rs2 → unique_names rs1 → unique_names rs2.
Proof. unfold unique_names. by intros ->. Qed.

Lemma ordered_perm rs : SliceStable less rs ≡ₚ rs.
Proof. apply SliceStable_perm. Qed.

Lemma elem_of_ordered rs r : r ∈ SliceStable less rs ↔ r ∈ rs.
Proof. by rewrite ordered_perm. Qed.

Lemma ordered_sorted rs : StronglySorted (λ x y, less y x = false) (SliceStable less rs).
Proof. apply SliceStable_sorted; [apply less_asym|apply less_negtrans]. Qed.

Lemma owns_unique rs a b :
  owns rs a → owns rs b → EffectiveDatabase a = EffectiveDatabase b → a = b.
Proof.
  intros [Ha Hla] [Hb Hlb] Hd. destruct (decide (a = b)) as [|Hne]; [done|].
  pose proof (Hla b Hb (eq_sym Hd) (not_eq_sym Hne)) as Hab%less_precedes%less_asym.
  pose proof (Hlb a Ha Hd Hne) as Hba%less_precedes. congruence.
Qed.

(** A head of the claimants in a sorted list owns the name. *)
Lemma first_claim_before db l r x :
  StronglySorted (λ x y, less y x = false) l →
  first_claim db l = Some r → x ∈ l → EffectiveDatabase x = db → x ≠ r → less x r = false.
Proof.
  intros Hs. induction Hs as [|y l Hs IH Hy]; [by intros _ ?%elem_of_nil|].
  unfold first_claim. rewrite filter_cons. case_decide as Hd; simpl.
  - intros [= <-] Hx Hxd Hne. apply elem_of_cons in Hx as [?|Hx]; [done|].
    rewrite Forall_forall in Hy. by apply Hy.
  - intros Hf Hx Hxd Hne. apply elem_of_cons in Hx as [->|Hx]; [done|]. auto.
Qed.

Lemma first_claim_owns rs db r :
  unique_names rs →
  first_claim db (SliceStable less rs) = Some r ↔ owns rs r ∧ EffectiveDatabase r = db.
Proof.
  intros Hu.
  assert (∀ w, first_claim db (SliceStable less rs) = Some w →
            owns rs w ∧ EffectiveDatabase w = db) as Hfwd.
  { intros w Hf. pose proof (first_claim_Some _ _ _ Hf) as [Hw Hd].
    rewrite elem_of_ordered in Hw. split; [|done]. split; [done|].
    intros x Hx Hxd Hne. apply less_precedes.
    assert (less x w = false) as Hxw.
    { eapply first_claim_before; [apply ordered_sorted|done| |congruence|done].
      by apply elem_of_ordered. }
    destruct (less_total w x) as [?|?]; [|done|congruence].
    intros Hk. apply Hne. by apply (unique_names_inj rs). }
  split; [apply Hfwd|]. intros [Ho Hd].
  destruct (first_claim db (SliceStable less rs)) as [w|] eqn:Ef.
  - destruct (Hfwd w eq_refl) as [Hw Hwd]. f_equal. eapply owns_unique; [done..|congruence].
  - destruct (first_claim_None _ _ r Ef); [|done]. apply elem_of_ordered, Ho.
Qed.

Lemma resolve_ok `{Resolver} ctx r cd rt :
  resolve ctx r cd = Ok rt →
  ∃ h p t, resolveBackend ctx r cd = Ok (h, p) ∧ resolveTLS ctx r = Ok t ∧
    rt = MkResolved (route_key r) (EffectiveDatabase r) (EffectiveTargetDatabase r) h p t.
Proof.
  unfold resolve. destruct (resolveBackend ctx r cd) as [[h p]|]; [|done].
  destruct (resolveTLS ctx r) as [t|]; [|done]. intros [= <-]. by eexists _, _, _.
Qed.

Lemma resolveBounded_source `{Resolver} ctx r cd rt :
  resolveBounded ctx r cd = Ok rt → Source rt = route_key r.
Proof. intros Hr. apply resolve_ok in Hr as (? & ? & ? & _ & _ & ->). done. Qed.

(** ** Properties of the table *)

Section BuildProperties.
Context `{Resolver} (ctx : context) (clusterDomain : string).

Lemma Build_lookup rs db :
  (t ← sn_Table (Build ctx rs clusterDomain); Lookup t db)
  = (first_claim db (SliceStable less rs) ≫= served ctx clusterDomain).
Proof. unfold Build, Lookup. simpl. apply run_table. Qed.

(** C19: every replica builds the same table and takes the same decisions: the
    snapshot does not depend on the order in which the routes were listed. *)
Theorem build_deterministic rs1 rs2 :
  rs1 ≡ₚ rs2 → unique_names rs1 →
  Build ctx rs1 clusterDomain = Build ctx rs2 clusterDomain.
Proof.
  intros Hp Hu. unfold Build.
  rewrite (SliceStable_unique less less_asym less_negtrans rs1 rs2 Hp); [done|].
  intros x y Hx Hy Hxy Hyx. apply (unique_names_inj rs1); [done..|].
  destruct (decide (route_key x = route_key y)) as [|Hk]; [done|].
  destruct (less_total x y Hk); congruence.
Qed.

Lemma build_table_spec_aux rs db rt :
  unique_names rs →
  (t ← sn_Table (Build ctx rs clusterDomain); Lookup t db) = Some rt ↔
  ∃ r, owns rs r ∧ EffectiveDatabase r = db ∧ resolveBounded ctx r clusterDomain = Ok rt.
Proof.
  intros Hu. rewrite Build_lookup, bind_Some. unfold served. split.
  - intros (r & Hf & Hs). apply first_claim_owns in Hf as [Ho Hd]; [|done].
    exists r. split_and!; [done..|]. case_match; by simplify_eq.
  - intros (r & Ho & Hd & Hr). exists r. rewrite Hr. split; [|done].
    by apply first_claim_owns.
Qed.

(** C2: the table maps a database name to a backend exactly when the owner of
    the name resolves to that backend: a losing route never serves, and an owner
    that does not resolve leaves the name unserved rather than giving it away. *)
Theorem build_table_spec rs db rt :
  unique_names rs →
  (t ← sn_Table (Build ctx rs clusterDomain); Lookup t db) = Some rt ↔
  ∃ r, owns rs r ∧ EffectiveDatabase r = db ∧ resolveBounded ctx r clusterDomain = Ok rt.
Proof. apply build_table_spec_aux. Qed.

Lemma build_decision_spec_aux rs k :
  unique_names rs →
  match Decisions (Build ctx rs clusterDomain) !! k with
  | None => k ∉ map route_key rs
  | Some d => ∃ r, r ∈ rs ∧ route_key r = k ∧
      ((owns rs r ∧ d = won ctx clusterDomain r) ∨
       (∃ w, owns rs w ∧ w ≠ r ∧ EffectiveDatabase w = EffectiveDatabase r ∧ d = lost r w))
  end.
Proof.
  intros Hu. unfold Build. simpl.
  pose proof (unique_names_perm _ _ (symmetry (ordered_perm rs)) Hu) as Hu'.
  destruct (run_decisions ctx clusterDomain (SliceStable less rs) Hu') as [Hin Hout].
  destruct (decide (k ∈ map route_key rs)) as [Hk|Hk].
  - apply list_elem_of_fmap in Hk as (r & -> & Hr).
    rewrite Hin by by apply elem_of_ordered. exists r. split_and!; [done..|].
    unfold verdict.
    destruct (first_claim (EffectiveDatabase r) (SliceStable less rs)) as [w|] eqn:Ef.
    2: { destruct (first_claim_None _ _ r Ef); [by apply elem_of_ordered|done]. }
    apply first_claim_owns in Ef as [Ho Hd]; [|done].
    case_bool_decide as Hwk.
    + apply (unique_names_inj rs) in Hwk; [|done|apply Ho|done]. subst. by left.
    + right. exists w. split_and!; try done. congruence.
  - rewrite Hout; [done|]. by rewrite (ordered_perm rs).
Qed.

(** C20: every route gets a decision, and no other name does; the owner of a name
    is accepted, with its endpoint or its resolution error, and every other
    claimant is rejected with the owner's name. *)
Theorem build_decision_spec rs k :
  unique_names rs →
  match Decisions (Build ctx rs clusterDomain) !! k with
  | None => k ∉ map route_key rs
  | Some d => ∃ r, r ∈ rs ∧ route_key r = k ∧
      ((owns rs r ∧ d = won ctx clusterDomain r) ∨
       (∃ w, owns rs w ∧ w ≠ r ∧ EffectiveDatabase w = EffectiveDatabase r ∧ d = lost r w))
  end.
Proof. apply build_decision_spec_aux. Qed.

(** Exactly one route owns a name that some route claims. *)
Lemma owner_exists rs r :
  unique_names rs → r ∈ rs → ∃ w, owns rs w ∧ EffectiveDatabase w = EffectiveDatabase r.
Proof.
  intros Hu Hr.
  destruct (first_claim (EffectiveDatabase r) (SliceStable less rs)) as [w|] eqn:Ef.
  - exists w. by apply first_claim_owns.
  - destruct (first_claim_None _ _ r Ef); [by apply elem_of_ordered|done].
Qed.

Lemma decision_of rs r :
  unique_names rs → owns rs r →
  Decisions (Build ctx rs clusterDomain) !! route_key r = Some (won ctx clusterDomain r).
Proof.
  intros Hu Ho. pose proof (build_decision_spec_aux rs (route_key r) Hu) as Hs.
  destruct (Decisions _ !! route_key r) as [d|].
  - destruct Hs as (x & Hx & Hk & [[_ ->]|(w & Hw & Hne & Hd & ->)]).
    + by rewrite (unique_names_inj rs x r Hu Hx (proj1 Ho) Hk).
    + rewrite (unique_names_inj rs x r Hu Hx (proj1 Ho) Hk) in *.
      destruct Hne. by eapply owns_unique.
  - destruct Hs. apply list_elem_of_fmap_2, Ho.
Qed.

Lemma decisions_match_table_aux rs :
  unique_names rs →
  (∀ k d, Decisions (Build ctx rs clusterDomain) !! k = Some d → Programmed d = true →
    ∃ rt, (t ← sn_Table (Build ctx rs clusterDomain); Lookup t (d_Database d)) = Some rt ∧
      Source rt = k ∧ Endpoint d = Address rt) ∧
  (∀ db rt, (t ← sn_Table (Build ctx rs clusterDomain); Lookup t db) = Some rt →
    ∃ d, Decisions (Build ctx rs clusterDomain) !! Source rt = Some d ∧
      Programmed d = true ∧ d_Database d = db ∧ Endpoint d = Address rt).
Proof.
  intros Hu. split.
  - intros k d Hk Hp. pose proof (build_decision_spec_aux rs k Hu) as Hs. rewrite Hk in Hs.
    destruct Hs as (r & Hr & <- & [[Ho ->]|(w & _ & _ & _ & ->)]); [|done].
    unfold won in *. destruct (resolveBounded ctx r clusterDomain) as [rt|e] eqn:E; [|done].
    exists rt. simpl. split_and!; [|by eapply resolveBounded_source|done].
    apply build_table_spec_aux; [done|]. by exists r.
  - intros db rt Hl. apply build_table_spec_aux in Hl as (r & Ho & <- & Hr); [|done].
    rewrite (resolveBounded_source _ _ _ _ Hr), (decision_of rs r Hu Ho).
    unfold won. rewrite Hr. by eexists.
Qed.

(** The decisions report the table truthfully: a route reported as
    programmed is the one the table serves its database from, at the reported
    endpoint, and every entry of the table is reported that way. *)
Theorem decisions_match_table rs :
  unique_names rs →
  (∀ k d, Decisions (Build ctx rs clusterDomain) !! k = Some d → Programmed d = true →
    ∃ rt, (t ← sn_Table (Build ctx rs clusterDomain); Lookup t (d_Database d)) = Some rt ∧
      Source rt = k ∧ Endpoint d = Address rt) ∧
  (∀ db rt, (t ← sn_Table (Build ctx rs clusterDomain); Lookup t db) = Some rt →
    ∃ d, Decisions (Build ctx rs clusterDomain) !! Source rt = Some d ∧
      Programmed d = true ∧ d_Database d = db ∧ Endpoint d = Address rt).
Proof. apply decisions_match_table_aux. Qed.

(** Adding a route leaves the serving of a database alone unless the route
    claims that database and comes before everything else that claims it. *)
Theorem build_isolation rs r db :
  unique_names (r :: rs) →
  (EffectiveDatabase r ≠ db ∨ ∃ w, w ∈ rs ∧ EffectiveDatabase w = db ∧ precedes w r) →
  (t ← sn_Table (Build ctx (r :: rs) clusterDomain); Lookup t db)
  = (t ← sn_Table (Build ctx rs clusterDomain); Lookup t db).
Proof.
  intros Hu Hw. assert (unique_names rs) as Hu' by by inversion Hu.
  assert (∀ x, EffectiveDatabase x = db → owns rs x ↔ owns (r :: rs) x) as Hiff.
  { intros x Hx. split.
    - intros [Hin Hl]. split; [by right|]. intros y Hy Hyd Hne.
      apply elem_of_cons in Hy as [->|Hy]; [|auto].
      destruct Hw as [?|(w & Hw & Hwd & Hwr)]; [congruence|].
      destruct (decide (w = x)) as [->|Hwx]; [done|].
      apply less_precedes, (less_trans x w r); apply less_precedes; [|done].
      apply Hl; [done|congruence|done].
    - intros [Hin Hl]. split.
      + apply elem_of_cons in Hin as [->|Hin]; [|done].
        destruct Hw as [?|(w & Hw & Hwd & Hwr)]; [congruence|].
        destruct (decide (w = r)) as [->|Hne]; [done|].
        assert (precedes r w) as Hrw%less_precedes%less_asym
          by (apply Hl; [by right|congruence|done]).
        apply less_precedes in Hwr. congruence.
      + intros y Hy Hyd Hne. apply Hl; [by right|done|done]. }
  apply option_eq. intros rt. rewrite !build_table_spec_aux by done.
  split; intros (x & Ho & Hd & Hr); exists x; split_and!; try done; by apply (Hiff x Hd).
Qed.
End BuildProperties.

(** ** A concrete cluster for the witnesses *)

Definition sample_resolver : Resolver := {|
  ResolveServicePort _ _ name _ :=
    if bool_decide (name = "gone")
    then Err (Errorf [PW (ESentinel ErrBackendNotFound); Lit ": service"])
    else Ok 5432;
  LoadCABundle _ _ _ _ := Ok (MkCertPool [])
|}.

Definition sample_meta (ns name : string) (created : Z) : ObjectMeta :=
  MkMeta ns name "" 1 created None ∅ ∅ [].

Definition sample_route (ns name db svc : string) (prio created : Z) : PostgresRoute :=
  MkRoute (sample_meta ns name created)
    (MkSpec db "" (MkBackend BackendTypeService
                     (Some (MkServiceBackend svc "" (FromString "5432"))) None) None prio)
    (MkStatus 0 "" "" "" []).

Definition by_hand : PostgresRoute := sample_route "apps" "billing" "" "billing-rw" 0 50.
Definition discovered : PostgresRoute :=
  sample_route "apps" "pg-discovered" "billing" "pg" (-100) 10.
Definition broken : PostgresRoute := sample_route "apps" "orders" "" "gone" 0 20.

Definition no_deadline : context := MkContext None.

Lemma sample_unique : unique_names [discovered; by_hand; broken].
Proof. unfold unique_names. apply (bool_decide_unpack _). by vm_compute. Qed.

Lemma sample_unique_perm : unique_names [broken; discovered; by_hand].
Proof. unfold unique_names. apply (bool_decide_unpack _). by vm_compute. Qed.

Lemma build_deterministic_witness :
  @Build sample_resolver no_deadline [discovered; by_hand; broken] "cluster.local"
  = @Build sample_resolver no_deadline [broken; discovered; by_hand] "cluster.local".
Proof.
  apply build_deterministic; [|exact sample_unique].
  symmetry. apply (Permutation_cons_append [discovered; by_hand] broken).
Defined.

Lemma by_hand_owns : owns [discovered; by_hand; broken] by_hand.
Proof.
  split; [by right; left|]. intros r Hr Hd Hne. apply less_precedes.
  repeat (apply elem_of_cons in Hr as [->|Hr]; [by vm_compute in Hd |- *|]).
  by apply elem_of_nil in Hr.
Qed.

Definition served_by_hand : Route :=
  MkResolved (MkName "apps" "billing") "billing" "billing"
    "billing-rw.apps.svc.cluster.local" 5432 (MkTLSConfig BackendTLSDisable None "").

Lemma build_table_spec_witness :
  (t ← sn_Table (@Build sample_resolver no_deadline [discovered; by_hand; broken] "cluster.local");
   Lookup t "billing") = Some served_by_hand.
Proof.
  apply (build_table_spec no_deadline "cluster.local" [discovered; by_hand; broken]);
    [exact sample_unique|].
  exists by_hand. split_and!; [exact by_hand_owns|by vm_compute|by vm_compute].
Defined.

Lemma build_decision_spec_witness :
  match Decisions (@Build sample_resolver no_deadline [discovered; by_hand; broken]
                     "cluster.local") !! MkName "apps" "pg-discovered" with
  | None => MkName "apps" "pg-discovered" ∉ map route_key [discovered; by_hand; broken]
  | Some d => ∃ r, r ∈ [discovered; by_hand; broken] ∧ route_key r = MkName "apps" "pg-discovered" ∧
      ((owns [discovered; by_hand; broken] r ∧
        d = @won sample_resolver no_deadline "cluster.local" r) ∨
       (∃ w, owns [discovered; by_hand; broken] w ∧ w ≠ r ∧
          EffectiveDatabase w = EffectiveDatabase r ∧ d = lost r w))
  end.
Proof.
  apply (build_decision_spec no_deadline "cluster.local"). exact sample_unique.
Defined.

Lemma decisions_match_table_witness :
  ∃ d, Decisions (@Build sample_resolver no_deadline [discovered; by_hand; broken]
                    "cluster.local") !! Source served_by_hand = Some d ∧
       Programmed d = true ∧ d_Database d = "billing" ∧ Endpoint d = Address served_by_hand.
Proof.
  apply (decisions_match_table no_deadline "cluster.local" [discovered; by_hand; broken]
           sample_unique).
  by vm_compute.
Defined.

Lemma build_isolation_witness :
  (t ← sn_Table (@Build sample_resolver no_deadline (discovered :: [by_hand; broken])
                   "cluster.local"); Lookup t "billing")
  = (t ← sn_Table (@Build sample_resolver no_deadline [by_hand; broken] "cluster.local");
     Lookup t "billing").
Proof.
  apply (build_isolation no_deadline "cluster.local"); [exact sample_unique|].
  right. exists by_hand. split_and!; [by left|by vm_compute|left; reflexivity].
Defined.

(** ** Properties of resolution *)

(** The route asks for TLS towards its backend. *)
Definition tls_requested (r : PostgresRoute) : bool :=
  match TLS (Spec r) with
  | Some s => negb (bool_decide (bt_Mode s = "")) && negb (bool_decide (bt_Mode s = BackendTLSDisable))
  | None => false
  end.

Definition verifies (mode : string) : bool :=
  bool_decide (mode = BackendTLSVerifyCA) || bool_decide (mode = BackendTLSVerifyFull).

(** The outcomes of [resolveTLS]. *)
Lemma resolveTLS_cases `{Resolver} ctx r :
  (tls_requested r = false ∧ resolveTLS ctx r = Ok (MkTLSConfig BackendTLSDisable None "")) ∨
  ∃ s, TLS (Spec r) = Some s ∧ tls_requested r = true ∧
    ((verifies (bt_Mode s) = false ∨ bt_CASecretRef s = None) ∧
       resolveTLS ctx r = Ok (MkTLSConfig (bt_Mode s) None (bt_ServerName s)) ∨
     ∃ ref, verifies (bt_Mode s) = true ∧ bt_CASecretRef s = Some ref ∧
       resolveTLS ctx r =
         match LoadCABundle ctx (Namespace (Meta r)) (sk_Name ref)
                 (if bool_decide (sk_Key ref = "") then "ca.crt" else sk_Key ref) with
         | Ok pool => Ok (MkTLSConfig (bt_Mode s) (Some pool) (bt_ServerName s))
         | Err err => Err (Errorf [PW (ESentinel ErrCABundle); Lit ": "; PW err])
         end).
Proof.
  unfold resolveTLS, tls_requested, verifies. destruct (TLS (Spec r)) as [s|]; [|by left].
  destruct (bool_decide (bt_Mode s = "")) eqn:E1; simpl; [by left|].
  destruct (bool_decide (bt_Mode s = BackendTLSDisable)) eqn:E2; simpl; [by left|].
  right. exists s. split_and!; [done..|].
  destruct (_ || _) eqn:E3; simpl; [|by auto].
  destruct (bt_CASecretRef s) as [ref|]; [|by auto]. right. by exists ref.
Qed.

(** C38: resolution never weakens the TLS policy of a route: TLS towards the
    backend is on exactly when the route asks for it, with the route's mode and
    server name, and trust anchors are pinned exactly when a verifying mode names
    a CA secret. *)
Theorem resolve_tls_policy `{Resolver} ctx r cd rt :
  resolve ctx r cd = Ok rt →
  Enabled (r_TLS rt) = tls_requested r ∧
  (∀ s, TLS (Spec r) = Some s → tls_requested r = true →
     Mode (r_TLS rt) = bt_Mode s ∧ ServerName (r_TLS rt) = bt_ServerName s ∧
     (RootCAs (r_TLS rt) = None ↔ verifies (bt_Mode s) = false ∨ bt_CASecretRef s = None)).
Proof.
  intros Hr. apply resolve_ok in Hr as (h & p & t & _ & Ht & ->). cbn [r_TLS].
  destruct (resolveTLS_cases ctx r) as [[Hq Hc]|(s & Hs & Hq & Hc)].
  { rewrite Hc in Ht. simplify_eq. rewrite Hq. done. }
  assert (Enabled (MkTLSConfig (bt_Mode s) (RootCAs t) (bt_ServerName s)) = true) as He.
  { unfold tls_requested in Hq. by rewrite Hs in Hq. }
  rewrite Hq. unfold Enabled in *. cbn [Mode] in He.
  destruct Hc as [[Hno Hc]|(ref & Hv & Hca & Hc)]; rewrite Hc in Ht.
  - simplify_eq/=. split; [done|]. intros s' Hs' _. simplify_eq. done.
  - destruct (LoadCABundle _ _ _ _) as [pool|]; [|done]. simplify_eq/=. split; [done|].
    intros s' Hs' _. simplify_eq. split_and!; [done..|]. split; [done|].
    intros [?|?]; congruence.
Qed.

Definition verified_route : PostgresRoute :=
  MkRoute (sample_meta "apps" "secure" 1)
    (MkSpec "" "" (MkBackend BackendTypeAddress None (Some (MkAddressBackend "pg.example.com" 0)))
       (Some (MkBackendTLS BackendTLSVerifyFull (Some (MkSecretKeyReference "ca" "")) "pg")) 0)
    (MkStatus 0 "" "" "" []).

Lemma resolve_tls_policy_witness :
  ∃ rt, @resolve sample_resolver no_deadline verified_route "cluster.local" = Ok rt ∧
    Enabled (r_TLS rt) = tls_requested verified_route.
Proof.
  exists (MkResolved (MkName "apps" "secure") "secure" "secure" "pg.example.com" 5432
            (MkTLSConfig BackendTLSVerifyFull (Some (MkCertPool [])) "pg")).
  assert (@resolve sample_resolver no_deadline verified_route "cluster.local" =
    Ok (MkResolved (MkName "apps" "secure") "secure" "secure" "pg.example.com" 5432
          (MkTLSConfig BackendTLSVerifyFull (Some (MkCertPool [])) "pg"))) as Hr
    by by vm_compute.
  split; [exact Hr|]. exact (proj1 (@resolve_tls_policy sample_resolver _ _ _ _ Hr)).
Defined.

(** A resolved route keeps the claimed and the forwarded names of its object,
    and its address is the cluster DNS name of the Service with the port the
    resolver confirmed, or the host of an external address with 5432 for a
    missing port; every failure is an inconsistent backend, the resolver's own
    port error or an unavailable CA bundle. *)
Theorem resolve_spec `{Resolver} ctx r cd :
  let b := BackendRef (Spec r) in
  match resolve ctx r cd with
  | Ok rt =>
      Source rt = route_key r ∧ r_Database rt = EffectiveDatabase r ∧
      r_TargetDatabase rt = EffectiveTargetDatabase r ∧
      ((∃ s ns, b_Type b = BackendTypeService ∧ b_Service b = Some s ∧
          ns = (if bool_decide (sb_Namespace s = "") then Namespace (Meta r) else sb_Namespace s) ∧
          Host rt = sb_Name s +:+ "." +:+ ns +:+ ".svc." +:+ cd ∧
          ResolveServicePort ctx ns (sb_Name s) (sb_Port s) = Ok (Port rt)) ∨
       (∃ a, b_Type b = BackendTypeAddress ∧ b_Address b = Some a ∧ Host rt = ab_Host a ∧
          Port rt = if ab_Port a =? 0 then 5432 else ab_Port a))
  | Err e =>
      Is e ErrInvalidBackend = true ∨ Is e ErrCABundle = true ∨
      ∃ s ns, b_Service b = Some s ∧ ResolveServicePort ctx ns (sb_Name s) (sb_Port s) = Err e
  end.
Proof.
  intros b. unfold resolve. destruct (resolveBackend ctx r cd) as [[h p]|e] eqn:Eb.
  - destruct (resolveTLS ctx r) as [t|e] eqn:Et.
    + cbn. split_and!; [done..|]. revert Eb. unfold resolveBackend. fold b.
      case_bool_decide; [|case_bool_decide; [|done]].
      * destruct (b_Service b) as [s|]; [|done].
        destruct (ResolveServicePort _ _ _ _) eqn:Ep; [|done]. intros [= <- <-].
        left. by eexists _, _.
      * destruct (b_Address b) as [a|]; [|done]. intros [= <- <-]. right. by exists a.
    + right; left. destruct (resolveTLS_cases ctx r) as [[_ Hc]|(s & _ & _ & [[_ Hc]|(ref & _ & _ & Hc)])];
        rewrite Hc in Et; [done..|].
      destruct (LoadCABundle _ _ _ _); [done|]. by simplify_eq.
  - revert Eb. unfold resolveBackend. fold b. case_bool_decide; [|case_bool_decide].
    + destruct (b_Service b) as [s|]; [|intros [= <-]; by left].
      destruct (ResolveServicePort _ _ _ _) eqn:Ep; [done|]. intros [= <-].
      right; right. by eexists _, _.
    + destruct (b_Address b); [done|]. intros [= <-]. by left.
    + intros [= <-]. by left.
Qed.

(** Two resolvers that answer alike within a time budget. *)
Definition agree_within (R1 R2 : Resolver) (budget : Z) : Prop :=
  ∀ c d, ctx_left c = Some d → d <= budget →
    (∀ ns n p, @ResolveServicePort R1 c ns n p = @ResolveServicePort R2 c ns n p) ∧
    (∀ ns n k, @LoadCABundle R1 c ns n k = @LoadCABundle R2 c ns n k).

Lemma resolve_agree (R1 R2 : Resolver) budget c d r cd :
  agree_within R1 R2 budget → ctx_left c = Some d → d <= budget →
  @resolve R1 c r cd = @resolve R2 c r cd.
Proof.
  intros Ha Hc Hd. destruct (Ha c d Hc Hd) as [H1 H2].
  assert (@resolveBackend R1 c r cd = @resolveBackend R2 c r cd) as Hb.
  { unfold resolveBackend. destruct (b_Service _) as [s|]; [|done]. by rewrite H1. }
  assert (@resolveTLS R1 c r = @resolveTLS R2 c r) as Ht.
  { unfold resolveTLS. destruct (TLS _) as [s|]; [|done].
    destruct (bt_CASecretRef s); [|done]. by rewrite H2. }
  unfold resolve. by rewrite Hb, Ht.
Qed.

Lemma WithTimeout_left ctx d : ∃ d', ctx_left (WithTimeout ctx d) = Some d' ∧ d' <= d.
Proof.
  unfold WithTimeout. destruct ctx as [[rem|]]; simpl; (eexists; split; [done|lia]).
Qed.

(** A build consults the resolver only under a deadline of at most
    [ResolveTimeout] for each route, whatever deadline its caller had: resolvers
    that agree on such calls build the same snapshot. *)
Theorem build_bounded (R1 R2 : Resolver) ctx rs cd :
  agree_within R1 R2 ResolveTimeout →
  @Build R1 ctx rs cd = @Build R2 ctx rs cd.
Proof.
  intros Ha. unfold Build.
  assert (∀ s r, @build_step R1 ctx cd s r = @build_step R2 ctx cd s r) as Hs.
  { intros s r. unfold build_step, resolveBounded.
    destruct (WithTimeout_left ctx ResolveTimeout) as (d & Hd & Hle).
    by rewrite (resolve_agree R1 R2 _ _ _ r cd Ha Hd Hle). }
  assert (∀ l s, fold_left (@build_step R1 ctx cd) l s = fold_left (@build_step R2 ctx cd) l s)
    as ->; [|done].
  induction l as [|r l IH]; intros s; simpl; [done|]. by rewrite Hs, IH.
Qed.

(** A resolver that answers only when it is given ten seconds or less. *)
Definition impatient_resolver : Resolver := {|
  ResolveServicePort c ns n p :=
    match ctx_left c with
    | Some d => if d <=? ResolveTimeout then @ResolveServicePort sample_resolver c ns n p
                else Err (ENew "blocked")
    | None => Err (ENew "blocked")
    end;
  LoadCABundle := @LoadCABundle sample_resolver
|}.

Lemma build_bounded_witness :
  @Build sample_resolver no_deadline [by_hand] "cluster.local"
  = @Build impatient_resolver no_deadline [by_hand] "cluster.local".
Proof.
  apply build_bounded. intros c d Hc Hd. split; [|done]. intros ns n p.
  cbn [ResolveServicePort impatient_resolver]. rewrite Hc.
  by rewrite (proj2 (Z.leb_le d ResolveTimeout) Hd).
Defined.

(** ** Properties of the table and of the store *)

Lemma Strings_perm l : Strings l ≡ₚ l.
Proof. apply SliceStable_perm. Qed.

Lemma Strings_sorted l : StronglySorted String.le (Strings l).
Proof.
  assert (StronglySorted (λ x y, String.ltb y x = false) (Strings l)) as Hs.
  { apply SliceStable_sorted; [apply ltb_asym|]. intros x y z.
    rewrite !ltb_leb, !negb_false_iff, !leb_le. intros H1 H2.
    by transitivity y. }
  induction Hs as [|x l' Hs IH Hx]; constructor; [done|].
  eapply Forall_impl; [exact Hx|]. simpl. intros y.
  by rewrite ltb_leb, negb_false_iff, leb_le.
Qed.

(** [Databases] lists exactly the names [Lookup] serves, each once, in
    increasing order, and there are [Len] of them, whatever order the map is
    iterated in. *)
Theorem databases_spec t l :
  l ≡ₚ map fst (map_to_list (routes t)) →
  Strings l = Databases t ∧
  StronglySorted String.le (Databases t) ∧ NoDup (Databases t) ∧
  length (Databases t) = Len t ∧
  ∀ db, db ∈ Databases t ↔ is_Some (Lookup t db).
Proof.
  intros Hl. unfold Databases. split_and!.
  - eapply (StronglySorted_unique String.le); [apply Strings_sorted..|].
    by rewrite !Strings_perm.
  - apply Strings_sorted.
  - rewrite Strings_perm. apply NoDup_fst_map_to_list.
  - rewrite Strings_perm, length_map. by rewrite length_map_to_list.
  - intros db. rewrite Strings_perm. unfold Lookup.
    rewrite list_elem_of_fmap. split.
    + intros ([k rt] & -> & Hin). apply elem_of_map_to_list in Hin. by exists rt.
    + intros [rt Hrt]. exists (db, rt). split; [done|]. by apply elem_of_map_to_list.
Qed.

Definition sample_table : Table :=
  MkTable (<["orders" := served_by_hand]> {["billing" := served_by_hand]}).

Lemma databases_spec_witness :
  Strings ["orders"; "billing"] = Databases sample_table ∧
  length (Databases sample_table) = Len sample_table.
Proof.
  destruct (databases_spec sample_table ["orders"; "billing"]) as (H1 & _ & _ & H4 & _).
  - assert (map fst (map_to_list (routes sample_table)) = ["billing"; "orders"]
            ∨ map fst (map_to_list (routes sample_table)) = ["orders"; "billing"]) as [->| ->];
      [vm_compute; auto|apply Permutation_swap|done].
  - by split.
Defined.

(** After any sequence of publications, nil ones included, the store holds a
    snapshot with a table, and it is the last one published. *)
Theorem store_never_nil (published : list (option Snapshot)) (last : option Snapshot) :
  let s := fold_left Store_Store published NewStore in
  (∃ t, Routes s = Some t) ∧
  (∃ t, Routes (Store_Store s last) = Some t) ∧
  (∀ sn t, last = Some sn → sn_Table sn = Some t → Load (Store_Store s last) = sn).
Proof.
  assert (∀ s sn, ∃ t, Routes (Store_Store s sn) = Some t) as Hst.
  { intros s [[[t|] ds]|]; unfold Store_Store; simpl; by eexists. }
  intros s. split_and!; [|apply Hst|].
  - subst s. destruct published as [|x l _] using rev_ind; [by eexists|].
    rewrite fold_left_app. apply Hst.
  - intros sn t -> Ht. unfold Store_Store. simpl. by rewrite Ht.
Qed.
