(* ===== verification/Resolver.v ===== *)
(** The resolver over the shared cache, [ClientResolver]
    ([internal/registry/resolver.go]): the implementation of the interface the
    table is built against. *)

From stdpp Require Import base list gmap strings pretty.
From Stdlib Require Import ZArith Lia.
From S2P Require Import Prelude GoLib Api Registry.

Local Open Scope go_scope.

(** ** What the resolver calls *)

(** The cluster cache ([client.Reader]) and [apierrors.IsNotFound]: code outside
    the repository. *)
Class KubeReader := {
  GetService : context → NamespacedName → result error Service;
  GetSecret : context → NamespacedName → result error Secret;
  IsNotFound : error → bool
}.

(** [AppendCertsFromPEM] succeeds on a bundle that holds a certificate. *)
Class X509 := HoldsCertificate : bytes → bool.

(** An error that carries the given API status reason, wrapped or not. *)
Fixpoint carries_reason (e : error) (reason : string) : bool :=
  match e with
  | ESentinel _ | ENew _ => false
  | EExt x => bool_decide (ext_reason x = Some reason)
  | Errorf ps =>
      existsb (fun p => match p with PW e' => carries_reason e' reason | _ => false end) ps
  | EJoin es => existsb (fun e' => carries_reason e' reason) es
  end.

(** The documented behaviour of [IsNotFound]: it recognises the NotFound status,
    also when it is wrapped. *)
Class KubeErrorsOk `{KubeReader} : Prop :=
  IsNotFound_spec : ∀ e, IsNotFound e = carries_reason e "NotFound".

(** ** ClientResolver *)

Definition CABundleLabel : string := "pgproxy.io/ca-bundle".

Record ClientResolver := MkClientResolver { CABundles : bool }.

Definition NewClientResolver : ClientResolver := MkClientResolver false.

Definition WithCABundles (r : ClientResolver) (enabled : bool) : ClientResolver :=
  MkClientResolver enabled.

(** [parsePortNumber]; its caller only tests the error for nil. *)
Definition parsePortNumber (s : string) : option Z :=
  match ParseUint 16 s with
  | None => None
  | Some port => if port =? 0 then None else Some (i32 port)
  end.

(** The loops over the declared ports. *)
Definition has_port (ports : list ServicePort) (want : Z) : bool :=
  existsb (fun p => p_Port p =? want) ports.

Fixpoint named_port (ports : list ServicePort) (name : string) : option Z :=
  match ports with
  | [] => None
  | p :: rest => if bool_decide (p_Name p = name) then Some (p_Port p) else named_port rest name
  end.

Section Client.
Context `{KubeReader, X509}.

Definition client_ResolveServicePort (ctx : context) (namespace name : string)
  (port : IntOrString) : result error Z :=
  match GetService ctx (MkName namespace name) with
  | Err err =>
      if IsNotFound err
      then Err (Errorf [PW (ESentinel ErrBackendNotFound); Lit ": service "; PS namespace;
                        Lit "/"; PS name])
      else Err (Errorf [Lit "reading service "; PS namespace; Lit "/"; PS name; Lit ": "; PW err])
  | Ok svc =>
      match port with
      | FromInt want =>
          if has_port (svc_Ports svc) want then Ok want
          else Err (Errorf [Lit "service "; PS namespace; Lit "/"; PS name;
                            Lit " exposes no port "; PD want])
      | FromString s =>
          match parsePortNumber s with
          | Some numeric =>
              if has_port (svc_Ports svc) numeric then Ok numeric
              else Err (Errorf [PW (ESentinel ErrPortNotFound); Lit ": service "; PS namespace;
                                Lit "/"; PS name; Lit " exposes no port "; PD numeric])
          | None =>
              match named_port (svc_Ports svc) s with
              | Some p => Ok p
              | None => Err (Errorf [PW (ESentinel ErrPortNotFound); Lit ": service ";
                                     PS namespace; Lit "/"; PS name; Lit " has no port named ";
                                     PQ s])
              end
          end
      | FromUnknown _ =>
          Err (Errorf [PW (ESentinel ErrInvalidBackend); Lit ": service "; PS namespace; Lit "/";
                       PS name; Lit " has an unrecognised port reference"])
      end
  end.

Definition client_LoadCABundle (r : ClientResolver) (ctx : context)
  (namespace secretName key : string) : result error CertPool :=
  if negb (CABundles r) then
    Err (Errorf [Lit "route refers to the CA bundle Secret "; PS namespace; Lit "/";
                 PS secretName;
                 Lit ", but reading Secrets is disabled; install the chart with rbac.readCABundleSecrets=true"])
  else
    match GetSecret ctx (MkName namespace secretName) with
    | Err err =>
        Err (Errorf [Lit "secret "; PS namespace; Lit "/"; PS secretName;
                     Lit " (it must carry the label "; PS CABundleLabel;
                     Lit "=true to be readable): "; PW err])
    | Ok secret =>
        match sec_Data secret !! key with
        | None => Err (Errorf [Lit "secret "; PS namespace; Lit "/"; PS secretName;
                               Lit " has no key "; PQ key])
        | Some pem =>
            if negb (HoldsCertificate pem)
            then Err (Errorf [Lit "secret "; PS namespace; Lit "/"; PS secretName; Lit " key ";
                              PQ key; Lit " holds no PEM certificates"])
            else Ok (MkCertPool [pem])
        end
    end.

(** [ClientResolver] implements [Resolver]. *)
#[export] Instance client_resolver (r : ClientResolver) : Resolver := {|
  ResolveServicePort := client_ResolveServicePort;
  LoadCABundle := client_LoadCABundle r
|}.
End Client.

(** ** Properties *)

Lemma has_port_spec ports v : has_port ports v = true ↔ v ∈ map p_Port ports.
Proof.
  unfold has_port. rewrite existsb_exists, list_elem_of_fmap.
  split; intros (p & Hp & Hv); exists p; rewrite <- list_elem_of_In in *; split; lia || done.
Qed.

Lemma named_port_spec ports s v :
  named_port ports s = Some v →
  ∃ i p, ports !! i = Some p ∧ p_Name p = s ∧ p_Port p = v ∧
    ∀ j q, (j < i)%nat → ports !! j = Some q → p_Name q ≠ s.
Proof.
  induction ports as [|p ports IH]; simpl; [done|]. case_bool_decide as Hp.
  - intros [= <-]. exists 0%nat, p. split_and!; [done..|]. intros; lia.
  - intros (i & q & Hi & Hq & Hv & Hlt)%IH. exists (S i), q. split_and!; [done..|].
    intros [|j] x Hj Hx; [by simplify_eq/=|]. apply (Hlt j); [lia|done].
Qed.

Lemma named_port_none ports s : named_port ports s = None ↔ s ∉ map p_Name ports.
Proof.
  induction ports as [|p ports IH]; simpl.
  - split; [intros _; apply not_elem_of_nil|done].
  - rewrite not_elem_of_cons. case_bool_decide; [naive_solver|]. rewrite IH. naive_solver.
Qed.

(** A number parses as a port exactly when it is a nonempty string of decimal
    digits with a value from 1 to 65535, and the value survives the conversion
    to int32. *)
Theorem parse_port_spec s p :
  parsePortNumber s = Some p ↔
  s ≠ "" ∧ digits_value 0 (bytes_of s) = Some p ∧ 1 <= p <= 65535.
Proof.
  assert (∀ b acc v, 0 <= acc → digits_value acc b = Some v → 0 <= v) as Hnn.
  { induction b as [|c b IH]; simpl; intros acc v Ha; [by intros [= <-]|].
    unfold digit_value. destruct (_ && _) eqn:E; [|done]. intros Hv.
    apply (IH _ _) in Hv; lia. }
  unfold parsePortNumber, ParseUint. split.
  - destruct (bytes_of s) as [|c t] eqn:Es; [done|].
    destruct (digits_value 0 (c :: t)) as [v|] eqn:Ev; [|done].
    destruct (v <? 2 ^ 16) eqn:E1; [|done]. destruct (v =? 0) eqn:E0; [done|].
    intros [= <-]. apply Hnn in Ev as Hv; [|lia].
    assert (i32 v = v) as Hi.
    { rewrite <- (u32_small v) at 1 by (unfold is_u32; lia).
      apply i32_u32. unfold is_i32. lia. }
    rewrite Hi. split_and!; [by intros ->|done|lia..].
  - intros (Hne & Hd & Hp). destruct (bytes_of_nonempty s Hne) as (c & t & Es).
    rewrite Es in *. rewrite Hd. zbool.
    f_equal. rewrite <- (u32_small p) at 1 by (unfold is_u32; lia).
    apply i32_u32. unfold is_i32. lia.
Qed.

Section ClientProperties.
Context `{KubeReader, X509}.

(** The ports a reference may denote on a service. *)
Definition denotes (svc : Service) (port : IntOrString) (p : Z) : Prop :=
  match port with
  | FromInt v => p = v ∧ v ∈ map p_Port (svc_Ports svc)
  | FromString s =>
      match parsePortNumber s with
      | Some v => p = v ∧ v ∈ map p_Port (svc_Ports svc)
      | None => named_port (svc_Ports svc) s = Some p
      end
  | FromUnknown _ => False
  end.

Lemma denotes_declared svc port p : denotes svc port p → p ∈ map p_Port (svc_Ports svc).
Proof.
  unfold denotes. destruct port as [v|s|]; [by intros [-> ?]| |done].
  destruct (parsePortNumber s); [by intros [-> ?]|].
  intros (i & q & Hi & _ & <- & _)%named_port_spec.
  apply list_elem_of_fmap_2, list_elem_of_lookup. eauto.
Qed.

(** A Service port reference resolves exactly when the Service exists and
    declares the port it denotes, by number or by name, and the resolved port is
    one of the declared ports: a typo is an error and never a dial target. *)
Theorem service_port_spec ctx ns name port p :
  client_ResolveServicePort ctx ns name port = Ok p ↔
  ∃ svc, GetService ctx (MkName ns name) = Ok svc ∧ denotes svc port p ∧
    p ∈ map p_Port (svc_Ports svc).
Proof.
  unfold client_ResolveServicePort. split.
  - destruct (GetService ctx (MkName ns name)) as [svc|e]; [|by destruct (IsNotFound e)].
    intros Hp. exists svc. split; [done|].
    assert (denotes svc port p) as Hd; [|split; [done|by eapply denotes_declared]].
    unfold denotes. destruct port as [v|s|]; [..|done].
    + destruct (has_port _ v) eqn:E; [|done]. apply has_port_spec in E. by simplify_eq.
    + destruct (parsePortNumber s) as [v|].
      * destruct (has_port _ v) eqn:E; [|done]. apply has_port_spec in E. by simplify_eq.
      * destruct (named_port _ s) eqn:E; [|done]. by simplify_eq.
  - intros (svc & -> & Hd & _). unfold denotes in Hd. destruct port as [v|s|]; [..|done].
    + destruct Hd as [-> Hv]. by rewrite (proj2 (has_port_spec _ _) Hv).
    + destruct (parsePortNumber s) as [v|].
      * destruct Hd as [-> Hv]. by rewrite (proj2 (has_port_spec _ _) Hv).
      * by rewrite Hd.
Qed.

(** A missing Service is reported as [ErrBackendNotFound]; a port the Service
    does not declare is reported as [ErrPortNotFound] when the reference is a
    string, but carries no such class when the reference is an integer. *)
Theorem service_port_errors ctx ns name port :
  KubeErrorsOk →
  match GetService ctx (MkName ns name) with
  | Err e =>
      ∃ e', client_ResolveServicePort ctx ns name port = Err e' ∧
        (carries_reason e "NotFound" = true → Is e' ErrBackendNotFound = true)
  | Ok svc =>
      (∀ p, ~ denotes svc port p) →
      ∃ e', client_ResolveServicePort ctx ns name port = Err e' ∧
        match port with
        | FromInt _ => Is e' ErrPortNotFound = false ∧ Is e' ErrInvalidBackend = false
        | FromString _ => Is e' ErrPortNotFound = true
        | FromUnknown _ => Is e' ErrInvalidBackend = true
        end
  end.
Proof.
  intros Hok. unfold client_ResolveServicePort.
  destruct (GetService ctx (MkName ns name)) as [svc|e].
  - intros Hno. unfold denotes in Hno. destruct port as [v|s|]; [..|by eexists].
    + destruct (has_port _ v) eqn:E; [|by eexists].
      destruct (Hno v). split; [done|]. by apply has_port_spec.
    + destruct (parsePortNumber s) as [v|].
      * destruct (has_port _ v) eqn:E; [|by eexists].
        destruct (Hno v). split; [done|]. by apply has_port_spec.
      * destruct (named_port _ s) as [v|]; [|by eexists]. by destruct (Hno v).
  - rewrite Hok. destruct (carries_reason e "NotFound"); by eexists.
Qed.

(** A CA bundle is loaded only when reading Secrets is enabled, and then it
    is the named key of the named Secret, holding at least one certificate. *)
Theorem ca_bundle_spec r ctx ns name key pool :
  client_LoadCABundle r ctx ns name key = Ok pool ↔
  CABundles r = true ∧ ∃ secret pem,
    GetSecret ctx (MkName ns name) = Ok secret ∧ sec_Data secret !! key = Some pem ∧
    HoldsCertificate pem = true ∧ pool = MkCertPool [pem].
Proof.
  unfold client_LoadCABundle. destruct (CABundles r); simpl.
  2: { split; [done|by intros [? _]]. }
  destruct (GetSecret ctx (MkName ns name)) as [secret|e].
  2: { split; [done|by intros (_ & ? & ? & ? & _)]. }
  destruct (sec_Data secret !! key) as [pem|] eqn:Ek.
  2: { split; [done|]. intros (_ & s & pem & ? & ? & _). congruence. }
  destruct (HoldsCertificate pem) eqn:Ec; simpl.
  - split; [intros [= <-]; by eauto 10|]. intros (_ & s & pem' & ? & ? & _ & ->). congruence.
  - split; [done|]. intros (_ & s & pem' & ? & ? & ? & _). congruence.
Qed.
End ClientProperties.

(** *** Witness *)

Definition sample_service : Service :=
  MkService (sample_meta "apps" "pg" 1) [MkServicePort "postgresql" 5433; MkServicePort "metrics" 9187].

Definition sample_reader : KubeReader := {|
  GetService _ k := if bool_decide (nn_Name k = "pg") then Ok sample_service
                    else Err (EExt (ExtError "not found" [] false (Some "NotFound")));
  GetSecret _ _ := Err (EExt (ExtError "not found" [] false (Some "NotFound")));
  IsNotFound e := carries_reason e "NotFound"
|}.

Lemma service_port_errors_witness :
  ∃ e', @client_ResolveServicePort sample_reader no_deadline "apps" "pg" (FromInt 5432) = Err e' ∧
    Is e' ErrPortNotFound = false ∧ Is e' ErrInvalidBackend = false.
Proof.
  apply (@service_port_errors sample_reader no_deadline "apps" "pg" (FromInt 5432)).
  - by intros e.
  - intros p [-> Hp]. apply has_port_spec in Hp. by vm_compute in Hp.
Defined.
