(* ===== verification/Net.v ===== *)
(** Connections, the effects of the data plane and the monad its handlers run
    in; with the two helpers every handler uses, [writeFatal] and
    [isBenignClose] ([internal/proxy/session.go]), and the metrics
    ([internal/proxy/metrics.go]). *)

From stdpp Require Import base list gmap strings pretty.
From Stdlib Require Import ZArith Lia.
From Stdlib Require Import Init.Byte.
From S2P Require Import Prelude GoLib Wire Api Registry.

(** ** Connections *)

(** What a coming call of [conn.SetDeadline] does: it fails; it succeeds, and every
    read gets what it waits for in time; it succeeds, and the bytes still to come race
    with the deadline, each arriving at its time after the call and the end of the
    stream at [finish], if ever; or it succeeds, and what an earlier deadline kept from
    the reader can be read from then on. *)
Inductive deadline :=
| Refused (err : error)
| Kept
| Races (times : list Z) (finish : option Z)
| Resumes (late : bytes) (err : error).

(** A [net.Conn] as one goroutine sees it: the bytes the peer will send and the
    error that ends them; the writes made so far, each with whether it went
    through TLS; how many bytes the peer will still accept before writes fail, if
    they ever do; what the coming [SetDeadline] calls do (where the list ends, they
    succeed and change nothing); whether the peer, once it has sent its bytes, keeps
    the connection open in silence instead of ending it; whether the connection has
    been upgraded to TLS; its half-closed and closed flags. *)
Record Conn := MkConn {
  c_in : stream;
  c_out : list (bool * bytes);
  c_limit : option (nat * error);
  c_deadlines : list deadline;
  c_idle : bool;
  c_tls : bool;
  c_wclosed : bool;
  c_closed : bool
}.

Definition set_in (s : stream) (c : Conn) : Conn :=
  MkConn s (c_out c) (c_limit c) (c_deadlines c) (c_idle c) (c_tls c) (c_wclosed c) (c_closed c).
Definition set_tls (s : stream) (c : Conn) : Conn :=
  MkConn s (c_out c) (c_limit c) (c_deadlines c) (c_idle c) true (c_wclosed c) (c_closed c).

(** [conn.Write]: the number of bytes written and the error. *)
Definition Write (c : Conn) (b : bytes) : nat * option error * Conn :=
  let put (x : bytes) (limit : option (nat * error)) :=
    MkConn (c_in c) (c_out c ++ [(c_tls c, x)]) limit (c_deadlines c) (c_idle c) (c_tls c)
           (c_wclosed c) (c_closed c) in
  match c_limit c with
  | None => (length b, None, put b None)
  | Some (room, e) =>
      if (length b <=? room)%nat
      then (length b, None, put b (Some ((room - length b)%nat, e)))
      else (room, Some e, put (take room b) (Some (0%nat, e)))
  end.

(** The bytes that are there before the time [d], and the rest; a byte is not there
    before those sent ahead of it. *)
Fixpoint in_time (d : Z) (times : list Z) (data : bytes) : bytes * bytes :=
  match data, times with
  | b :: data', t :: times' =>
      if t <? d then let '(now, later) := in_time d times' data' in (b :: now, later)
      else ([], data)
  | _, _ => (data, [])
  end.

(** The error of a read that its deadline has overtaken, a [net.Error]. *)
Definition i_o_timeout : error := EExt (ExtError "i/o timeout" [] true None).

(** What a reader gets of a stream under a deadline. *)
Definition by_deadline (d : Z) (times : list Z) (finish : option Z) (s : stream) : stream :=
  let '(now, later) := in_time d times (st_data s) in
  Stream now (if bool_decide (later = []) && match finish with Some f => f <? d | None => false end
              then st_err s else i_o_timeout).

(** [conn.SetDeadline] with a time so much from now, or with [time.Time{}], which
    lifts the deadline. *)
Definition SetDeadline (timeout : option Z) (c : Conn) : option error * Conn :=
  let become (s : stream) (rest : list deadline) :=
    MkConn s (c_out c) (c_limit c) rest (c_idle c) (c_tls c) (c_wclosed c) (c_closed c) in
  match c_deadlines c with
  | [] => (None, c)
  | Refused err :: rest => (Some err, become (c_in c) rest)
  | Kept :: rest => (None, become (c_in c) rest)
  | Races times finish :: rest =>
      match timeout with
      | None => (None, become (c_in c) rest)
      | Some d =>
          let later := (in_time d times (st_data (c_in c))).2 in
          (None, become (by_deadline d times finish (c_in c))
                   (match rest with
                    | Refused err :: _ => rest
                    | _ => Resumes later (st_err (c_in c)) :: tail rest
                    end))
      end
  | Resumes later err :: rest => (None, become (Stream (st_data (c_in c) ++ later) err) rest)
  end.

(** [closeWrite] and [conn.Close]. *)
Definition closeWrite (c : Conn) : Conn :=
  MkConn (c_in c) (c_out c) (c_limit c) (c_deadlines c) (c_idle c) (c_tls c) true (c_closed c).
Definition Close (c : Conn) : Conn :=
  MkConn (c_in c) (c_out c) (c_limit c) (c_deadlines c) (c_idle c) (c_tls c) (c_wclosed c) true.

(** All the bytes written to a connection. *)
Definition written (c : Conn) : bytes := concat (map snd (c_out c)).

(** [io.Copy(dst, src)]: everything [src] delivers goes to [dst] until a read or
    a write fails; [io.EOF] from the source is success. *)
Definition Copy (dst : Conn) (src : stream) : nat * option error * Conn * stream :=
  match ReadAll src with
  | (data, rerr, src') =>
      match Write dst data with
      | (n, Some werr, dst') => (n, Some werr, dst', src')
      | (n, None, dst') => (n, rerr, dst', src')
      end
  end.

(** ** Metrics *)

Definition outcomeProxied : string := "proxied".
Definition outcomeNoRoute : string := "no_route".
Definition outcomeBackendFailed : string := "backend_unreachable".
Definition outcomeRejected : string := "rejected".
Definition outcomeHandshake : string := "handshake_failed".

Definition unrouted : string := "<unrouted>".

(** [databaseLabel]. *)
Definition databaseLabel (database : string) (routed : bool) : string :=
  if negb routed then unrouted else database.

(** What a handler does to the rest of the process, in order: the metric
    updates and the dials. *)
Inductive event :=
| EvConnection (database outcome : string)     (* connectionsTotal *)
| EvActive (database : string) (delta : Z)     (* activeConnections *)
| EvBytes (database direction : string) (n : Z) (* bytesTotal *)
| EvDialDuration (database : string)           (* backendDialDuration *)
| EvSessionDuration (database : string)        (* sessionDuration *)
| EvCancel (outcome : string)                  (* cancelRequestsTotal *)
| EvDial (address : string).                   (* dialer.DialContext *)

(** The addresses dialled, in order. *)
Definition dial_of (e : event) : option string :=
  match e with EvDial a => Some a | _ => None end.
Definition dials (trace : list event) : list string := omap dial_of trace.

Lemma dials_app t1 t2 : dials (t1 ++ t2) = dials t1 ++ dials t2.
Proof. apply omap_app. Qed.

(** The net change of a database's active connections. *)
Fixpoint active (database : string) (trace : list event) : Z :=
  match trace with
  | [] => 0
  | EvActive d delta :: rest =>
      (if bool_decide (d = database) then delta else 0) + active database rest
  | _ :: rest => active database rest
  end.

(** The trace without the byte counters. *)
Definition sans_bytes (trace : list event) : list event :=
  omap (λ e, match e with EvBytes _ _ _ => None | _ => Some e end) trace.

Lemma active_app d t1 t2 : active d (t1 ++ t2) = active d t1 + active d t2.
Proof. induction t1 as [|[] t1 IH]; cbn; try done. rewrite IH. lia. Qed.

Lemma sans_bytes_app t1 t2 : sans_bytes (t1 ++ t2) = sans_bytes t1 ++ sans_bytes t2.
Proof. apply omap_app. Qed.

Lemma dials_sans_bytes t : dials (sans_bytes t) = dials t.
Proof.
  unfold dials, sans_bytes. induction t as [|[] t IH]; [done|..]; cbn in *; by rewrite ?IH.
Qed.

Lemma active_sans_bytes d t : active d (sans_bytes t) = active d t.
Proof. unfold sans_bytes. induction t as [|[] t IH]; [done|..]; cbn in *; by rewrite ?IH. Qed.

Lemma same_dials t t' : sans_bytes t' = sans_bytes t → dials t' = dials t.
Proof. intros Ht. by rewrite <- (dials_sans_bytes t'), Ht, dials_sans_bytes. Qed.

Lemma same_active d t t' : sans_bytes t' = sans_bytes t → active d t' = active d t.
Proof. intros Ht. by rewrite <- (active_sans_bytes d t'), Ht, active_sans_bytes. Qed.

(** ** The cancellation table's data ([cancel.go]) *)

Record cancelEntry := MkCancelEntry {
  backendAddr : string;
  backendKey : CancelRequest;
  ce_tls : TLSConfig
}.

#[global] Instance cancelEntry_eq_dec : EqDecision cancelEntry.
Proof. solve_decision. Defined.

Abbreviation cancelRegistry := (gmap CancelRequest cancelEntry).

(** ** The world of one connection handler *)

(** The client connection, the backend connection once there is one, the shared
    cancellation table, the random bytes still to be drawn (eight per key), where
    closing the client will interrupt the client-to-backend copy, if it does
    before the client has finished, and the trace. *)
Record world := World {
  w_client : Conn;
  w_backend : option Conn;
  w_cancels : cancelRegistry;
  w_rand : list bytes;
  w_cut : option nat;
  w_trace : list event
}.

(** Handlers are state transformers; [None] is a panic: no random bytes left, or
    a method call on a nil backend connection. *)
Definition gw (A : Type) : Type := world → option (A * world).

#[global] Instance gw_ret : MRet gw := λ A x w, Some (x, w).
#[global] Instance gw_bind : MBind gw := λ A B k m w,
  match m w with Some (x, w') => k x w' | None => None end.

Definition get_world : gw world := λ w, Some (w, w).

Definition emit (e : event) : gw unit := λ w,
  Some (tt, World (w_client w) (w_backend w) (w_cancels w) (w_rand w) (w_cut w)
              (w_trace w ++ [e])).

Definition with_client {A} (f : Conn → A * Conn) : gw A := λ w,
  let '(x, c) := f (w_client w) in
  Some (x, World c (w_backend w) (w_cancels w) (w_rand w) (w_cut w) (w_trace w)).

(** An operation on the backend connection. *)
Definition with_backend {A} (f : Conn → A * Conn) : gw A := λ w,
  match w_backend w with
  | None => None
  | Some c =>
      let '(x, c') := f c in
      Some (x, World (w_client w) (Some c') (w_cancels w) (w_rand w) (w_cut w) (w_trace w))
  end.

Definition set_backend (c : Conn) : gw unit := λ w,
  Some (tt, World (w_client w) (Some c) (w_cancels w) (w_rand w) (w_cut w) (w_trace w)).

Definition set_cancels (m : cancelRegistry) : gw unit := λ w,
  Some (tt, World (w_client w) (w_backend w) m (w_rand w) (w_cut w) (w_trace w)).

Definition set_rand (r : list bytes) : gw unit := λ w,
  Some (tt, World (w_client w) (w_backend w) (w_cancels w) r (w_cut w) (w_trace w)).

Definition panic {A} : gw A := λ w, None.

(** Reading, writing and deadlines as handler steps. *)
Definition write_client (b : bytes) : gw (nat * option error) :=
  with_client (λ c, let '(n, e, c') := Write c b in ((n, e), c')).
Definition write_backend (b : bytes) : gw (nat * option error) :=
  with_backend (λ c, let '(n, e, c') := Write c b in ((n, e), c')).
Definition deadline_client (timeout : option Z) : gw (option error) :=
  with_client (SetDeadline timeout).
Definition deadline_backend (timeout : option Z) : gw (option error) :=
  with_backend (SetDeadline timeout).

(** ** Shared helpers of the handlers *)

(** [writeFatal]: the outcome of the write is ignored. *)
Definition writeFatal (sqlState message detail : string) : gw unit :=
  _ ← write_client (EncodeErrorResponse sqlState message detail);
  mret tt.

(** [isBenignClose]. *)
Definition isBenignClose (err : error) : bool :=
  Is err io_EOF || Is err io_ErrUnexpectedEOF || Is err net_ErrClosed || Is err context_Canceled.

(** ** Lemmas *)

(** Running a handler step by step. *)
Ltac run := unfold mbind, gw_bind, mret, gw_ret; cbn.

Lemma bind_ret {A B} (x : A) (k : A → gw B) w : (mret x ≫= k) w = k x w.
Proof. done. Qed.

Lemma bind_some {A B} (m : gw A) (k : A → gw B) w r :
  (m ≫= k) w = Some r → ∃ x w', m w = Some (x, w') ∧ k x w' = Some r.
Proof. unfold mbind, gw_bind. destruct (m w) as [[x w']|]; [eauto|done]. Qed.

Lemma bind_assoc {A B C} (m : gw A) (k : A → gw B) (l : B → gw C) w :
  ((m ≫= k) ≫= l) w = (m ≫= (λ x, k x ≫= l)) w.
Proof. unfold mbind, gw_bind. by destruct (m w) as [[x w']|]. Qed.

(** Bytes written before stay written, in order. *)
Lemma Write_out c b n e c' :
  Write c b = (n, e, c') →
  c_out c' = c_out c ++ [(c_tls c, take n b)] ∧ (n <= length b)%nat ∧
  c_in c' = c_in c ∧ c_tls c' = c_tls c ∧ (e = None → n = length b).
Proof.
  unfold Write. destruct (c_limit c) as [[room er]|].
  - destruct (_ <=? room)%nat eqn:E; intros [= <- <- <-]; simpl.
    + rewrite firstn_all. done.
    + apply Nat.leb_gt in E. split_and!; try done. lia.
  - intros [= <- <- <-]. simpl. by rewrite firstn_all.
Qed.

Lemma written_app c b n e c' :
  Write c b = (n, e, c') → written c' = written c ++ take n b.
Proof.
  intros (Ho & _)%Write_out. unfold written. rewrite Ho, map_app, concat_app. simpl.
  by rewrite app_nil_r.
Qed.
