(* ===== verification/Cancel.v ===== *)
(** The table of cancellation keys ([internal/proxy/cancel.go]): the keys the
    gateway hands to clients and where each of them leads. *)

From stdpp Require Import base list gmap strings.
From Stdlib Require Import ZArith Lia.
From Stdlib Require Import Init.Byte.
From S2P Require Import Prelude GoLib Wire Api Registry Net.

(** ** Operations *)

Definition newCancelRegistry : cancelRegistry := ∅.

(** The key made from eight random bytes. *)
Definition key_of_bytes (buf : bytes) : CancelRequest :=
  MkCancelRequest (i32 (Z.land (Uint32 (take 4 buf)) 0x7FFFFFFF))
                  (i32 (Uint32 (drop 4 buf))).

(** [randomCancelKey]; [None] is the panic when no random bytes are available. *)
Definition randomCancelKey (rand : list bytes) : option (CancelRequest * list bytes) :=
  match rand with
  | [] => None
  | buf :: rest => Some (key_of_bytes buf, rest)
  end.

(** [issue]: draw until a free key comes up. *)
Fixpoint issue (rand : list bytes) (entries : cancelRegistry) (entry : cancelEntry)
  : option (CancelRequest * list bytes * cancelRegistry) :=
  match rand with
  | [] => None
  | buf :: rest =>
      let key := key_of_bytes buf in
      match entries !! key with
      | Some _ => issue rest entries entry
      | None => Some (key, rest, <[key := entry]> entries)
      end
  end.

Definition lookup_cancel (entries : cancelRegistry) (key : CancelRequest) : option cancelEntry :=
  entries !! key.

Definition release (entries : cancelRegistry) (key : CancelRequest) : cancelRegistry :=
  delete key entries.

(** The method [len]. *)
Definition len_cancel (entries : cancelRegistry) : nat := size entries.

(** [issue] and [release] as handler steps on the shared table. *)
Definition issue_key (entry : cancelEntry) : gw CancelRequest :=
  w ← get_world;
  match issue (w_rand w) (w_cancels w) entry with
  | None => panic
  | Some (key, rest, entries) =>
      _ ← set_rand rest; _ ← set_cancels entries; mret key
  end.

Definition release_key (key : CancelRequest) : gw unit :=
  w ← get_world; set_cancels (release (w_cancels w) key).

(** ** Properties *)

Lemma key_of_bytes_wf buf :
  wf_key (key_of_bytes buf) ∧ 0 <= ProcessID (key_of_bytes buf).
Proof.
  split; [split; apply i32_range|]. unfold key_of_bytes. cbn [ProcessID].
  change 0x7FFFFFFF with (Z.ones 31). rewrite Z.land_ones by lia.
  set (v := _ mod 2 ^ 31). assert (0 <= v < 2 ^ 31) by (apply Z.mod_pos_bound; lia).
  rewrite <- (u32_small v) by (unfold is_u32; lia).
  rewrite i32_u32 by (unfold is_i32; lia). lia.
Qed.

(** [k] is the first key the random source gives that is not in use, and [rest] is
    left of the source then. *)
Definition next_free (rand : list bytes) (m : cancelRegistry) (k : CancelRequest) (rest : list bytes)
  : Prop :=
  ∃ taken buf, rand = taken ++ buf :: rest ∧
    Forall (λ d, is_Some (m !! key_of_bytes d)) taken ∧ k = key_of_bytes buf ∧ m !! k = None.

Lemma next_free_wf rand m k rest :
  next_free rand m k rest → m !! k = None ∧ wf_key k ∧ 0 <= ProcessID k ∧ rest `suffix_of` rand.
Proof.
  intros (taken & buf & -> & _ & -> & Hk). destruct (key_of_bytes_wf buf). split_and!; try done.
  exists (taken ++ [buf]). by rewrite <- app_assoc.
Qed.

(** The first free key is determined by the source and by which keys are in use. *)
Lemma next_free_unique rand m k rest k' rest' :
  next_free rand m k rest → next_free rand m k' rest' → k' = k ∧ rest' = rest.
Proof.
  intros (taken & buf & -> & Ht & -> & Hk) (taken' & buf' & Heq & Ht' & -> & Hk'). revert taken' Heq Ht'.
  induction Ht as [|d taken [e He] _ IH]; intros [|d' taken'] Heq Ht'; cbn in Heq; injection Heq as -> Heq.
  - by subst.
  - apply Forall_cons in Ht' as [[? ?] _]. congruence.
  - congruence.
  - apply Forall_cons in Ht' as [_ Ht']. by apply (IH taken').
Qed.

Lemma issue_next_free rand m e k rest m' :
  issue rand m e = Some (k, rest, m') → next_free rand m k rest ∧ m' = <[k := e]> m.
Proof.
  revert rest m'. induction rand as [|buf rand IH]; intros rest m'; simpl; [done|].
  destruct (m !! key_of_bytes buf) eqn:E.
  - intros [(taken & buf' & -> & Ht & Hk) ?]%IH. split; [|done].
    exists (buf :: taken), buf'. split_and!; [done| |apply Hk..]. constructor; [by eexists|done].
  - intros [= <- <- <-]. split; [|done]. by exists [], buf.
Qed.

Lemma issue_some rand m e k rest m' :
  issue rand m e = Some (k, rest, m') →
  m !! k = None ∧ m' = <[k := e]> m ∧ wf_key k ∧ 0 <= ProcessID k ∧ rest `suffix_of` rand.
Proof. by intros [(? & ? & ? & ?)%next_free_wf ->]%issue_next_free. Qed.

Lemma issue_none rand m e :
  issue rand m e = None ↔ Forall (λ buf, is_Some (m !! key_of_bytes buf)) rand.
Proof.
  induction rand as [|buf rand IH]; simpl; [done|]. rewrite Forall_cons.
  destruct (m !! key_of_bytes buf) eqn:E.
  - rewrite IH. split; [by split; [eexists|]|by intros [_ ?]].
  - split; [done|]. intros [[? ?] _]. done.
Qed.

(** How many of the coming draws are still free. *)
Definition free_draws (rand : list bytes) (m : cancelRegistry) : nat :=
  length (filter (λ buf, m !! key_of_bytes buf = None) rand).

(** Random draws that are all different. *)
Definition distinct_draws (rand : list bytes) : Prop := NoDup (map key_of_bytes rand).

Lemma free_draws_zero rand m :
  Forall (λ buf, is_Some (m !! key_of_bytes buf)) rand ↔ free_draws rand m = 0%nat.
Proof.
  unfold free_draws. induction rand as [|buf rand IH]; [done|].
  rewrite Forall_cons, filter_cons, IH, <- not_eq_None_Some. case_decide; simpl; naive_solver lia.
Qed.

(** Issuing a key uses up one free draw. *)
Lemma issue_free_draws rand m e k rest m' :
  distinct_draws rand → issue rand m e = Some (k, rest, m') →
  distinct_draws rest ∧ S (free_draws rest m') = free_draws rand m.
Proof.
  unfold free_draws, distinct_draws. revert rest m'.
  induction rand as [|buf rand IH]; intros rest m'; simpl; [done|].
  intros [Hni Hnd]%NoDup_cons Hi. rewrite filter_cons.
  destruct (m !! key_of_bytes buf) eqn:E.
  - rewrite decide_False by done. by apply IH.
  - injection Hi as <- <- <-. rewrite decide_True by done. split; [done|]. simpl. do 2 f_equal.
    apply filter_agree. intros b Hb. rewrite lookup_insert_ne; [done|].
    intros Heq. apply Hni. rewrite Heq. by apply list_elem_of_fmap_2.
Qed.

(** With distinct draws, at most one per live session is taken. *)
Lemma free_draws_many rand m :
  distinct_draws rand → (length rand <= free_draws rand m + len_cancel m)%nat.
Proof.
  unfold free_draws, distinct_draws, len_cancel. revert m.
  induction rand as [|buf rand IH]; intros m; simpl; [lia|].
  intros [Hni Hnd]%NoDup_cons. rewrite filter_cons.
  destruct (m !! key_of_bytes buf) as [en|] eqn:E.
  - rewrite decide_False by done.
    specialize (IH (delete (key_of_bytes buf) m) Hnd).
    rewrite map_size_delete_Some in IH by done.
    assert (0 < size m)%nat by (apply Nat.neq_0_lt_0, map_size_ne_0_lookup; eauto).
    replace (filter (λ b, m !! key_of_bytes b = None) rand)
      with (filter (λ b, delete (key_of_bytes buf) m !! key_of_bytes b = None) rand); [lia|].
    apply filter_agree. intros b Hb. rewrite lookup_delete_ne; [done|].
    intros Heq. apply Hni. rewrite Heq. by apply list_elem_of_fmap_2.
  - rewrite decide_True by done. simpl. specialize (IH m Hnd). lia.
Qed.

(** The key [issue] returns was free, is recorded for the session's backend
    and for no other key, has int32 halves and a process ID without a sign bit;
    and [issue] fails to return only when every random draw hits a taken key. *)
Theorem issue_spec rand m e :
  match issue rand m e with
  | Some (k, rest, m') =>
      m !! k = None ∧ lookup_cancel m' k = Some e ∧
      (∀ k', k' ≠ k → lookup_cancel m' k' = lookup_cancel m k') ∧
      len_cancel m' = S (len_cancel m) ∧ wf_key k ∧ 0 <= ProcessID k
  | None => ∀ buf, buf ∈ rand → is_Some (m !! key_of_bytes buf)
  end.
Proof.
  destruct (issue rand m e) as [[[k rest] m']|] eqn:E.
  - apply issue_some in E as (Hk & -> & Hw & Hp & _). unfold lookup_cancel, len_cancel.
    split_and!; try done.
    + apply lookup_insert_eq.
    + intros k' Hne. by apply lookup_insert_ne.
    + by apply map_size_insert_None.
  - apply issue_none in E. by apply Forall_forall.
Qed.

(** [issue] returns as soon as the random source yields more distinct keys
    than there are live sessions. *)
Theorem issue_terminates rand m e :
  distinct_draws rand → (len_cancel m < length rand)%nat →
  ∃ k rest m', issue rand m e = Some (k, rest, m').
Proof.
  intros Hnd Hlen. destruct (issue rand m e) as [[[k rest] m']|] eqn:E; [eauto|].
  apply issue_none, free_draws_zero in E. pose proof (free_draws_many rand m Hnd). lia.
Qed.

Definition sample_entry : cancelEntry :=
  MkCancelEntry "pg:5432" (MkCancelRequest 1 2) zero_TLSConfig.

Definition draw_a : bytes := [x80; x00; x00; x01; xff; xff; xff; xff].
Definition draw_b : bytes := [x00; x00; x00; x02; x00; x00; x00; x00].

Lemma issue_terminates_witness :
  ∃ k rest m', issue [draw_a; draw_b] {[key_of_bytes draw_a := sample_entry]} sample_entry
               = Some (k, rest, m').
Proof.
  apply issue_terminates; [|by vm_compute].
  apply (bool_decide_unpack _). by vm_compute.
Defined.

(** Releasing a key forgets it and only it: releasing the key a session was
    issued restores the table the session found. *)
Theorem issue_release rand m e k rest m' k' :
  issue rand m e = Some (k, rest, m') →
  release m' k = m ∧ lookup_cancel (release m' k') k' = None ∧
  (k ≠ k' → lookup_cancel (release m' k') k = Some e).
Proof.
  intros (Hk & -> & _)%issue_some. unfold release, lookup_cancel. split_and!.
  - by apply delete_insert_id.
  - apply lookup_delete_eq.
  - intros Hne. rewrite lookup_delete_ne by done. apply lookup_insert_eq.
Qed.

Lemma issue_release_witness :
  release (<[key_of_bytes draw_b := sample_entry]> ∅) (key_of_bytes draw_b) = ∅.
Proof.
  apply (issue_release [draw_b] ∅ sample_entry (key_of_bytes draw_b) [] _ zero_key).
  by vm_compute.
Defined.
