(* ===== verification/Backend.v ===== *)
(** The proxy-to-backend leg: dialling and the TLS upgrade ([dialBackend],
    [upgradeBackendTLS], [verifyChainOnly] of [internal/proxy/session.go] and
    [hostOf] of [relay.go]). *)

From stdpp Require Import base list gmap strings pretty.
From Stdlib Require Import ZArith Lia.
From Stdlib Require Import Init.Byte.
From S2P Require Import Prelude GoLib Wire Api Registry Net.

Local Open Scope go_scope.

(** ** The network, as the code sees it *)

Record Certificate := MkCertificate { cert_raw : bytes }.

(** A [tls.Config]: the fields the code sets for a backend, and, for the listener,
    the pool client certificates are required to verify against. *)
Record tls_Config := MkTlsConfig {
  tc_ServerName : string;
  tc_RootCAs : option CertPool;
  tc_MinVersion : Z;
  tc_InsecureSkipVerify : bool;
  tc_ClientCAs : option CertPool
}.

(** [tls.VersionTLS12]. *)
Definition VersionTLS12 : Z := 0x0303.

(** Dialling, the two TLS handshakes (each maps the bytes still to come to the
    decrypted stream) and certificate verification: the kernel's, the peer's and
    crypto libraries' part of every session. *)
Class Network := {
  Dial : string → result error Conn;
  ServerHandshake : option tls_Config → stream → result error stream;
  ClientHandshake : tls_Config → stream → result error (stream * list Certificate);
  VerifyChain : Certificate → option CertPool → list Certificate → option error
}.

Definition negotiationAccepted : byte := x53.  (* 'S' *)
Definition negotiationRejected : byte := x4e.  (* 'N' *)

Section Backend.
Context `{Network}.

(** [verifyChainOnly], on the certificates the peer presented. *)
Definition verifyChainOnly (certs : list Certificate) (roots : option CertPool) : option error :=
  match certs with
  | [] => Some (ENew "backend presented no certificate")
  | leaf :: intermediates =>
      match VerifyChain leaf roots intermediates with
      | None => None
      | Some err => Some (Errorf [Lit "verifying the backend certificate chain: "; PW err])
      end
  end.

(** The TLS configuration of [upgradeBackendTLS]. *)
Definition backend_tls_config (route : Route) : tls_Config :=
  MkTlsConfig
    (if bool_decide (ServerName (r_TLS route) = "") then Host route else ServerName (r_TLS route))
    (RootCAs (r_TLS route))
    VersionTLS12
    (bool_decide (Mode (r_TLS route) = BackendTLSRequire)
     || bool_decide (Mode (r_TLS route) = BackendTLSVerifyCA))
    None.

Definition ssl_request : bytes :=
  AppendUint32 (AppendUint32 [] 8) (u32 SSLRequestCode).

(** [upgradeBackendTLS]: nil and the secured connection, or an error and the
    connection as it was left. *)
Definition upgradeBackendTLS (conn : Conn) (route : Route) : option error * Conn :=
  match Write conn ssl_request with
  | (_, Some err, c1) => (Some (Errorf [Lit "sending SSLRequest to backend: "; PW err]), c1)
  | (_, None, c1) =>
      match ReadFull 1 (c_in c1) with
      | (_, Some err, r1) =>
          (Some (Errorf [Lit "reading the backend's TLS negotiation reply: "; PW err]),
           set_in r1 c1)
      | (reply, None, r1) =>
          let c2 := set_in r1 c1 in
          if negb (bool_decide (head reply = Some negotiationAccepted)) then
            (Some (Errorf [Lit "backend declined TLS but the route requires tls.mode=";
                           PS (Mode (r_TLS route))]), c2)
          else
            match ClientHandshake (backend_tls_config route) (c_in c2) with
            | Err err => (Some (Errorf [Lit "backend TLS handshake: "; PW err]), c2)
            | Ok (plain, certs) =>
                let tlsConn := set_tls plain c2 in
                if bool_decide (Mode (r_TLS route) = BackendTLSVerifyCA) then
                  match verifyChainOnly certs (RootCAs (r_TLS route)) with
                  | Some err => (Some err, tlsConn)
                  | None => (None, tlsConn)
                  end
                else (None, tlsConn)
            end
      end
  end.

(** [dialBackend], with [s.cfg.DialTimeout]: the connection it opens is the backend
    connection of the world. *)
Definition dialBackend (dialTimeout : Z) (route : Route) : gw (option error) :=
  _ ← emit (EvDial (Address route));
  match Dial (Address route) with
  | Err err => mret (Some err)
  | Ok conn =>
      _ ← set_backend conn;
      _ ← emit (EvDialDuration (r_Database route));
      derr ← deadline_backend (Some dialTimeout);
      match derr with
      | Some err =>
          _ ← with_backend (λ c, (tt, Close c));
          mret (Some (Errorf [Lit "setting backend handshake deadline: "; PW err]))
      | None =>
          if negb (Enabled (r_TLS route)) then mret None
          else
            uerr ← with_backend (λ c, upgradeBackendTLS c route);
            match uerr with
            | Some err =>
                _ ← with_backend (λ c, (tt, Close c));
                mret (Some err)
            | None => mret None
            end
      end
  end.
End Backend.

(** [hostOf]. *)
Definition hostOf (address : string) : string :=
  match SplitHostPort address with
  | Some (host, _) => host
  | None => address
  end.

(** ** Properties *)

(** The characters of a decimal number. *)
Definition numeric_char (b : byte) : Prop := b ∉ [x3a; x5b; x5d].

Lemma pretty_N_char_numeric x : numeric_char (Ascii.byte_of_ascii (pretty_N_char x)).
Proof.
  unfold numeric_char. apply (bool_decide_unpack _). by destruct x as [|[[[[]|[]|]|[[]|[]|]|]|[[[]|[]|]|[[]|[]|]|]|]].
Qed.

Lemma pretty_N_go_numeric x s :
  Forall numeric_char (bytes_of s) → Forall numeric_char (bytes_of (pretty_N_go x s)).
Proof.
  revert s. induction (N.lt_wf_0 x) as [x _ IH]; intros s Hs.
  destruct (decide (x = 0%N)) as [->|Hx]; [done|].
  rewrite pretty_N_go_step by lia. apply IH; [apply N.div_lt; lia|].
  change (bytes_of (String ?c s)) with (Ascii.byte_of_ascii c :: bytes_of s).
  constructor; [apply pretty_N_char_numeric|done].
Qed.

Lemma pretty_Z_numeric (z : Z) : Forall numeric_char (bytes_of (pretty z)).
Proof.
  assert (∀ n : N, Forall numeric_char (bytes_of (pretty n))) as Hn.
  { intros n. unfold pretty, pretty_N. case_decide.
    - repeat constructor. by apply (bool_decide_unpack _).
    - apply pretty_N_go_numeric. constructor. }
  unfold pretty, pretty_Z. destruct z as [|p|p].
  - repeat constructor. by apply (bool_decide_unpack _).
  - apply (Hn (Npos p)).
  - rewrite bytes_of_app. apply Forall_app. split; [|apply (Hn (Npos p))].
    repeat constructor. by apply (bool_decide_unpack _).
Qed.

Lemma pretty_Z_absent (z : Z) b : b ∈ [x3a; x5b; x5d] → b ∉ bytes_of (pretty z).
Proof.
  intros Hb Hin. pose proof (pretty_Z_numeric z) as Hf. rewrite Forall_forall in Hf.
  by apply (Hf b).
Qed.

(** The host of a backend: any text without brackets (a DNS name, an IPv4 or an
    unbracketed IPv6 address). *)
Definition plain_host (h : string) : Prop := x5b ∉ bytes_of h ∧ x5d ∉ bytes_of h.

Lemma split_bracketed s hb p :
  bytes_of s = x5b :: hb ++ x5d :: x3a :: p →
  x5b ∉ hb → x5d ∉ hb → Forall numeric_char p →
  SplitHostPort s = Some (string_of hb, string_of p).
Proof.
  intros Hb Ho Hc Hp. rewrite Forall_forall in Hp. unfold numeric_char in Hp.
  assert (x3a ∉ p ∧ x5b ∉ p ∧ x5d ∉ p) as (Hp1 & Hp2 & Hp3)
    by (split_and!; intros Hin; apply Hp in Hin; set_solver).
  assert (LastIndexByte (bytes_of s) x3a = Some (S (S (length hb)))) as HL.
  { rewrite Hb. change (x5b :: hb ++ x5d :: x3a :: p) with ((x5b :: hb) ++ [x5d] ++ x3a :: p).
    rewrite app_assoc, LastIndexByte_hit by done. rewrite length_app. simpl. f_equal. lia. }
  assert (IndexByte (bytes_of s) x5d = Some (S (length hb))) as HI.
  { rewrite Hb. change (x5b :: hb ++ ?l) with ((x5b :: hb) ++ l).
    rewrite IndexByte_hit; [done|]. by rewrite not_elem_of_cons. }
  assert (drop (S (S (length hb))) (bytes_of s) = x3a :: p) as Hd.
  { rewrite Hb. change (x5b :: hb ++ x5d :: x3a :: p) with ((x5b :: hb) ++ [x5d] ++ x3a :: p).
    rewrite app_assoc. apply drop_app_length'. rewrite length_app. simpl. lia. }
  assert (drop (S (S (S (length hb)))) (bytes_of s) = p) as Hd'.
  { change (S (S (S (length hb)))) with (1 + S (S (length hb)))%nat.
    rewrite Nat.add_comm, <- drop_drop, Hd. done. }
  unfold SplitHostPort. rewrite HL, HI, Hd, Hd', Hb. cbn [drop]. rewrite drop_0.
  rewrite bool_decide_eq_true_2 by done. rewrite !contains_spec.
  rewrite bool_decide_eq_false_2 by set_solver.
  rewrite bool_decide_eq_false_2 by set_solver.
  simpl. rewrite Nat.sub_0_r. by rewrite take_app_length.
Qed.

Lemma split_plain s hb p :
  bytes_of s = hb ++ x3a :: p →
  x3a ∉ hb → x5b ∉ hb → x5d ∉ hb → Forall numeric_char p →
  SplitHostPort s = Some (string_of hb, string_of p).
Proof.
  intros Hb Hcol Ho Hc Hp. rewrite Forall_forall in Hp. unfold numeric_char in Hp.
  assert (x3a ∉ p ∧ x5b ∉ p ∧ x5d ∉ p) as (Hp1 & Hp2 & Hp3)
    by (split_and!; intros Hin; apply Hp in Hin; set_solver).
  assert (drop (S (length hb)) (bytes_of s) = p) as Hd.
  { rewrite Hb. change (x3a :: p) with ([x3a] ++ p). rewrite app_assoc.
    apply drop_app_length'. rewrite length_app. simpl. lia. }
  unfold SplitHostPort.
  rewrite Hb, LastIndexByte_hit by done. rewrite <- Hb, Hd.
  assert (take (length hb) (bytes_of s) = hb) as Ht by (rewrite Hb; apply take_app_length).
  rewrite !contains_spec, Ht, Hb.
  rewrite bool_decide_eq_false_2 by done.
  rewrite bool_decide_eq_false_2 by set_solver.
  rewrite bool_decide_eq_false_2 by set_solver.
  destruct hb as [|c hb]; [done|]. cbn [app].
  assert (c ≠ x5b) by set_solver. by destruct c.
Qed.

Lemma SplitHostPort_JoinHostPort h (z : Z) :
  plain_host h → SplitHostPort (JoinHostPort h (pretty z)) = Some (h, pretty z).
Proof.
  intros [Ho Hc]. unfold JoinHostPort. rewrite contains_spec.
  case_bool_decide as Hcol.
  - erewrite split_bracketed; [by rewrite !string_of_bytes_of| |done|done|apply pretty_Z_numeric].
    rewrite !bytes_of_app. done.
  - erewrite split_plain; [by rewrite !string_of_bytes_of| |done..|apply pretty_Z_numeric].
    rewrite !bytes_of_app. done.
Qed.

(** The host recovered from a recorded backend address is the host of the
    route, IPv6 hosts included, so a cancellation connection is secured with the
    very TLS settings of the session it cancels. *)
Theorem cancel_tls_same_policy route :
  plain_host (Host route) →
  backend_tls_config (MkResolved no_name "" "" (hostOf (Address route)) 0 (r_TLS route))
  = backend_tls_config route.
Proof.
  intros Hh. unfold hostOf, Address. by rewrite SplitHostPort_JoinHostPort.
Qed.

Definition ipv6_route : Route :=
  MkResolved (MkName "apps" "v6") "v6" "v6" "fd00::5" 5432
    (MkTLSConfig BackendTLSVerifyFull None "").

Lemma cancel_tls_same_policy_witness :
  backend_tls_config (MkResolved no_name "" "" (hostOf (Address ipv6_route)) 0 (r_TLS ipv6_route))
  = backend_tls_config ipv6_route.
Proof.
  apply cancel_tls_same_policy. split; apply (bool_decide_unpack _); by vm_compute.
Defined.

(** ** The upgrade and the dial *)

Section BackendLemmas.
Context `{Network}.

(** What a route's TLS mode demands of the certificates the backend showed,
    beyond what the handshake itself checks under [backend_tls_config]. *)
Definition chain_checked (route : Route) (certs : list Certificate) : Prop :=
  Mode (r_TLS route) = BackendTLSVerifyCA →
  ∃ leaf intermediates,
    certs = leaf :: intermediates ∧ VerifyChain leaf (RootCAs (r_TLS route)) intermediates = None.

(** The connection [c'] is [c] after a completed upgrade for the route: the
    request was all that was sent in the clear, the peer answered ['S'], and the
    handshake ran under the route's configuration. *)
Definition secured_by (route : Route) (c c' : Conn) : Prop :=
  c_tls c' = true ∧ c_out c' = c_out c ++ [(c_tls c, ssl_request)] ∧
  ∃ rest plain certs,
    st_data (c_in c) = negotiationAccepted :: rest ∧
    ClientHandshake (backend_tls_config route) (Stream rest (st_err (c_in c))) = Ok (plain, certs) ∧
    c_in c' = plain ∧ chain_checked route certs.

Lemma verifyChainOnly_None certs roots :
  verifyChainOnly certs roots = None →
  ∃ leaf intermediates, certs = leaf :: intermediates ∧ VerifyChain leaf roots intermediates = None.
Proof.
  destruct certs as [|leaf rest]; simpl; [done|].
  destruct (VerifyChain leaf roots rest) eqn:E; [done|]. eauto.
Qed.

Lemma read_reply s reply s' :
  ReadFull 1 s = (reply, None, s') →
  ∃ b, reply = [b] ∧ st_data s = b :: st_data s' ∧ st_err s' = st_err s.
Proof.
  intros (Hd & Hlen & He)%ReadFull_ok. destruct reply as [|b [|]]; simpl in *; try lia. eauto.
Qed.

Lemma upgrade_success conn route conn' :
  upgradeBackendTLS conn route = (None, conn') → secured_by route conn conn'.
Proof.
  unfold upgradeBackendTLS. destruct (Write conn ssl_request) as [[n [werr|]] c1] eqn:EW; [done|].
  pose proof (Write_out _ _ _ _ _ EW) as (Hout & _ & Hin & Htls & Hn).
  rewrite (Hn eq_refl), firstn_all in Hout. rewrite Hin.
  destruct (ReadFull 1 (c_in conn)) as [[reply [rerr|]] r1] eqn:ER; [done|].
  apply read_reply in ER as (b & -> & Hd & He). simpl.
  case_bool_decide as Hb; simpl; [|done]. injection Hb as ->.
  destruct (ClientHandshake _ _) as [[plain certs]|herr] eqn:EH; [|done].
  intros Hfin.
  assert (conn' = set_tls plain (set_in r1 c1) ∧ chain_checked route certs) as [-> Hchk].
  { unfold chain_checked. case_bool_decide as Hm.
    - destruct (verifyChainOnly _ _) eqn:EV; [done|]. injection Hfin as <-.
      split; [done|]. intros _. by apply verifyChainOnly_None.
    - by injection Hfin as <-. }
  split_and!; [done|done|]. exists (st_data r1), plain, certs.
  replace (Stream (st_data r1) (st_err (c_in conn))) with r1 by (rewrite <- He; by destruct r1).
  done.
Qed.

(** However the upgrade ends, the request is all it writes. *)
Lemma upgrade_writes conn route err conn' :
  upgradeBackendTLS conn route = (err, conn') →
  ∃ n, c_out conn' = c_out conn ++ [(c_tls conn, take n ssl_request)].
Proof.
  unfold upgradeBackendTLS. destruct (Write conn ssl_request) as [[n werr] c1] eqn:EW.
  apply Write_out in EW as (Hout & _). intros Hrun. exists n. rewrite <- Hout.
  repeat (case_match; simplify_eq/=; try done).
Qed.

Lemma upgrade_declined conn route err conn' b rest :
  upgradeBackendTLS conn route = (err, conn') →
  st_data (c_in conn) = b :: rest → b ≠ negotiationAccepted →
  is_Some err ∧ c_tls conn' = c_tls conn.
Proof.
  unfold upgradeBackendTLS. destruct (Write conn ssl_request) as [[n [werr|]] c1] eqn:EW;
    apply Write_out in EW as (_ & _ & Hin & Htls & _).
  { intros [= <- <-] _ _. eauto. }
  rewrite Hin. intros Hrun Hd Hb. destruct (c_in conn) as [data e]. simpl in Hd. subst data.
  change (b :: rest) with ([b] ++ rest) in Hrun. rewrite ReadFull_app in Hrun by done.
  rewrite bool_decide_eq_false_2 in Hrun by (simpl; congruence).
  injection Hrun as <- <-. eauto.
Qed.

(** C28: the upgrade of a backend connection succeeds only over TLS negotiated as
    the route asks: the backend accepted the SSLRequest, the handshake ran under
    the route's server name and trust anchors, under VerifyCA the presented chain
    was verified, and only Require and VerifyCA leave the handshake's own
    verification off. A backend that answers anything but ['S'] is refused, and
    in no case is anything but the SSLRequest written. *)
Theorem upgrade_policy conn route err conn' :
  upgradeBackendTLS conn route = (err, conn') →
  (err = None → secured_by route conn conn') ∧
  (tc_InsecureSkipVerify (backend_tls_config route) = true ↔
     Mode (r_TLS route) = BackendTLSRequire ∨ Mode (r_TLS route) = BackendTLSVerifyCA) ∧
  (∀ b rest, st_data (c_in conn) = b :: rest → b ≠ negotiationAccepted →
     is_Some err ∧ c_tls conn' = c_tls conn) ∧
  ∃ n, c_out conn' = c_out conn ++ [(c_tls conn, take n ssl_request)].
Proof.
  intros Hrun. split_and!.
  - intros ->. by apply upgrade_success.
  - simpl. by rewrite orb_true_iff, !bool_decide_eq_true.
  - intros b rest. by apply (upgrade_declined conn route err conn').
  - by apply (upgrade_writes conn route err conn').
Qed.

(** What a finished [dialBackend] leaves behind. *)
Definition dialled (timeout : Z) (route : Route) (w w' : world) (err : option error) : Prop :=
  match Dial (Address route) with
  | Err e => err = Some e ∧ w_backend w' = w_backend w
  | Ok c0 =>
      ∃ c, w_backend w' = Some c ∧
        if err then c_closed c = true
        else if Enabled (r_TLS route) then secured_by route (SetDeadline (Some timeout) c0).2 c
        else c = (SetDeadline (Some timeout) c0).2
  end.

(** Everything of the world but the backend connection and the trace. *)
Definition same_but_backend (w w' : world) : Prop :=
  w_client w' = w_client w ∧ w_cancels w' = w_cancels w ∧ w_rand w' = w_rand w ∧
  w_cut w' = w_cut w.

Lemma dialBackend_run timeout route w :
  ∃ err w', dialBackend timeout route w = Some (err, w') ∧ dialled timeout route w w' err ∧
    same_but_backend w w' ∧
    w_trace w' = w_trace w ++ EvDial (Address route) ::
      match Dial (Address route) with
      | Ok _ => [EvDialDuration (r_Database route)] | Err _ => [] end.
Proof.
  unfold dialBackend, dialled, same_but_backend, mbind, gw_bind, emit. cbn.
  destruct (Dial (Address route)) as [c0|e]; cbn; [|by eauto 10].
  rewrite <- app_assoc. destruct (SetDeadline (Some timeout) c0) as [[derr|] c1]; cbn.
  { eexists _, _. split; [done|]. split_and!; eauto. }
  destruct (Enabled (r_TLS route)); cbn.
  - destruct (upgradeBackendTLS c1 route) as [[uerr|] c2] eqn:EU; cbn.
    + eexists _, _. split; [done|]. split_and!; eauto.
    + eexists _, _. split; [done|]. split_and!; try done.
      eexists. split; [done|]. by apply upgrade_success.
  - eexists _, _. split; [done|]. split_and!; eauto.
Qed.

(** [dialBackend] always returns; it dials the route's address and nothing
    else, leaves the client and the cancellation table alone, and either fails
    with the connection it may have opened closed again, or yields a connection
    that is untouched when the route asks for no TLS and otherwise is TLS with
    nothing but the SSLRequest sent in the clear. *)
Theorem dial_spec timeout route w :
  ∃ err w', dialBackend timeout route w = Some (err, w') ∧ dialled timeout route w w' err ∧
    same_but_backend w w' ∧
    dials (w_trace w') = dials (w_trace w) ++ [Address route].
Proof.
  destruct (dialBackend_run timeout route w) as (err & w' & Hrun & Hd & Hs & Ht).
  exists err, w'. split_and!; try done. rewrite Ht, dials_app. by case_match.
Qed.
End BackendLemmas.

(** A network in which every address answers ['S'] to an SSLRequest, TLS is the
    identity and one certificate is presented that everyone trusts. *)
Definition sample_conn (data : bytes) : Conn :=
  MkConn (Stream data (ESentinel io_EOF)) [] None [] false false false false.

#[local] Instance sample_network : Network := {|
  Dial := λ _, Ok (sample_conn [x53]);
  ServerHandshake := λ _ s, Ok s;
  ClientHandshake := λ _ s, Ok (s, [MkCertificate [x01]]);
  VerifyChain := λ _ _ _, None
|}.

Lemma upgrade_policy_witness :
  secured_by ipv6_route (sample_conn [x53]) (upgradeBackendTLS (sample_conn [x53]) ipv6_route).2.
Proof.
  destruct (upgradeBackendTLS (sample_conn [x53]) ipv6_route) as [err conn'] eqn:E.
  apply (upgrade_policy _ _ _ _ E). by vm_compute in E; injection E.
Defined.
