(* ===== verification/Relay.v ===== *)
(** Relaying an authenticated session and forwarding cancellations
    ([internal/proxy/relay.go]).

    The two directions of [relay] run concurrently but touch different halves of
    the two connections: the upstream copy reads the client and writes the
    backend, the downstream loop reads the backend and writes the client.  They
    share only the closing of the client, which ends an upstream copy that is
    still reading: [w_cut] says after how many bytes that happens.  The model runs
    the downstream loop first; the only thing that depends on the order is the
    position of the two byte counters in the trace.  [Interleave] has the two as
    concurrent steps and shows that every interleaving ends as this one does. *)

From stdpp Require Import base list gmap strings pretty.
From Stdlib Require Import ZArith Lia.
From Stdlib Require Import Init.Byte.
From S2P Require Import Prelude GoLib Wire Api Registry Net Cancel Backend.

Local Open Scope go_scope.

Definition directionToBackend : string := "to_backend".
Definition directionToClient : string := "to_client".

(** [io.Copy(client, backend)]. *)
Definition copy_to_client : gw (nat * option error) :=
  src ← with_backend (λ b, (c_in b, set_in (ReadAll (c_in b)).2 b));
  with_client (λ c, match Copy c src with (n, e, c', _) => ((n, e), c') end).

(** [spliceToClient]. *)
Definition spliceToClient (label : string) : gw (option error) :=
  '(n, err) ← copy_to_client;
  _ ← emit (EvBytes label directionToClient (Z.of_nat n));
  match err with
  | Some err =>
      if isBenignClose err then mret None
      else mret (Some (Errorf [Lit "relaying backend to client: "; PW err]))
  | None => mret None
  end.

(** The variables of [relayFromBackend]'s loop: the reader's buffer, the key
    issued last ([issued] and [haveKey]) and the bytes framed so far. *)
Record loop_state := MkLoop {
  ls_buf : bytes;
  ls_issued : option CancelRequest;
  ls_framed : Z
}.

(** [reader.Next()], the reader wrapping the backend connection. *)
Definition next_message (buf : bytes) : gw (result error Message * bytes) :=
  with_backend (λ b,
    match Next (MkMessageReader (c_in b) buf) with
    | (res, mr) => ((res, mr_buf mr), set_in (mr_r mr) b)
    end).

(** The bytes to send for a message, and the key issued last after it. *)
Definition rewrite_message (route : Route) (msg : Message) (issued : option CancelRequest)
  : gw (result error (bytes * option CancelRequest)) :=
  let out := Message_Encode msg in
  if bool_decide (Type_ msg = MsgBackendKeyData) then
    match DecodeBackendKeyData (Body msg) with
    | Err err => mret (Err err)
    | Ok bk =>
        key ← issue_key (MkCancelEntry (Address route) bk (r_TLS route));
        mret (Ok (EncodeBackendKeyData key, Some key))
    end
  else mret (Ok (out, issued)).

(** How an iteration of the loop ends: it goes on, it returns (with the key the
    deferred release will see), or the startup is complete and the rest is spliced. *)
Inductive frame_end :=
| FrameNext (st : loop_state)
| FrameStop (err : option error) (issued : option CancelRequest)
| FrameReady (issued : option CancelRequest).

(** One iteration up to the splice. *)
Definition frame_message (route : Route) (label : string) (st : loop_state) : gw frame_end :=
  '(res, buf) ← next_message (ls_buf st);
  match res with
  | Err err =>
      _ ← emit (EvBytes label directionToClient (ls_framed st));
      if isBenignClose err then mret (FrameStop None (ls_issued st))
      else mret (FrameStop (Some (Errorf [Lit "framing backend messages: "; PW err])) (ls_issued st))
  | Ok msg =>
      rewritten ← rewrite_message route msg (ls_issued st);
      match rewritten with
      | Err err => mret (FrameStop (Some err) (ls_issued st))
      | Ok (out, issued) =>
          '(n, werr) ← write_client out;
          let framed := ls_framed st + Z.of_nat n in
          match werr with
          | Some err =>
              _ ← emit (EvBytes label directionToClient framed);
              if isBenignClose err then mret (FrameStop None issued)
              else mret (FrameStop (Some (Errorf [Lit "writing backend message to client: "; PW err]))
                           issued)
          | None =>
              if bool_decide (Type_ msg = MsgReadyForQuery) then
                _ ← emit (EvBytes label directionToClient framed);
                mret (FrameReady issued)
              else mret (FrameNext (MkLoop buf issued framed))
          end
      end
  end.

(** One iteration: the next state, or the loop's result. *)
Definition relay_message (route : Route) (label : string) (st : loop_state)
  : gw (loop_state + option error * option CancelRequest) :=
  r ← frame_message route label st;
  match r with
  | FrameNext st' => mret (inl st')
  | FrameStop err issued => mret (inr (err, issued))
  | FrameReady issued =>
      err ← spliceToClient label;
      mret (inr (err, issued))
  end.

(** The loop; running out of [fuel] is not a behaviour of the code, and
    [relay_loop_fuel] shows that the fuel given below never runs out. *)
Fixpoint relay_loop (fuel : nat) (route : Route) (label : string) (st : loop_state)
  : gw (option error * option CancelRequest) :=
  match fuel with
  | O => panic
  | S fuel' =>
      r ← relay_message route label st;
      match r with
      | inl st' => relay_loop fuel' route label st'
      | inr res => mret res
      end
  end.

(** Enough iterations for the bytes the backend will send: each takes a message
    of at least five. *)
Definition relay_fuel (w : world) : nat :=
  match w_backend w with Some b => S (length (st_data (c_in b))) | None => 1 end.

(** [relayFromBackend], with the deferred release. *)
Definition relayFromBackend (route : Route) (label : string) : gw (option error) :=
  w ← get_world;
  '(err, issued) ← relay_loop (relay_fuel w) route label (MkLoop [] None 0);
  _ ← match issued with Some key => release_key key | None => mret tt end;
  mret err.

(** What the upstream copy reads: all the client sends, or the part of it that
    came before the client was closed. *)
Definition upstream_source (cut : option nat) (s : stream) : stream :=
  match cut with
  | Some n => Stream (take n (st_data s)) (ESentinel net_ErrClosed)
  | None => s
  end.

(** The goroutine of [relay]. *)
Definition relayUpstream (label : string) : gw (option error) :=
  w ← get_world;
  let src := upstream_source (w_cut w) (c_in (w_client w)) in
  '(n, err) ← with_backend (λ b, match Copy b src with (n, e, b', _) => ((n, e), b') end);
  _ ← emit (EvBytes label directionToBackend (Z.of_nat n));
  let upstreamErr :=
    match err with
    | Some err =>
        if isBenignClose err then None
        else Some (Errorf [Lit "relaying client to backend: "; PW err])
    | None => None
    end in
  _ ← with_backend (λ b, (tt, closeWrite b));
  mret upstreamErr.

(** [relay]. *)
Definition relay (route : Route) (label : string) : gw (option error) :=
  downstreamErr ← relayFromBackend route label;
  _ ← with_client (λ c, (tt, closeWrite c));
  _ ← with_client (λ c, (tt, Close c));
  upstreamErr ← relayUpstream label;
  mret (Join downstreamErr upstreamErr).

Section Cancellation.
Context `{Network}.

(** [forwardCancel], with [s.cfg.DialTimeout]; its connection is the backend connection
    of the world. *)
Definition forwardCancel (dialTimeout : Z) (request : CancelRequest) : gw unit :=
  w ← get_world;
  match lookup_cancel (w_cancels w) request with
  | None => emit (EvCancel "unknown_key")
  | Some entry =>
      _ ← emit (EvDial (backendAddr entry));
      match Dial (backendAddr entry) with
      | Err _ => emit (EvCancel "backend_unreachable")
      | Ok conn =>
          _ ← set_backend conn;
          _ ← deadline_backend (Some dialTimeout);
          uerr ← (if Enabled (ce_tls entry) then
                    with_backend (λ c, upgradeBackendTLS c
                      (MkResolved no_name "" "" (hostOf (backendAddr entry)) 0 (ce_tls entry)))
                  else mret None);
          _ ← match uerr with
              | Some _ => emit (EvCancel "tls_failed")
              | None =>
                  '(_, werr) ← write_backend (EncodeCancelRequest (backendKey entry));
                  match werr with
                  | Some _ => emit (EvCancel "write_failed")
                  | None => emit (EvCancel "forwarded")
                  end
              end;
          with_backend (λ c, (tt, Close c))
      end
  end.
End Cancellation.

(** ** What the client sees *)

(** The table entry of a session. *)
Definition session_entry (route : Route) (bk : CancelRequest) : cancelEntry :=
  MkCancelEntry (Address route) bk (r_TLS route).

(** [client_sees early data ks out]: of the backend's bytes [data] the client is
    to get [out], where [ks] pairs each of the backend's keys with its
    replacement.  Messages pass unchanged, a BackendKeyData carries the replacement
    instead, and from the first ReadyForQuery on everything passes as it is.  When
    [early] is set, framing may stop at any message boundary. *)
Inductive client_sees (early : bool) : bytes → list (CancelRequest * CancelRequest) → bytes → Prop :=
| sees_stop data : early = true → client_sees early data [] []
| sees_key body bk k data ks out :
    DecodeBackendKeyData body = Ok bk →
    client_sees early data ks out →
    client_sees early (Message_Encode (MkMessage MsgBackendKeyData body) ++ data) ((bk, k) :: ks)
                (EncodeBackendKeyData k ++ out)
| sees_message m data ks out :
    Type_ m ≠ MsgBackendKeyData → Type_ m ≠ MsgReadyForQuery →
    client_sees early data ks out →
    client_sees early (Message_Encode m ++ data) ks (Message_Encode m ++ out)
| sees_ready m data :
    Type_ m = MsgReadyForQuery →
    client_sees early (Message_Encode m ++ data) [] (Message_Encode m ++ data).

(** [issued_from route m rand ks m' rand']: issuing the keys [ks] for sessions of the
    route one after the other, each the first free one the random source gives at that
    moment, turns the table [m] into [m'] and leaves [rand'] of the source. *)
Inductive issued_from (route : Route)
  : cancelRegistry → list bytes → list (CancelRequest * CancelRequest) →
    cancelRegistry → list bytes → Prop :=
| issued_none m rand : issued_from route m rand [] m rand
| issued_one m rand bk k rest ks m' rand' :
    next_free rand m k rest →
    issued_from route (<[k := session_entry route bk]> m) rest ks m' rand' →
    issued_from route m rand ((bk, k) :: ks) m' rand'.

(** The key the deferred release sees after the keys [ks]. *)
Fixpoint last_key (ks : list (CancelRequest * CancelRequest)) (issued : option CancelRequest)
  : option CancelRequest :=
  match ks with
  | [] => issued
  | (_, k) :: ks' => last_key ks' (Some k)
  end.

(** The downstream direction leaves alone what belongs to the other one: the
    client's input and what was written to the backend; it only counts bytes. *)
Definition down_frame (w w' : world) : Prop :=
  c_in (w_client w') = c_in (w_client w) ∧ w_cut w' = w_cut w ∧
  c_tls (w_client w') = c_tls (w_client w) ∧
  (λ b, (c_out b, c_limit b, c_tls b)) <$> w_backend w'
    = (λ b, (c_out b, c_limit b, c_tls b)) <$> w_backend w ∧
  sans_bytes (w_trace w') = sans_bytes (w_trace w).

Lemma down_frame_trans w1 w2 w3 : down_frame w1 w2 → down_frame w2 w3 → down_frame w1 w3.
Proof. unfold down_frame. intuition congruence. Qed.

(** What one run of the loop, or of one iteration, did in the end. *)
Definition relayed (route : Route) (b : Conn) (st : loop_state) (w w' : world)
  (issued : option CancelRequest) : Prop :=
  ∃ ks full sent,
    client_sees true (st_data (c_in b)) ks full ∧ sent `prefix_of` full ∧
    written (w_client w') = written (w_client w) ++ sent ∧
    issued_from route (w_cancels w) (w_rand w) ks (w_cancels w') (w_rand w') ∧
    issued = last_key ks (ls_issued st) ∧ down_frame w w'.

(** At most one free random draw was used. *)
Definition draws_spent (w w' : world) : Prop :=
  distinct_draws (w_rand w) →
  distinct_draws (w_rand w') ∧
  (free_draws (w_rand w) (w_cancels w) ≤ S (free_draws (w_rand w') (w_cancels w')))%nat.

(** What an iteration that goes on did: one message came off the backend and went
    to the client, rewritten if it was the backend's key. *)
Definition relayed_one (route : Route) (b : Conn) (st st' : loop_state) (w w' : world) : Prop :=
  ∃ m r out,
    st_data (c_in b) = Message_Encode m ++ st_data r ∧ st_err r = st_err (c_in b) ∧
    Type_ m ≠ MsgReadyForQuery ∧ w_backend w' = Some (set_in r b) ∧
    written (w_client w') = written (w_client w) ++ out ∧ down_frame w w' ∧ draws_spent w w' ∧
    ((Type_ m ≠ MsgBackendKeyData ∧ out = Message_Encode m ∧
      w_cancels w' = w_cancels w ∧ w_rand w' = w_rand w ∧ ls_issued st' = ls_issued st) ∨
     (∃ bk k, Type_ m = MsgBackendKeyData ∧ DecodeBackendKeyData (Body m) = Ok bk ∧
        out = EncodeBackendKeyData k ∧ next_free (w_rand w) (w_cancels w) k (w_rand w') ∧
        w_cancels w' = <[k := session_entry route bk]> (w_cancels w) ∧
        ls_issued st' = Some k)).

Lemma relayed_nothing route b st w w' :
  w_client w' = w_client w → w_cancels w' = w_cancels w → w_rand w' = w_rand w → down_frame w w' →
  relayed route b st w w' (ls_issued st).
Proof.
  intros Hc Ht Hr Hf. exists [], [], []. rewrite Hc, Ht, Hr, app_nil_r.
  split_and!; try done; by constructor.
Qed.

Lemma rewrite_message_run route msg issued w r w' :
  rewrite_message route msg issued w = Some (r, w') →
  match r with
  | Err _ => w' = w
  | Ok (out, issued') =>
      (Type_ msg ≠ MsgBackendKeyData ∧ out = Message_Encode msg ∧ issued' = issued ∧ w' = w) ∨
      (∃ bk k rest, Type_ msg = MsgBackendKeyData ∧ DecodeBackendKeyData (Body msg) = Ok bk ∧
         out = EncodeBackendKeyData k ∧ issued' = Some k ∧
         w_cancels w !! k = None ∧ next_free (w_rand w) (w_cancels w) k rest ∧ draws_spent w w' ∧
         w' = World (w_client w) (w_backend w) (<[k := session_entry route bk]> (w_cancels w))
                rest (w_cut w) (w_trace w))
  end.
Proof.
  unfold rewrite_message. case_bool_decide as Ht; [|intros [= <- <-]; by left].
  destruct (DecodeBackendKeyData (Body msg)) as [bk|e] eqn:ED; [|by intros [= <- <-]].
  unfold issue_key. run. destruct (issue _ _ _) as [[[k rest] m']|] eqn:EI; [|done].
  pose proof (issue_next_free _ _ _ _ _ _ EI) as [Hn ->].
  pose proof (next_free_wf _ _ _ _ Hn) as (Hk & _). run. intros [= <- <-]. right.
  exists bk, k, rest. split_and!; try done. intros Hd.
  destruct (issue_free_draws _ _ _ _ _ _ Hd EI) as [Hd' Hfree]. split; [done|].
  change (free_draws (w_rand w) (w_cancels w)
          ≤ S (free_draws rest (<[k := session_entry route bk]> (w_cancels w))))%nat.
  unfold session_entry. lia.
Qed.

(** Closes [down_frame] goals between a world and its explicit update. *)
Ltac frame Hb :=
  unfold down_frame in *; cbn in *; rewrite ?Hb, ?sans_bytes_app, ?app_nil_r in *; cbn in *;
  intuition congruence.

(** Preparing a message touches only the table and the random source. *)
Lemma rewrite_message_frame route msg issued w out issued' w' :
  rewrite_message route msg issued w = Some (Ok (out, issued'), w') →
  w_client w' = w_client w ∧ w_backend w' = w_backend w ∧ down_frame w w' ∧ draws_spent w w'.
Proof.
  intros [(_ & _ & _ & ->)|(? & ? & ? & _ & _ & _ & _ & _ & _ & ? & ->)]%rewrite_message_run;
    split_and!; try done. intros ?. split; [done|]. apply Nat.le_succ_diag_r.
Qed.

Lemma splice_run label w b :
  w_backend w = Some b →
  ∃ r w' n, spliceToClient label w = Some (r, w') ∧
    written (w_client w') = written (w_client w) ++ take n (st_data (c_in b)) ∧
    w_cancels w' = w_cancels w ∧ w_rand w' = w_rand w ∧ down_frame w w'.
Proof.
  intros Hb. unfold spliceToClient, copy_to_client, with_backend, with_client. run. rewrite Hb. run.
  unfold Copy, ReadAll. destruct (Write (w_client w) (st_data (c_in b))) as [[n werr] c'] eqn:EW.
  pose proof (Write_out _ _ _ _ _ EW) as (_ & _ & Hi & Ht & _). apply written_app in EW.
  generalize (match st_err (c_in b) with ESentinel io_EOF => None | e => Some e end). intros rerr.
  destruct werr as [werr|]; [|destruct rerr as [rerr|]]; run;
    try destruct (isBenignClose _); eexists _, _, n; split_and!; try done; frame Hb.
Qed.

(** The first message alone, with the bytes [out] prepared for it. *)
Lemma sees_first route msg issued w out issued' w2 data :
  rewrite_message route msg issued w = Some (Ok (out, issued'), w2) →
  ∃ ks full, client_sees true (Message_Encode msg ++ data) ks full ∧ out `prefix_of` full ∧
    issued_from route (w_cancels w) (w_rand w) ks (w_cancels w2) (w_rand w2) ∧ issued' = last_key ks issued.
Proof.
  intros [(Ht & -> & -> & ->)|(bk & k & rest & Ht & Hbk & -> & -> & Hk & Hwf & _ & ->)]%rewrite_message_run.
  - destruct (decide (Type_ msg = MsgReadyForQuery)) as [Hz|Hz].
    + eexists [], _. split_and!; [by apply sees_ready|by eexists|constructor|done].
    + eexists [], _. split_and!; [by apply sees_message, sees_stop| |constructor|done].
      by rewrite app_nil_r.
  - destruct msg as [t body]. simpl in *. subst t.
    eexists [(bk, k)], _. split_and!; [by eapply sees_key, sees_stop| | |done].
    + by rewrite app_nil_r.
    + econstructor; [done|]. constructor.
Qed.

Lemma relay_message_run route label st w b r w' :
  w_backend w = Some b → relay_message route label st w = Some (r, w') →
  match r with
  | inl st' => relayed_one route b st st' w w'
  | inr (_, issued) => relayed route b st w w' issued
  end.
Proof.
  intros Hb. unfold relay_message, frame_message, next_message, with_backend. run. rewrite Hb.
  destruct (Next (MkMessageReader (c_in b) (ls_buf st))) as [[msg|err] mr] eqn:EN; run.
  2: { destruct (isBenignClose err); intros [= <- <-]; apply relayed_nothing; try done; frame Hb. }
  apply Next_ok in EN as (Hd & _ & He). cbn [mr_r] in Hd, He.
  set (w1 := World _ _ _ _ _ _).
  destruct (rewrite_message route msg (ls_issued st) w1) as [[rw w2]|] eqn:ER; [|done].
  destruct rw as [[out issued]|err].
  2: { apply rewrite_message_run in ER as ->. intros [= <- <-]. apply relayed_nothing; try done.
       frame Hb. }
  destruct (sees_first _ _ _ _ _ _ _ (st_data (mr_r mr)) ER) as (ks & full & Hs & Hp & Hiss & Hl).
  rewrite <- Hd in Hs. destruct (rewrite_message_frame _ _ _ _ _ _ _ ER) as (Hc2 & Hb2 & Hf2 & Hsp).
  assert (down_frame w w1) as Hf1 by (subst w1; frame Hb).
  apply (down_frame_trans _ _ _ Hf1) in Hf2. clear Hf1. apply rewrite_message_run in ER.
  change (w_backend w1) with (Some (set_in (mr_r mr) b)) in Hb2.
  change (w_client w1) with (w_client w) in Hc2. change (draws_spent w w2) in Hsp.
  unfold write_client, with_client. run.
  destruct (Write (w_client w2) out) as [[n werr] c3] eqn:EW.
  pose proof (Write_out _ _ _ _ _ EW) as (_ & Hn & Hi & Ht & Hall). apply written_app in EW.
  rewrite Hc2 in EW. destruct werr as [werr|].
  - intros Hrun.
    assert (∃ e, r = inr (e, issued) ∧ w_client w' = c3 ∧ w_cancels w' = w_cancels w2 ∧
                 w_rand w' = w_rand w2 ∧ down_frame w2 w') as (e & -> & Hc3 & Ht3 & Hr3 & Hf3).
    { destruct (isBenignClose werr); injection Hrun as <- <-; eexists; split_and!; try done; frame Hb2. }
    exists ks, full, (take n out). rewrite Hc3, Ht3, Hr3. split_and!; try done.
    + etrans; [apply prefix_take|done].
    + by eapply down_frame_trans.
  - rewrite (Hall eq_refl), firstn_all in EW. case_bool_decide as Hz.
    + set (w3 := World _ _ _ _ _ _).
      destruct (splice_run label w3 _ Hb2) as (e & w4 & n' & -> & Hw4 & Ht4 & Hr4 & Hf4).
      intros [= <- <-]. destruct ER as [(Hk & -> & -> & ->)|(? & ? & ? & Hk & _)];
        [|by rewrite Hz in Hk].
      exists [], (Message_Encode msg ++ st_data (mr_r mr)),
        (Message_Encode msg ++ take n' (st_data (mr_r mr))).
      rewrite Hw4, Ht4, Hr4, Hd. cbn. split_and!; try done.
      * by apply sees_ready.
      * apply prefix_app, prefix_take.
      * rewrite EW. by rewrite app_assoc.
      * constructor.
      * eapply down_frame_trans; [|exact Hf4]. frame Hb.
    + intros [= <- <-]. exists msg, (mr_r mr), out. cbn. split_and!; try done; [frame Hb|].
      clear Hsp.
      destruct ER as [(Hk & -> & -> & ->)|(bk & k & rest & Hk & Hbk & -> & -> & Hf & Hwf & _ & ->)].
      * by left.
      * right. by exists bk, k.
Qed.

Lemma relayed_cons route b st st' w w1 w2 r issued :
  relayed_one route b st st' w w1 → w_backend w1 = Some (set_in r b) →
  relayed route (set_in r b) st' w1 w2 issued → relayed route b st w w2 issued.
Proof.
  intros (m & r' & out & Hd & _ & Hz & Hb' & Hw & Hf & _ & Hcase) Hb1
         (ks & full & sent & Hs & Hp & Hw2 & Hiss & Hl & Hf2).
  rewrite Hb1 in Hb'. injection Hb' as <-. cbn in Hs.
  destruct Hcase as [(Hk & -> & Hc & Hr & Hi)|(bk & k & Hk & Hbk & -> & Hfree & Hc & Hi)].
  - exists ks, (Message_Encode m ++ full), (Message_Encode m ++ sent). rewrite Hd, Hw2, Hw, <- Hi.
    rewrite <- Hc, <- Hr. split_and!; try done; [by apply sees_message|by apply prefix_app|
      by rewrite app_assoc|by eapply down_frame_trans].
  - exists ((bk, k) :: ks), (EncodeBackendKeyData k ++ full), (EncodeBackendKeyData k ++ sent).
    rewrite Hd, Hw2, Hw. destruct m as [t body]. cbn in Hk, Hbk. subst t.
    split_and!; [by apply sees_key|by apply prefix_app|by rewrite app_assoc| |by rewrite Hl, Hi|
      by eapply down_frame_trans].
    econstructor; [done|]. by rewrite <- Hc.
Qed.

Lemma relay_loop_run fuel route label st w b err issued w' :
  w_backend w = Some b → relay_loop fuel route label st w = Some ((err, issued), w') →
  relayed route b st w w' issued.
Proof.
  revert st w b. induction fuel as [|fuel IH]; intros st w b Hb; [done|].
  cbn [relay_loop]. intros ([st'|[e i]] & w1 & Hm & Hrun)%bind_some;
    pose proof (relay_message_run _ _ _ _ _ _ _ Hb Hm) as Hr.
  - pose proof Hr as (m & r & out & _ & _ & _ & Hb1 & _).
    eapply relayed_cons; [exact Hr|exact Hb1|]. by eapply IH.
  - by injection Hrun as -> -> ->.
Qed.

Lemma length_Message_Encode m : (5 <= length (Message_Encode m))%nat.
Proof.
  unfold Message_Encode. rewrite length_app, AppendUint32_app, length_app, length_AppendUint32.
  cbn [length]. lia.
Qed.

(** An iteration fails only if no key can be issued. *)
Lemma relay_message_total route label st w b :
  w_backend w = Some b →
  is_Some (relay_message route label st w) ∨
  Forall (λ buf, is_Some (w_cancels w !! key_of_bytes buf)) (w_rand w).
Proof.
  intros Hb. unfold relay_message, frame_message, next_message, with_backend, write_client, with_client. run. rewrite Hb.
  destruct (Next (MkMessageReader (c_in b) (ls_buf st))) as [[msg|err] mr]; run;
    [|left; by destruct (isBenignClose err)].
  unfold rewrite_message. case_bool_decide as Hk; [destruct (DecodeBackendKeyData _) as [bk|]|];
    [|left; by eexists|].
  - unfold issue_key. run. destruct (issue _ _ _) as [[[k rest] m']|] eqn:EI;
      [left|right; by apply issue_none in EI]. run.
    destruct (Write _ _) as [[n [e|]] c']; run; [by destruct (isBenignClose e)|].
    case_bool_decide as Hz; [by rewrite Hz in Hk|]. by eexists.
  - left. run. destruct (Write _ _) as [[n [e|]] c']; run; [by destruct (isBenignClose e)|].
    case_bool_decide; [|by eexists]. set (w3 := World _ _ _ _ _ _).
    destruct (splice_run label w3 _ eq_refl) as (? & ? & ? & -> & _). by eexists.
Qed.

(** The loop's fuel suffices, and the loop returns unless the random source runs
    dry of free keys. *)
Lemma relay_loop_fuel fuel route label st w b :
  w_backend w = Some b → (length (st_data (c_in b)) < fuel)%nat →
  distinct_draws (w_rand w) →
  (length (st_data (c_in b)) < free_draws (w_rand w) (w_cancels w))%nat →
  is_Some (relay_loop fuel route label st w).
Proof.
  revert st w b. induction fuel as [|fuel IH]; intros st w b Hb Hlen Hd Hfree; [lia|].
  cbn [relay_loop]. unfold mbind, gw_bind.
  destruct (relay_message route label st w) as [[r w1]|] eqn:ER.
  - pose proof (relay_message_run _ _ _ _ _ _ _ Hb ER) as Hr. destruct r as [st'|[e i]]; [|done].
    destruct Hr as (m & r & out & Hdata & _ & _ & Hb1 & _ & _ & Hsp & _).
    destruct (Hsp Hd) as [Hd' Hfree']. pose proof (length_Message_Encode m) as Hm.
    rewrite Hdata, length_app in Hlen, Hfree.
    apply (IH st' w1 _ Hb1); cbn; [lia|done|lia].
  - destruct (relay_message_total route label st w b Hb) as [[? Hs]|Hno]; [congruence|].
    apply free_draws_zero in Hno. lia.
Qed.

Lemma release_key_run key w :
  release_key key w = Some (tt, World (w_client w) (w_backend w) (release (w_cancels w) key)
                                  (w_rand w) (w_cut w) (w_trace w)).
Proof. done. Qed.

(** What is left in the table after the deferred release. *)
Definition after_release (issued : option CancelRequest) (m : cancelRegistry) : cancelRegistry :=
  match issued with Some k => release m k | None => m end.

Lemma relayFromBackend_run route label w b err w' :
  w_backend w = Some b → relayFromBackend route label w = Some (err, w') →
  ∃ ks full sent m,
    client_sees true (st_data (c_in b)) ks full ∧ sent `prefix_of` full ∧
    written (w_client w') = written (w_client w) ++ sent ∧
    issued_from route (w_cancels w) (w_rand w) ks m (w_rand w') ∧
    w_cancels w' = after_release (last_key ks None) m ∧
    down_frame w w'.
Proof.
  intros Hb. unfold relayFromBackend.
  intros (w0 & ? & [= <- <-] & ([e issued] & w1 & Hl & Hrun)%bind_some)%bind_some.
  apply (relay_loop_run _ _ _ _ _ b) in Hl as (ks & full & sent & Hs & Hp & Hw & Hi & -> & Hf);
    [|done].
  exists ks, full, sent, (w_cancels w1).
  change (ls_issued _) with (@None CancelRequest) in Hrun.
  destruct (last_key ks None) as [k|]; cbn in Hrun; injection Hrun as <- <-; done.
Qed.

(** *** The table after a session *)

Lemma last_key_elem ks i k :
  last_key ks i = Some k → (∃ bk, (bk, k) ∈ ks) ∨ (ks = [] ∧ i = Some k).
Proof.
  revert i. induction ks as [|[bk k'] ks IH]; intros i; simpl; [by right|].
  intros [[bk' Hin]|[-> [= ->]]]%IH; left; [exists bk'; set_solver|exists bk; set_solver].
Qed.

Lemma last_key_None ks : last_key ks None = None → ks = [].
Proof.
  destruct ks as [|[bk k] ks]; [done|]. simpl. intros Hl. exfalso. revert k Hl.
  induction ks as [|[bk' k'] ks IH]; intros k; [done|]. apply IH.
Qed.

Lemma issued_from_sub route m rand ks m' rand' :
  issued_from route m rand ks m' rand' →
  m ⊆ m' ∧ len_cancel m' = (length ks + len_cancel m)%nat ∧
  Forall (λ p, m !! p.2 = None ∧ wf_key p.2) ks.
Proof.
  unfold len_cancel. induction 1 as [m rand|m rand bk k rest ks m' rand' Hnext Hiss (Hsub & Hsz & Hall)];
    [done|]. apply next_free_wf in Hnext as (Hfree & Hwf & _).
  rewrite map_size_insert_None in Hsz by done. split_and!.
  - etrans; [|done]. by apply insert_subseteq.
  - simpl. lia.
  - constructor; [done|]. eapply Forall_impl; [exact Hall|]. intros p [Hp ?]. split; [|done].
    by apply lookup_insert_None in Hp as [].
Qed.

Lemma issued_from_lookup route m rand ks m' rand' bk k :
  issued_from route m rand ks m' rand' → (bk, k) ∈ ks → m' !! k = Some (session_entry route bk).
Proof.
  induction 1 as [m rand|m rand bk' k' rest ks m' rand' Hfree Hiss IH]; [set_solver|].
  rewrite elem_of_cons. intros [[= -> ->]|Hin]; [|by apply IH].
  apply issued_from_sub in Hiss as (Hsub & _). eapply lookup_weaken; [|done].
  apply lookup_insert_eq.
Qed.

(** The release takes the key issued last out of the table again, and no other. *)
Lemma after_release_spec route m rand ks m' rand' :
  issued_from route m rand ks m' rand' →
  m ⊆ after_release (last_key ks None) m' ∧
  len_cancel (after_release (last_key ks None) m') = (pred (length ks) + len_cancel m)%nat ∧
  (length ks ≤ 1 → after_release (last_key ks None) m' = m)%nat.
Proof.
  intros Hiss. pose proof (issued_from_sub _ _ _ _ _ _ Hiss) as (Hsub & Hsz & Hall).
  unfold after_release, release. destruct (last_key ks None) as [k|] eqn:El.
  - apply last_key_elem in El as [[bk Hin]|[_ ?]]; [|done].
    rewrite Forall_forall in Hall. destruct (Hall _ Hin) as [Hfree _]. cbn in Hfree.
    pose proof (issued_from_lookup _ _ _ _ _ _ _ _ Hiss Hin) as Hk.
    assert (m ⊆ delete k m') as Hsub'.
    { rewrite <- (delete_id m k Hfree). by apply delete_mono. }
    assert (len_cancel (delete k m') = (pred (length ks) + len_cancel m)%nat) as Hlen.
    { unfold len_cancel in *. rewrite map_size_delete_Some by eauto. rewrite Hsz.
      destruct ks; [set_solver|]. simpl. lia. }
    split_and!; [done|done|]. intros Hone. symmetry.
    apply map_subseteq_size_eq; [done|]. unfold len_cancel in *. lia.
  - apply last_key_None in El as ->. inversion Hiss; subst. done.
Qed.

(** *** The upstream direction and the whole relay *)

Lemma ReadAll_err s : (ReadAll s).1.2 = None ∨ (ReadAll s).1.2 = Some (st_err s).
Proof. unfold ReadAll. cbn. repeat case_match; auto. Qed.

Lemma relayUpstream_run label w b :
  w_backend w = Some b →
  let src := upstream_source (w_cut w) (c_in (w_client w)) in
  ∃ err w' n b', relayUpstream label w = Some (err, w') ∧
    w_client w' = w_client w ∧ w_cancels w' = w_cancels w ∧ w_rand w' = w_rand w ∧
    sans_bytes (w_trace w') = sans_bytes (w_trace w) ∧ w_backend w' = Some b' ∧ c_wclosed b' = true ∧
    written b' = written b ++ take n (st_data src) ∧
    (c_limit b = None → n = length (st_data src) ∧ (isBenignClose (st_err src) = true → err = None)).
Proof.
  intros Hb src. unfold relayUpstream, with_backend. run. rewrite Hb.
  unfold Copy. fold src. pose proof (ReadAll_err src) as Hor. unfold ReadAll in *.
  cbn [fst snd] in Hor.
  set (rerr := match st_err src with ESentinel io_EOF => None | e => Some e end) in *.
  destruct (Write b (st_data src)) as [[n werr] b'] eqn:EW.
  assert (c_limit b = None → n = length (st_data src) ∧ werr = None) as Hn.
  { intros Hl. unfold Write in EW. rewrite Hl in EW. by injection EW as <- <- <-. }
  apply written_app in EW.
  destruct werr as [werr|]; run; eexists _, _, n, _; split_and!; try done;
    try (cbn [w_trace]; by rewrite sans_bytes_app, app_nil_r); intros Hl;
    destruct (Hn Hl) as [-> ?]; try done.
  split; [done|]. intros He. destruct Hor as [-> | ->]; by rewrite ?He.
Qed.

(** What [relay] does, whatever happens to it. *)
Lemma relay_run route label w b err w' :
  w_backend w = Some b → relay route label w = Some (err, w') →
  ∃ ks full sent m b' n,
    client_sees true (st_data (c_in b)) ks full ∧ sent `prefix_of` full ∧
    written (w_client w') = written (w_client w) ++ sent ∧
    issued_from route (w_cancels w) (w_rand w) ks m (w_rand w') ∧
    w_cancels w' = after_release (last_key ks None) m ∧
    w_backend w' = Some b' ∧
    written b' = written b ++ take n (st_data (upstream_source (w_cut w) (c_in (w_client w)))) ∧
    (c_limit b = None → n = length (st_data (upstream_source (w_cut w) (c_in (w_client w))))) ∧
    c_wclosed b' = true ∧ c_closed (w_client w') = true ∧ sans_bytes (w_trace w') = sans_bytes (w_trace w).
Proof.
  intros Hb. unfold relay. intros (derr & w1 & Hd & Hrest)%bind_some.
  apply (relayFromBackend_run _ _ _ b) in Hd
    as (ks & full & sent & m & Hs & Hp & Hw & Hi & Hc & Hin & Hcut & _ & Hbk & Hdl); [|done].
  rewrite Hb in Hbk. destruct (w_backend w1) as [b1|] eqn:Hb1; [|done].
  cbn in Hbk. injection Hbk as Ho Hli Ht. unfold mbind, gw_bind, with_client in Hrest. cbn in Hrest.
  set (w2 := World _ _ _ _ _ _) in Hrest.
  destruct (relayUpstream_run label w2 b1 Hb1)
    as (uerr & w3 & n & b' & Hup & Hc3 & Ht3 & Hr3 & Hd3 & Hb3 & Hcl & Hw3 & Hn).
  rewrite Hup in Hrest. injection Hrest as <- <-.
  cbn [w2 w_cut w_client w_cancels w_rand w_trace c_in Close closeWrite] in *.
  rewrite Hcut, Hin in *.
  exists ks, full, sent, m, b', n. rewrite Hc3, Ht3, Hr3. split_and!; try done.
  - rewrite Hw3. unfold written. by rewrite Ho.
  - rewrite <- Hli. intros Hl. by apply Hn.
  - by rewrite Hd3.
Qed.

(** *** Complete sessions *)

(** A message the loop passes on: short enough to be framed, not ReadyForQuery,
    and a BackendKeyData of the right size if it is one. *)
Definition relayable (m : Message) : Prop :=
  Z.of_nat (length (Body m)) + 4 <= MaxMessageLength ∧ Type_ m ≠ MsgReadyForQuery ∧
  (Type_ m = MsgBackendKeyData → length (Body m) = 8%nat).

(** The backend's side of a session that gets through its startup. *)
Definition session_data (ms : list Message) (z : Message) (tail : bytes) : bytes :=
  concat (map Message_Encode ms) ++ Message_Encode z ++ tail.

Definition key_messages (ms : list Message) : nat :=
  length (filter (λ m, Type_ m = MsgBackendKeyData) ms).

Lemma Message_Encode_inj m1 m2 : Message_Encode m1 = Message_Encode m2 → m1 = m2.
Proof.
  destruct m1 as [t1 b1], m2 as [t2 b2]. unfold Message_Encode. cbn [Type_ Body].
  rewrite !(AppendUint32_app [_]), <- !app_assoc. intros Heq.
  apply app_inj_1 in Heq as [Ht Hrest]; [|done]. injection Ht as <-.
  by apply app_inj_1 in Hrest as [_ <-]; [|by rewrite !length_AppendUint32].
Qed.

Lemma relayable_step route label st w b m rest e :
  w_backend w = Some b → c_in b = Stream (Message_Encode m ++ rest) e → relayable m →
  c_limit (w_client w) = None → is_Some (relay_message route label st w) →
  ∃ st' w', relay_message route label st w = Some (inl st', w') ∧
    w_backend w' = Some (set_in (Stream rest e) b) ∧ c_limit (w_client w') = None.
Proof.
  intros Hb Hin (Hlen & Hz & Hk) Hlim. unfold relay_message, frame_message, next_message, with_backend. run.
  rewrite Hb, Hin. destruct (Next_frame m rest e (ls_buf st) Hlen) as [buf ->].
  unfold write_client, with_client. run.
  unfold rewrite_message. case_bool_decide as HK.
  - unfold DecodeBackendKeyData. rewrite (Hk HK). change (negb (Z.of_nat 8 =? 8)) with false.
    unfold issue_key. run.
    destruct (issue _ _ _) as [[[k r] m']|]; [|by intros [? ?]]. intros _. run.
    unfold Write. rewrite Hlim. run. rewrite bool_decide_eq_false_2 by done. eauto 10.
  - intros _. run. unfold Write. rewrite Hlim. run. rewrite bool_decide_eq_false_2 by done. eauto 10.
Qed.

(** Nothing goes wrong when the backend just hangs up and the client takes all. *)
Lemma splice_complete label w b :
  w_backend w = Some b → c_limit (w_client w) = None → isBenignClose (st_err (c_in b)) = true →
  ∃ w', spliceToClient label w = Some (None, w') ∧
    written (w_client w') = written (w_client w) ++ st_data (c_in b) ∧ w_cancels w' = w_cancels w ∧
    w_rand w' = w_rand w.
Proof.
  intros Hb Hlim He. unfold spliceToClient, copy_to_client, with_backend, with_client.
  run. rewrite Hb. run. unfold Copy.
  pose proof (ReadAll_err (c_in b)) as Hor. unfold ReadAll in *. cbn [fst snd] in *.
  set (rerr := match st_err (c_in b) with ESentinel io_EOF => None | e => Some e end) in *.
  unfold Write. rewrite Hlim.
  destruct Hor as [->| ->]; run; rewrite ?He; eexists; (split; [done|]);
    (split; [|done]); unfold written; cbn; rewrite !map_app, !concat_app; cbn;
    by rewrite !app_nil_r.
Qed.

Lemma ready_step route label st w b z tail e :
  w_backend w = Some b → c_in b = Stream (Message_Encode z ++ tail) e →
  Z.of_nat (length (Body z)) + 4 <= MaxMessageLength → Type_ z = MsgReadyForQuery →
  isBenignClose e = true → c_limit (w_client w) = None →
  ∃ w', relay_message route label st w = Some (inr (None, ls_issued st), w') ∧
    written (w_client w') = written (w_client w) ++ Message_Encode z ++ tail ∧
    w_cancels w' = w_cancels w ∧ w_rand w' = w_rand w.
Proof.
  intros Hb Hin Hlen Hz He Hlim. unfold relay_message, frame_message, next_message, with_backend. run.
  rewrite Hb, Hin. destruct (Next_frame z tail e (ls_buf st) Hlen) as [buf ->].
  unfold write_client, with_client. run. unfold rewrite_message.
  rewrite bool_decide_eq_false_2 by by rewrite Hz. run.
  unfold Write. rewrite Hlim. run. rewrite bool_decide_eq_true_2 by done.
  set (w1 := World _ _ _ _ _ _).
  destruct (splice_complete label w1 (set_in (Stream tail e) b)) as (w' & -> & Hw & Hc & Hr); try done.
  exists w'. split; [done|]. rewrite Hw, Hc, Hr. split; [|done].
  unfold written. cbn. rewrite map_app, concat_app. cbn. by rewrite app_nil_r, app_assoc.
Qed.

(** The last message of a startup. *)
Definition ready (z : Message) : Prop :=
  Z.of_nat (length (Body z)) + 4 <= MaxMessageLength ∧ Type_ z = MsgReadyForQuery.

(** There are more free random draws than bytes to relay, so no key issue can
    fail on the way. *)
Definition enough_draws (w : world) (n : nat) : Prop :=
  distinct_draws (w_rand w) ∧ (n < free_draws (w_rand w) (w_cancels w))%nat.

(** One relayable message off the front of the stream. *)
Lemma relayable_one route label st w b m rest e :
  w_backend w = Some b → c_in b = Stream (Message_Encode m ++ rest) e → relayable m →
  c_limit (w_client w) = None → enough_draws w (length (Message_Encode m ++ rest)) →
  ∃ st' w' out, relay_message route label st w = Some (inl st', w') ∧
    w_backend w' = Some (set_in (Stream rest e) b) ∧ c_limit (w_client w') = None ∧
    enough_draws w' (length rest) ∧ written (w_client w') = written (w_client w) ++ out ∧
    ((Type_ m ≠ MsgBackendKeyData ∧ out = Message_Encode m ∧
      w_cancels w' = w_cancels w ∧ w_rand w' = w_rand w ∧ ls_issued st' = ls_issued st) ∨
     (∃ bk k, Type_ m = MsgBackendKeyData ∧ DecodeBackendKeyData (Body m) = Ok bk ∧
        out = EncodeBackendKeyData k ∧ next_free (w_rand w) (w_cancels w) k (w_rand w') ∧
        w_cancels w' = <[k := session_entry route bk]> (w_cancels w) ∧
        ls_issued st' = Some k)).
Proof.
  intros Hb Hin Hm Hlim [Hdist Hfree].
  assert (is_Some (relay_message route label st w)) as Hsome.
  { destruct (relay_message_total route label st w b Hb) as [?|Hno]; [done|].
    apply free_draws_zero in Hno. lia. }
  destruct (relayable_step _ _ _ _ _ _ _ _ Hb Hin Hm Hlim Hsome) as (st' & w' & Hrun & Hb' & Hlim').
  pose proof (relay_message_run _ _ _ _ _ _ _ Hb Hrun)
    as (m' & r & out & Hd & _ & _ & Hb2 & Hw & _ & Hsp & Hcase).
  rewrite Hb' in Hb2. injection Hb2 as <-. rewrite Hin in Hd. cbn in Hd.
  apply app_inv_tail, Message_Encode_inj in Hd as <-.
  exists st', w', out. split_and!; try done. destruct (Hsp Hdist) as [Hd' Hf']. split; [done|].
  rewrite length_app in Hfree. pose proof (length_Message_Encode m). lia.
Qed.

Lemma relay_loop_complete route label ms z tail e fuel st w b :
  w_backend w = Some b → c_in b = Stream (session_data ms z tail) e →
  Forall relayable ms → ready z → isBenignClose e = true → c_limit (w_client w) = None →
  (length (session_data ms z tail) < fuel)%nat → enough_draws w (length (session_data ms z tail)) →
  ∃ ks out w', relay_loop fuel route label st w = Some ((None, last_key ks (ls_issued st)), w') ∧
    client_sees false (session_data ms z tail) ks out ∧
    written (w_client w') = written (w_client w) ++ out ∧
    issued_from route (w_cancels w) (w_rand w) ks (w_cancels w') (w_rand w') ∧
    length ks = key_messages ms.
Proof.
  intros Hb Hin Hms [Hzl Hzt] He Hlim Hfuel Hdraws.
  revert fuel st w b Hb Hin Hlim Hfuel Hdraws.
  induction Hms as [|m ms Hm Hms IH]; intros fuel st w b Hb Hin Hlim Hfuel Hdraws;
    (destruct fuel as [|fuel]; [lia|]); cbn [relay_loop]; unfold mbind, gw_bind.
  - destruct (ready_step route label st w b z tail e) as (w' & -> & Hw & Hc & Hr); try done.
    exists [], (Message_Encode z ++ tail), w'. rewrite Hc, Hr.
    split_and!; try done; by constructor.
  - assert (session_data (m :: ms) z tail = Message_Encode m ++ session_data ms z tail) as Hsplit
      by (unfold session_data; cbn; by rewrite <- app_assoc).
    rewrite Hsplit in *. destruct (relayable_one route label st w b _ _ _ Hb Hin Hm Hlim Hdraws)
      as (st' & w1 & out & -> & Hb1 & Hlim1 & Hdraws1 & Hw1 & Hcase).
    rewrite length_app in Hfuel. pose proof (length_Message_Encode m) as Hm5.
    destruct (IH fuel st' w1 _ Hb1 eq_refl Hlim1 ltac:(lia) Hdraws1)
      as (ks & outs & w' & -> & Hs & Hw & Hi & Hl).
    destruct Hcase as [(Hk & -> & Hc & Hr & His)|(bk & k & Hk & Hbk & -> & Hfr & Hc & His)].
    + exists ks, (Message_Encode m ++ outs), w'. rewrite <- His, Hw, Hw1, <- Hc, <- Hr.
      split_and!; try done; [by apply sees_message; [|apply Hm|]|by rewrite app_assoc|].
      unfold key_messages. by rewrite filter_cons, decide_False by done.
    + exists ((bk, k) :: ks), (EncodeBackendKeyData k ++ outs), w'. rewrite Hw, Hw1.
      destruct m as [t body]. cbn in Hk, Hbk. subst t. cbn [last_key]. rewrite <- His.
      split_and!; [done|by apply sees_key|by rewrite app_assoc| |].
      * econstructor; [done|]. by rewrite <- Hc.
      * unfold key_messages. rewrite filter_cons, decide_True by done. cbn. by f_equal.
Qed.

(** ** Claims about the relay *)

(** C6: whatever the backend sends and however the session ends, the client only
    ever gets the backend's bytes in order and unchanged, except that every
    BackendKeyData carries a key of the gateway's own: the first one the gateway's
    random source gives that is not in use, whatever key the backend sent, under which
    the table records the backend's address and the key it did send, until the last
    one is released at the end.  After ReadyForQuery nothing is touched. *)
Theorem relay_client_view route label w b err w' :
  w_backend w = Some b → relay route label w = Some (err, w') →
  ∃ ks full sent m,
    client_sees true (st_data (c_in b)) ks full ∧ sent `prefix_of` full ∧
    written (w_client w') = written (w_client w) ++ sent ∧
    Forall (λ p, lookup_cancel (w_cancels w) p.2 = None ∧ wf_key p.2) ks ∧
    issued_from route (w_cancels w) (w_rand w) ks m (w_rand w') ∧
    Forall (λ p, lookup_cancel m p.2 = Some (session_entry route p.1)) ks ∧
    w_cancels w' = after_release (last_key ks None) m.
Proof.
  intros Hb (ks & full & sent & m & b' & n & Hs & Hp & Hw & Hi & Hrel & _)%(relay_run _ _ _ b); [|done].
  exists ks, full, sent, m. pose proof (issued_from_sub _ _ _ _ _ _ Hi) as (_ & _ & Hall).
  split_and!; try done. apply Forall_forall. intros [bk k]. by apply (issued_from_lookup _ _ _ _ _ _ _ _ Hi).
Qed.

(** The backend gets the client's bytes verbatim, all of them unless its own
    connection breaks or the client is closed first; then its side is half-closed,
    the client is closed, and nobody else was contacted. *)
Theorem relay_upstream_verbatim route label w b err w' :
  w_backend w = Some b → relay route label w = Some (err, w') →
  ∃ b' sent, w_backend w' = Some b' ∧ written b' = written b ++ sent ∧
    sent `prefix_of` st_data (c_in (w_client w)) ∧
    (c_limit b = None → w_cut w = None → sent = st_data (c_in (w_client w))) ∧
    c_wclosed b' = true ∧ c_closed (w_client w') = true ∧ dials (w_trace w') = dials (w_trace w).
Proof.
  intros Hb (ks & full & out & m & b' & n & _ & _ & _ & _ & _ & Hb' & Hw & Hn & ? & ? & Ht)%(relay_run _ _ _ b);
    [|done].
  eexists b', _. split_and!; try done; [| |by apply same_dials].
  - destruct (w_cut w); cbn; [|apply prefix_take]. etrans; apply prefix_take.
  - intros Hl Hcut. rewrite (Hn Hl), Hcut. apply firstn_all.
Qed.

(** Keys of other sessions survive a relay untouched; a session whose backend
    sent at most one BackendKeyData leaves the table exactly as it found it; and
    each further BackendKeyData leaves one key behind for good, since only the key
    issued last is released. *)
Theorem relay_table route label w b err w' :
  w_backend w = Some b → relay route label w = Some (err, w') →
  ∃ ks full m, client_sees true (st_data (c_in b)) ks full ∧
    (∀ bk k, (bk, k) ∈ ks → lookup_cancel m k = Some (session_entry route bk)) ∧
    w_cancels w' = after_release (last_key ks None) m ∧
    w_cancels w ⊆ w_cancels w' ∧
    len_cancel (w_cancels w') = (pred (length ks) + len_cancel (w_cancels w))%nat ∧
    (length ks ≤ 1 → w_cancels w' = w_cancels w)%nat.
Proof.
  intros Hb (ks & full & out & m & b' & n & Hs & _ & _ & Hi & Hc & _)%(relay_run _ _ _ b); [|done].
  exists ks, full, m. rewrite Hc. split_and!; try done; try by eapply after_release_spec.
  intros bk k. by apply (issued_from_lookup _ _ _ _ _ _ _ _ Hi).
Qed.

Lemma relay_total route label w b :
  w_backend w = Some b → enough_draws w (length (st_data (c_in b))) →
  is_Some (relay route label w).
Proof.
  intros Hb [Hd Hf]. unfold relay, relayFromBackend, get_world. run.
  destruct (relay_loop_fuel (relay_fuel w) route label (MkLoop [] None 0) w b) as [[[err issued] w1] Hl];
    try done; [unfold relay_fuel; rewrite Hb; lia|].
  rewrite Hl. apply (relay_loop_run _ _ _ _ _ b) in Hl as (? & ? & ? & _ & _ & _ & _ & _ & Hfr); [|done].
  destruct Hfr as (_ & _ & _ & Hbk & _). rewrite Hb in Hbk.
  destruct (w_backend w1) as [b1|] eqn:Hb1; [|done].
  destruct issued; unfold release_key, get_world; run;
    match goal with |- context [relayUpstream label ?v] =>
      destruct (relayUpstream_run label v b1 Hb1) as (? & ? & ? & ? & -> & _) end; by eexists.
Qed.

(** A relay always comes to an end when both peers stop sending: with a
    source of distinct random keys it returns for every input. *)
Theorem relay_terminates route label w b :
  w_backend w = Some b → enough_draws w (length (st_data (c_in b))) →
  is_Some (relay route label w).
Proof. apply relay_total. Qed.

Lemma relay_complete_run route label w b ms z tail e :
  w_backend w = Some b → c_in b = Stream (session_data ms z tail) e →
  Forall relayable ms → ready z → isBenignClose e = true →
  c_limit (w_client w) = None → c_limit b = None →
  isBenignClose (st_err (upstream_source (w_cut w) (c_in (w_client w)))) = true →
  enough_draws w (length (session_data ms z tail)) →
  ∃ ks out m w', relay route label w = Some (None, w') ∧
    client_sees false (session_data ms z tail) ks out ∧
    written (w_client w') = written (w_client w) ++ out ∧
    length ks = key_messages ms ∧
    issued_from route (w_cancels w) (w_rand w) ks m (w_rand w') ∧
    w_cancels w' = after_release (last_key ks None) m ∧
    (key_messages ms ≤ 1 → w_cancels w' = w_cancels w)%nat.
Proof.
  intros Hb Hin Hms Hz He Hlim Hlimb Hup Hdraws.
  destruct (relay_loop_complete route label ms z tail e (relay_fuel w) (MkLoop [] None 0) w b)
    as (ks & out & w1 & Hl & Hs & Hw & Hi & Hk); try done.
  { unfold relay_fuel. rewrite Hb, Hin. cbn. lia. }
  pose proof (relay_loop_run _ _ _ _ _ b _ _ _ Hb Hl) as (_ & _ & _ & _ & _ & _ & _ & _ & Hfr).
  destruct Hfr as (Hcin & Hcut & _ & Hbk & _). rewrite Hb in Hbk.
  destruct (w_backend w1) as [b1|] eqn:Hb1; [|done]. cbn in Hbk. injection Hbk as _ Hl1 _.
  rewrite <- Hl1 in Hlimb. rewrite <- Hcut, <- Hcin in Hup.
  pose proof (after_release_spec _ _ _ _ _ _ Hi) as (_ & _ & Hone). rewrite Hk in Hone.
  unfold relay, relayFromBackend, get_world. run. rewrite Hl. cbn [ls_issued] in *.
  destruct (last_key ks None) as [k|] eqn:El; unfold release_key, get_world; run;
    match goal with |- context [relayUpstream label ?v] =>
      destruct (relayUpstream_run label v b1 Hb1)
        as (uerr & w3 & n & b' & -> & Hc3 & Ht3 & Hr3 & _ & _ & _ & _ & Hok) end;
    cbn [w_client w_cut c_in Close closeWrite w_cancels w_rand] in *;
    destruct (Hok Hlimb) as [_ Hnone]; rewrite (Hnone Hup);
    exists ks, out, (w_cancels w1), w3; rewrite Hc3, Ht3, Hr3, El; split_and!; try done.
Qed.

(** C24: a session whose backend completes its startup is relayed completely: when
    both peers accept all writes and just hang up in the end, [relay] returns
    without an error, and the client has every byte the backend sent, with a key from
    the gateway's random source in place of each of the backend's.  Of the keys issued
    the last one is released; so a session in which the backend sends at most one key,
    as PostgreSQL does, leaves the table as it found it. *)
Theorem relay_complete route label w b ms z tail e :
  w_backend w = Some b → c_in b = Stream (session_data ms z tail) e →
  Forall relayable ms → ready z → isBenignClose e = true →
  c_limit (w_client w) = None → c_limit b = None →
  isBenignClose (st_err (upstream_source (w_cut w) (c_in (w_client w)))) = true →
  enough_draws w (length (session_data ms z tail)) →
  ∃ ks out m w', relay route label w = Some (None, w') ∧
    client_sees false (session_data ms z tail) ks out ∧
    written (w_client w') = written (w_client w) ++ out ∧
    length ks = key_messages ms ∧
    issued_from route (w_cancels w) (w_rand w) ks m (w_rand w') ∧
    w_cancels w' = after_release (last_key ks None) m ∧
    (key_messages ms ≤ 1 → w_cancels w' = w_cancels w)%nat.
Proof. apply relay_complete_run. Qed.

(** ** Claims about cancellation *)

Section CancellationLemmas.
Context `{Network}.

(** The route [forwardCancel] makes up to secure its connection. *)
Definition cancel_route (entry : cancelEntry) : Route :=
  MkResolved no_name "" "" (hostOf (backendAddr entry)) 0 (ce_tls entry).

(** What the backend at the other end of the fresh connection [c0] has been sent
    when the connection ends as [c]. *)
Definition cancel_sent (timeout : Z) (entry : cancelEntry) (outcome : string) (c0 c : Conn) : Prop :=
  let packet := EncodeCancelRequest (backendKey entry) in
  if Enabled (ce_tls entry) then
    ∃ clear sealed, c_out c = c_out c0 ++ (c_tls c0, clear) :: sealed ∧
      clear `prefix_of` ssl_request ∧ Forall (λ p, p.1 = true) sealed ∧
      (outcome = "forwarded" → clear = ssl_request ∧ sealed = [(true, packet)] ∧
         ∃ c1, secured_by (cancel_route entry) (SetDeadline (Some timeout) c0).2 c1)
  else
    ∃ sent, c_out c = c_out c0 ++ [(c_tls c0, sent)] ∧ sent `prefix_of` packet ∧
      (outcome = "forwarded" → sent = packet).

(** A deadline only concerns what is read. *)
Lemma SetDeadline_out t c o c' :
  SetDeadline t c = (o, c') →
  c_out c' = c_out c ∧ c_tls c' = c_tls c ∧ c_limit c' = c_limit c ∧ c_idle c' = c_idle c ∧
  c_wclosed c' = c_wclosed c ∧ c_closed c' = c_closed c.
Proof. unfold SetDeadline. repeat case_match; by intros [= <- <-]. Qed.

Lemma forwardCancel_run timeout request w :
  ∃ w', forwardCancel timeout request w = Some (tt, w') ∧ w_client w' = w_client w ∧
    w_cancels w' = w_cancels w ∧
    match lookup_cancel (w_cancels w) request with
    | None => w_backend w' = w_backend w ∧ w_trace w' = w_trace w ++ [EvCancel "unknown_key"]
    | Some entry =>
        ∃ outcome, w_trace w' = w_trace w ++ [EvDial (backendAddr entry); EvCancel outcome] ∧
        match Dial (backendAddr entry) with
        | Err _ => outcome = "backend_unreachable" ∧ w_backend w' = w_backend w
        | Ok c0 => ∃ c, w_backend w' = Some c ∧ c_closed c = true ∧ cancel_sent timeout entry outcome c0 c
        end
    end.
Proof.
  unfold forwardCancel, get_world. run.
  destruct (lookup_cancel (w_cancels w) request) as [entry|]; [|by eexists].
  run. destruct (Dial (backendAddr entry)) as [c0|e]; run.
  2: { eexists. split_and!; try done. exists "backend_unreachable". cbn. by rewrite <- app_assoc. }
  unfold cancel_sent. destruct (SetDeadline (Some timeout) c0) as [derr c1] eqn:ED. run.
  apply SetDeadline_out in ED as (Ho1 & Ht1 & _). destruct (Enabled (ce_tls entry)); run.
  - fold (cancel_route entry).
    destruct (upgradeBackendTLS c1 (cancel_route entry)) as [[uerr|] c2] eqn:EU; run.
    + apply upgrade_writes in EU as [n Hout]. eexists. split_and!; try done.
      exists "tls_failed". cbn. rewrite <- app_assoc. split; [done|]. eexists. split_and!; [done..|].
      eexists _, []. cbn. rewrite Hout, Ho1, Ht1. split_and!; [done|apply prefix_take|done|done].
    + apply upgrade_success in EU as (Htls & Hout & Hsec).
      unfold write_backend, with_backend. run.
      destruct (Write c2 (EncodeCancelRequest (backendKey entry))) as [[n werr] c3] eqn:EW.
      apply Write_out in EW as (Hout3 & _ & _ & _ & Hall). rewrite Hout, Ho1, Ht1, Htls in Hout3.
      destruct werr as [werr|]; run; eexists; (split_and!; [done..|]);
        (eexists; split; [cbn; by rewrite <- app_assoc|]); eexists; (split_and!; [done..|]);
        exists ssl_request, [(true, take n (EncodeCancelRequest (backendKey entry)))]; cbn;
        rewrite Hout3, <- app_assoc; (split_and!; [done|done|by repeat constructor|]); [done|].
      intros _. rewrite (Hall eq_refl), firstn_all. split_and!; try done.
      eexists c2. done.
  - unfold write_backend, with_backend. run.
    destruct (Write c1 (EncodeCancelRequest (backendKey entry))) as [[n werr] c3] eqn:EW.
    apply Write_out in EW as (Hout3 & _ & _ & _ & Hall). rewrite Ho1, Ht1 in Hout3.
    destruct werr as [werr|]; run; eexists; (split_and!; [done..|]);
      (eexists; split; [cbn; by rewrite <- app_assoc|]); eexists; (split_and!; [done..|]); eexists; cbn; rewrite Hout3;
      (split_and!; [done|apply prefix_take|]); [done|].
    intros _. by rewrite (Hall eq_refl), firstn_all.
Qed.
(** C25: a cancellation for a key the gateway never issued, or has released,
    contacts nobody.  For a live key exactly one connection is made, to the address
    of that key's session, and it is closed again; if the request counts as
    forwarded, that backend got exactly its own key, under a route that asks for TLS
    only after a TLS upgrade; and under such a route nothing but the SSLRequest ever
    leaves in the clear.  The table itself is only read. *)
Theorem forward_cancel_spec timeout request w :
  ∃ w', forwardCancel timeout request w = Some (tt, w') ∧ w_client w' = w_client w ∧
    w_cancels w' = w_cancels w ∧
    match lookup_cancel (w_cancels w) request with
    | None => w_backend w' = w_backend w ∧ w_trace w' = w_trace w ++ [EvCancel "unknown_key"]
    | Some entry =>
        ∃ outcome, w_trace w' = w_trace w ++ [EvDial (backendAddr entry); EvCancel outcome] ∧
        match Dial (backendAddr entry) with
        | Err _ => outcome = "backend_unreachable" ∧ w_backend w' = w_backend w
        | Ok c0 => ∃ c, w_backend w' = Some c ∧ c_closed c = true ∧ cancel_sent timeout entry outcome c0 c
        end
    end.
Proof. apply forwardCancel_run. Qed.
End CancellationLemmas.

(** ** A sample session *)

Definition auth_ok : Message := MkMessage x52 [x00; x00; x00; x00].
Definition ready_idle : Message := MkMessage MsgReadyForQuery [x49].
Definition backend_key_message : Message :=
  MkMessage MsgBackendKeyData [x00; x00; x00; x07; x00; x00; x00; x09].

Definition sample_route : Route :=
  MkResolved (MkName "apps" "billing") "billing" "" "pg" 5432 zero_TLSConfig.

Definition sample_draws : list bytes :=
  map (λ i, [x00; x00; x00; byte_of_Z (Z.of_nat i); x00; x00; x00; x00]) (seq 0 64).

Definition sample_world (data : bytes) : world :=
  World (sample_conn [x51]) (Some (sample_conn data)) ∅ sample_draws None [].

Definition startup_messages : list Message := [auth_ok; backend_key_message].

Lemma sample_draws_distinct : distinct_draws sample_draws.
Proof. apply (bool_decide_unpack _). by vm_compute. Qed.

Definition sample_session : world :=
  sample_world (session_data startup_messages ready_idle [x44]).

Lemma relay_client_view_witness :
  ∃ err w', relay sample_route "billing" sample_session = Some (err, w') ∧
  ∃ ks full sent m,
    client_sees true (session_data startup_messages ready_idle [x44]) ks full ∧
    sent `prefix_of` full ∧ written (w_client w') = sent ∧
    Forall (λ p, lookup_cancel ∅ p.2 = None ∧ wf_key p.2) ks ∧
    issued_from sample_route ∅ sample_draws ks m (w_rand w') ∧
    Forall (λ p, lookup_cancel m p.2 = Some (session_entry sample_route p.1)) ks ∧
    w_cancels w' = after_release (last_key ks None) m.
Proof.
  destruct (relay sample_route "billing" sample_session) as [[err w']|] eqn:E;
    [|by vm_compute in E].
  exists err, w'. split; [done|].
  exact (relay_client_view sample_route "billing" sample_session _ err w' eq_refl E).
Defined.

Lemma relay_upstream_verbatim_witness :
  ∃ err w', relay sample_route "billing" sample_session = Some (err, w') ∧
  ∃ b', w_backend w' = Some b' ∧ written b' = [x51] ∧
    c_wclosed b' = true ∧ c_closed (w_client w') = true ∧ dials (w_trace w') = [].
Proof.
  destruct (relay sample_route "billing" sample_session) as [[err w']|] eqn:E;
    [|by vm_compute in E].
  exists err, w'. split; [done|].
  destruct (relay_upstream_verbatim sample_route "billing" sample_session _ err w' eq_refl E)
    as (b' & sent & Hb & Hw & _ & Hall & Hc).
  exists b'. rewrite (Hall eq_refl eq_refl) in Hw. exact (conj Hb (conj Hw Hc)).
Defined.

Lemma relay_terminates_witness : is_Some (relay sample_route "billing" sample_session).
Proof.
  apply (relay_terminates sample_route "billing" sample_session _ eq_refl). split; [apply sample_draws_distinct|].
  vm_compute. lia.
Defined.

(** A backend that sends its key twice. *)
Definition two_keys : world :=
  sample_world (session_data [backend_key_message; backend_key_message] ready_idle []).

Lemma relay_table_witness :
  ∃ err w', relay sample_route "billing" two_keys = Some (err, w') ∧
  len_cancel (w_cancels w') = 1%nat ∧
  ∃ ks full m, client_sees true (session_data [backend_key_message; backend_key_message] ready_idle []) ks full ∧
    (∀ bk k, (bk, k) ∈ ks → lookup_cancel m k = Some (session_entry sample_route bk)) ∧
    w_cancels w' = after_release (last_key ks None) m ∧
    ∅ ⊆ w_cancels w' ∧
    len_cancel (w_cancels w') = (pred (length ks) + len_cancel ∅)%nat ∧
    (length ks ≤ 1 → w_cancels w' = ∅)%nat.
Proof.
  destruct (relay sample_route "billing" two_keys) as [[err w']|] eqn:E; [|by vm_compute in E].
  exists err, w'. split; [done|]. split; [by vm_compute in E; injection E as <- <-|].
  exact (relay_table sample_route "billing" two_keys _ err w' eq_refl E).
Defined.

Lemma relay_complete_witness :
  ∃ ks out m w', relay sample_route "billing" sample_session = Some (None, w') ∧
    client_sees false (session_data startup_messages ready_idle [x44]) ks out ∧
    written (w_client w') = out ∧ length ks = key_messages startup_messages ∧
    issued_from sample_route ∅ sample_draws ks m (w_rand w') ∧
    w_cancels w' = after_release (last_key ks None) m ∧
    (key_messages startup_messages ≤ 1 → w_cancels w' = ∅)%nat.
Proof.
  apply (relay_complete sample_route "billing" sample_session _ startup_messages ready_idle [x44]
           (ESentinel io_EOF) eq_refl eq_refl); try done.
  - repeat constructor; by vm_compute.
  - split; [apply sample_draws_distinct|]. vm_compute. lia.
Defined.
