(* ===== verification/Interleave.v ===== *)
(** The two directions of a relay as the goroutines they are
    ([relay], [relayFromBackend] and [spliceToClient] of
    [internal/proxy/relay.go]): single reads and writes of the two copies, frames
    of the startup phase, the byte counters and the closing of the connections, in
    any interleaving.  [Relay.relay] runs the two directions one after the other;
    the theorems here say that this loses nothing. *)

From stdpp Require Import base list gmap strings pretty relations.
From Stdlib Require Import ZArith Lia.
From Stdlib Require Import Init.Byte.
From S2P Require Import Prelude GoLib Wire Api Registry Net Cancel Backend Relay.

Local Open Scope go_scope.

(** ** The state of a session *)

Definition put_client (c : Conn) (w : world) : world :=
  World c (w_backend w) (w_cancels w) (w_rand w) (w_cut w) (w_trace w).
Definition put_backend (b : Conn) (w : world) : world :=
  World (w_client w) (Some b) (w_cancels w) (w_rand w) (w_cut w) (w_trace w).
Definition put_cancels (m : cancelRegistry) (w : world) : world :=
  World (w_client w) (w_backend w) m (w_rand w) (w_cut w) (w_trace w).
Definition put_cut (cut : option nat) (w : world) : world :=
  World (w_client w) (w_backend w) (w_cancels w) (w_rand w) cut (w_trace w).
Definition log (e : event) (w : world) : world :=
  World (w_client w) (w_backend w) (w_cancels w) (w_rand w) (w_cut w) (w_trace w ++ [e]).

(** Where the upstream goroutine is: about to read with [n] bytes copied, holding a
    chunk it has read, out of [io.Copy], past the counter, past the half-close. *)
Inductive up_state :=
| UpReading (n : nat)
| UpHolding (n : nat) (chunk : bytes)
| UpCopied (n : nat) (err : option error)
| UpCounted (err : option error)
| UpDone (err : option error).

(** Where [relay] itself is: framing, in [spliceToClient]'s copy (the key to be
    released in hand), out of that copy, about to run the deferred release, back
    from [relayFromBackend], past the half-close, past the close, waiting. *)
Inductive down_state :=
| DnFraming (st : loop_state)
| DnReading (n : nat) (issued : option CancelRequest)
| DnHolding (n : nat) (chunk : bytes) (issued : option CancelRequest)
| DnCopied (n : nat) (err : option error) (issued : option CancelRequest)
| DnReturning (err : option error) (issued : option CancelRequest)
| DnReturned (err : option error)
| DnHalfClosed (err : option error)
| DnWaiting (err : option error).

Record session := MkSession {
  ss_world : world;
  ss_up : up_state;
  ss_down : down_state
}.

(** What [io.Copy] makes of the error that ends its source. *)
Definition eof_error (e : error) : option error :=
  (ReadAll (Stream [] e)).1.2.

(** The error a copy leaves in [relay]'s variables. *)
Definition copy_error (what : string) (err : option error) : option error :=
  match err with
  | Some err => if isBenignClose err then None else Some (Errorf [Lit what; PW err])
  | None => None
  end.

(** A read past the bytes of a silent peer does not return.  The client ends such a
    silence only by being closed on this side; a backend also ends its stream when its
    client has ended its own, as PostgreSQL does, so the half-close makes it speak. *)
Definition quiet (b : Conn) : bool := c_idle b && negb (c_wclosed b).

(** The bytes there are stop short of the end of the message they begin, so that
    [reader.Next] would go on reading. *)
Definition incomplete (s : stream) : bool :=
  if (length (st_data s) <? 5)%nat then true
  else
    let len := Uint32 (drop 1 (take 5 (st_data s))) in
    if (len <? 4) || (MaxMessageLength <? len) then false
    else (length (st_data s) - 5 <? Z.to_nat (len - 4))%nat.

(** The next message of the backend is not there, and will not come. *)
Definition frame_waits (w : world) : bool :=
  match w_backend w with Some b => quiet b && incomplete (c_in b) | None => false end.

Section Steps.
Variable route : Route.
Variable label : string.

(** One step of the upstream goroutine.  Its read of a silent client returns only when
    the client is closed. *)
Inductive up_step : world → up_state → world → up_state → Prop :=
| up_read w n chunk rest e :
    c_closed (w_client w) = false → chunk ≠ [] →
    c_in (w_client w) = Stream (chunk ++ rest) e →
    up_step w (UpReading n) (put_client (set_in (Stream rest e) (w_client w)) w) (UpHolding n chunk)
| up_eof w n e :
    c_closed (w_client w) = false → c_idle (w_client w) = false → c_in (w_client w) = Stream [] e →
    up_step w (UpReading n) w (UpCopied n (eof_error e))
| up_closed w n :
    c_closed (w_client w) = true →
    up_step w (UpReading n) w (UpCopied n (Some (ESentinel net_ErrClosed)))
| up_write w n chunk b m b' :
    w_backend w = Some b → Write b chunk = (m, None, b') →
    up_step w (UpHolding n chunk) (put_backend b' w) (UpReading (n + m))
| up_write_fails w n chunk b m err b' :
    w_backend w = Some b → Write b chunk = (m, Some err, b') →
    up_step w (UpHolding n chunk) (put_backend b' w) (UpCopied (n + m) (Some err))
| up_count w n err :
    up_step w (UpCopied n err) (log (EvBytes label directionToBackend (Z.of_nat n)) w)
      (UpCounted (copy_error "relaying client to backend: " err))
| up_half_close w err b :
    w_backend w = Some b →
    up_step w (UpCounted err) (put_backend (closeWrite b) w) (UpDone err).

(** One step of [relay]'s own goroutine.  Its reads of a silent backend return only
    when the backend has been half-closed. *)
Inductive down_step : world → down_state → world → down_state → Prop :=
| dn_next w st w' st' :
    frame_waits w = false → frame_message route label st w = Some (FrameNext st', w') →
    down_step w (DnFraming st) w' (DnFraming st')
| dn_stop w st w' err issued :
    frame_waits w = false → frame_message route label st w = Some (FrameStop err issued, w') →
    down_step w (DnFraming st) w' (DnReturning err issued)
| dn_ready w st w' issued :
    frame_waits w = false → frame_message route label st w = Some (FrameReady issued, w') →
    down_step w (DnFraming st) w' (DnReading 0 issued)
| dn_read w n issued b chunk rest e :
    w_backend w = Some b → chunk ≠ [] → c_in b = Stream (chunk ++ rest) e →
    down_step w (DnReading n issued) (put_backend (set_in (Stream rest e) b) w)
      (DnHolding n chunk issued)
| dn_eof w n issued b e :
    w_backend w = Some b → quiet b = false → c_in b = Stream [] e →
    down_step w (DnReading n issued) w (DnCopied n (eof_error e) issued)
| dn_write w n chunk issued m c' :
    Write (w_client w) chunk = (m, None, c') →
    down_step w (DnHolding n chunk issued) (put_client c' w) (DnReading (n + m) issued)
| dn_write_fails w n chunk issued m err c' :
    Write (w_client w) chunk = (m, Some err, c') →
    down_step w (DnHolding n chunk issued) (put_client c' w) (DnCopied (n + m) (Some err) issued)
| dn_count w n err issued :
    down_step w (DnCopied n err issued) (log (EvBytes label directionToClient (Z.of_nat n)) w)
      (DnReturning (copy_error "relaying backend to client: " err) issued)
| dn_release w err issued :
    down_step w (DnReturning err issued) (put_cancels (after_release issued (w_cancels w)) w)
      (DnReturned err)
| dn_half_close w err :
    down_step w (DnReturned err) (put_client (closeWrite (w_client w)) w) (DnHalfClosed err)
| dn_close w err :
    down_step w (DnHalfClosed err) (put_client (Close (w_client w)) w) (DnWaiting err).

(** A step of either. *)
Inductive istep : session → session → Prop :=
| istep_up w u w' u' d : up_step w u w' u' → istep (MkSession w u d) (MkSession w' u' d)
| istep_down w u w' d d' : down_step w d w' d' → istep (MkSession w u d) (MkSession w' u d').

(** [relay] at its start, and its result once both directions are over. *)
Definition begin (w : world) : session := MkSession w (UpReading 0) (DnFraming (MkLoop [] None 0)).

Definition finished (s : session) : option (option error) :=
  match ss_down s, ss_up s with
  | DnWaiting derr, UpDone uerr => Some (Join derr uerr)
  | _, _ => None
  end.
End Steps.

(** ** Copying chunk by chunk *)

(** Two connections that have been written the same bytes, with whatever is still
    to be read from them and however the bytes were cut into writes. *)
Definition same_conn (a b : Conn) : Prop :=
  written a = written b ∧ c_limit a = c_limit b ∧ c_deadlines a = c_deadlines b ∧
  c_tls a = c_tls b ∧ c_wclosed a = c_wclosed b ∧ c_closed a = c_closed b.

#[global] Instance same_conn_equiv : Equivalence same_conn.
Proof. unfold same_conn. split; red; intuition congruence. Qed.

Lemma same_conn_set_in s c : same_conn (set_in s c) c.
Proof. by split_and!. Qed.

#[global] Instance closeWrite_proper : Proper (same_conn ==> same_conn) closeWrite.
Proof. intros a b (? & ? & ? & ? & ? & ?). by split_and!. Qed.

#[global] Instance Close_proper : Proper (same_conn ==> same_conn) Close.
Proof. intros a b (? & ? & ? & ? & ? & ?). by split_and!. Qed.

Lemma written_snoc o t b c :
  c_out c = o ++ [(t, b)] → written c = concat (map snd o) ++ b.
Proof. intros Ho. unfold written. rewrite Ho, map_app, concat_app. cbn. by rewrite app_nil_r. Qed.

(** Writing in two goes. *)
Lemma Write_split d a b d1 m e d2 d1' :
  Write d a = (length a, None, d1) → same_conn d1' d1 → Write d1' b = (m, e, d2) →
  ∃ d2', Write d (a ++ b) = ((length a + m)%nat, e, d2') ∧ same_conn d2 d2'.
Proof.
  unfold Write, same_conn, written. intros Ha (Hw & Hl & Hdl & Ht & Hwc & Hc). rewrite Hl.
  destruct (c_limit d) as [[room er]|].
  - rewrite length_app. destruct (Nat.leb_spec (length a) room); [|discriminate Ha].
    injection Ha as <-. cbn in *. rewrite map_app, concat_app in Hw. cbn in Hw.
    destruct (Nat.leb_spec (length b) (room - length a)); intros [= <- <- <-].
    + rewrite (proj2 (Nat.leb_le _ _)) by lia. eexists. split; [done|]. cbn.
      rewrite !map_app, !concat_app, Hw. cbn. rewrite !app_nil_r, <- !app_assoc.
      split_and!; try done. by rewrite Nat.sub_add_distr.
    + rewrite (proj2 (Nat.leb_gt _ _)) by lia. eexists. split; [by rewrite <- Nat.le_add_sub by done|].
      cbn. rewrite !map_app, !concat_app, Hw. cbn.
      rewrite (take_app_ge a) by done. by rewrite !app_nil_r, <- !app_assoc.
  - injection Ha as <-. cbn in *. intros [= <- <- <-]. eexists. rewrite length_app.
    split; [done|]. cbn. rewrite map_app, concat_app in Hw. cbn in Hw.
    rewrite !map_app, !concat_app, Hw. cbn. by rewrite !app_nil_r, <- !app_assoc.
Qed.

(** [n] bytes of [src] have been copied to [dst], none of the writes failing;
    [src'] is left to read and [dst'] is [dst] now. *)
Definition copying (src : stream) (dst : Conn) (n : nat) (src' : stream) (dst' : Conn) : Prop :=
  ∃ copied dst1,
    length copied = n ∧ st_data src = copied ++ st_data src' ∧ st_err src' = st_err src ∧
    Write dst copied = (n, None, dst1) ∧ same_conn dst' dst1.

Lemma copying_start src dst src' dst' :
  src' = src → same_conn dst' dst → copying src dst 0 src' dst'.
Proof.
  intros -> Hs.
  assert (∃ d1, Write dst [] = (0%nat, None, d1) ∧ same_conn dst d1) as (d1 & Hw & Hs1).
  { unfold Write, same_conn, written. destruct (c_limit dst) as [[room e]|] eqn:El; cbn;
      (eexists; split; [done|]); cbn; rewrite map_app, concat_app; cbn; rewrite !app_nil_r;
      by rewrite ?Nat.sub_0_r. }
  exists [], d1. split_and!; try done. by etrans.
Qed.

Lemma copying_more src dst n chunk rest e dst' m dst'' :
  copying src dst n (Stream (chunk ++ rest) e) dst' → Write dst' chunk = (m, None, dst'') →
  copying src dst (n + m) (Stream rest e) dst''.
Proof.
  intros (copied & d1 & Hl & Hd & He & Hw & Hs) Hw2. subst n.
  pose proof (Write_out _ _ _ _ _ Hw2) as (_ & _ & _ & _ & Hm). specialize (Hm eq_refl) as ->.
  destruct (Write_split _ _ _ _ _ _ _ _ Hw Hs Hw2) as (d2 & Hw3 & Hs3).
  exists (copied ++ chunk), d2. rewrite length_app. split_and!; try done.
  cbn in *. by rewrite Hd, app_assoc.
Qed.

(** The ways in which the copy ends, against [Copy] in one go. *)
Lemma copying_fails src dst n chunk rest e dst' m err dst'' :
  copying src dst n (Stream (chunk ++ rest) e) dst' → Write dst' chunk = (m, Some err, dst'') →
  ∃ dstF src', Copy dst src = ((n + m)%nat, Some err, dstF, src') ∧ same_conn dst'' dstF.
Proof.
  intros (copied & d1 & Hl & Hd & He & Hw & Hs) Hw2. subst n. cbn in Hd.
  assert (∃ dst3, Write dst' (chunk ++ rest) = (m, Some err, dst3) ∧ same_conn dst'' dst3)
    as (d3 & Hw3 & Hs3).
  { revert Hw2. unfold Write. destruct (c_limit dst') as [[room er]|]; [|done].
    destruct (Nat.leb_spec (length chunk) room); [done|]. intros [= <- <- <-].
    rewrite (proj2 (Nat.leb_gt _ _)) by (rewrite length_app; lia). eexists. split; [done|].
    by rewrite (take_app_le chunk) by lia. }
  destruct (Write_split _ _ _ _ _ _ _ _ Hw Hs Hw3) as (dF & HwF & HsF).
  unfold Copy, ReadAll. rewrite Hd, HwF. eexists _, _. split; [done|]. by etrans.
Qed.

Lemma copying_eof src dst n e dst' :
  copying src dst n (Stream [] e) dst' →
  ∃ dstF src', Copy dst src = (n, eof_error e, dstF, src') ∧ same_conn dst' dstF.
Proof.
  intros (copied & d1 & Hl & Hd & He & Hw & Hs). cbn in Hd, He. rewrite app_nil_r in Hd.
  unfold Copy, ReadAll. rewrite Hd, Hw, He. eexists _, _. split; [reflexivity|done].
Qed.

Lemma copying_closed src dst n src' dst' :
  copying src dst n src' dst' →
  ∃ dstF src'', Copy dst (upstream_source (Some n) src)
                = (n, Some (ESentinel net_ErrClosed), dstF, src'') ∧ same_conn dst' dstF.
Proof.
  intros (copied & d1 & Hl & Hd & He & Hw & Hs). unfold Copy, ReadAll, upstream_source.
  cbn [st_data st_err]. rewrite Hd, take_app_length' by done. rewrite Hw. by eexists _, _.
Qed.

(** ** What belongs to the downstream direction *)

(** The part of a world the downstream direction reads and writes: the client's
    write half, the backend's read half, the table and the random source. *)
Record half := MkHalf {
  hd_client : Conn;
  hd_in : stream;
  hd_cancels : cancelRegistry;
  hd_rand : list bytes
}.

(** A world with that part, what the client is still to send, the backend's write
    half, and a trace. *)
Definition overlay (s : stream) (b : Conn) (cut : option nat) (t : list event) (h : half) : world :=
  World (set_in s (hd_client h)) (Some (set_in (hd_in h) b)) (hd_cancels h) (hd_rand h) cut t.

(** [f], run on the part [h], does [F], whatever the rest of the world is. *)
Definition does {X} (f : gw X) (h : half) (F : option (X * half * list event)) : Prop :=
  ∀ s b cut t, f (overlay s b cut t h) = (λ '(x, h', ev), (x, overlay s b cut (t ++ ev) h')) <$> F.

(** [f] stays within the downstream part and only adds to the trace. *)
Class Local {X} (f : gw X) : Prop := local_does : ∀ h, ∃ F, does f h F.

#[global] Instance local_ret {X} (x : X) : Local (mret x).
Proof. intros h. exists (Some (x, h, [])). intros s b cut t. cbn. by rewrite app_nil_r. Qed.

#[global] Instance local_panic {X} : Local (@panic X).
Proof. intros h. by exists None. Qed.

Lemma does_bind {X Y} (f : gw X) (k : X → gw Y) h F G :
  does f h F →
  match F with
  | Some (x, h', ev) => ∃ K, does (k x) h' K ∧ G = (λ '(y, h'', ev'), (y, h'', ev ++ ev')) <$> K
  | None => G = None
  end →
  does (f ≫= k) h G.
Proof.
  intros Hf HG s b cut t. unfold mbind, gw_bind. rewrite Hf.
  destruct F as [[[x h'] ev]|]; cbn; [|by rewrite HG].
  destruct HG as (K & HK & ->). rewrite HK. destruct K as [[[y h''] ev']|]; cbn; [|done].
  by rewrite app_assoc.
Qed.

#[global] Instance local_bind {X Y} (f : gw X) (k : X → gw Y) :
  Local f → (∀ x, Local (k x)) → Local (f ≫= k).
Proof.
  intros Hf Hk h. destruct (Hf h) as [F HF]. destruct F as [[[x h'] ev]|].
  - destruct (Hk x h') as [K HK]. eexists. eapply does_bind; [exact HF|]. by exists K.
  - exists None. by eapply does_bind.
Qed.

#[global] Instance local_emit e : Local (emit e).
Proof. intros h. by exists (Some (tt, h, [e])). Qed.

Lemma Write_set_in s c out :
  Write (set_in s c) out = (let '(n, e, c') := Write c out in (n, e, set_in s c')).
Proof.
  unfold Write. cbn. destruct (c_limit c) as [[room er]|]; [|done]. by destruct (_ <=? _)%nat.
Qed.

#[global] Instance local_write_client out : Local (write_client out).
Proof.
  intros h. destruct (Write (hd_client h) out) as [[n e] c'] eqn:EW.
  exists (Some ((n, e), MkHalf c' (hd_in h) (hd_cancels h) (hd_rand h), [])). intros s b cut t.
  unfold write_client, with_client, overlay. cbn. by rewrite Write_set_in, EW, app_nil_r.
Qed.

#[global] Instance local_next_message buf : Local (next_message buf).
Proof.
  intros h. destruct (Next (MkMessageReader (hd_in h) buf)) as [res mr] eqn:EN.
  exists (Some ((res, mr_buf mr), MkHalf (hd_client h) (mr_r mr) (hd_cancels h) (hd_rand h), [])).
  intros s b cut t. unfold next_message, with_backend, overlay. cbn. by rewrite EN, app_nil_r.
Qed.

#[global] Instance local_issue_key e : Local (issue_key e).
Proof.
  intros h. unfold issue_key. destruct (issue (hd_rand h) (hd_cancels h) e) as [[[k rest] m']|] eqn:EI.
  - exists (Some (k, MkHalf (hd_client h) (hd_in h) m' rest, [])). intros s b cut t.
    run. rewrite EI. run. unfold overlay. cbn. by rewrite app_nil_r.
  - exists None. intros s b cut t. run. by rewrite EI.
Qed.

#[global] Instance local_release_key k : Local (release_key k).
Proof.
  intros h. exists (Some (tt, MkHalf (hd_client h) (hd_in h) (release (hd_cancels h) k) (hd_rand h), [])).
  intros s b cut t. rewrite release_key_run. unfold overlay. cbn. by rewrite app_nil_r.
Qed.

#[global] Instance local_copy_to_client : Local copy_to_client.
Proof.
  intros h. destruct (Copy (hd_client h) (hd_in h)) as [[[n e] c'] src'] eqn:EC.
  exists (Some ((n, e), MkHalf c' (ReadAll (hd_in h)).2 (hd_cancels h) (hd_rand h), [])).
  intros s b cut t. unfold copy_to_client, with_backend, with_client. run.
  revert EC. unfold Copy, ReadAll. rewrite Write_set_in.
  destruct (Write (hd_client h) (st_data (hd_in h))) as [[n' [e'|]] c1]; intros [= <- <- <- <-];
    cbn; unfold overlay; cbn; by rewrite app_nil_r.
Qed.

(** Case distinctions keep to the part. *)
Ltac local_cases :=
  repeat first
    [ progress intros
    | apply _
    | apply local_bind
    | match goal with |- Local (match ?x with _ => _ end) => destruct x end
    | match goal with |- Local (if ?x then _ else _) => destruct x end ].

#[global] Instance local_splice label : Local (spliceToClient label).
Proof. unfold spliceToClient. local_cases. Qed.

#[global] Instance local_rewrite route msg issued : Local (rewrite_message route msg issued).
Proof. unfold rewrite_message. local_cases. Qed.

#[global] Instance local_frame route label st : Local (frame_message route label st).
Proof. unfold frame_message. local_cases. Qed.

#[global] Instance local_relay_message route label st : Local (relay_message route label st).
Proof. unfold relay_message. local_cases. Qed.

#[global] Instance local_relay_loop fuel route label st : Local (relay_loop fuel route label st).
Proof.
  revert st. induction fuel as [|fuel IH]; intros st; [apply local_panic|].
  cbn [relay_loop]. apply local_bind; [apply _|]. intros [st'|res]; [apply IH|apply _].
Qed.

(** [f] returns [x] and leaves the part [h'], having added [ev] to the trace. *)
Abbreviation runs f h x h' ev := (does f h (Some (x, h', ev))).

Lemma local_runs {X} (f : gw X) `{!Local f} h s b cut t x w' :
  f (overlay s b cut t h) = Some (x, w') →
  ∃ h' ev, runs f h x h' ev ∧ w' = overlay s b cut (t ++ ev) h'.
Proof.
  intros Hf. destruct (local_does (f := f) h) as [F HF]. rewrite HF in Hf.
  destruct F as [[[x' h'] ev]|]; [|done]. injection Hf as <- <-. by exists h', ev.
Qed.

Lemma runs_bind {X Y} (f : gw X) (k : X → gw Y) h x h' ev y h'' ev' :
  runs f h x h' ev → runs (k x) h' y h'' ev' → runs (f ≫= k) h y h'' (ev ++ ev').
Proof. intros Hf Hk. eapply does_bind; [exact Hf|]. by eexists. Qed.

Lemma runs_ret {X} (x : X) h : runs (mret x) h x h [].
Proof. intros s b cut t. cbn. by rewrite app_nil_r. Qed.

(** Equal parts but for the cutting of the client's bytes into writes and what is
    left to read. *)
Definition same_half (h h' : half) : Prop :=
  same_conn (hd_client h) (hd_client h') ∧ hd_cancels h = hd_cancels h' ∧ hd_rand h = hd_rand h'.

(** ** The invariant *)

Section Invariant.
Variable route : Route.
Variable label : string.
Variable h0 : half.
Variable src0 : stream.
Variable b0 : Conn.

Definition the_loop : gw (option error * option CancelRequest) :=
  relay_loop (S (length (st_data (hd_in h0)))) route label (MkLoop [] None 0).

(** From [h], with [ev] added so far, the rest of the loop is [f] with [issued] to
    be released. *)
Definition leads {X} (f : gw X) (res : X → option error * option CancelRequest)
  (h : half) (ev : list event) : Prop :=
  ∀ x h' ev', runs f h x h' ev' → runs the_loop h0 (res x) h' (ev ++ ev').

(** The downstream direction has got as far as the sequential one would have. *)
Definition down_inv (d : down_state) (h : half) (ev : list event) : Prop :=
  match d with
  | DnFraming st => ∃ fuel, (length (st_data (hd_in h)) < fuel)%nat ∧
      leads (relay_loop fuel route label st) id h ev
  | DnReading n issued => ∃ h1, leads (spliceToClient label) (λ err, (err, issued)) h1 ev ∧
      hd_cancels h = hd_cancels h1 ∧ hd_rand h = hd_rand h1 ∧
      copying (hd_in h1) (hd_client h1) n (hd_in h) (hd_client h)
  | DnHolding n chunk issued =>
      ∃ h1, leads (spliceToClient label) (λ err, (err, issued)) h1 ev ∧
      hd_cancels h = hd_cancels h1 ∧ hd_rand h = hd_rand h1 ∧
      copying (hd_in h1) (hd_client h1) n
        (Stream (chunk ++ st_data (hd_in h)) (st_err (hd_in h))) (hd_client h)
  | DnCopied n err issued =>
      ∃ h1 c src', leads (spliceToClient label) (λ err, (err, issued)) h1 ev ∧
      hd_cancels h = hd_cancels h1 ∧ hd_rand h = hd_rand h1 ∧
      Copy (hd_client h1) (hd_in h1) = (n, err, c, src') ∧ same_conn (hd_client h) c
  | DnReturning err issued => ∃ h', runs the_loop h0 (err, issued) h' ev ∧ same_half h h'
  | DnReturned err => ∃ issued h', runs the_loop h0 (err, issued) h' ev ∧
      same_conn (hd_client h) (hd_client h') ∧ hd_rand h = hd_rand h' ∧
      hd_cancels h = after_release issued (hd_cancels h')
  | DnHalfClosed err => ∃ issued h', runs the_loop h0 (err, issued) h' ev ∧
      same_conn (hd_client h) (closeWrite (hd_client h')) ∧ hd_rand h = hd_rand h' ∧
      hd_cancels h = after_release issued (hd_cancels h')
  | DnWaiting err => ∃ issued h', runs the_loop h0 (err, issued) h' ev ∧
      same_conn (hd_client h) (Close (closeWrite (hd_client h'))) ∧ hd_rand h = hd_rand h' ∧
      hd_cancels h = after_release issued (hd_cancels h')
  end.

(** The upstream direction has, with [src] left to read, [b] written to and [ev]
    added to the trace. *)
Definition up_inv (u : up_state) (src : stream) (b : Conn) (ev : list event) : Prop :=
  match u with
  | UpReading n => copying src0 b0 n src b ∧ ev = []
  | UpHolding n chunk =>
      copying src0 b0 n (Stream (chunk ++ st_data src) (st_err src)) b ∧ ev = []
  | UpCopied n err => ∃ cut b' src', Copy b0 (upstream_source cut src0) = (n, err, b', src') ∧
      same_conn b b' ∧ ev = []
  | UpCounted err => ∃ cut n err0 b' src',
      Copy b0 (upstream_source cut src0) = (n, err0, b', src') ∧ same_conn b b' ∧
      err = copy_error "relaying client to backend: " err0 ∧
      ev = [EvBytes label directionToBackend (Z.of_nat n)]
  | UpDone err => ∃ cut n err0 b' src',
      Copy b0 (upstream_source cut src0) = (n, err0, b', src') ∧ same_conn b (closeWrite b') ∧
      err = copy_error "relaying client to backend: " err0 ∧
      ev = [EvBytes label directionToBackend (Z.of_nat n)]
  end.

Lemma frame_next_leads fuel st h ev st' h' ev' :
  (length (st_data (hd_in h)) < fuel)%nat → leads (relay_loop fuel route label st) id h ev →
  runs (frame_message route label st) h (FrameNext st') h' ev' →
  ∃ fuel', (length (st_data (hd_in h')) < fuel')%nat ∧
    leads (relay_loop fuel' route label st') id h' (ev ++ ev').
Proof.
  intros Hlen Hlead Hf. destruct fuel as [|fuel]; [lia|]. exists fuel.
  assert (runs (relay_message route label st) h (inl st') h' ev') as Hm.
  { rewrite <- (app_nil_r ev'). eapply runs_bind; [exact Hf|apply runs_ret]. }
  split.
  - pose proof (Hm (Stream [] (ENew "")) (hd_client h) None []) as Hrun.
    eapply relay_message_run in Hrun as (m & r & out & Hd & _ & _ & Hb & _); [|done].
    cbn in Hd, Hb. injection Hb as Hr. rewrite Hr. rewrite Hd, length_app in Hlen.
    pose proof (length_Message_Encode m). lia.
  - intros x h'' ev'' Hx. rewrite <- app_assoc. apply Hlead. cbn [relay_loop].
    by eapply runs_bind.
Qed.

Lemma frame_ready_leads fuel st h ev issued h' ev' :
  (length (st_data (hd_in h)) < fuel)%nat → leads (relay_loop fuel route label st) id h ev →
  runs (frame_message route label st) h (FrameReady issued) h' ev' →
  leads (spliceToClient label) (λ err, (err, issued)) h' (ev ++ ev').
Proof.
  intros Hlen Hlead Hf. destruct fuel as [|fuel]; [lia|]. intros err h'' ev'' Hs.
  rewrite <- app_assoc. apply (Hlead (err, issued)). cbn [relay_loop].
  rewrite <- (app_nil_r (ev' ++ ev'')). eapply (runs_bind _ _ _ (inr (err, issued))); [|apply runs_ret].
  eapply runs_bind; [exact Hf|]. rewrite <- (app_nil_r ev''). eapply runs_bind; [exact Hs|apply runs_ret].
Qed.

Lemma frame_stop_runs fuel st h ev err issued h' ev' :
  (length (st_data (hd_in h)) < fuel)%nat → leads (relay_loop fuel route label st) id h ev →
  runs (frame_message route label st) h (FrameStop err issued) h' ev' →
  runs the_loop h0 (err, issued) h' (ev ++ ev').
Proof.
  intros Hlen Hlead Hf. destruct fuel as [|fuel]; [lia|].
  apply (Hlead (err, issued)). cbn [relay_loop].
  rewrite <- (app_nil_r ev'). eapply (runs_bind _ _ _ (inr (err, issued))); [|apply runs_ret].
  rewrite <- (app_nil_r ev'). eapply runs_bind; [exact Hf|apply runs_ret].
Qed.

(** The end of the splice. *)
Lemma splice_runs h1 n err c src' :
  Copy (hd_client h1) (hd_in h1) = (n, err, c, src') →
  ∃ h', runs (spliceToClient label) h1 (copy_error "relaying backend to client: " err) h'
          [EvBytes label directionToClient (Z.of_nat n)] ∧
    same_conn c (hd_client h') ∧ hd_cancels h' = hd_cancels h1 ∧ hd_rand h' = hd_rand h1.
Proof.
  intros HC. eexists (MkHalf c _ _ _). split; [|done]. intros s b cut t.
  unfold spliceToClient, copy_to_client, with_backend, with_client. run. revert HC.
  unfold Copy, ReadAll. rewrite Write_set_in.
  destruct (Write (hd_client h1) (st_data (hd_in h1))) as [[n' werr] c'].
  destruct werr as [e|]; [|destruct (match st_err (hd_in h1) with ESentinel io_EOF => _ | _ => _ end) as [e|]];
    intros [= <- <- <- <-]; run; unfold copy_error; try destruct (isBenignClose e); done.
Qed.

(** The upstream direction leaves the downstream part alone and keeps its own
    invariant. *)
Lemma up_step_inv w u w' u' src b cut t h ev :
  up_step label w u w' u' → w = overlay src b cut t h → up_inv u src b ev →
  ∃ src' b' new, w' = overlay src' b' cut (t ++ new) h ∧ up_inv u' src' b' (ev ++ new).
Proof.
  intros Hs -> Hi. inversion Hs; subst; clear Hs; cbn in *.
  - destruct Hi as [Hc ->]. exists (Stream rest e), b, []. rewrite app_nil_r. split; [done|].
    split; [|done]. by rewrite H1 in Hc.
  - destruct Hi as [Hc ->]. exists src, b, []. rewrite app_nil_r. split; [done|].
    rewrite H1 in Hc. apply copying_eof in Hc as (b' & src' & Hc & Hsame).
    by exists None, b', src'.
  - destruct Hi as [Hc ->]. exists src, b, []. rewrite app_nil_r. split; [done|].
    apply copying_closed in Hc as (b' & src' & Hc & Hsame). by exists (Some n), b', src'.
  - destruct Hi as [Hc ->]. injection H as <-. rewrite Write_set_in in H0.
    destruct (Write b chunk) as [[m1 e1] b1] eqn:EW. injection H0 as -> -> <-.
    exists src, b1, []. rewrite app_nil_r. split; [done|]. split; [|done].
    pose proof (copying_more _ _ _ _ _ _ _ _ _ Hc EW) as Hm. by destruct src.
  - destruct Hi as [Hc ->]. injection H as <-. rewrite Write_set_in in H0.
    destruct (Write b chunk) as [[m1 e1] b1] eqn:EW. injection H0 as -> -> <-.
    exists src, b1, []. rewrite app_nil_r. split; [done|].
    destruct (copying_fails _ _ _ _ _ _ _ _ _ _ Hc EW) as (b' & src' & HC & Hsame).
    by exists None, b', src'.
  - destruct Hi as (cut' & b' & src' & HC & Hsame & ->).
    exists src, b, [EvBytes label directionToBackend (Z.of_nat n)]. split; [done|].
    by exists cut', n, err, b', src'.
  - destruct Hi as (cut' & n & err0 & b' & src' & HC & Hsame & -> & ->). injection H as <-.
    exists src, (closeWrite b), []. rewrite app_nil_r. split; [done|].
    exists cut', n, err0, b', src'. split_and!; try done. by rewrite Hsame.
Qed.

(** A frame of the startup. *)
Lemma frame_inv st src b cut t h ev r w' :
  frame_message route label st (overlay src b cut t h) = Some (r, w') →
  down_inv (DnFraming st) h ev →
  ∃ h' new, w' = overlay src b cut (t ++ new) h' ∧
    down_inv match r with
             | FrameNext st' => DnFraming st'
             | FrameStop err issued => DnReturning err issued
             | FrameReady issued => DnReading 0 issued
             end h' (ev ++ new).
Proof.
  intros Hf (fuel & Hlen & Hlead).
  apply (local_runs _) in Hf as (h' & new & Hf & ->). exists h', new. split; [done|].
  destruct r as [st'|err issued|issued].
  - by eapply frame_next_leads.
  - exists h'. split; [by eapply frame_stop_runs|done].
  - exists h'. split_and!; try done; [by eapply frame_ready_leads|]. by apply copying_start.
Qed.

(** The downstream direction likewise. *)
Lemma down_step_inv w d w' d' src b cut t h ev :
  down_step route label w d w' d' → w = overlay src b cut t h → down_inv d h ev →
  ∃ h' new, w' = overlay src b cut (t ++ new) h' ∧ down_inv d' h' (ev ++ new).
Proof.
  intros Hs -> Hi. destruct h as [c i m rnd].
  inversion Hs; subst; clear Hs; try (by eapply frame_inv in H0 as (h' & new & -> & ?); eauto);
    cbn in *.
  - destruct Hi as (h1 & Hl & Hm & Hr & Hc). injection H as <-. cbn in H1. rewrite H1 in Hc.
    exists (MkHalf c (Stream rest e) m rnd), []. rewrite !app_nil_r. split; [done|]. by exists h1.
  - destruct Hi as (h1 & Hl & Hm & Hr & Hc). injection H as <-. cbn in H1. rewrite H1 in Hc.
    exists (MkHalf c i m rnd), []. rewrite !app_nil_r. split; [done|].
    apply copying_eof in Hc as (c' & src' & HC & Hsame). by exists h1, c', src'.
  - destruct Hi as (h1 & Hl & Hm & Hr & Hc). rewrite Write_set_in in H.
    destruct (Write c chunk) as [[m1 e1] c1] eqn:EW. injection H as -> -> <-.
    exists (MkHalf c1 i m rnd), []. rewrite !app_nil_r. split; [done|]. exists h1.
    split_and!; try done. pose proof (copying_more _ _ _ _ _ _ _ _ _ Hc EW) as Hmore. by destruct i.
  - destruct Hi as (h1 & Hl & Hm & Hr & Hc). rewrite Write_set_in in H.
    destruct (Write c chunk) as [[m1 e1] c1] eqn:EW. injection H as -> -> <-.
    exists (MkHalf c1 i m rnd), []. rewrite !app_nil_r. split; [done|].
    destruct (copying_fails _ _ _ _ _ _ _ _ _ _ Hc EW) as (c' & src' & HC & Hsame).
    by exists h1, c', src'.
  - destruct Hi as (h1 & c' & src' & Hl & Hm & Hr & HC & Hsame).
    destruct (splice_runs h1 n err c' src' HC) as (h' & Hrun & Hc' & Hm' & Hr').
    exists (MkHalf c i m rnd), [EvBytes label directionToClient (Z.of_nat n)]. split; [done|].
    exists h'. split; [by apply Hl|]. split_and!; cbn; [by etrans|congruence|congruence].
  - destruct Hi as (h' & Hrun & Hc & Hm & Hr). cbn in *.
    exists (MkHalf c i (after_release issued m) rnd), []. rewrite !app_nil_r. split; [done|].
    exists issued, h'. cbn. by rewrite Hm.
  - destruct Hi as (issued & h' & Hrun & Hc & Hm & Hr).
    exists (MkHalf (closeWrite c) i m rnd), []. rewrite !app_nil_r. split; [done|].
    exists issued, h'. cbn. by rewrite Hc.
  - destruct Hi as (issued & h' & Hrun & Hc & Hm & Hr).
    exists (MkHalf (Close c) i m rnd), []. rewrite !app_nil_r. split; [done|].
    exists issued, h'. cbn. by rewrite Hc.
Qed.

(** Where a session can be: the world is made of what the two directions would
    have made of it by themselves. *)
Definition session_inv (t0 : list event) (s : session) : Prop :=
  ∃ src b cut t h dev uev, ss_world s = overlay src b cut t h ∧ t ≡ₚ t0 ++ dev ++ uev ∧
    down_inv (ss_down s) h dev ∧ up_inv (ss_up s) src b uev.

Lemma istep_inv t0 s s' : istep route label s s' → session_inv t0 s → session_inv t0 s'.
Proof.
  intros Hs (src & b & cut & t & h & dev & uev & Hw & Ht & Hd & Hu).
  destruct Hs as [w u w' u' d Hstep|w u w' d d' Hstep]; cbn in *.
  - destruct (up_step_inv _ _ _ _ _ _ _ _ _ _ Hstep Hw Hu) as (src' & b' & new & -> & Hu').
    exists src', b', cut, (t ++ new), h, dev, (uev ++ new). split_and!; try done.
    by rewrite Ht, <- !app_assoc.
  - destruct (down_step_inv _ _ _ _ _ _ _ _ _ _ Hstep Hw Hd) as (h' & new & -> & Hd').
    exists src, b, cut, (t ++ new), h', (dev ++ new), uev. split_and!; try done.
    rewrite Ht, <- !app_assoc. do 2 f_equiv. apply Permutation_app_comm.
Qed.
End Invariant.

(** ** Every interleaving is a sequential run *)

(** The same outcome of a session, but for how the bytes were cut into writes, what
    is left unread, and the order of the trace. *)
Definition same_session (w w' : world) : Prop :=
  same_conn (w_client w) (w_client w') ∧ option_Forall2 same_conn (w_backend w) (w_backend w') ∧
  w_cancels w = w_cancels w' ∧ w_rand w = w_rand w' ∧ w_trace w ≡ₚ w_trace w'.

Definition down_part (w : world) (b : Conn) : half :=
  MkHalf (w_client w) (c_in b) (w_cancels w) (w_rand w).

Lemma set_in_id c : set_in (c_in c) c = c.
Proof. by destruct c. Qed.

Lemma overlay_world w b cut :
  w_backend w = Some b →
  overlay (c_in (w_client w)) b cut (w_trace w) (down_part w b) = put_cut cut w.
Proof. intros Hb. unfold overlay, put_cut. cbn. by rewrite !set_in_id, Hb. Qed.

Lemma begin_inv route label w b :
  w_backend w = Some b →
  session_inv route label (down_part w b) (c_in (w_client w)) b (w_trace w) (begin w).
Proof.
  intros Hb. exists (c_in (w_client w)), b, (w_cut w), (w_trace w), (down_part w b), [], [].
  split_and!.
  - rewrite overlay_world by done. by destruct w.
  - by rewrite !app_nil_r.
  - eexists. split; [apply Nat.lt_succ_diag_r|]. by intros x h' ev' Hrun.
  - split; [|done]. by apply copying_start.
Qed.

(** The upstream copy in one go. *)
Lemma relayUpstream_copy label w b n err b' src' :
  w_backend w = Some b →
  Copy b (upstream_source (w_cut w) (c_in (w_client w))) = (n, err, b', src') →
  relayUpstream label w
  = Some (copy_error "relaying client to backend: " err,
          put_backend (closeWrite b') (log (EvBytes label directionToBackend (Z.of_nat n)) w)).
Proof.
  intros Hb HC. unfold relayUpstream, get_world, with_backend, mbind, gw_bind. cbn beta iota.
  rewrite Hb, HC. run. by destruct err as [e|].
Qed.

(** [relay], from the runs of its two directions. *)
Lemma relay_from_runs route label w b cut derr issued h' dev n uerr b' src' :
  w_backend w = Some b →
  runs (the_loop route label (down_part w b)) (down_part w b) (derr, issued) h' dev →
  Copy b (upstream_source cut (c_in (w_client w))) = (n, uerr, b', src') →
  ∃ w', relay route label (put_cut cut w)
        = Some (Join derr (copy_error "relaying client to backend: " uerr), w') ∧
    same_conn (w_client w') (Close (closeWrite (hd_client h'))) ∧
    option_Forall2 same_conn (w_backend w') (Some (closeWrite b')) ∧
    w_cancels w' = after_release issued (hd_cancels h') ∧ w_rand w' = hd_rand h' ∧
    w_trace w' = w_trace w ++ dev ++ [EvBytes label directionToBackend (Z.of_nat n)].
Proof.
  intros Hb Hrun HC. unfold relay, relayFromBackend.
  assert (relay_fuel (put_cut cut w) = S (length (st_data (hd_in (down_part w b))))) as Hfuel
    by (unfold relay_fuel; cbn; by rewrite Hb).
  specialize (Hrun (c_in (w_client w)) b cut (w_trace w)). unfold the_loop in Hrun.
  rewrite overlay_world, <- Hfuel in Hrun by done.
  unfold mbind, gw_bind, get_world. rewrite Hrun. cbn [fmap option_fmap option_map]. cbn beta iota.
  assert (Copy (set_in (hd_in h') b) (upstream_source cut (c_in (w_client w)))
          = (n, uerr, set_in (hd_in h') b', src')) as HC'.
  { revert HC. unfold Copy, ReadAll. rewrite Write_set_in.
    destruct (Write b _) as [[n1 [e1|]] b1]; by intros [= <- <- <- <-]. }
  assert (∃ w1, match issued with Some k => release_key k | None => mret tt end
            (overlay (c_in (w_client w)) b cut (w_trace w ++ dev) h')
          = Some (tt, w1) ∧ w1 = put_cancels (after_release issued (hd_cancels h'))
              (overlay (c_in (w_client w)) b cut (w_trace w ++ dev) h')) as (w1 & -> & ->)
    by (destruct issued; by eexists).
  unfold mret, gw_ret, with_client. cbn beta iota.
  erewrite relayUpstream_copy; [|reflexivity|exact HC'].
  eexists. split; [reflexivity|]. cbn. rewrite <- app_assoc.
  split_and!; try done; by constructor.
Qed.

(** C7: running the two directions of a relay one after the other loses nothing.
    Whatever the interleaving of their reads, writes, frames, counters and closes, a
    relay that has come to its end has the result and the effects of [relay] with some
    point at which closing the client cut the upstream copy off: the same error, the
    same bytes to both peers, the same table of keys, connections in the same state
    and the same metrics. *)
Theorem relay_interleaved route label w b s err :
  w_backend w = Some b → rtc (istep route label) (begin w) s → finished s = Some err →
  ∃ cut w', relay route label (put_cut cut w) = Some (err, w') ∧ same_session (ss_world s) w'.
Proof.
  intros Hb Hr Hfin.
  assert (session_inv route label (down_part w b) (c_in (w_client w)) b (w_trace w) s) as Hinv.
  { pose proof (begin_inv route label w b Hb) as Hi. revert Hi.
    induction Hr as [|s1 s2 s3 Hs _ IH]; [done|]. intros Hi. apply IH; [done|by eapply istep_inv]. }
  destruct s as [ws u d]. unfold finished in Hfin. cbn in Hfin.
  destruct d as [| | | | | | |derr]; try done. destruct u as [| | | |uerr]; try done.
  injection Hfin as <-.
  destruct Hinv as (src & b1 & cut1 & t & h & dev & uev & -> & Ht & Hd & Hu). cbn in Hd, Hu.
  destruct Hd as (issued & h' & Hrun & Hc & Hrand & Hcan).
  destruct Hu as (cut & n & err0 & b' & src' & HC & Hsb & -> & ->).
  destruct (relay_from_runs _ _ _ _ _ _ _ _ _ _ _ _ _ Hb Hrun HC)
    as (w' & Hrel & Hcl & Hbk & Hca & Hra & Htr).
  exists cut, w'. split; [done|]. unfold same_session, overlay. cbn.
  rewrite Hca, Hra, Htr. split_and!; try done.
  - by rewrite same_conn_set_in, Hc, Hcl.
  - inversion Hbk as [? ? Hsame|]; subst. constructor. by rewrite same_conn_set_in, Hsb, Hsame.
Qed.

(** ** Running a schedule *)

(** The next move of the upstream goroutine, reading [k] bytes at a time. *)
Definition up_move (label : string) (k : nat) (w : world) (u : up_state) : option (world * up_state) :=
  match u with
  | UpReading n =>
      if c_closed (w_client w) then Some (w, UpCopied n (Some (ESentinel net_ErrClosed)))
      else
        let s := c_in (w_client w) in
        match st_data s with
        | [] => if c_idle (w_client w) then None else Some (w, UpCopied n (eof_error (st_err s)))
        | data => Some (put_client (set_in (Stream (drop (S k) data) (st_err s)) (w_client w)) w,
                        UpHolding n (take (S k) data))
        end
  | UpHolding n chunk =>
      b ← w_backend w;
      match Write b chunk with
      | (m, None, b') => Some (put_backend b' w, UpReading (n + m))
      | (m, Some err, b') => Some (put_backend b' w, UpCopied (n + m) (Some err))
      end
  | UpCopied n err => Some (log (EvBytes label directionToBackend (Z.of_nat n)) w,
                            UpCounted (copy_error "relaying client to backend: " err))
  | UpCounted err => b ← w_backend w; Some (put_backend (closeWrite b) w, UpDone err)
  | UpDone _ => None
  end.

(** The next move of [relay]'s own goroutine. *)
Definition down_move (route : Route) (label : string) (k : nat) (w : world) (d : down_state)
  : option (world * down_state) :=
  match d with
  | DnFraming st =>
      if frame_waits w then None else
      match frame_message route label st w with
      | Some (FrameNext st', w') => Some (w', DnFraming st')
      | Some (FrameStop err issued, w') => Some (w', DnReturning err issued)
      | Some (FrameReady issued, w') => Some (w', DnReading 0 issued)
      | None => None
      end
  | DnReading n issued =>
      b ← w_backend w;
      match st_data (c_in b) with
      | [] => if quiet b then None else Some (w, DnCopied n (eof_error (st_err (c_in b))) issued)
      | data => Some (put_backend (set_in (Stream (drop (S k) data) (st_err (c_in b))) b) w,
                      DnHolding n (take (S k) data) issued)
      end
  | DnHolding n chunk issued =>
      match Write (w_client w) chunk with
      | (m, None, c') => Some (put_client c' w, DnReading (n + m) issued)
      | (m, Some err, c') => Some (put_client c' w, DnCopied (n + m) (Some err) issued)
      end
  | DnCopied n err issued =>
      Some (log (EvBytes label directionToClient (Z.of_nat n)) w,
            DnReturning (copy_error "relaying backend to client: " err) issued)
  | DnReturning err issued => Some (put_cancels (after_release issued (w_cancels w)) w, DnReturned err)
  | DnReturned err => Some (put_client (closeWrite (w_client w)) w, DnHalfClosed err)
  | DnHalfClosed err => Some (put_client (Close (w_client w)) w, DnWaiting err)
  | DnWaiting _ => None
  end.

(** A schedule: whose turn it is ([true] for the upstream goroutine) and how many
    bytes more than one it reads. *)
Fixpoint run_schedule (route : Route) (label : string) (turns : list (bool * nat)) (s : session)
  : option session :=
  match turns with
  | [] => Some s
  | (true, k) :: rest =>
      '(w, u) ← up_move label k (ss_world s) (ss_up s);
      run_schedule route label rest (MkSession w u (ss_down s))
  | (false, k) :: rest =>
      '(w, d) ← down_move route label k (ss_world s) (ss_down s);
      run_schedule route label rest (MkSession w (ss_up s) d)
  end.

Lemma up_move_step label k w u w' u' : up_move label k w u = Some (w', u') → up_step label w u w' u'.
Proof.
  destruct u as [n|n chunk|n err|err|err]; cbn [up_move]; [| | | |done].
  - destruct (c_closed (w_client w)) eqn:Ec; [intros [= <- <-]; by apply up_closed|].
    destruct (c_in (w_client w)) as [data e] eqn:Ei. cbn [st_data st_err].
    destruct data as [|x data].
    { destruct (c_idle (w_client w)) eqn:Eq; [done|]. intros [= <- <-]. by apply up_eof. }
    intros [= <- <-]. apply up_read; [done|done|]. rewrite Ei. f_equal. symmetry. apply (take_drop (S k) (x :: data)).
  - destruct (w_backend w) as [b|] eqn:Eb; [|done]. cbn.
    destruct (Write b chunk) as [[m [err|]] b'] eqn:EW; intros [= <- <-];
      [by eapply up_write_fails|by eapply up_write].
  - intros [= <- <-]. apply up_count.
  - destruct (w_backend w) as [b|] eqn:Eb; [|done]. intros [= <- <-]. by apply up_half_close.
Qed.

Lemma down_move_step route label k w d w' d' :
  down_move route label k w d = Some (w', d') → down_step route label w d w' d'.
Proof.
  destruct d as [st|n issued|n chunk issued|n err issued|err issued|err|err|err]; cbn [down_move]; [..|done];
    try (intros [= <- <-]; by constructor).
  - destruct (frame_waits w) eqn:Ew; [done|].
    destruct (frame_message _ _ _ _) as [[[st'|err issued|issued] w1]|] eqn:Ef; [..|done]; intros [= <- <-];
      [by apply dn_next|by apply dn_stop|by apply dn_ready].
  - destruct (w_backend w) as [b|] eqn:Eb; [|done]. cbn. destruct (c_in b) as [data e] eqn:Ei.
    cbn [st_data st_err]. destruct data as [|x data].
    { destruct (quiet b) eqn:Eq; [done|]. intros [= <- <-]. by eapply dn_eof. }
    intros [= <- <-]. eapply dn_read; [done|done|]. rewrite Ei. f_equal. symmetry. apply (take_drop (S k) (x :: data)).
  - destruct (Write (w_client w) chunk) as [[m [err|]] c'] eqn:EW; intros [= <- <-];
      [by apply dn_write_fails|by apply dn_write].
Qed.

Lemma run_schedule_steps route label turns s s' :
  run_schedule route label turns s = Some s' → rtc (istep route label) s s'.
Proof.
  revert s. induction turns as [|[[] k] turns IH]; intros [w u d]; cbn.
  - by intros [= <-].
  - destruct (up_move label k w u) as [[w1 u1]|] eqn:E; [|done]. cbn. intros Hr.
    eapply rtc_l; [apply istep_up; by eapply up_move_step|by apply IH].
  - destruct (down_move route label k w d) as [[w1 d1]|] eqn:E; [|done]. cbn. intros Hr.
    eapply rtc_l; [apply istep_down; by eapply down_move_step|by apply IH].
Qed.

(** ** Every interleaving comes to its end *)

Definition unread (w : world) : nat :=
  match w_backend w with Some b => length (st_data (c_in b)) | None => 0 end.

(** What the two directions still have to do. *)
Definition up_left (w : world) (u : up_state) : nat :=
  match u with
  | UpReading _ => 4 * length (st_data (c_in (w_client w))) + 6
  | UpHolding _ chunk => 4 * length (st_data (c_in (w_client w))) + 2 * length chunk + 7
  | UpCopied _ _ => 2
  | UpCounted _ => 1
  | UpDone _ => 0
  end%nat.

Definition down_left (w : world) (d : down_state) : nat :=
  match d with
  | DnFraming _ => 4 * unread w + 10
  | DnReading _ _ => 4 * unread w + 8
  | DnHolding _ chunk _ => 4 * unread w + 2 * length chunk + 9
  | DnCopied _ _ _ => 4
  | DnReturning _ _ => 3
  | DnReturned _ => 2
  | DnHalfClosed _ => 1
  | DnWaiting _ => 0
  end%nat.

Definition left_over (s : session) : nat :=
  (up_left (ss_world s) (ss_up s) + down_left (ss_world s) (ss_down s))%nat.

(** There is a backend, and while its messages are framed there are free keys for
    them. *)
Definition live (s : session) : Prop :=
  is_Some (w_backend (ss_world s)) ∧
  match ss_down s with
  | DnFraming _ => enough_draws (ss_world s) (unread (ss_world s))
  | _ => True
  end.

(** The downstream direction keeps the backend, but for what was read of it, and what
    the client will send. *)
Lemma local_keeps {X} (f : gw X) `{!Local f} w b r w' :
  w_backend w = Some b → f w = Some (r, w') →
  (∃ s, w_backend w' = Some (set_in s b)) ∧ c_in (w_client w') = c_in (w_client w).
Proof.
  intros Hb Hf.
  assert (w = overlay (c_in (w_client w)) b (w_cut w) (w_trace w) (down_part w b)) as Hw
    by (rewrite overlay_world by done; by destruct w).
  rewrite Hw in Hf. apply (local_runs _) in Hf as (h' & ev & _ & ->). split; [by eexists|done].
Qed.

Lemma frame_next_unread route label st w st' w' :
  is_Some (w_backend w) → frame_message route label st w = Some (FrameNext st', w') →
  (unread w' < unread w)%nat ∧ (enough_draws w (unread w) → enough_draws w' (unread w')).
Proof.
  intros [b Hb] Hf.
  assert (relay_message route label st w = Some (inl st', w')) as Hm
    by (unfold relay_message, mbind, gw_bind; by rewrite Hf).
  apply (relay_message_run _ _ _ _ b) in Hm as (m & r & out & Hd & _ & _ & Hb' & _ & _ & Hsp & _);
    [|done].
  unfold enough_draws, unread. rewrite Hb, Hb'. cbn. rewrite Hd, length_app.
  pose proof (length_Message_Encode m). split; [lia|]. intros [Hdist Hfree].
  destruct (Hsp Hdist) as [Hdist' Hfree']. split; [done|lia].
Qed.

Lemma frame_ready_unread route label st w issued w' :
  is_Some (w_backend w) → frame_message route label st w = Some (FrameReady issued, w') →
  (unread w' <= unread w)%nat.
Proof.
  intros [b Hb]. unfold frame_message, next_message, with_backend, write_client, with_client.
  run. rewrite Hb. destruct (Next _) as [[msg|e] mr] eqn:EN; run; [|by destruct (isBenignClose e)].
  apply Next_ok in EN as (Hd & _). cbn in Hd.
  destruct (rewrite_message _ _ _ _) as [[[[out i]|e] w2]|] eqn:ER; [|done..].
  apply rewrite_message_frame in ER as (_ & Hb2 & _).
  destruct (Write _ _) as [[n [e|]] c'] eqn:EW; run; [by destruct (isBenignClose e)|].
  case_bool_decide; [|done]. intros [= <- <-]. unfold unread. cbn. rewrite Hb2, Hb. cbn.
  rewrite Hd, length_app. lia.
Qed.

Lemma Write_keeps_in c out n e c' : Write c out = (n, e, c') → c_in c' = c_in c.
Proof. by intros (_ & _ & ? & _)%Write_out. Qed.

Lemma up_step_left label w u w' u' :
  up_step label w u w' u' →
  (up_left w' u' < up_left w u)%nat ∧ unread w' = unread w ∧ w_cancels w' = w_cancels w ∧
  w_rand w' = w_rand w ∧ (is_Some (w_backend w) → is_Some (w_backend w')).
Proof.
  intros Hs. destruct Hs as [w n chunk rest e _ Hne Hin|w n e _ _ Hin|w n _|w n chunk b m b' Hb HW
    |w n chunk b m err b' Hb HW|w n err|w err b Hb]; unfold unread; cbn; rewrite ?Hin, ?Hb; cbn;
    try apply Write_keeps_in in HW; rewrite ?HW; split_and!; try done; try lia.
  rewrite length_app. destruct chunk; [done|]. cbn. lia.
Qed.

Lemma down_step_left route label w d w' d' :
  down_step route label w d w' d' → is_Some (w_backend w) →
  (down_left w' d' < down_left w d)%nat ∧ c_in (w_client w') = c_in (w_client w) ∧
  is_Some (w_backend w').
Proof.
  intros Hs [b0 Hb]. destruct Hs as [w st w' st' _ Hf|w st w' err issued _ Hf|w st w' issued _ Hf
    |w n issued b chunk rest e Hb' Hne Hin|w n issued b e Hb' _ Hin|w n chunk issued m c' HW
    |w n chunk issued m err c' HW|w n err issued|w err issued|w err|w err];
    try (destruct (local_keeps _ _ _ _ _ Hb Hf) as [[s2 Hb2] Hc2]; assert (is_Some (w_backend w)) as Hbs by eauto);
    try apply Write_keeps_in in HW; cbn; split_and!; try done; try lia.
  - destruct (frame_next_unread _ _ _ _ _ _ Hbs Hf). lia.
  - pose proof (frame_ready_unread _ _ _ _ _ _ Hbs Hf). lia.
  - unfold unread. cbn. rewrite Hb', Hin. cbn. rewrite length_app. destruct chunk; [done|]. cbn. lia.
  - unfold unread. cbn. lia.
Qed.

(** Every step brings the end of a session nearer, and keeps its backend. *)
Lemma istep_shrinks route label s s' :
  istep route label s s' → is_Some (w_backend (ss_world s)) →
  (left_over s' < left_over s)%nat ∧ is_Some (w_backend (ss_world s')).
Proof.
  intros Hs Hl. destruct Hs as [w u w' u' d Hstep|w u w' d d' Hstep]; unfold left_over; cbn in *.
  - destruct (up_step_left _ _ _ _ _ Hstep) as (Hlt & Hun & _ & _ & Hb).
    assert (down_left w' d = down_left w d) as -> by (unfold down_left; by rewrite Hun).
    split; [lia|by apply Hb].
  - destruct (down_step_left _ _ _ _ _ _ Hstep Hl) as (Hlt & Hin & Hl').
    assert (up_left w' u = up_left w u) as -> by (unfold up_left; by rewrite Hin).
    split; [lia|done].
Qed.

Lemma istep_live route label s s' : istep route label s s' → live s → live s'.
Proof.
  intros Hs Hl. destruct (istep_shrinks _ _ _ _ Hs (proj1 Hl)) as [_ Hb]. split; [done|].
  destruct Hl as [Hb0 Hl]. destruct Hs as [w u w' u' d Hstep|w u w' d d' Hstep]; cbn in *.
  - destruct (up_step_left _ _ _ _ _ Hstep) as (_ & Hun & Hca & Hra & _).
    destruct d; try done. unfold enough_draws in *. by rewrite Hun, Hca, Hra.
  - destruct Hstep as [w st w' st' _ Hf| | | | | | | | | |]; try done.
    by apply (frame_next_unread _ _ _ _ _ _ Hb0 Hf).
Qed.

(** *** Who waits for whom *)

Lemma Write_flags c out n e c' :
  Write c out = (n, e, c') →
  c_idle c' = c_idle c ∧ c_wclosed c' = c_wclosed c ∧ c_closed c' = c_closed c.
Proof. unfold Write. repeat case_match; by intros [= _ _ <-]. Qed.

Lemma frame_flags route label st w r w' :
  frame_message route label st w = Some (r, w') →
  c_idle (w_client w') = c_idle (w_client w) ∧ c_closed (w_client w') = c_closed (w_client w).
Proof.
  unfold frame_message, next_message, with_backend, write_client, with_client. run.
  destruct (w_backend w) as [b|]; [|done]. destruct (Next _) as [[msg|e] mr]; run.
  2:{ destruct (isBenignClose e); by intros [= <- <-]. }
  destruct (rewrite_message _ _ _ _) as [[[[out i]|e] w2]|] eqn:ER; [| |done].
  2:{ apply rewrite_message_run in ER as ->. by intros [= <- <-]. }
  apply rewrite_message_frame in ER as (Hc & _). cbn in Hc. rewrite Hc.
  destruct (Write _ _) as [[n e] c'] eqn:EW. apply Write_flags in EW as (Hi & _ & Hcl).
  destruct e as [e|]; run; [destruct (isBenignClose e); by intros [= <- <-]|].
  case_bool_decide; by intros [= <- <-].
Qed.

(** Each direction has closed, once it is over, what the other may be waiting for. *)
Definition closes (s : session) : Prop :=
  (∀ err, ss_down s = DnWaiting err → c_closed (w_client (ss_world s)) = true) ∧
  (∀ err b, ss_up s = UpDone err → w_backend (ss_world s) = Some b → c_wclosed b = true).

(** Silence is for good, and so is what has been closed. *)
Lemma up_step_flags label w u w' u' b :
  up_step label w u w' u' → w_backend w = Some b →
  c_idle (w_client w') = c_idle (w_client w) ∧ c_closed (w_client w') = c_closed (w_client w) ∧
  ∃ b', w_backend w' = Some b' ∧ c_idle b' = c_idle b ∧ (c_wclosed b = true → c_wclosed b' = true) ∧
    (∀ err, u' = UpDone err → c_wclosed b' = true).
Proof.
  intros Hs Hb. destruct Hs as [| | |? ? ? b1 m b' Hb1 HW|? ? ? b1 m err b' Hb1 HW| |? ? b1 Hb1]; cbn;
    (split_and!; [done|done|]); try (rewrite Hb in Hb1; injection Hb1 as <-);
    try apply Write_flags in HW as (Hi & Hw & _); eexists;
    (split_and!; [done|done|first [done|congruence]|done]).
Qed.

Lemma down_step_flags route label w d w' d' b :
  down_step route label w d w' d' → w_backend w = Some b →
  c_idle (w_client w') = c_idle (w_client w) ∧
  (c_closed (w_client w) = true → c_closed (w_client w') = true) ∧
  (∀ err, d' = DnWaiting err → c_closed (w_client w') = true) ∧
  ∃ b', w_backend w' = Some b' ∧ c_idle b' = c_idle b ∧ c_wclosed b' = c_wclosed b.
Proof.
  intros Hs Hb. destruct Hs as [w st w' st' _ Hf|w st w' err issued _ Hf|w st w' issued _ Hf
    |w n issued b1 chunk rest e Hb1 Hne Hin|w n issued b1 e Hb1 _ Hin|w n chunk issued m c' HW
    |w n chunk issued m err c' HW|w n err issued|w err issued|w err|w err];
    try (destruct (local_keeps _ _ _ _ _ Hb Hf) as [[s2 Hb2] _];
         destruct (frame_flags _ _ _ _ _ _ Hf) as [Hi Hc]; split_and!; [done|congruence|done|by eexists]);
    try (apply Write_flags in HW as (Hi & _ & Hc); cbn; split_and!; [done|congruence|done|by eexists]);
    try (rewrite Hb in Hb1; injection Hb1 as <-); cbn; split_and!; try done; by eexists.
Qed.

Lemma istep_flags route label s s' b :
  istep route label s s' → w_backend (ss_world s) = Some b → closes s →
  closes s' ∧ c_idle (w_client (ss_world s')) = c_idle (w_client (ss_world s)) ∧
  ∃ b', w_backend (ss_world s') = Some b' ∧ c_idle b' = c_idle b.
Proof.
  intros Hs Hb [Hd Hu]. destruct Hs as [w u w' u' d Hs|w u w' d d' Hs]; cbn in *.
  - destruct (up_step_flags _ _ _ _ _ _ Hs Hb) as (Hi & Hc & b' & Hb' & Hib & Hw & Hdone).
    split_and!; [split; cbn|done|by eexists].
    + intros err Hwt. rewrite Hc. by eapply Hd.
    + intros err b1 Hu1. rewrite Hb'. intros [= <-]. by eapply Hdone.
  - destruct (down_step_flags _ _ _ _ _ _ _ Hs Hb) as (Hi & Hc & Hwt & b' & Hb' & Hib & Hw).
    split_and!; [split; cbn|done|by eexists].
    + done.
    + intros err b1 Hu1. rewrite Hb'. intros [= <-]. rewrite Hw. by eapply Hu.
Qed.

(** Both directions wait for silent peers: there is nothing to do, and the session
    goes on as soon as one of the peers is heard of or closed. *)
Definition waiting (s : session) : Prop :=
  let c := w_client (ss_world s) in
  (∃ n, ss_up s = UpReading n) ∧ c_idle c = true ∧ c_closed c = false ∧ st_data (c_in c) = [] ∧
  ∃ b, w_backend (ss_world s) = Some b ∧ c_idle b = true ∧ c_wclosed b = false ∧
    match ss_down s with
    | DnFraming _ => incomplete (c_in b) = true
    | DnReading _ _ => st_data (c_in b) = []
    | _ => False
    end.

(** A direction that is not over moves or waits for its own peer. *)
Lemma up_moves label w u :
  is_Some (w_backend w) → (∀ err, u ≠ UpDone err) →
  (∃ w' u', up_step label w u w' u') ∨
  (∃ n, u = UpReading n) ∧ c_idle (w_client w) = true ∧ c_closed (w_client w) = false ∧
    st_data (c_in (w_client w)) = [].
Proof.
  intros [b Hb] Hu. destruct (up_move label 0 w u) as [[w' u']|] eqn:E;
    [left; exists w', u'; by eapply up_move_step|]. revert E.
  destruct u; cbn [up_move]; try done; rewrite ?Hb; cbn; repeat (case_match; try done); try done.
  - intros _. right. by split_and!; [eexists|..].
  - by edestruct Hu.
Qed.

Lemma frame_moves route label st w :
  is_Some (w_backend w) → enough_draws w (unread w) → is_Some (frame_message route label st w).
Proof.
  intros [b Hb] [_ Hfree].
  destruct (relay_message_total route label st w b Hb) as [[x Hx]|Hno].
  - revert Hx. unfold relay_message, mbind, gw_bind. by destruct (frame_message _ _ _ _).
  - apply free_draws_zero in Hno. lia.
Qed.

Lemma down_moves route label w u d b :
  live (MkSession w u d) → w_backend w = Some b → (∀ err, d ≠ DnWaiting err) →
  (∃ w' d', down_step route label w d w' d') ∨
  quiet b = true ∧ match d with
                   | DnFraming _ => incomplete (c_in b) = true
                   | DnReading _ _ => st_data (c_in b) = []
                   | _ => False
                   end.
Proof.
  intros [_ Hl] Hb Hd. cbn in *. destruct (down_move route label 0 w d) as [[w' d']|] eqn:E;
    [left; exists w', d'; by eapply down_move_step|]. revert E.
  destruct d as [st| | | | | | |err]; cbn [down_move]; try done; rewrite ?Hb.
  - destruct (frame_waits w) eqn:Ew.
    + intros _. right. revert Ew. unfold frame_waits. rewrite Hb. by intros [? ?]%andb_true_iff.
    + destruct (frame_moves route label st w) as [[[] w'] ->]; [by eexists|done..].
  - cbn. destruct (st_data (c_in b)); [|done]. destruct (quiet b); [by right|done].
  - by destruct (Write _ _) as [[m []] c'].
  - by destruct (Hd err).
Qed.

Lemma session_can_move route label s :
  live s → closes s → finished s = None → (∃ s', istep route label s s') ∨ waiting s.
Proof.
  intros Hl [Hcd Hcu] Hfin. destruct s as [ws u d]. cbn in *. pose proof Hl as [[b Hb] _]. cbn in Hb.
  assert ((∃ err, u = UpDone err) ∨ ∀ err, u ≠ UpDone err) as [[uerr ->]|Hu]
    by (destruct u; try (by right); left; eauto);
    assert ((∃ err, d = DnWaiting err) ∨ ∀ err, d ≠ DnWaiting err) as [[derr ->]|Hd]
    by (destruct d; try (by right); left; eauto).
  - done.
  - destruct (down_moves route label ws _ d b Hl Hb Hd) as [(w' & d' & Hs)|[Hq _]].
    + left. eexists. by apply istep_down.
    + unfold quiet in Hq. by rewrite (Hcu uerr b), andb_false_r in Hq.
  - destruct (up_moves label ws u) as [(w' & u' & Hs)|(_ & _ & Hc & _)]; [by eexists|done| |].
    + left. eexists. by apply istep_up.
    + by rewrite (Hcd derr) in Hc.
  - destruct (up_moves label ws u) as [(w' & u' & Hs)|(Hr & Hi & Hc & He)]; [by eexists|done| |].
    { left. eexists. by apply istep_up. }
    destruct (down_moves route label ws u d b Hl Hb Hd) as [(w' & d' & Hs)|[Hq Hw]].
    + left. eexists. by apply istep_down.
    + apply andb_true_iff in Hq as [Hq Hn%negb_true_iff]. right. split_and!; try done. by exists b.
Qed.

(** What a relay keeps while it runs. *)
Lemma begin_live w b : w_backend w = Some b → enough_draws w (length (st_data (c_in b))) → live (begin w).
Proof. intros Hb Hdraws. split; cbn; [by eexists|]. unfold unread. by rewrite Hb. Qed.

Lemma begin_closes w : closes (begin w).
Proof. by split. Qed.

Lemma relay_keeps route label s s' b :
  rtc (istep route label) s s' → live s → closes s → w_backend (ss_world s) = Some b →
  live s' ∧ closes s' ∧ c_idle (w_client (ss_world s')) = c_idle (w_client (ss_world s)) ∧
  ∃ b', w_backend (ss_world s') = Some b' ∧ c_idle b' = c_idle b.
Proof.
  intros Hr. revert b. induction Hr as [s|s1 s2 s3 Hs _ IH]; intros b Hl Hc Hb; [by split_and!; eauto|].
  destruct (istep_flags _ _ _ _ _ Hs Hb Hc) as (Hc2 & Hi2 & b2 & Hb2 & Hib2).
  destruct (IH b2 (istep_live _ _ _ _ Hs Hl) Hc2 Hb2) as (Hl3 & Hc3 & Hi3 & b3 & Hb3 & Hib3).
  split_and!; [done|done|congruence|]. exists b3. split; [done|congruence].
Qed.

(** C30: neither direction of a relay ever waits for the other.  However the two are
    scheduled, from every state a relay can reach it takes at most [left_over] further
    steps; and as long as it is not over, one of them can move, unless both wait for
    their own peers at once: an open client that has sent all it will and keeps silent,
    and a backend that does the same and has not been half-closed.  So the relay comes
    to its end as soon as one of the peers ends its stream, although the other may keep
    silent for ever: the end of the backend closes the client, and the end of the client
    half-closes the backend. *)
Theorem relay_schedules_end route label w b s :
  w_backend w = Some b → enough_draws w (length (st_data (c_in b))) →
  rtc (istep route label) (begin w) s →
  (∀ k s', nsteps (istep route label) k s s' → (k <= left_over s)%nat) ∧
  (finished s = None → (∃ s', istep route label s s') ∨ waiting s) ∧
  (c_idle (w_client w) = false ∨ c_idle b = false → finished s = None →
   ∃ s', istep route label s s').
Proof.
  intros Hb Hdraws Hr.
  destruct (relay_keeps _ _ _ _ b Hr) as (Hl & Hc & Hi & b' & Hb' & Hib);
    [by eapply begin_live|apply begin_closes|done|].
  assert (finished s = None → (∃ s', istep route label s s') ∨ waiting s) as Hmove
    by by apply session_can_move.
  split_and!; [|done|].
  - clear -Hl. intros k s' Hk. revert Hl. induction Hk as [|k s1 s2 s3 Hs _ IH]; intros Hl; [lia|].
    destruct (istep_shrinks _ _ _ _ Hs (proj1 Hl)) as [Hlt _].
    specialize (IH (istep_live _ _ _ _ Hs Hl)). lia.
  - intros Hsp Hfin. destruct (Hmove Hfin) as [?|(_ & Hq & _ & _ & b1 & Hb1 & Hq1 & _)]; [done|].
    cbn in Hi. rewrite Hb' in Hb1. injection Hb1 as <-. destruct Hsp; congruence.
Qed.

(** ** A sample schedule *)

(** The greeting is framed, a byte of the client's is read, the backend's key is
    exchanged, the byte is written, the startup ends and the splice runs dry; then the
    client is closed and the upstream copy, about to read again, fails. *)
Definition sample_turns : list (bool * nat) :=
  [(false, 0); (true, 0); (false, 0); (true, 0); (false, 0); (false, 0); (false, 0); (false, 0);
   (false, 0); (false, 0); (false, 0); (false, 0); (true, 0); (true, 0); (true, 0)]%nat.

Definition sample_finished : session :=
  default (begin sample_session) (run_schedule sample_route "billing" sample_turns (begin sample_session)).

Lemma relay_interleaved_witness :
  finished sample_finished = Some None ∧
  ∃ cut w', relay sample_route "billing" (put_cut cut sample_session) = Some (None, w') ∧
    same_session (ss_world sample_finished) w'.
Proof.
  split; [by vm_compute|].
  apply (relay_interleaved sample_route "billing" sample_session _ sample_finished None eq_refl).
  - apply (run_schedule_steps _ _ sample_turns). by vm_compute.
  - by vm_compute.
Defined.

(** The same session with a client that keeps silent: its goroutine is left in a read
    when the backend has ended, until the client is closed. *)
Definition silent_session : world :=
  put_client (MkConn (c_in (w_client sample_session)) [] None [] true false false false) sample_session.
Definition silent_turns : list (bool * nat) :=
  [(true, 0); (true, 0); (false, 0); (false, 0); (false, 0); (false, 0); (false, 0); (false, 0);
   (false, 0); (false, 0); (false, 0)]%nat.
Definition silent_stuck : session :=
  default (begin silent_session) (run_schedule sample_route "billing" silent_turns (begin silent_session)).

Lemma relay_schedules_end_witness :
  finished silent_stuck = None ∧ up_move "billing" 0 (ss_world silent_stuck) (ss_up silent_stuck) = None ∧
  (∀ k s', nsteps (istep sample_route "billing") k silent_stuck s' → (k <= left_over silent_stuck)%nat) ∧
  (finished silent_stuck = None → (∃ s', istep sample_route "billing" silent_stuck s') ∨ waiting silent_stuck) ∧
  (c_idle (w_client silent_session) = false ∨ c_idle (sample_conn (session_data startup_messages ready_idle [x44])) = false →
   finished silent_stuck = None → ∃ s', istep sample_route "billing" silent_stuck s').
Proof.
  split; [by vm_compute|]. split; [by vm_compute|].
  apply (relay_schedules_end sample_route "billing" silent_session _ silent_stuck eq_refl).
  - split; [apply sample_draws_distinct|]. vm_compute. lia.
  - apply (run_schedule_steps _ _ silent_turns). by vm_compute.
Defined.
