(* ===== verification/Sessions.v ===== *)
(** All the sessions of a gateway side by side: any number of relays, each at any
    point of [Interleave]'s interleavings, sharing the table of cancellation keys and
    the random source ([Server.cancels] of [internal/proxy/server.go] with the
    sessions of [session.go] and [relay.go]). *)

From stdpp Require Import base list gmap strings pretty relations.
From Stdlib Require Import ZArith Lia.
From Stdlib Require Import Init.Byte.
From S2P Require Import Prelude GoLib Wire Api Registry Net Cancel Backend Relay Interleave.

Local Open Scope go_scope.

(** ** The gateway *)

(** A session in flight: its route, its metrics label, what its backend had to say when
    the relay began (kept for the record) and where it is.  The table and the random
    source in its world are stale copies; the gateway's count. *)
Record flight := MkFlight {
  fl_route : Route;
  fl_label : string;
  fl_said : bytes;
  fl_session : session
}.

Record gateway := MkGateway {
  gt_table : cancelRegistry;
  gt_rand : list bytes;
  gt_flights : gmap nat flight
}.

(** A session with the shared state as it is now. *)
Definition enter (g : gateway) (s : session) : session :=
  let w := ss_world s in
  MkSession (World (w_client w) (w_backend w) (gt_table g) (gt_rand g) (w_cut w) (w_trace w))
    (ss_up s) (ss_down s).

(** A client connection that [drain] has closed under its session: nothing more comes
    of it but [net.ErrClosed], it takes no more bytes, and the deadline calls a handler
    still makes on it fail. *)
Definition closed_error : error := ESentinel net_ErrClosed.
Definition cut_off (c : Conn) : Conn :=
  MkConn (Stream [] closed_error) (c_out c) (Some (0%nat, closed_error))
    [Refused closed_error; Refused closed_error] (c_idle c) (c_tls c) (c_wclosed c) true.
Definition cut_world (w : world) : world := put_client (cut_off (w_client w)) w.
Definition cut_flight (f : flight) : flight :=
  MkFlight (fl_route f) (fl_label f) (fl_said f)
    (MkSession (cut_world (ss_world (fl_session f))) (ss_up (fl_session f)) (ss_down (fl_session f))).

(** The change [f] to the entries of [m] in [A]. *)
Definition change_at {X} (A : gset nat) (f : X → X) (m : gmap nat X) : gmap nat X :=
  map_imap (λ i x, Some (if bool_decide (i ∈ A) then f x else x)) m.

Lemma lookup_change_at {X} A (f : X → X) m i :
  change_at A f m !! i = (λ x, if bool_decide (i ∈ A) then f x else x) <$> m !! i.
Proof. unfold change_at. rewrite map_lookup_imap. by destruct (m !! i). Qed.

(** A relay starts, moves, or is over; the clients in [A] are closed. *)
Inductive gstep : gateway → gateway → Prop :=
| g_begin g i route label w b :
    gt_flights g !! i = None → w_backend w = Some b →
    gstep g (MkGateway (gt_table g) (gt_rand g)
               (<[i := MkFlight route label (st_data (c_in b)) (begin w)]> (gt_flights g)))
| g_move g i f s' :
    gt_flights g !! i = Some f →
    istep (fl_route f) (fl_label f) (enter g (fl_session f)) s' →
    gstep g (MkGateway (w_cancels (ss_world s')) (w_rand (ss_world s'))
               (<[i := MkFlight (fl_route f) (fl_label f) (fl_said f) s']> (gt_flights g)))
| g_end g i f :
    gt_flights g !! i = Some f → is_Some (finished (fl_session f)) →
    gstep g (MkGateway (gt_table g) (gt_rand g) (delete i (gt_flights g)))
| g_cut g A :
    gstep g (MkGateway (gt_table g) (gt_rand g) (change_at A cut_flight (gt_flights g))).

Definition idle (rand : list bytes) : gateway := MkGateway newCancelRegistry rand ∅.

(** ** Who holds which key *)

(** The key a session's client was last told, until it is released. *)
Definition held (s : session) : option CancelRequest :=
  match ss_down s with
  | DnFraming st => ls_issued st
  | DnReading _ issued | DnHolding _ _ issued | DnCopied _ _ issued | DnReturning _ issued => issued
  | _ => None
  end.

(** The key in the last of the messages that carries one. *)
Fixpoint last_backend_key (ms : list Message) : option CancelRequest :=
  match ms with
  | [] => None
  | m :: ms' =>
      match last_backend_key ms' with
      | Some bk => Some bk
      | None =>
          if bool_decide (Type_ m = MsgBackendKeyData)
          then match DecodeBackendKeyData (Body m) with Ok bk => Some bk | Err _ => None end
          else None
      end
  end.

Lemma last_backend_key_app ms ms' :
  last_backend_key (ms ++ ms') = match last_backend_key ms' with
                                 | Some bk => Some bk
                                 | None => last_backend_key ms
                                 end.
Proof.
  induction ms as [|m ms IH]; cbn; [by destruct (last_backend_key ms')|]. rewrite IH.
  by destruct (last_backend_key ms').
Qed.

(** What a step does to the table and to the session's key, having passed on a message
    with the backend key [news]. *)
Definition key_step (route : Route) (m : cancelRegistry) (k0 news : option CancelRequest)
  (m' : cancelRegistry) (k1 : option CancelRequest) : Prop :=
  (m' = m ∧ k1 = k0 ∧ news = None) ∨
  (∃ k bk, m !! k = None ∧ m' = <[k := session_entry route bk]> m ∧ k1 = Some k ∧ news = Some bk) ∨
  (m' = after_release k0 m ∧ k1 = None ∧ news = None).

Definition frame_key (r : frame_end) : option CancelRequest :=
  match r with
  | FrameNext st => ls_issued st
  | FrameStop _ issued | FrameReady issued => issued
  end.

(** The messages [ms] of the startup are the first of [data], and, while there may be
    more of them, [rest] is left to read. *)
Definition passed_on (data : bytes) (ms : list Message) (rest : bytes) : Prop :=
  data = concat (map Message_Encode ms) ++ rest ∧ Forall (λ m, Type_ m ≠ MsgReadyForQuery) ms.

Lemma passed_on_more data ms rest ms' rest' :
  passed_on data ms rest → passed_on rest ms' rest' → passed_on data (ms ++ ms') rest'.
Proof.
  intros [-> H1] [-> H2]. split; [|by apply Forall_app]. by rewrite map_app, concat_app, app_assoc.
Qed.

Lemma passed_on_nothing data : passed_on data [] data.
Proof. by split. Qed.

(** The bytes of the backend that are still to be framed. *)
Definition unframed (w : world) : bytes :=
  match w_backend w with Some b => st_data (c_in b) | None => [] end.

Lemma frame_keys route label st w r w' :
  frame_message route label st w = Some (r, w') →
  ∃ ms rest, passed_on (unframed w) ms rest ∧
    (∀ st', r = FrameNext st' → rest = unframed w') ∧
    key_step route (w_cancels w) (ls_issued st) (last_backend_key ms) (w_cancels w') (frame_key r).
Proof.
  unfold frame_message, next_message, with_backend, write_client, with_client, unframed. run.
  destruct (w_backend w) as [b|]; [|done].
  destruct (Next _) as [[msg|e] mr] eqn:EN; run.
  2:{ intros Hf. eexists [], _. split; [apply passed_on_nothing|].
      destruct (isBenignClose e); injection Hf as <- <-; (split; [done|by left]). }
  apply Next_ok in EN as (Hd & _). cbn in Hd.
  destruct (rewrite_message _ _ _ _) as [[[[out i]|e] w2]|] eqn:ER; [| |done].
  2:{ apply rewrite_message_run in ER as ->. intros [= <- <-]. eexists [], _.
      split; [apply passed_on_nothing|]. split; [done|by left]. }
  pose proof (rewrite_message_frame _ _ _ _ _ _ _ ER) as (_ & Hb2 & _). cbn in Hb2.
  apply rewrite_message_run in ER. intros Hf.
  assert (w_cancels w' = w_cancels w2 ∧ frame_key r = i ∧ w_backend w' = w_backend w2 ∧
          (∀ st', r = FrameNext st' → Type_ msg ≠ MsgReadyForQuery)) as (-> & -> & -> & Hnext).
  { revert Hf. destruct (Write _ _) as [[n [e|]] c']; run.
    - by destruct (isBenignClose e); intros [= <- <-].
    - by case_bool_decide; intros [= <- <-]. }
  destruct ER as [(Ht & _ & -> & ->)|(bk & k & rest & Ht & Hbk & _ & -> & Hk & _ & _ & ->)].
  - destruct (decide (Type_ msg = MsgReadyForQuery)) as [Hz|Hz].
    + eexists [], _. split; [apply passed_on_nothing|]. split; [|by left].
      intros st' Hr. by destruct (Hnext st' Hr).
    + exists [msg], (st_data (mr_r mr)). split; [split; [cbn; by rewrite app_nil_r|by constructor]|].
      split; [done|]. left. cbn. by rewrite bool_decide_eq_false_2.
  - exists [msg], (st_data (mr_r mr)).
    split; [split; [cbn; by rewrite app_nil_r|constructor; [by rewrite Ht|done]]|].
    split; [done|]. right; left. exists k, bk. cbn. by rewrite bool_decide_eq_true_2, Hbk.
Qed.

Lemma istep_keys route label s s' :
  istep route label s s' →
  ∃ ms rest, (∀ st, ss_down s = DnFraming st → passed_on (unframed (ss_world s)) ms rest) ∧
    (∀ st, ss_down s = DnFraming st → ∀ st', ss_down s' = DnFraming st' → rest = unframed (ss_world s')) ∧
    ((∀ st, ss_down s ≠ DnFraming st) → ms = [] ∧ ∀ st', ss_down s' ≠ DnFraming st') ∧
    key_step route (w_cancels (ss_world s)) (held s) (last_backend_key ms)
      (w_cancels (ss_world s')) (held s').
Proof.
  intros Hs. destruct Hs as [w u w' u' d Hstep|w u w' d d' Hstep]; unfold held; cbn.
  - destruct (up_step_left _ _ _ _ _ Hstep) as (_ & _ & -> & _).
    assert (unframed w' = unframed w) as Hun.
    { destruct Hstep as [| | |? ? ? b m b' Hb HW|? ? ? b m err b' Hb HW| |? ? b Hb]; unfold unframed; cbn;
        try done; rewrite Hb; try done; by apply Write_keeps_in in HW as ->. }
    exists [], (unframed w). split_and!; [intros; apply passed_on_nothing|by rewrite Hun|naive_solver|by left].
  - destruct Hstep as [w st w' st' _ Hf|w st w' err issued _ Hf|w st w' issued _ Hf| | | | | | | |]; cbn;
      try (apply frame_keys in Hf as (ms & rest & Hp & Hr & Hk); exists ms, rest;
           (split_and!; [by intros|naive_solver|naive_solver|done]));
      exists [], []; (split_and!; [done|done|done|]); try (by left). by right; right.
Qed.

(** ** The invariant *)

(** The messages of its startup that a session has passed on. *)
Definition has_passed (f : flight) (ms : list Message) : Prop :=
  ∃ rest, passed_on (fl_said f) ms rest ∧
    ∀ st, ss_down (fl_session f) = DnFraming st → rest = unframed (ss_world (fl_session f)).

(** Every session's key leads to its own backend and to the key that backend sent last,
    and no two sessions hold the same. *)
Definition keys_ok (g : gateway) : Prop :=
  (∀ i f, gt_flights g !! i = Some f →
     ∃ ms, has_passed f ms ∧ ∀ k, held (fl_session f) = Some k →
       ∃ bk, last_backend_key ms = Some bk ∧
         lookup_cancel (gt_table g) k = Some (session_entry (fl_route f) bk)) ∧
  (∀ i j f f' k, gt_flights g !! i = Some f → gt_flights g !! j = Some f' →
     held (fl_session f) = Some k → held (fl_session f') = Some k → i = j).

(** A step of a session adds to what it has passed on. *)
Lemma istep_passes route label f g s' ms0 :
  istep route label (enter g (fl_session f)) s' → has_passed f ms0 →
  ∃ ms, has_passed (MkFlight (fl_route f) (fl_label f) (fl_said f) s') (ms0 ++ ms) ∧
    key_step route (gt_table g) (held (fl_session f)) (last_backend_key ms)
      (w_cancels (ss_world s')) (held s').
Proof.
  intros Hs (rest0 & Hp0 & Hr0). apply istep_keys in Hs as (ms & rest & Hp & Hr & Hn & Hk).
  exists ms. split; [|done]. cbn in *.
  assert ((∃ st, ss_down (fl_session f) = DnFraming st) ∨ ∀ st, ss_down (fl_session f) ≠ DnFraming st)
    as [[st Hst]|Hst] by (destruct (ss_down (fl_session f)); try (by right); left; eauto).
  - exists rest. split; [|cbn; by eapply Hr]. eapply passed_on_more; [exact Hp0|].
    rewrite (Hr0 st Hst). by apply (Hp st).
  - destruct (Hn Hst) as [-> Hn']. exists rest0. rewrite app_nil_r. split; [done|]. cbn.
    intros st' Hd. by destruct (Hn' st').
Qed.

Lemma move_keys_ok g i f s' :
  keys_ok g → gt_flights g !! i = Some f →
  istep (fl_route f) (fl_label f) (enter g (fl_session f)) s' →
  keys_ok (MkGateway (w_cancels (ss_world s')) (w_rand (ss_world s'))
             (<[i := MkFlight (fl_route f) (fl_label f) (fl_said f) s']> (gt_flights g))).
Proof.
  intros [Hown Huniq] Hi Hs. destruct (Hown i f Hi) as (ms0 & Hp0 & Hold).
  destruct (istep_passes _ _ _ _ _ _ Hs Hp0) as (ms & Hp & Hstep). unfold keys_ok, lookup_cancel in *.
  assert (∀ j f' k, j ≠ i → gt_flights g !! j = Some f' → held (fl_session f') = Some k →
            held s' ≠ Some k ∧ w_cancels (ss_world s') !! k = gt_table g !! k) as Hother.
  { intros j f' k Hne Hj Hk. destruct (Hown _ _ Hj) as (? & _ & Hbk). destruct (Hbk k Hk) as (bk & _ & Hl).
    destruct Hstep as [(-> & -> & _)|[(k' & bk' & Hfree & -> & -> & _)|(-> & -> & _)]].
    - split; [|done]. intros Heq. by apply Hne, (Huniq j i f' f k).
    - assert (k' ≠ k) by congruence. split; [congruence|]. by rewrite lookup_insert_ne.
    - split; [done|]. destruct (held (fl_session f)) as [k'|] eqn:Eh; [|done]. cbn.
      unfold release. apply lookup_delete_ne. intros ->. by apply Hne, (Huniq j i f' f k). }
  split; cbn.
  - intros j f' [[<- <-]|[Hne Hj]]%lookup_insert_Some.
    + exists (ms0 ++ ms). split; [done|]. cbn. intros k. rewrite last_backend_key_app.
      destruct Hstep as [(-> & -> & ->)|[(k' & bk' & Hfree & -> & -> & ->)|(_ & -> & _)]]; [apply Hold| |done].
      intros [= <-]. exists bk'. by rewrite lookup_insert_eq.
    + destruct (Hown _ _ Hj) as (ms' & Hp' & Hk'). exists ms'. split; [done|]. intros k Hk.
      destruct (Hother j f' k (not_eq_sym Hne) Hj Hk) as [_ ->]. by apply Hk'.
  - intros j1 j2 f1 f2 k H1 H2 Hk1 Hk2.
    destruct (decide (j1 = i)) as [->|Hn1], (decide (j2 = i)) as [->|Hn2]; [done|..];
      rewrite ?lookup_insert_eq, ?lookup_insert_ne in H1 by done;
      rewrite ?lookup_insert_eq, ?lookup_insert_ne in H2 by done.
    + injection H1 as <-. by destruct (Hother _ _ _ Hn2 H2 Hk2) as [? _].
    + injection H2 as <-. by destruct (Hother _ _ _ Hn1 H1 Hk1) as [? _].
    + by eapply Huniq.
Qed.

(** Closing clients changes nobody's key. *)
Lemma cut_keys A m i f :
  change_at A cut_flight m !! i = Some f →
  ∃ f0, m !! i = Some f0 ∧ fl_route f = fl_route f0 ∧ held (fl_session f) = held (fl_session f0) ∧
    ∀ ms, has_passed f0 ms → has_passed f ms.
Proof.
  rewrite lookup_change_at. destruct (m !! i) as [f0|]; [|done]. cbn. intros [= <-]. exists f0.
  by case_bool_decide.
Qed.

Lemma gstep_keys_ok g g' : gstep g g' → keys_ok g → keys_ok g'.
Proof.
  intros Hs Hok. destruct Hs as [g i route label w b Hi Hb|g i f s' Hi Hstep|g i f Hi Hfin|g A].
  - destruct Hok as [Hown Huniq]. split; cbn.
    + intros j f [[<- <-]|[_ Hj]]%lookup_insert_Some; [|by apply (Hown j)]. exists []. split; [|done].
      exists (st_data (c_in b)). split; [apply passed_on_nothing|]. cbn. unfold unframed. by rewrite Hb.
    + intros j1 j2 f1 f2 k H1 H2 Hk1 Hk2.
      destruct (decide (j1 = i)) as [->|Hn1], (decide (j2 = i)) as [->|Hn2]; [done|..];
        rewrite ?lookup_insert_eq, ?lookup_insert_ne in H1 by done;
        rewrite ?lookup_insert_eq, ?lookup_insert_ne in H2 by done;
        [by injection H1 as <-|by injection H2 as <-|by eapply Huniq].
  - by apply move_keys_ok.
  - destruct Hok as [Hown Huniq]. split; cbn.
    + intros j f' [_ Hj]%lookup_delete_Some. by apply (Hown j).
    + intros j1 j2 f1 f2 k [_ H1]%lookup_delete_Some [_ H2]%lookup_delete_Some. by eapply Huniq.
  - destruct Hok as [Hown Huniq]. split; cbn.
    + intros j f (f0 & Hj & -> & -> & Hp)%cut_keys. destruct (Hown _ _ Hj) as (ms & Hms & Hk).
      exists ms. split; [by apply Hp|done].
    + intros j1 j2 f1 f2 k (g1 & H1 & _ & -> & _)%cut_keys (g2 & H2 & _ & -> & _)%cut_keys. by eapply Huniq.
Qed.

Lemma gateway_keys_ok rand g : rtc gstep (idle rand) g → keys_ok g.
Proof.
  intros Hr. assert (keys_ok (idle rand)) as Hok by (split; cbn; intros; by rewrite lookup_empty in *).
  revert Hok. induction Hr as [|g1 g2 g3 Hs _ IH]; [done|]. intros Hok. by apply IH, (gstep_keys_ok g1).
Qed.

Section Isolation.
Context `{Network}.

(** C15: cancellation reaches the right session and no other.  With any number of
    sessions in flight, at any point of each of them, the key a session's client holds
    stands in the table for the address and TLS policy of that session's own route and
    for the key its own backend sent last of the startup messages that have been passed
    on; presenting it makes the gateway connect to that address and, if that works,
    send that key there; and no other session in flight holds the same key. *)
Theorem cancel_isolation timeout rand g i f k w :
  rtc gstep (idle rand) g → gt_flights g !! i = Some f → held (fl_session f) = Some k →
  w_cancels w = gt_table g →
  (∃ ms bk w', has_passed f ms ∧ last_backend_key ms = Some bk ∧
     lookup_cancel (gt_table g) k = Some (session_entry (fl_route f) bk) ∧
     forwardCancel timeout k w = Some (tt, w') ∧ w_cancels w' = gt_table g ∧
     dials (w_trace w') = dials (w_trace w) ++ [Address (fl_route f)] ∧
     (∀ c0, Dial (Address (fl_route f)) = Ok c0 → ∃ c outcome, w_backend w' = Some c ∧
        w_trace w' = w_trace w ++ [EvDial (Address (fl_route f)); EvCancel outcome] ∧
        cancel_sent timeout (session_entry (fl_route f) bk) outcome c0 c)) ∧
  (∀ j f', gt_flights g !! j = Some f' → held (fl_session f') = Some k → j = i).
Proof.
  intros Hr Hi Hk Hw. destruct (gateway_keys_ok _ _ Hr) as [Hown Huniq].
  split; [|intros j f' Hj Hk'; by eapply Huniq].
  destruct (Hown _ _ Hi) as (ms & Hp & Hkey). destruct (Hkey k Hk) as (bk & Hlast & Hbk). exists ms, bk.
  destruct (forwardCancel_run timeout k w) as (w' & Hrun & _ & Hca & Hcase). exists w'.
  rewrite Hw, Hbk in Hcase. destruct Hcase as (outcome & Htr & Hsent).
  split_and!; try done; [congruence|by rewrite Htr, dials_app|].
  intros c0 Hd. cbn in Hsent. rewrite Hd in Hsent. destruct Hsent as (c & Hc & _ & Hsent). by exists c, outcome.
Qed.
End Isolation.

(** ** Two sessions *)

(** Running turns: which session moves, which of its directions, and how much it
    reads. *)
Fixpoint run_gateway (turns : list (nat * bool * nat)) (g : gateway) : option gateway :=
  match turns with
  | [] => Some g
  | (i, who, k) :: rest =>
      f ← gt_flights g !! i;
      s ← run_schedule (fl_route f) (fl_label f) [(who, k)] (enter g (fl_session f));
      run_gateway rest (MkGateway (w_cancels (ss_world s)) (w_rand (ss_world s))
                          (<[i := MkFlight (fl_route f) (fl_label f) (fl_said f) s]> (gt_flights g)))
  end.

(** A turn of a schedule is a step. *)
Lemma turn_istep route label who k s s' :
  run_schedule route label [(who, k)] s = Some s' → istep route label s s'.
Proof.
  cbn [run_schedule]. destruct s as [w u d], who; cbn.
  - destruct (up_move _ _ _ _) as [[w' u']|] eqn:E; [|done]. intros [= <-].
    apply istep_up. by eapply up_move_step.
  - destruct (down_move _ _ _ _ _) as [[w' d']|] eqn:E; [|done]. intros [= <-].
    apply istep_down. by eapply down_move_step.
Qed.

(** What a run of turns leads to, for any relation that has the moves of the flights. *)
Lemma run_gateway_rtc {X} (step : X → X → Prop) (at_ : gateway → X) turns g g' :
  (∀ g i f s', gt_flights g !! i = Some f →
     istep (fl_route f) (fl_label f) (enter g (fl_session f)) s' →
     step (at_ g) (at_ (MkGateway (w_cancels (ss_world s')) (w_rand (ss_world s'))
                         (<[i := MkFlight (fl_route f) (fl_label f) (fl_said f) s']> (gt_flights g))))) →
  run_gateway turns g = Some g' → rtc step (at_ g) (at_ g').
Proof.
  intros Hmove. revert g. induction turns as [|[[i who] k] turns IH]; intros g; cbn [run_gateway];
    [by intros [= <-]|].
  destruct (gt_flights g !! i) as [f|] eqn:Hi; [|done]. cbn [mbind option_bind].
  destruct (run_schedule _ _ _ _) as [s|] eqn:Es; [|done]. cbn [mbind option_bind]. intros Hr.
  eapply rtc_l; [|by apply IH]. apply Hmove; [done|]. by eapply turn_istep.
Qed.

Lemma run_gateway_steps turns g g' : run_gateway turns g = Some g' → rtc gstep g g'.
Proof. apply (run_gateway_rtc gstep id). intros. by apply g_move. Qed.

Definition other_route : Route :=
  MkResolved (MkName "apps" "orders") "orders" "orders" "orders" 5432 (MkTLSConfig BackendTLSDisable None "").

Definition sample_said : bytes := session_data startup_messages ready_idle [x44].

Definition two_begun : gateway :=
  MkGateway newCancelRegistry sample_draws
    (<[2%nat := MkFlight other_route "orders" sample_said (begin sample_session)]>
       (<[1%nat := MkFlight sample_route "billing" sample_said (begin sample_session)]> ∅)).

(** Both sessions have their key, though the two backends issued the same one. *)
Definition two_keyed : gateway :=
  default two_begun
    (run_gateway [(1, false, 0); (2, false, 0); (2, false, 0); (1, false, 0); (2, true, 0)]%nat two_begun).

Lemma two_keyed_reachable : rtc gstep (idle sample_draws) two_keyed.
Proof.
  eapply rtc_l; [by eapply (g_begin _ 1 sample_route "billing" sample_session)|].
  eapply rtc_l; [by eapply (g_begin _ 2 other_route "orders" sample_session)|].
  apply (run_gateway_steps
    [(1, false, 0); (2, false, 0); (2, false, 0); (1, false, 0); (2, true, 0)]%nat).
  by vm_compute.
Qed.

Definition first_flight : flight :=
  default (MkFlight sample_route "billing" sample_said (begin sample_session)) (gt_flights two_keyed !! 1%nat).
Definition first_key : CancelRequest := default (MkCancelRequest 0 0) (held (fl_session first_flight)).

#[local] Existing Instance sample_network.

Lemma cancel_isolation_witness :
  (∃ ms bk w', has_passed first_flight ms ∧ last_backend_key ms = Some bk ∧
     lookup_cancel (gt_table two_keyed) first_key = Some (session_entry sample_route bk) ∧
     forwardCancel 5 first_key (put_cancels (gt_table two_keyed) sample_session) = Some (tt, w') ∧
     w_cancels w' = gt_table two_keyed ∧ dials (w_trace w') = dials [] ++ [Address sample_route] ∧
     (∀ c0, Dial (Address sample_route) = Ok c0 → ∃ c outcome, w_backend w' = Some c ∧
        w_trace w' = [] ++ [EvDial (Address sample_route); EvCancel outcome] ∧
        cancel_sent 5 (session_entry sample_route bk) outcome c0 c)) ∧
  (∀ j f', gt_flights two_keyed !! j = Some f' → held (fl_session f') = Some first_key → j = 1%nat).
Proof.
  apply (cancel_isolation 5 sample_draws two_keyed 1 first_flight first_key
           (put_cancels (gt_table two_keyed) sample_session)).
  - exact two_keyed_reachable.
  - by vm_compute.
  - by vm_compute.
  - reflexivity.
Defined.
