(* ===== verification/Session.v ===== *)
(** One client connection from accept to close ([internal/proxy/session.go]): the
    negotiation before the startup message, routing, the startup message towards
    the backend, and the session's bookkeeping. *)

From stdpp Require Import base list gmap strings pretty.
From Stdlib Require Import ZArith Lia.
From Stdlib Require Import Init.Byte.
From S2P Require Import Prelude GoLib Wire Api Registry Net Cancel Backend Relay.

Local Open Scope go_scope.

(** ** Configuration ([server.go]) *)

Record ServerTLS := MkServerTLS { ServerTLS_Config : option tls_Config; Required : bool }.

(** [Config]; durations are nanoseconds.  The logger, which nothing depends on, is
    left out. *)
Record Config := MkConfig {
  ListenAddress : string;
  cfg_Routes : option Store;
  cfg_TLS : option ServerTLS;
  MaxConnections : Z;
  StartupTimeout : Z;
  DialTimeout : Z;
  ShutdownGracePeriod : Z;
  KeepAlivePeriod : Z
}.

Definition maxNegotiationRounds : nat := 4.

Section Session.
Context `{Network} `{UnicodeTables}.
Variable cfg : Config.

(** [pgwire.ReadStartupPacket(conn)]. *)
Definition read_startup : gw (result error StartupPacket) :=
  with_client (λ c, match ReadStartupPacket (c_in c) with (res, s) => (res, set_in s c) end).

(** [tls.Server(conn, config)] and its handshake; from then on the client
    connection is the TLS connection. *)
Definition accept_tls (tls : ServerTLS) : gw (option error) :=
  with_client (λ c,
    match ServerHandshake (ServerTLS_Config tls) (c_in c) with
    | Ok plain => (None, set_tls plain c)
    | Err err => (Some err, c)
    end).

(** The loop of [negotiate], with the rounds left. *)
Fixpoint negotiate_loop (rounds : nat) (encrypted : bool) : gw (result error StartupPacket) :=
  match rounds with
  | O =>
      mret (Err (Errorf [Lit "client sent more than "; PD (Z.of_nat maxNegotiationRounds);
                         Lit " negotiation packets without a startup message"]))
  | S rounds' =>
      res ← read_startup;
      match res with
      | Err err =>
          if isBenignClose err then mret (Err err)
          else mret (Err (Errorf [Lit "reading startup packet: "; PW err]))
      | Ok packet =>
          if IsSSLRequest packet then
            match cfg_TLS cfg with
            | None =>
                '(_, werr) ← write_client [negotiationRejected];
                match werr with
                | Some err => mret (Err (Errorf [Lit "declining TLS: "; PW err]))
                | None => negotiate_loop rounds' encrypted
                end
            | Some tls =>
                if encrypted then
                  mret (Err (ENew "client sent a second SSLRequest inside an established TLS session"))
                else
                  '(_, werr) ← write_client [negotiationAccepted];
                  match werr with
                  | Some err => mret (Err (Errorf [Lit "accepting TLS: "; PW err]))
                  | None =>
                      herr ← accept_tls tls;
                      match herr with
                      | Some err => mret (Err (Errorf [Lit "client TLS handshake: "; PW err]))
                      | None => negotiate_loop rounds' true
                      end
                  end
            end
          else if IsGSSEncRequest packet then
            '(_, werr) ← write_client [negotiationRejected];
            match werr with
            | Some err => mret (Err (Errorf [Lit "declining GSSAPI encryption: "; PW err]))
            | None => negotiate_loop rounds' encrypted
            end
          else if IsCancelRequest packet then mret (Ok packet)
          else
            match cfg_TLS cfg with
            | Some tls =>
                if Required tls && negb encrypted then
                  _ ← writeFatal SQLStateProtocolViolation
                        "the gateway requires a TLS connection"
                        "Connect with sslmode=require or stronger.";
                  mret (Err (ENew "client declined the required TLS upgrade"))
                else mret (Ok packet)
            | None => mret (Ok packet)
            end
      end
  end.

(** [negotiate]; the connection it returns is the client connection of the
    world. *)
Definition negotiate : gw (result error StartupPacket) :=
  negotiate_loop maxNegotiationRounds false.

(** The database a startup message asks for, and whether it names one. *)
Definition requested_database (startup : StartupPacket) : string * bool :=
  match get_Parameter startup "database" with
  | Some database => (database, true)
  | None =>
      match get_Parameter startup "user" with
      | Some user => (user, true)
      | None => ("", false)
      end
  end.

(** The startup message as the backend gets it. *)
Definition startup_for (route : Route) (database : string) (startup : StartupPacket)
  : StartupPacket :=
  let target := r_TargetDatabase route in
  if negb (bool_decide (target = "")) && negb (bool_decide (target = database))
  then SetParameter startup "database" target
  else startup.

(** [handle] once the backend is connected: what runs under the deferred close of
    the backend. *)
Definition proxy_session (route : Route) (database : string) (startup : StartupPacket)
  : gw (option error) :=
  let label := databaseLabel database true in
  '(_, werr) ← write_backend (Encode (startup_for route database startup));
  match werr with
  | Some err =>
      _ ← emit (EvConnection label outcomeBackendFailed);
      mret (Some (Errorf [Lit "forwarding startup packet to backend: "; PW err]))
  | None =>
      cerr ← deadline_client None;
      match cerr with
      | Some err => mret (Some (Errorf [Lit "clearing handshake deadline: "; PW err]))
      | None =>
          berr ← deadline_backend None;
          match berr with
          | Some err => mret (Some (Errorf [Lit "clearing backend deadline: "; PW err]))
          | None =>
              _ ← emit (EvConnection label outcomeProxied);
              _ ← emit (EvActive label 1);
              err ← relay route label;
              _ ← emit (EvActive label (-1));
              _ ← emit (EvSessionDuration label);
              mret err
          end
      end
  end.

(** [handle] from the startup message on. *)
Definition handle_startup (startup : StartupPacket) : gw (option error) :=
  let '(database, ok) := requested_database startup in
  if negb ok || bool_decide (database = "") then
    _ ← emit (EvConnection unrouted outcomeHandshake);
    _ ← writeFatal SQLStateProtocolViolation
          "startup message carried neither a database nor a user parameter" "";
    mret (Some (ENew "startup message carried neither a database nor a user parameter"))
  else
    match cfg_Routes cfg with
    | None => panic
    | Some store =>
        match Routes store with
        | None => panic
        | Some table =>
            match Lookup table database with
            | None =>
                _ ← emit (EvConnection unrouted outcomeNoRoute);
                _ ← writeFatal SQLStateUndefinedDatabase
                      (Sprintf [Lit "database "; PQ database; Lit " does not exist"])
                      "No PostgresRoute in this cluster claims that database name.";
                mret None
            | Some route =>
                derr ← dialBackend (DialTimeout cfg) route;
                match derr with
                | Some _ =>
                    _ ← emit (EvConnection (databaseLabel database true) outcomeBackendFailed);
                    _ ← writeFatal SQLStateConnectionFailure
                          (Sprintf [Lit "the gateway could not reach the backend for database ";
                                    PQ database])
                          "Check the status of the PostgresRoute and of the backend Service.";
                    mret None
                | None =>
                    err ← proxy_session route database startup;
                    _ ← with_backend (λ c, (tt, Close c));
                    mret err
                end
            end
        end
    end.

(** [handle]. *)
Definition handle : gw (option error) :=
  derr ← deadline_client (Some (StartupTimeout cfg));
  match derr with
  | Some err => mret (Some (Errorf [Lit "setting handshake deadline: "; PW err]))
  | None =>
      res ← negotiate;
      match res with
      | Err err =>
          _ ← (if negb (isBenignClose err)
               then emit (EvConnection unrouted outcomeHandshake) else mret tt);
          mret (Some err)
      | Ok startup =>
          if IsCancelRequest startup then
            _ ← forwardCancel (DialTimeout cfg) (Cancel startup);
            mret None
          else handle_startup startup
      end
  end.

(** ** Slots and the whole connection *)

(** [Server.slots] as capacity and tokens in the channel, [None] for a nil
    channel; and [Server.activeConn]. *)
Record gate := MkGate {
  slots : option (nat * nat);
  activeConn : gset nat
}.

(** [acquireSlot]. *)
Definition acquireSlot (g : gate) : bool * gate :=
  match slots g with
  | None => (true, g)
  | Some (capacity, used) =>
      if (used <? capacity)%nat
      then (true, MkGate (Some (capacity, S used)) (activeConn g))
      else (false, g)
  end.

(** [releaseSlot]; [None] is a receive on an empty channel, which blocks. *)
Definition releaseSlot (g : gate) : option gate :=
  match slots g with
  | None => Some g
  | Some (capacity, S used) => Some (MkGate (Some (capacity, used)) (activeConn g))
  | Some (_, O) => None
  end.

Definition track (conn : nat) (g : gate) : gate := MkGate (slots g) ({[conn]} ∪ activeConn g).
Definition untrack (conn : nat) (g : gate) : gate := MkGate (slots g) (activeConn g ∖ {[conn]}).

(** [serve] of a connection that nothing interleaves with; the deferred calls run
    last in, first out. *)
Definition serve (conn : nat) (g : gate) : gw gate :=
  let g1 := track conn g in
  let '(acquired, g2) := acquireSlot g1 in
  if negb acquired then
    _ ← emit (EvConnection unrouted outcomeRejected);
    _ ← writeFatal SQLStateTooManyConnections
          "too many connections for the PostgreSQL gateway"
          (Sprintf [Lit "The gateway is configured to allow at most "; PD (MaxConnections cfg);
                    Lit " concurrent connections."]);
    _ ← with_client (λ c, (tt, Close c));
    mret (untrack conn g2)
  else
    _ ← handle;
    match releaseSlot g2 with
    | None => panic
    | Some g3 =>
        _ ← with_client (λ c, (tt, Close c));
        mret (untrack conn g3)
    end.
End Session.

(** ** Negotiation *)

Section NegotiateLemmas.
Context `{Network} `{UnicodeTables}.
Variable cfg : Config.

(** Only the client connection was used. *)
Definition client_only (w w' : world) : Prop :=
  w_backend w' = w_backend w ∧ w_cancels w' = w_cancels w ∧ w_rand w' = w_rand w ∧
  w_cut w' = w_cut w ∧ w_trace w' = w_trace w.

(** Whether the gateway insists on TLS. *)
Definition tls_required : bool :=
  match cfg_TLS cfg with Some tls => Required tls | None => false end.

(** What the negotiation may have written: one byte for each round at most, then
    perhaps the refusal of a clear connection. *)
Definition negotiation_output (rounds : nat) (out : list (bool * bytes)) : Prop :=
  ∃ replies last, out = replies ++ last ∧ (length replies <= rounds)%nat ∧
    Forall (λ p, p.2 = [negotiationAccepted] ∨ p.2 = [negotiationRejected] ∨ p.2 = []) replies ∧
    (last = [] ∨ ∃ n, last = [(false, take n (EncodeErrorResponse SQLStateProtocolViolation
                  "the gateway requires a TLS connection"
                  "Connect with sslmode=require or stronger."))]).

Lemma client_only_trans w1 w2 w3 : client_only w1 w2 → client_only w2 w3 → client_only w1 w3.
Proof. unfold client_only. intuition congruence. Qed.

Lemma negotiation_output_nil rounds : negotiation_output rounds [].
Proof. exists [], []. cbn. split_and!; [done|lia|done|by left]. Qed.

Lemma negotiation_output_cons rounds t b n out :
  b = negotiationAccepted ∨ b = negotiationRejected →
  negotiation_output rounds out →
  negotiation_output (S rounds) ((t, take n [b]) :: out).
Proof.
  intros Hb (replies & last & -> & Hlen & Hall & Hlast).
  exists ((t, take n [b]) :: replies), last. cbn. split_and!; [done|lia| |done].
  constructor; [|done]. cbn. destruct n; cbn; [by auto|]. rewrite take_nil. naive_solver.
Qed.

(** What a negotiation that returned a packet guarantees. *)
Definition negotiated (w' : world) (packet : StartupPacket) : Prop :=
  IsSSLRequest packet = false ∧ IsGSSEncRequest packet = false ∧
  (IsCancelRequest packet = true ∨ wf_startup packet) ∧
  (IsCancelRequest packet = false → tls_required = true → c_tls (w_client w') = true) ∧
  ∃ s, ReadStartupPacket s = (Ok packet, c_in (w_client w')).

Lemma negotiated_intro w' packet s :
  ReadStartupPacket s = (Ok packet, c_in (w_client w')) →
  IsSSLRequest packet = false → IsGSSEncRequest packet = false →
  (IsCancelRequest packet = false → tls_required = true → c_tls (w_client w') = true) →
  negotiated w' packet.
Proof.
  intros Hs H1 H2 H3. split_and!; try done; [|by exists s].
  apply startup_shape in Hs as [(Hb & _)|[(Hc & _)|Hwf]]; [|by left|by right].
  by rewrite H1, H2 in Hb.
Qed.

(** One write of the gateway to its client. *)
Lemma write_client_run b w :
  ∃ n werr c', write_client b w = Some ((n, werr),
      World c' (w_backend w) (w_cancels w) (w_rand w) (w_cut w) (w_trace w)) ∧
    c_out c' = c_out (w_client w) ++ [(c_tls (w_client w), take n b)] ∧
    c_in c' = c_in (w_client w) ∧ c_tls c' = c_tls (w_client w) ∧
    (c_limit (w_client w) = None → werr = None ∧ c_limit c' = None ∧ n = length b).
Proof.
  unfold write_client, with_client. destruct (Write (w_client w) b) as [[n werr] c'] eqn:EW.
  exists n, werr, c'. split; [done|].
  pose proof (Write_out _ _ _ _ _ EW) as (Ho & _ & Hi & Ht & _). split_and!; try done.
  intros Hl. unfold Write in EW. rewrite Hl in EW. by injection EW as <- <- <-.
Qed.

(** The outcome of a negotiation that started in [w] with [rounds] rounds left. *)
Definition negotiation (rounds : nat) (w w' : world) (res : result error StartupPacket) : Prop :=
  client_only w w' ∧
  (∃ out, c_out (w_client w') = c_out (w_client w) ++ out ∧ negotiation_output rounds out) ∧
  (∀ packet, res = Ok packet → negotiated w' packet).

Lemma negotiation_quiet rounds w w' res :
  client_only w w' → c_out (w_client w') = c_out (w_client w) →
  (∀ packet, res = Ok packet → negotiated w' packet) → negotiation rounds w w' res.
Proof.
  intros Hc Ho Hres. split_and!; try done. exists []. rewrite Ho, app_nil_r.
  split; [done|apply negotiation_output_nil].
Qed.

Lemma negotiation_reply rounds w w1 w' res t b n :
  b = negotiationAccepted ∨ b = negotiationRejected →
  client_only w w1 → c_out (w_client w1) = c_out (w_client w) ++ [(t, take n [b])] →
  negotiation rounds w1 w' res → negotiation (S rounds) w w' res.
Proof.
  intros Hb Hc Ho (Hc' & (out & Ho' & Hout) & Hres). split_and!; try done.
  - by eapply client_only_trans.
  - exists ((t, take n [b]) :: out). rewrite Ho', Ho, <- app_assoc.
    split; [done|by apply negotiation_output_cons].
Qed.

Lemma negotiation_refused rounds w w' res n :
  client_only w w' → (∀ packet, res ≠ Ok packet) →
  c_out (w_client w') = c_out (w_client w)
    ++ [(false, take n (EncodeErrorResponse SQLStateProtocolViolation
         "the gateway requires a TLS connection" "Connect with sslmode=require or stronger."))] →
  negotiation rounds w w' res.
Proof.
  intros Hc Hres Ho. split_and!; [done| |by intros p ?%Hres].
  eexists. split; [exact Ho|]. eexists [], _. cbn. split_and!; [done|lia|done|]. right. by eexists.
Qed.

Lemma negotiate_loop_run rounds w encrypted :
  encrypted = c_tls (w_client w) →
  ∃ res w', negotiate_loop cfg rounds encrypted w = Some (res, w') ∧ negotiation rounds w w' res.
Proof.
  revert w encrypted.
  induction rounds as [|rounds IH]; intros w encrypted Henc; cbn [negotiate_loop].
  { eexists _, w. split; [done|]. by apply negotiation_quiet. }
  unfold read_startup, with_client. run.
  destruct (ReadStartupPacket (c_in (w_client w))) as [[packet|err] s] eqn:ER; run.
  2: { destruct (isBenignClose err); eexists _, _; (split; [done|]); by apply negotiation_quiet. }
  set (w1 := World (set_in s (w_client w)) _ _ _ _ _).
  destruct (write_client_run [negotiationRejected] w1) as (n & werr & c' & HN & Ho & _ & Ht & _).
  assert (∀ text, ∃ res w', match werr with
             | Some err => mret (Err (Errorf [Lit text; PW err]))
             | None => negotiate_loop cfg rounds encrypted
             end (World c' (w_backend w) (w_cancels w) (w_rand w) (w_cut w) (w_trace w))
             = Some (res, w') ∧ negotiation (S rounds) w w' res) as Hdecline.
  { intros text. set (w2 := World c' _ _ _ _ _).
    destruct werr as [werr|]; [|destruct (IH w2 encrypted) as (res & w' & -> & Hn); [by cbn; rewrite Ht|]];
      eexists _, _; (split; [done|]);
      eapply (negotiation_reply _ _ w2); [by right|done|exact Ho| |by right|done|exact Ho|done].
    by apply negotiation_quiet. }
  destruct (IsSSLRequest packet) eqn:Essl; [destruct (cfg_TLS cfg) as [tls|] eqn:Etls|].
  - destruct encrypted eqn:Eenc.
    { eexists _, _. split; [done|]. by apply negotiation_quiet. }
    destruct (write_client_run [negotiationAccepted] w1) as (m & aerr & a' & -> & Hao & _ & Hat & _).
    set (w2 := World a' _ _ _ _ _). destruct aerr as [aerr|].
    { eexists _, _. split; [done|].
      eapply (negotiation_reply _ _ w2); [by left|done|exact Hao|by apply negotiation_quiet]. }
    unfold accept_tls, with_client. destruct (ServerHandshake _ _) as [plain|herr]; cbn.
    + set (w3 := World (set_tls plain a') _ _ _ _ _).
      destruct (IH w3 true eq_refl) as (res & w' & -> & Hn).
      eexists _, _. split; [done|].
      eapply (negotiation_reply _ _ w3); [by left|done|exact Hao|done].
    + eexists _, _. split; [done|].
      eapply (negotiation_reply _ _ w2); [by left|done|exact Hao|by apply negotiation_quiet].
  - rewrite HN. apply Hdecline.
  - destruct (IsGSSEncRequest packet) eqn:Egss; [rewrite HN; apply Hdecline|].
    assert ((IsCancelRequest packet = false → tls_required = true → encrypted = true) →
            negotiation (S rounds) w w1 (Ok packet)) as Haccept.
    { intros Hreq. apply negotiation_quiet; [done|done|]. intros p [= <-].
      apply (negotiated_intro _ _ (c_in (w_client w))); try done. cbn. by rewrite <- Henc. }
    unfold tls_required in Haccept.
    destruct (IsCancelRequest packet) eqn:Ecan; [eexists _, _; split; [done|]; by apply Haccept|].
    destruct (cfg_TLS cfg) as [tls|] eqn:Etls; [|eexists _, _; split; [done|]; by apply Haccept].
    destruct (Required tls) eqn:Ereq; cbn; [|eexists _, _; split; [done|]; by apply Haccept].
    destruct encrypted eqn:Eenc; cbn; [eexists _, _; split; [done|]; by apply Haccept|].
    unfold writeFatal. run.
    match goal with |- context [write_client ?b w1] =>
      destruct (write_client_run b w1) as (k & ferr & f' & -> & Hfo & _) end.
    eexists _, _. split; [done|]. eapply negotiation_refused; [done|done|].
    cbn in Hfo |- *. by rewrite Hfo, <- Henc.
Qed.

(** C27: negotiation always returns within four rounds.  It touches nothing but the
    client connection, answers each round with at most one byte, and hands on only
    a cancel request or a well-formed startup packet read off that connection; when
    the gateway requires TLS, a startup packet only after the TLS handshake, and a
    client that skipped it gets the refusal in the clear and nothing else. *)
Theorem negotiate_spec w :
  c_tls (w_client w) = false →
  ∃ res w', negotiate cfg w = Some (res, w') ∧ negotiation maxNegotiationRounds w w' res.
Proof. intros Ht. by apply negotiate_loop_run. Qed.

Lemma wf_startup_codes p :
  wf_startup p → IsSSLRequest p = false ∧ IsGSSEncRequest p = false ∧ IsCancelRequest p = false.
Proof.
  intros (_ & H3 & _). unfold IsSSLRequest, IsGSSEncRequest, IsCancelRequest, MajorVersion in *.
  split_and!; apply Z.eqb_neq; intros E; by rewrite E in H3.
Qed.

(** Reading an encoded startup packet, as a handler step. *)
Lemma read_startup_packet p rest e w :
  wf_startup p → Z.of_nat (length (Encode p)) <= MaxStartupPacketLength →
  c_in (w_client w) = Stream (Encode p ++ rest) e →
  read_startup w = Some (Ok p, World (set_in (Stream rest e) (w_client w)) (w_backend w)
                                 (w_cancels w) (w_rand w) (w_cut w) (w_trace w)).
Proof.
  intros Hp Hl Hin. unfold read_startup, with_client. rewrite Hin, Encode_packet_bytes.
  rewrite ReadStartupPacket_complete; [done|done|by right|].
  rewrite Encode_packet_bytes, length_packet_bytes in Hl. done.
Qed.

(** A round that finds a startup packet ends the loop. *)
Lemma negotiate_loop_startup rounds encrypted p rest e w :
  wf_startup p → Z.of_nat (length (Encode p)) <= MaxStartupPacketLength →
  c_in (w_client w) = Stream (Encode p ++ rest) e → (tls_required = true → encrypted = true) →
  negotiate_loop cfg (S rounds) encrypted w
  = Some (Ok p, World (set_in (Stream rest e) (w_client w)) (w_backend w)
                  (w_cancels w) (w_rand w) (w_cut w) (w_trace w)).
Proof.
  intros Hp Hl Hin Hreq. cbn [negotiate_loop]. unfold mbind, gw_bind.
  rewrite (read_startup_packet p rest e) by done.
  destruct (wf_startup_codes p Hp) as (-> & -> & ->). unfold tls_required in Hreq.
  destruct (cfg_TLS cfg) as [tls|]; [|done]. destruct (Required tls); [|done].
  by rewrite Hreq.
Qed.

(** Reading an SSLRequest. *)
Lemma read_ssl_request rest e :
  ReadStartupPacket (Stream (ssl_request ++ rest) e)
  = (Ok (MkStartupPacket SSLRequestCode [] zero_key), Stream rest e).
Proof.
  change ssl_request with (AppendUint32 [] (4 + Z.of_nat (length (AppendUint32 [] SSLRequestCode)))
                           ++ AppendUint32 [] SSLRequestCode).
  rewrite <- app_assoc, ReadStartupPacket_framed by by vm_compute. f_equal.
Qed.

(** The client after one reply byte [b], with the stream [s] to come. *)
Definition replied (b : byte) (s : stream) (c : Conn) : Conn :=
  MkConn s (c_out c ++ [(c_tls c, [b])]) None (c_deadlines c) (c_idle c) (c_tls c) (c_wclosed c) (c_closed c).

Lemma negotiate_loop_declined rounds encrypted rest e w :
  cfg_TLS cfg = None → c_limit (w_client w) = None →
  c_in (w_client w) = Stream (ssl_request ++ rest) e →
  negotiate_loop cfg (S rounds) encrypted w
  = negotiate_loop cfg rounds encrypted
      (World (replied negotiationRejected (Stream rest e) (w_client w)) (w_backend w)
         (w_cancels w) (w_rand w) (w_cut w) (w_trace w)).
Proof.
  intros Htls Hlim Hin. cbn [negotiate_loop].
  unfold mbind, gw_bind, read_startup, write_client, with_client, Write. cbn.
  rewrite Hin, read_ssl_request, Htls. cbn. by rewrite Hlim.
Qed.

Lemma negotiate_loop_encrypted rounds tls hello e s w :
  cfg_TLS cfg = Some tls → c_limit (w_client w) = None →
  c_in (w_client w) = Stream (ssl_request ++ hello) e →
  ServerHandshake (ServerTLS_Config tls) (Stream hello e) = Ok s →
  negotiate_loop cfg (S rounds) false w
  = negotiate_loop cfg rounds true
      (World (set_tls s (replied negotiationAccepted s (w_client w))) (w_backend w)
         (w_cancels w) (w_rand w) (w_cut w) (w_trace w)).
Proof.
  intros Htls Hlim Hin Hs. cbn [negotiate_loop].
  unfold mbind, gw_bind, read_startup, write_client, accept_tls, with_client, Write. cbn.
  rewrite Hin, read_ssl_request, Htls. cbn. rewrite Hlim. cbn. by rewrite Hs.
Qed.

(** The three ways a client gets its startup packet through: straight away where
    TLS is not required, after a declined SSLRequest, and after a TLS handshake. *)
Inductive offer := Plain | Declined | Encrypted.

Definition offers (o : offer) (p : StartupPacket) (rest : bytes) (e : error) (w : world) : Prop :=
  match o with
  | Plain => tls_required = false ∧ c_in (w_client w) = Stream (Encode p ++ rest) e
  | Declined => cfg_TLS cfg = None ∧ c_in (w_client w) = Stream (ssl_request ++ Encode p ++ rest) e
  | Encrypted =>
      ∃ tls hello e', cfg_TLS cfg = Some tls ∧
        c_in (w_client w) = Stream (ssl_request ++ hello) e' ∧
        ServerHandshake (ServerTLS_Config tls) (Stream hello e') = Ok (Stream (Encode p ++ rest) e)
  end.

Definition offer_reply (o : offer) : bytes :=
  match o with
  | Plain => []
  | Declined => [negotiationRejected]
  | Encrypted => [negotiationAccepted]
  end.

Definition is_encrypted (o : offer) : bool :=
  match o with Encrypted => true | _ => false end.

Lemma negotiate_offer o p rest e w :
  c_tls (w_client w) = false → c_limit (w_client w) = None →
  wf_startup p → Z.of_nat (length (Encode p)) <= MaxStartupPacketLength →
  offers o p rest e w →
  ∃ w', negotiate cfg w = Some (Ok p, w') ∧ client_only w w' ∧
    w_client w' = MkConn (Stream rest e)
      (c_out (w_client w) ++ match o with Plain => [] | _ => [(false, offer_reply o)] end)
      None (c_deadlines (w_client w)) (c_idle (w_client w)) (is_encrypted o)
      (c_wclosed (w_client w)) (c_closed (w_client w)).
Proof.
  intros Ht Hlim Hp Hl Ho. unfold negotiate, maxNegotiationRounds.
  destruct o; cbn [offers offer_reply is_encrypted] in *.
  - destruct Ho as [Hreq Hin].
    rewrite (negotiate_loop_startup _ _ p rest e) by (done || by rewrite Hreq).
    eexists. split; [done|]. split; [done|]. cbn. unfold set_in. by rewrite Ht, Hlim, app_nil_r.
  - destruct Ho as [Htls Hin]. rewrite (negotiate_loop_declined _ _ (Encode p ++ rest) e) by done.
    rewrite (negotiate_loop_startup _ _ p rest e)
      by (done || by unfold tls_required; rewrite Htls).
    eexists. split; [done|]. split; [done|]. cbn. unfold set_in. cbn. by rewrite Ht.
  - destruct Ho as (tls & hello & e' & Htls & Hin & Hs).
    rewrite (negotiate_loop_encrypted _ tls hello e' (Stream (Encode p ++ rest) e)) by done.
    rewrite (negotiate_loop_startup _ _ p rest e) by done.
    eexists. split; [done|]. split; [done|]. cbn. unfold set_in. cbn. by rewrite Ht.
Qed.
End NegotiateLemmas.

(** ** A handled connection *)

(** A literal text holds no zero byte. *)
Ltac literal_no_nul := unfold no_nul; apply (bool_decide_unpack _); by vm_compute.

Section HandleLemmas.
Context `{Network} `{UnicodeTables}.
Variable cfg : Config.

(** Nothing but the client's output and the outcome counters changed. *)
Definition answered (w w' : world) : Prop :=
  w_backend w' = w_backend w ∧ w_cancels w' = w_cancels w ∧
  dials (w_trace w') = dials (w_trace w) ∧
  (∀ d, active d (w_trace w') = active d (w_trace w)).

(** What a handler that is done with its backend leaves behind: the backend
    connection, if there was one, closed; the gauge as it was; and other sessions'
    keys in place. *)
Definition settled (w w' : world) : Prop :=
  (∀ c, w_backend w' = Some c → w_backend w = Some c ∨ c_closed c = true) ∧
  (∀ d, active d (w_trace w') = active d (w_trace w)) ∧
  w_cancels w ⊆ w_cancels w'.

Lemma answered_settled w w' : answered w w' → settled w w'.
Proof.
  intros (Hb & Hc & _ & Ha). split_and!; [|done|by rewrite Hc].
  intros c Hw. left. by rewrite <- Hb.
Qed.

Lemma settled_trans w1 w2 w3 : settled w1 w2 → settled w2 w3 → settled w1 w3.
Proof.
  intros (Hb1 & Ha1 & Hc1) (Hb2 & Ha2 & Hc2). split_and!.
  - intros c [Hc|?]%Hb2; [by apply Hb1|by right].
  - intros d. by rewrite Ha2.
  - by etrans.
Qed.

(** A fatal error written to the client. *)
Lemma writeFatal_run s m d w :
  ∃ c' n, writeFatal s m d w
    = Some (tt, World c' (w_backend w) (w_cancels w) (w_rand w) (w_cut w) (w_trace w)) ∧
    c_out c' = c_out (w_client w) ++ [(c_tls (w_client w), take n (EncodeErrorResponse s m d))] ∧
    c_tls c' = c_tls (w_client w) ∧
    (c_limit (w_client w) = None → n = length (EncodeErrorResponse s m d)).
Proof.
  unfold writeFatal. run.
  destruct (write_client_run (EncodeErrorResponse s m d) w) as (n & ferr & c' & -> & Ho & _ & Ht & Hn).
  exists c', n. split_and!; try done. intros Hl. by apply Hn.
Qed.

(** An outcome counted and a client answered. *)
Lemma answered_outcome w c' db outcome :
  answered w (World c' (w_backend w) (w_cancels w) (w_rand w) (w_cut w)
                (w_trace w ++ [EvConnection db outcome])).
Proof.
  split_and!; try done; cbn.
  - by rewrite dials_app, app_nil_r.
  - intros d. rewrite active_app. cbn. lia.
Qed.

Lemma relay_settles route label w b r w' :
  w_backend w = Some b → relay route label w = Some (r, w') →
  (∃ b', w_backend w' = Some b') ∧ sans_bytes (w_trace w') = sans_bytes (w_trace w) ∧
  w_cancels w ⊆ w_cancels w'.
Proof.
  intros Hb (ks & full & out & m & b' & n & _ & _ & _ & Hi & Hc & Hb' & _ & _ & _ & _ & Ht)%(relay_run _ _ _ b);
    [|done].
  split_and!; [by eexists|done|]. rewrite Hc. by apply after_release_spec in Hi as (? & _).
Qed.

Lemma proxy_session_run route database startup w b r w' :
  w_backend w = Some b → proxy_session route database startup w = Some (r, w') →
  (∃ b', w_backend w' = Some b') ∧ dials (w_trace w') = dials (w_trace w) ∧
  (∀ d, active d (w_trace w') = active d (w_trace w)) ∧ w_cancels w ⊆ w_cancels w'.
Proof.
  intros Hb. unfold proxy_session, write_backend, deadline_backend, deadline_client, with_backend, with_client.
  run. rewrite Hb. destruct (Write b _) as [[n [werr|]] b1]; run.
  { intros [= <- <-]. cbn. split_and!; [by eexists|by rewrite dials_app, app_nil_r| |done].
    intros d. rewrite active_app. cbn. lia. }
  destruct (SetDeadline None (w_client w)) as [[cerr|] c1]; run.
  { intros [= <- <-]. cbn. by split_and!; [eexists|..]. }
  destruct (SetDeadline None b1) as [[berr|] b2]; run.
  { intros [= <- <-]. cbn. by split_and!; [eexists|..]. }
  set (w2 := World _ _ _ _ _ _).
  destruct (relay route _ w2) as [[rerr w3]|] eqn:ER; [|done].
  apply (relay_settles _ _ _ b2) in ER as ([b3 Hb3] & Ht & Hsub); [|done].
  run. intros [= <- <-]. cbn. rewrite !dials_app, (same_dials _ _ Ht). cbn.
  split_and!; [by eexists| |..|done].
  - rewrite !dials_app. cbn. by rewrite !app_nil_r.
  - intros d. rewrite !active_app, (same_active d _ _ Ht). cbn. rewrite !active_app. cbn.
    case_bool_decide; lia.
Qed.

Lemma dialBackend_settles timeout route w err w' :
  dialBackend timeout route w = Some (err, w') →
  w_client w' = w_client w ∧ w_cancels w' = w_cancels w ∧ w_rand w' = w_rand w ∧
  w_cut w' = w_cut w ∧
  dials (w_trace w') = dials (w_trace w) ++ [Address route] ∧
  (∀ d, active d (w_trace w') = active d (w_trace w)) ∧
  match err with
  | None => ∃ b, w_backend w' = Some b
  | Some _ => ∀ c, w_backend w' = Some c → w_backend w = Some c ∨ c_closed c = true
  end.
Proof.
  destruct (dialBackend_run timeout route w) as (err' & w1 & -> & Hd & (Hc & Hk & Hr & Hcut) & Ht).
  intros [= <- <-]. unfold dialled in Hd. rewrite Ht. split_and!; try done.
  - rewrite dials_app. by case_match.
  - intros d. rewrite active_app. cbn. case_match; cbn; lia.
  - destruct (Dial (Address route)) as [c0|e].
    + destruct Hd as (c & Hb & Hcl). destruct err'; [|by eexists].
      intros c' Hc'. right. congruence.
    + destruct Hd as [-> Hb]. intros c Hcb. left. congruence.
Qed.

(** Why the handler dials an address for a startup packet. *)
Definition routed_to (startup : StartupPacket) (address : string) : Prop :=
  ∃ database store table route,
    requested_database startup = (database, true) ∧ database ≠ "" ∧
    cfg_Routes cfg = Some store ∧ Routes store = Some table ∧
    Lookup table database = Some route ∧ address = Address route.

Lemma handle_startup_run startup w r w' :
  handle_startup cfg startup w = Some (r, w') →
  settled w w' ∧
  (dials (w_trace w') = dials (w_trace w) ∨
   ∃ address, dials (w_trace w') = dials (w_trace w) ++ [address] ∧ routed_to startup address).
Proof.
  unfold handle_startup. destruct (requested_database startup) as [database ok] eqn:Ereq.
  assert (∀ db oc s m d x, (_ ← emit (EvConnection db oc); _ ← writeFatal s m d; mret x) w = Some (r, w') →
            answered w w') as Hrefuse.
  { intros db oc s m d x. run. 
    match goal with |- context [writeFatal s m d ?v] =>
      destruct (writeFatal_run s m d v) as (c' & n & -> & _) end.
    intros [= <- <-]. apply answered_outcome. }
  destruct (negb ok || bool_decide (database = "")) eqn:Ebad.
  { intros Ha%Hrefuse. split; [by apply answered_settled|left; apply Ha]. }
  apply orb_false_iff in Ebad as [Hok%negb_false_iff Hne%bool_decide_eq_false].
  destruct (cfg_Routes cfg) as [store|] eqn:Est; [|done].
  destruct (Routes store) as [table|] eqn:Etab; [|done].
  destruct (Lookup table database) as [route|] eqn:El.
  2: { intros Ha%Hrefuse. split; [by apply answered_settled|left; apply Ha]. }
  assert (routed_to startup (Address route)) as Hcause.
  { exists database, store, table, route. rewrite Ereq, Hok. done. }
  intros (derr & w1 & Hd & Hrest)%bind_some.
  apply dialBackend_settles in Hd as (Hcl & Hk & _ & _ & Hdl & Hact & Hb).
  destruct derr as [derr|].
  - revert Hrest. run.
    match goal with |- context [writeFatal ?s ?m ?d ?v] =>
      destruct (writeFatal_run s m d v) as (c' & n & -> & _) end.
    intros [= <- <-]. destruct (answered_outcome w1 c' (databaseLabel database true) outcomeBackendFailed)
      as (Hb' & Hk' & Hd' & Ha'). cbn in *. split.
    + split_and!; [done|intros d; by rewrite Ha'|by rewrite Hk].
    + right. exists (Address route). by rewrite Hd', Hdl.
  - destruct Hb as [b Hb].
    apply bind_some in Hrest as (perr & w2 & Hp & Hrest).
    apply (proxy_session_run _ _ _ _ b) in Hp as ([b' Hb'] & Hd2 & Ha2 & Hsub); [|done].
    revert Hrest. unfold with_backend. run. rewrite Hb'. intros [= <- <-]. split.
    + split_and!; cbn [w_backend w_trace w_cancels]; [intros c [= <-]; by right|intros d; by rewrite Ha2|by rewrite <- Hk].
    + right. exists (Address route). cbn [w_trace]. by rewrite Hd2, Hdl.
Qed.

(** Why the handler dials an address at all: it belongs to the session of a key
    the client presented, or to the route of the database the client asked for, and
    then over TLS if the gateway requires it. *)
Definition dial_cause (w w1 : world) (startup : StartupPacket) (address : string) : Prop :=
  if IsCancelRequest startup
  then ∃ entry, lookup_cancel (w_cancels w) (Cancel startup) = Some entry ∧
         address = backendAddr entry
  else routed_to startup address ∧ (tls_required cfg = true → c_tls (w_client w1) = true).

(** A cancellation request after the handshake: nothing but a dial, for a known key. *)
Lemma cancel_settled timeout request w w1 w2 :
  answered w w1 → forwardCancel timeout request w1 = Some (tt, w2) →
  settled w w2 ∧
  (dials (w_trace w2) = dials (w_trace w) ∨
   ∃ entry, lookup_cancel (w_cancels w) request = Some entry ∧
     dials (w_trace w2) = dials (w_trace w) ++ [backendAddr entry]).
Proof.
  intros (Hb & Hk & Hd1 & Hact1) Hf.
  destruct (forwardCancel_run timeout request w1) as (w2' & Hf' & _ & Hk2 & Hcase).
  rewrite Hf' in Hf. injection Hf as ->. rewrite Hk in Hcase.
  destruct (lookup_cancel (w_cancels w) request) as [entry|] eqn:El.
  - destruct Hcase as (outcome & Ht & Hconn).
    split; [split_and!|right; exists entry; by rewrite Ht, dials_app, Hd1].
    + intros c Hc. destruct (Dial _).
      * destruct Hconn as (c' & Hc' & Hcl & _). right. congruence.
      * destruct Hconn as [_ Hc']. left. congruence.
    + intros d. rewrite Ht, active_app, Hact1. cbn. lia.
    + by rewrite Hk2, Hk.
  - destruct Hcase as [Hb2 Ht].
    assert (dials (w_trace w2) = dials (w_trace w)) as Hd by by rewrite Ht, dials_app, Hd1, app_nil_r.
    split; [apply answered_settled; split_and!|by left]; [congruence|congruence|done|].
    intros d. rewrite Ht, active_app, Hact1. cbn. lia.
Qed.

Lemma handle_run w r w' :
  c_tls (w_client w) = false → handle cfg w = Some (r, w') →
  settled w w' ∧
  (dials (w_trace w') = dials (w_trace w) ∨
   ∃ w0 w1 startup address,
     deadline_client (Some (StartupTimeout cfg)) w = Some (None, w0) ∧ negotiate cfg w0 = Some (Ok startup, w1) ∧
     dials (w_trace w') = dials (w_trace w) ++ [address] ∧ dial_cause w w1 startup address).
Proof.
  intros Htls. unfold handle. intros (derr & w0 & Hd & Hrest)%bind_some.
  assert (answered w w0 ∧ c_tls (w_client w0) = false) as [Ha0 Htls0].
  { revert Hd. unfold deadline_client, with_client. destruct (SetDeadline _ _) as [o c] eqn:ED.
    apply SetDeadline_out in ED as (_ & Ht & _). intros [= <- <-]. split; [done|]. cbn. congruence. }
  destruct derr as [derr|].
  { injection Hrest as <- <-. split; [by apply answered_settled|left; apply Ha0]. }
  apply bind_some in Hrest as (res & w1 & Hn & Hrest).
  destruct (negotiate_loop_run cfg maxNegotiationRounds w0 false) as (res' & w1' & Hn' & Hneg);
    [by rewrite Htls0|].
  unfold negotiate in Hn. rewrite Hn' in Hn. injection Hn as -> ->.
  destruct Hneg as ((Hb1 & Hk1 & _ & _ & Ht1) & _ & Hpkt).
  assert (answered w w1) as Ha1.
  { destruct Ha0 as (? & ? & ? & ?). unfold answered. rewrite Hb1, Hk1, Ht1. done. }
  destruct res as [startup|err].
  - destruct (Hpkt _ eq_refl) as (_ & _ & _ & Hreq & _). unfold dial_cause.
    destruct (IsCancelRequest startup) eqn:Ec.
    + apply bind_some in Hrest as ([] & w2 & Hf & [= <- <-]).
      destruct (cancel_settled _ _ _ _ _ Ha1 Hf) as [Hset [?|(entry & Hl & Hdl)]]; (split; [done|]); [by left|].
      right. exists w0, w1, startup, (backendAddr entry). rewrite Ec. split_and!; eauto.
    + apply handle_startup_run in Hrest as [Hset Hdl]. split.
      * eapply settled_trans; [by apply answered_settled|done].
      * destruct Ha1 as (_ & _ & Hd1 & _). rewrite Hd1 in Hdl.
        destruct Hdl as [?|(address & Hdl & Hr)]; [by left|right].
        exists w0, w1, startup, address. rewrite Ec. split_and!; try done. by apply Hreq.
  - assert (answered w1 w') as Ha2.
    { revert Hrest. destruct (isBenignClose err); run; intros [= <- <-];
        [by split_and!|apply answered_outcome]. }
    split; [eapply settled_trans; by apply answered_settled|left].
    destruct Ha1 as (_ & _ & Hd1 & _), Ha2 as (_ & _ & Hd2 & _). by rewrite Hd2, Hd1.
Qed.

(** C18: the gateway opens at most one connection for a client, and only for a
    reason: to the address recorded for a cancellation key the client presented, or
    to the address of the route that serves the very database its startup message
    asks for, and where TLS is required only for a client that negotiated it. *)
Theorem handle_dials w r w' :
  c_tls (w_client w) = false → handle cfg w = Some (r, w') →
  dials (w_trace w') = dials (w_trace w) ∨
  ∃ w0 w1 startup address,
    deadline_client (Some (StartupTimeout cfg)) w = Some (None, w0) ∧ negotiate cfg w0 = Some (Ok startup, w1) ∧
    dials (w_trace w') = dials (w_trace w) ++ [address] ∧ dial_cause w w1 startup address.
Proof. intros Ht Hh. by apply handle_run in Hh as [_ ?]. Qed.

(** C26: however a connection ends, its backend connection is closed, the active
    connection gauge is back where it was, and no other session's cancellation key
    is gone. *)
Theorem handle_cleanup w r w' :
  c_tls (w_client w) = false → w_backend w = None → handle cfg w = Some (r, w') →
  (∀ c, w_backend w' = Some c → c_closed c = true) ∧
  (∀ d, active d (w_trace w') = active d (w_trace w)) ∧
  w_cancels w ⊆ w_cancels w'.
Proof.
  intros Ht Hb [(Hcl & Hact & Hsub) _]%handle_run; [|done]. split_and!; try done.
  intros c [?|?]%Hcl; [congruence|done].
Qed.

(** *** A session that goes well *)

(** The backend behind the fresh connection [c0] is willing: it accepts all writes,
    and once secured as the route asks it sends [data] and then hangs up with
    [e]. *)
Definition backend_ready (route : Route) (c0 : Conn) (data : bytes) (e : error) : Prop :=
  c_limit c0 = None ∧ c_deadlines c0 = [] ∧
  if Enabled (r_TLS route) then
    ∃ hello e1 certs, c_in c0 = Stream (negotiationAccepted :: hello) e1 ∧
      ClientHandshake (backend_tls_config route) (Stream hello e1) = Ok (Stream data e, certs) ∧
      (Mode (r_TLS route) = BackendTLSVerifyCA → verifyChainOnly certs (RootCAs (r_TLS route)) = None)
  else c_in c0 = Stream data e.

(** What the upgrade adds to the backend's output. *)
Definition upgrade_output (route : Route) (c0 : Conn) : list (bool * bytes) :=
  if Enabled (r_TLS route) then [(c_tls c0, ssl_request)] else [].

Lemma upgrade_ready route c0 data e :
  Enabled (r_TLS route) = true → backend_ready route c0 data e →
  upgradeBackendTLS c0 route
  = (None, MkConn (Stream data e) (c_out c0 ++ [(c_tls c0, ssl_request)]) None [] (c_idle c0) true
             (c_wclosed c0) (c_closed c0)).
Proof.
  intros He (Hlim & Hdl & Hready). rewrite He in Hready.
  destruct Hready as (hello & e1 & certs & Hin & Hhs & Hchain).
  unfold upgradeBackendTLS, Write. rewrite Hlim. cbn [c_in]. rewrite Hin.
  change (negotiationAccepted :: hello) with ([negotiationAccepted] ++ hello).
  rewrite ReadFull_app by done. rewrite bool_decide_eq_true_2 by done. cbn. rewrite Hhs, Hdl. unfold set_tls. cbn.
  case_bool_decide as Hm; [|done]. by rewrite Hchain.
Qed.

Lemma dial_ready timeout route c0 data e w :
  Dial (Address route) = Ok c0 → backend_ready route c0 data e →
  ∃ b w', dialBackend timeout route w = Some (None, w') ∧ same_but_backend w w' ∧
    w_backend w' = Some b ∧ c_in b = Stream data e ∧ c_limit b = None ∧ c_deadlines b = [] ∧
    c_out b = c_out c0 ++ upgrade_output route c0.
Proof.
  intros Hdial Hr. pose proof Hr as (Hlim & Hdl & Hready).
  unfold dialBackend, deadline_backend, upgrade_output, same_but_backend. run. rewrite Hdial.
  run. unfold SetDeadline. rewrite Hdl. run.
  destruct (Enabled (r_TLS route)) eqn:He; cbn.
  - rewrite (upgrade_ready route c0 data e He Hr). run. by eexists _, _.
  - eexists _, _. split; [done|]. by rewrite app_nil_r.
Qed.

(** [handle] once negotiation has delivered the startup packet. *)
Lemma proxy_ready route database p w b ms z tail e :
  w_backend w = Some b → c_in b = Stream (session_data ms z tail) e →
  c_limit b = None → c_deadlines b = [] →
  c_limit (w_client w) = None → c_deadlines (w_client w) = [] →
  Forall relayable ms → ready z → isBenignClose e = true →
  isBenignClose (st_err (upstream_source (w_cut w) (c_in (w_client w)))) = true →
  enough_draws w (length (session_data ms z tail)) →
  ∃ ks out w' b', proxy_session route database p w = Some (None, w') ∧
    client_sees false (session_data ms z tail) ks out ∧
    written (w_client w') = written (w_client w) ++ out ∧
    w_backend w' = Some b' ∧
    written b' = written b ++ Encode (startup_for route database p)
                 ++ st_data (upstream_source (w_cut w) (c_in (w_client w))) ∧
    (key_messages ms ≤ 1 → w_cancels w' = w_cancels w)%nat.
Proof.
  intros Hb Hin Hbl Hbd Hcl Hcd Hms Hz He Hup Hdraws.
  unfold proxy_session, write_backend, deadline_client, deadline_backend, with_backend, with_client.
  run. rewrite Hb. unfold Write. rewrite Hbl. run.
  unfold SetDeadline. rewrite Hcd. run. rewrite Hbd. run.
  set (b1 := MkConn _ _ _ _ _ _ _ _).
  match goal with |- context [relay route _ ?v] => set (w1 := v) end.
  destruct (relay_complete_run route database w1 b1 ms z tail e)
    as (ks & out & m & w2 & Hrun & Hs & Hw & _ & _ & _ & Hone); try done.
  pose proof (relay_run _ _ w1 b1 _ _ eq_refl Hrun)
    as (_ & _ & _ & _ & b2 & n & _ & _ & _ & _ & _ & Hb2 & Hw2 & Hn & _).
  rewrite Hrun. run. eexists ks, out, _, b2. split; [done|]. cbn [w_client w_backend w_cancels].
  split_and!; try done.
  rewrite Hw2, (Hn eq_refl), firstn_all. unfold written at 1. cbn [b1 c_out].
  rewrite map_app, concat_app. cbn. by rewrite app_nil_r, <- app_assoc.
Qed.

Lemma deadline_client_ok timeout w :
  c_deadlines (w_client w) = [] → deadline_client timeout w = Some (None, w).
Proof. intros Hd. unfold deadline_client, with_client, SetDeadline. rewrite Hd. by destruct w. Qed.

(** The database a backend is asked for: the route's own, or the client's. *)
Definition backend_database (route : Route) (database : string) : string :=
  if bool_decide (r_TargetDatabase route = "") then database else r_TargetDatabase route.

(** [p'] is [p], asking for the database [target]. *)
Definition asks_for (target : string) (p p' : StartupPacket) : Prop :=
  requested_database p' = (target, true) ∧ Code p' = Code p ∧
  (∀ k, k ≠ "database" → get_Parameter p' k = get_Parameter p k) ∧
  (requested_database p = (target, true) → p' = p).

Lemma startup_for_asks route database p :
  requested_database p = (database, true) →
  asks_for (backend_database route database) p (startup_for route database p).
Proof.
  intros Hreq. unfold asks_for, backend_database, startup_for.
  case_bool_decide as Ht; cbn [negb andb]; [done|].
  case_bool_decide as Hd; cbn [negb andb]; [by rewrite Hd|].
  split_and!; [| |intros k Hk|intros Hr; congruence]; cbn [Code SetParameter]; try done.
  - unfold requested_database, get_Parameter, SetParameter. cbn [Parameters].
    by rewrite find_set_parameter, bool_decide_eq_true_2.
  - unfold get_Parameter, SetParameter. cbn [Parameters].
    by rewrite find_set_parameter, bool_decide_eq_false_2.
Qed.

(** A client in the clear, whose connection has no limit, that makes the offer [o] and
    sends a startup packet asking for [database], followed by [rest]. *)
Definition asking (o : offer) (p : StartupPacket) (rest : bytes) (e : error) (w : world)
  (database : string) : Prop :=
  c_tls (w_client w) = false ∧ c_limit (w_client w) = None ∧ c_deadlines (w_client w) = [] ∧
  wf_startup p ∧ Z.of_nat (length (Encode p)) <= MaxStartupPacketLength ∧
  offers cfg o p rest e w ∧ requested_database p = (database, true) ∧ database ≠ "".

(** A backend that can be dialled, does the route's TLS upgrade, and sends a startup
    and [tail], and then ends the connection in an orderly way. *)
Definition willing (route : Route) (c0 : Conn) (ms : list Message) (z : Message) (tail : bytes)
  (be : error) : Prop :=
  Dial (Address route) = Ok c0 ∧ backend_ready route c0 (session_data ms z tail) be ∧
  Forall relayable ms ∧ ready z ∧ isBenignClose be = true.

(** The client ends its side in an orderly way, and there is randomness for a key. *)
Definition orderly (rest : bytes) (e : error) (w : world) (ms : list Message) (z : Message)
  (tail : bytes) : Prop :=
  isBenignClose (st_err (upstream_source (w_cut w) (Stream rest e))) = true ∧
  enough_draws w (length (session_data ms z tail)).

(** The session such a client and such a backend get. *)
Definition session_of (o : offer) (p : StartupPacket) (rest : bytes) (e : error) (w : world)
  (database : string) (route : Route) (c0 : Conn) (ms : list Message) (z : Message) (tail : bytes)
  : Prop :=
  ∃ ks out w' b p', handle cfg w = Some (None, w') ∧
    dials (w_trace w') = dials (w_trace w) ++ [Address route] ∧
    w_backend w' = Some b ∧ c_closed b = true ∧
    written b = written c0 ++ concat (map snd (upgrade_output route c0))
                ++ Encode p'
                ++ st_data (upstream_source (w_cut w) (Stream rest e)) ∧
    asks_for (backend_database route database) p p' ∧
    client_sees false (session_data ms z tail) ks out ∧
    written (w_client w') = written (w_client w) ++ offer_reply o ++ out ∧
    (key_messages ms ≤ 1 → w_cancels w' = w_cancels w)%nat.

Lemma session_run o p rest e w database store table route c0 ms z tail be :
  asking o p rest e w database →
  cfg_Routes cfg = Some store → Routes store = Some table → Lookup table database = Some route →
  willing route c0 ms z tail be → orderly rest e w ms z tail →
  session_of o p rest e w database route c0 ms z tail.
Proof.
  intros (Ht & Hlim & Hdl & Hp & Hlen & Ho & Hreq & Hne) Hst Htab Hlk
    (Hdial & Hready & Hms & Hz & Hbe) [Hup Hdraws]. unfold session_of.
  unfold handle, mbind, gw_bind. rewrite deadline_client_ok by done. cbn beta iota.
  destruct (negotiate_offer cfg o p rest e w) as (w1 & -> & (Hb1 & Hk1 & Hr1 & Hc1 & Ht1) & Hcl1);
    try done.
  destruct (wf_startup_codes p Hp) as (_ & _ & ->).
  unfold handle_startup. rewrite Hreq, bool_decide_eq_false_2, Hst, Htab, Hlk by done. run.
  destruct (dial_ready (DialTimeout cfg) route c0 _ _ w1 Hdial Hready)
    as (b & w2 & Hdrun & (Hcl2 & Hk2 & Hr2 & Hc2) & Hb2 & Hbin & Hblim & Hbdl & Hbout).
  pose proof (dialBackend_settles _ _ _ _ _ Hdrun) as (_ & _ & _ & _ & Hdl2 & _ & _).
  rewrite Hdrun.
  destruct (proxy_ready route database p w2 b ms z tail be) as (ks & out & w3 & b3 & Hprun & Hs & Hw & Hb3 & Hwb & Hone);
    try done; rewrite ?Hcl2, ?Hcl1; try done.
  { cbn. by rewrite Hc2, Hc1. }
  { destruct Hdraws as [Hd Hf]. unfold enough_draws. by rewrite Hr2, Hr1, Hk2, Hk1. }
  pose proof (proxy_session_run _ _ _ _ b _ _ Hb2 Hprun) as (_ & Hd3 & _).
  rewrite Hprun. unfold with_backend. run. rewrite Hb3.
  eexists ks, out, _, (Close b3), _. split; [done|]. cbn [w_trace w_backend w_client w_cancels].
  rewrite Hd3, Hdl2, Ht1. rewrite Hcl2, Hcl1, Hc2, Hc1 in *.
  split_and!; try done; [|by apply startup_for_asks| |].
  - change (written (Close b3)) with (written b3). rewrite Hwb. unfold written at 1. rewrite Hbout.
    rewrite map_app, concat_app. by rewrite <- app_assoc.
  - rewrite Hw. unfold written at 1. cbn [c_out w_client]. rewrite map_app, concat_app.
    rewrite <- app_assoc. by destruct o.
  - intros Hk. by rewrite Hone, Hk2, Hk1.
Qed.

(** C1: the gateway does its job.  A client that offers a startup packet for a
    served database (in the clear, after a declined SSLRequest or over TLS), with a
    willing backend, gets a session: only the route's address is dialled; what that
    backend receives is, after the route's own TLS upgrade, exactly the client's
    startup packet, asking for the route's database where it names one and changed in
    nothing else, followed by the client's bytes; the client receives the backend's bytes with
    fresh keys for the backend's; and at the end the backend is closed and the table
    of keys is as before. *)
Theorem session_end_to_end o p rest e w database store table route c0 ms z tail be :
  c_tls (w_client w) = false → c_limit (w_client w) = None → c_deadlines (w_client w) = [] →
  wf_startup p → Z.of_nat (length (Encode p)) <= MaxStartupPacketLength →
  offers cfg o p rest e w →
  requested_database p = (database, true) → database ≠ "" →
  cfg_Routes cfg = Some store → Routes store = Some table → Lookup table database = Some route →
  Dial (Address route) = Ok c0 → backend_ready route c0 (session_data ms z tail) be →
  Forall relayable ms → ready z → isBenignClose be = true →
  isBenignClose (st_err (upstream_source (w_cut w) (Stream rest e))) = true →
  enough_draws w (length (session_data ms z tail)) →
  ∃ ks out w' b p', handle cfg w = Some (None, w') ∧
    dials (w_trace w') = dials (w_trace w) ++ [Address route] ∧
    w_backend w' = Some b ∧ c_closed b = true ∧
    written b = written c0 ++ concat (map snd (upgrade_output route c0))
                ++ Encode p'
                ++ st_data (upstream_source (w_cut w) (Stream rest e)) ∧
    asks_for (backend_database route database) p p' ∧
    client_sees false (session_data ms z tail) ks out ∧
    written (w_client w') = written (w_client w) ++ offer_reply o ++ out ∧
    (key_messages ms ≤ 1 → w_cancels w' = w_cancels w)%nat.
Proof. intros. by eapply session_run; [split_and!|..|split_and!|split]. Qed.

(** The text of the answer to a request for a database nobody serves. *)
Definition no_such_database (database : string) : string :=
  Sprintf [Lit "database "; PQ database; Lit " does not exist"].
Definition no_route_detail : string :=
  "No PostgresRoute in this cluster claims that database name.".

Lemma no_such_database_no_nul database : no_nul (bytes_of (no_such_database database)).
Proof.
  unfold no_such_database, Sprintf, concat_strings. cbn [map foldr render_piece].
  rewrite !bytes_of_app, !no_nul_app. split_and!; try apply Quote_no_nul; literal_no_nul.
Qed.

(** The refusal of a request for a database that is not served. *)
Definition refusal_of (o : offer) (w : world) (database : string) : Prop :=
  ∃ w' body, handle cfg w = Some (None, w') ∧ answered w w' ∧
    w_trace w' = w_trace w ++ [EvConnection unrouted outcomeNoRoute] ∧
    written (w_client w') = written (w_client w) ++ offer_reply o
                            ++ Message_Encode (MkMessage MsgErrorResponse body) ∧
    decode_fields (length body) body
    = Some (error_fields SQLStateUndefinedDatabase (no_such_database database) no_route_detail).

Lemma refusal_run o p rest e w database store table :
  asking o p rest e w database →
  cfg_Routes cfg = Some store → Routes store = Some table → Lookup table database = None →
  refusal_of o w database.
Proof.
  intros (Ht & Hlim & Hdl & Hp & Hlen & Ho & Hreq & Hne) Hst Htab Hlk. unfold refusal_of.
  unfold handle, mbind, gw_bind. rewrite deadline_client_ok by done. cbn beta iota.
  destruct (negotiate_offer cfg o p rest e w) as (w1 & -> & (Hb1 & Hk1 & Hr1 & Hc1 & Ht1) & Hcl1);
    try done.
  destruct (wf_startup_codes p Hp) as (_ & _ & ->).
  unfold handle_startup. rewrite Hreq, bool_decide_eq_false_2, Hst, Htab, Hlk by done.
  fold (no_such_database database). unfold mbind, gw_bind, emit. cbn [negb orb].
  match goal with |- context [writeFatal ?s ?m ?d ?v] =>
    destruct (writeFatal_run s m d v) as (c' & n & -> & Hco & _ & Hn) end.
  destruct (EncodeErrorResponse_message SQLStateUndefinedDatabase (no_such_database database)
              no_route_detail) as (body & Hmsg & Hdec);
    [literal_no_nul|apply no_such_database_no_nul|literal_no_nul|].
  eexists _, body. split; [done|]. cbn [w_client w_trace c_out c_limit c_tls] in *.
  rewrite Hcl1 in *. cbn [c_out c_limit c_tls] in *. split; [|split; [by rewrite Ht1|split; [|done]]].
  - unfold answered. cbn [w_backend w_cancels w_trace]. rewrite Hb1, Hk1, Ht1.
    apply (answered_outcome w c').
  - unfold written. rewrite Hco, (Hn eq_refl), firstn_all. fold no_route_detail. rewrite Hmsg.
    rewrite !map_app, !concat_app. cbn. rewrite app_nil_r, <- app_assoc. by destruct o.
Qed.

(** A client that asks for a database no route serves is told so in the way
    PostgreSQL does: one ErrorResponse with SQLSTATE 3D000 that every client can
    decode, whatever bytes the name holds; nobody is dialled, and the connection does
    not count as failed. *)
Theorem unknown_database_refused o p rest e w database store table :
  c_tls (w_client w) = false → c_limit (w_client w) = None → c_deadlines (w_client w) = [] →
  wf_startup p → Z.of_nat (length (Encode p)) <= MaxStartupPacketLength →
  offers cfg o p rest e w →
  requested_database p = (database, true) → database ≠ "" →
  cfg_Routes cfg = Some store → Routes store = Some table → Lookup table database = None →
  ∃ w' body, handle cfg w = Some (None, w') ∧ answered w w' ∧
    w_trace w' = w_trace w ++ [EvConnection unrouted outcomeNoRoute] ∧
    written (w_client w') = written (w_client w) ++ offer_reply o
                            ++ Message_Encode (MkMessage MsgErrorResponse body) ∧
    decode_fields (length body) body
    = Some (error_fields SQLStateUndefinedDatabase (no_such_database database) no_route_detail).
Proof. intros. by eapply refusal_run; [split_and!|..]. Qed.

(** *** The gate *)

(** No more tokens than the channel holds. *)
Definition gate_ok (g : gate) : Prop :=
  match slots g with None => True | Some (capacity, used) => (used ≤ capacity)%nat end.

(** Every slot is taken. *)
Definition gate_full (g : gate) : bool :=
  match slots g with None => false | Some (capacity, used) => (capacity <=? used)%nat end.

Lemma track_untrack conn g : conn ∉ activeConn g → untrack conn (track conn g) = g.
Proof.
  intros Hni. destruct g as [sl ac]. unfold untrack, track. cbn in *. f_equal. set_solver.
Qed.

Lemma acquire_release g g' :
  acquireSlot g = (true, g') → releaseSlot g' = Some g ∧ activeConn g' = activeConn g ∧ gate_full g = false.
Proof.
  unfold acquireSlot, releaseSlot, gate_full. destruct g as [[[cap used]|] ac]; cbn [slots activeConn].
  - destruct (used <? cap)%nat eqn:E; [|done]. intros [= <-]. split_and!; try done.
    apply Nat.leb_gt. by apply Nat.ltb_lt in E.
  - by intros [= <-].
Qed.

Lemma acquire_refused g g' : acquireSlot g = (false, g') → g' = g ∧ gate_full g = true.
Proof.
  unfold acquireSlot, gate_full. destruct g as [[[cap used]|] ac]; cbn [slots activeConn]; [|done].
  destruct (used <? cap)%nat eqn:E; [done|]. intros [= <-]. split; [done|].
  apply Nat.leb_le. by apply Nat.ltb_ge in E.
Qed.

(** The refusal of a connection over the limit. *)
Definition too_many_response : bytes :=
  EncodeErrorResponse SQLStateTooManyConnections "too many connections for the PostgreSQL gateway"
    (Sprintf [Lit "The gateway is configured to allow at most "; PD (MaxConnections cfg);
              Lit " concurrent connections."]).

(** C33: [serve] gives back everything it takes: when it returns, the slot and the
    entry in the connection set are free again and the client is closed.  Over the
    connection limit the client is told so and nobody is dialled; below it the
    connection is handled. *)
Theorem serve_spec conn g w g' w' :
  conn ∉ activeConn g → serve cfg conn g w = Some (g', w') →
  g' = g ∧ c_closed (w_client w') = true ∧
  if gate_full g then
    w_trace w' = w_trace w ++ [EvConnection unrouted outcomeRejected] ∧
    w_backend w' = w_backend w ∧
    ∃ n, c_out (w_client w') = c_out (w_client w) ++ [(c_tls (w_client w), take n too_many_response)]
  else ∃ r w1, handle cfg w = Some (r, w1) ∧
         w' = World (Close (w_client w1)) (w_backend w1) (w_cancels w1) (w_rand w1) (w_cut w1) (w_trace w1).
Proof.
  intros Hni. unfold serve. change (gate_full g) with (gate_full (track conn g)).
  destruct (acquireSlot (track conn g)) as [[] g2] eqn:EA; cbn [negb].
  - apply acquire_release in EA as (Hrel & Hac & ->). unfold mbind, gw_bind.
    destruct (handle cfg w) as [[r w1]|]; [|done]. rewrite Hrel. cbn.
    intros [= <- <-]. split_and!; [by apply track_untrack|done|by eauto].
  - apply acquire_refused in EA as [-> ->]. unfold mbind, gw_bind, emit.
    match goal with |- context [writeFatal ?s ?m ?d ?v] =>
      destruct (writeFatal_run s m d v) as (c' & n & -> & Hco & _) end.
    cbn. intros [= <- <-]. split_and!; [by apply track_untrack|done..|]. by exists n.
Qed.

(** A complete version 3 startup packet with a malformed parameter list ends
    the connection like a peer that merely hung up: its error wraps
    [io.ErrUnexpectedEOF], so the failed handshake is not counted and the client
    gets no answer. *)
Theorem malformed_startup_uncounted code payload rest e w err :
  is_i32 code → Z.shiftr code 16 = 3 → parseParameters payload = Err err →
  8 + Z.of_nat (length payload) <= MaxStartupPacketLength →
  c_deadlines (w_client w) = [] →
  c_in (w_client w) = Stream (AppendUint32 [] (8 + Z.of_nat (length payload))
                              ++ AppendUint32 [] code ++ payload ++ rest) e →
  ∃ w', handle cfg w = Some (Some err, w') ∧ isBenignClose err = true ∧
    w_trace w' = w_trace w ∧ c_out (w_client w') = c_out (w_client w) ∧
    st_data (c_in (w_client w')) = rest.
Proof.
  intros Hc H3 Hp Hl Hdl Hin.
  assert (isBenignClose err = true) as Hbenign.
  { unfold parseParameters in Hp. apply parse_fuel_enough in Hp; [|done].
    unfold isBenignClose. rewrite Hp. by rewrite !orb_true_r. }
  unfold handle, mbind, gw_bind. rewrite deadline_client_ok by done. cbn beta iota.
  unfold negotiate, maxNegotiationRounds.
  set (r := 3%nat). change (negotiate_loop cfg 4 false) with (negotiate_loop cfg (S r) false).
  clearbody r. cbn [negotiate_loop].
  unfold mbind, gw_bind, read_startup, with_client. rewrite Hin, (app_assoc (AppendUint32 [] code)).
  replace (8 + _) with (4 + Z.of_nat (length (AppendUint32 [] code ++ payload)))
    by (rewrite length_app, length_AppendUint32; lia).
  rewrite ReadStartupPacket_framed by (rewrite length_app, length_AppendUint32;
    unfold minStartupPacketLength; lia).
  rewrite decode_body_startup, Hp by done. cbn beta iota. rewrite Hbenign. cbn.
  rewrite Hbenign. eexists. split; [done|]. done.
Qed.
End HandleLemmas.

(** ** A sample gateway *)

(** Every backend sends a complete startup, and then a byte. *)
#[local] Instance sample_backends : Network := {|
  Dial := λ _, Ok (sample_conn (session_data startup_messages ready_idle [x44]));
  ServerHandshake := λ _ s, Ok s;
  ClientHandshake := λ _ s, Err (ENew "no TLS here");
  VerifyChain := λ _ _ _, None
|}.

#[local] Instance ascii_tables : UnicodeTables := λ r, (32 <=? r) && (r <=? 126).

Definition sample_store (m : gmap string Route) : Store :=
  MkStore (MkSnapshot (Some (MkTable m)) ∅).
Definition sample_config (m : gmap string Route) : Config :=
  MkConfig ":5432" (Some (sample_store m)) None 1 30 5 30 30.

(** A client that asks for TLS, is declined, and goes on in the clear. *)
Definition sample_client : world :=
  World (sample_conn (ssl_request ++ Encode sample_startup ++ [x51])) None ∅ sample_draws None [].

Lemma negotiate_spec_witness :
  ∃ res w', negotiate (sample_config ∅) sample_client = Some (res, w') ∧
    negotiation (sample_config ∅) maxNegotiationRounds sample_client w' res.
Proof. apply negotiate_spec. reflexivity. Defined.

Lemma handle_dials_witness :
  ∃ r w', handle (sample_config {["billing" := sample_route]}) sample_client = Some (r, w') ∧
  (dials (w_trace w') = [] ∨
   ∃ w0 w1 startup address,
     deadline_client (Some 30) sample_client = Some (None, w0) ∧
     negotiate (sample_config {["billing" := sample_route]}) w0 = Some (Ok startup, w1) ∧
     dials (w_trace w') = [] ++ [address] ∧
     dial_cause (sample_config {["billing" := sample_route]}) sample_client w1 startup address).
Proof.
  destruct (handle (sample_config {["billing" := sample_route]}) sample_client) as [[r w']|] eqn:E;
    [|by vm_compute in E].
  exists r, w'. split; [done|].
  exact (handle_dials (sample_config {["billing" := sample_route]}) sample_client r w' eq_refl E).
Defined.

Lemma handle_cleanup_witness :
  ∃ r w', handle (sample_config {["billing" := sample_route]}) sample_client = Some (r, w') ∧
  (∀ c, w_backend w' = Some c → c_closed c = true) ∧
  (∀ d, active d (w_trace w') = 0) ∧ ∅ ⊆ w_cancels w'.
Proof.
  destruct (handle (sample_config {["billing" := sample_route]}) sample_client) as [[r w']|] eqn:E;
    [|by vm_compute in E].
  exists r, w'. split; [done|].
  exact (handle_cleanup (sample_config {["billing" := sample_route]}) sample_client r w'
           eq_refl eq_refl E).
Defined.

Lemma session_end_to_end_witness :
  ∃ ks out w' b p', handle (sample_config {["billing" := sample_route]}) sample_client = Some (None, w') ∧
    dials (w_trace w') = [] ++ ["pg:5432"] ∧ w_backend w' = Some b ∧ c_closed b = true ∧
    written b = [] ++ [] ++ Encode p' ++ [x51] ∧
    asks_for "billing" sample_startup p' ∧
    client_sees false (session_data startup_messages ready_idle [x44]) ks out ∧
    written (w_client w') = [] ++ [negotiationRejected] ++ out ∧
    (key_messages startup_messages ≤ 1 → w_cancels w' = ∅)%nat.
Proof.
  apply (session_end_to_end (sample_config {["billing" := sample_route]}) Declined sample_startup
           [x51] (ESentinel io_EOF) sample_client "billing" (sample_store {["billing" := sample_route]})
           (MkTable {["billing" := sample_route]}) sample_route
           (sample_conn (session_data startup_messages ready_idle [x44]))
           startup_messages ready_idle [x44] (ESentinel io_EOF)); try reflexivity.
  - exact wf_sample_startup.
  - by vm_compute.
  - by split.
  - done.
  - by split_and!.
  - repeat constructor; by vm_compute.
  - by split.
  - split; [apply sample_draws_distinct|]. vm_compute. lia.
Defined.

Lemma unknown_database_refused_witness :
  ∃ w' body, handle (sample_config ∅) sample_client = Some (None, w') ∧ answered sample_client w' ∧
    w_trace w' = [] ++ [EvConnection unrouted outcomeNoRoute] ∧
    written (w_client w') = [] ++ [negotiationRejected]
                            ++ Message_Encode (MkMessage MsgErrorResponse body) ∧
    decode_fields (length body) body
    = Some (error_fields SQLStateUndefinedDatabase (no_such_database "billing") no_route_detail).
Proof.
  apply (unknown_database_refused (sample_config ∅) Declined sample_startup [x51] (ESentinel io_EOF)
           sample_client "billing" (sample_store ∅) (MkTable ∅)); try reflexivity.
  - exact wf_sample_startup.
  - by vm_compute.
  - by split.
  - done.
Defined.

Lemma serve_spec_witness :
  ∃ g' w', serve (sample_config ∅) 7 (MkGate (Some (1, 1)%nat) {[3%nat]}) sample_client = Some (g', w') ∧
  g' = MkGate (Some (1, 1)%nat) {[3%nat]} ∧ c_closed (w_client w') = true ∧
  (w_trace w' = [] ++ [EvConnection unrouted outcomeRejected] ∧ w_backend w' = None ∧
   ∃ n, c_out (w_client w') = [] ++ [(false, take n (too_many_response (sample_config ∅)))]).
Proof.
  destruct (serve (sample_config ∅) 7 (MkGate (Some (1, 1)%nat) {[3%nat]}) sample_client)
    as [[g' w']|] eqn:E; [|by vm_compute in E].
  exists g', w'. split; [done|].
  apply (serve_spec (sample_config ∅) 7 (MkGate (Some (1, 1)%nat) {[3%nat]}) sample_client g' w');
    [|done].
  cbn. apply not_elem_of_singleton. lia.
Defined.

Lemma malformed_startup_uncounted_witness :
  ∃ err w', handle (sample_config ∅)
    (World (sample_conn (AppendUint32 [] 12 ++ AppendUint32 [] 196608 ++ [x61; x62; x63; x64] ++ []))
       None ∅ [] None [])
    = Some (Some err, w') ∧ isBenignClose err = true ∧ w_trace w' = [] ∧
  c_out (w_client w') = [] ∧ st_data (c_in (w_client w')) = [].
Proof.
  eexists.
  apply (malformed_startup_uncounted (sample_config ∅) 196608 [x61; x62; x63; x64] []
           (ESentinel io_EOF)); try done; by vm_compute.
Defined.
