(* ===== verification/Outcomes.v ===== *)
(** How a handled connection can end ([handle] of [internal/proxy/session.go]): every
    ending, the cause of it, what [handle] returns for it, which counter it moves, and
    what the client is told. *)

From stdpp Require Import base list gmap strings pretty.
From Stdlib Require Import ZArith Lia.
From Stdlib Require Import Init.Byte.
From S2P Require Import Prelude GoLib Wire Api Registry Net Cancel Backend Relay Session.

Local Open Scope go_scope.

(** ** Endings *)

(** A fatal error as the client reads it. *)
Record notice := MkNotice { nt_state : string; nt_message : string; nt_detail : string }.

(** The ways a connection ends: its deadline cannot be set; the peer hangs up before
    its startup message; the handshake fails; it was a cancel request; no database is
    named; nobody serves the database; its backend cannot be reached; the startup
    message cannot be passed on; a deadline cannot be cleared; the session was
    relayed. *)
Inductive ending :=
| Unset (err : error)
| HungUp (err : error)
| BadHandshake (err : error)
| Cancelled (request : CancelRequest)
| Nameless
| Unrouted (database : string)
| Unreachable (database : string)
| Unsent (database : string) (err : error)
| Uncleared (err : error)
| Proxied (database : string) (err : option error).

Definition nameless : string := "startup message carried neither a database nor a user parameter".

(** What [handle] returns. *)
Definition returned (e : ending) : option error :=
  match e with
  | Unset err => Some (Errorf [Lit "setting handshake deadline: "; PW err])
  | HungUp err | BadHandshake err | Uncleared err => Some err
  | Cancelled _ | Unrouted _ | Unreachable _ => None
  | Nameless => Some (ENew nameless)
  | Unsent _ err => Some (Errorf [Lit "forwarding startup packet to backend: "; PW err])
  | Proxied _ err => err
  end.

(** The series of [connectionsTotal] it moves. *)
Definition counted (e : ending) : list (string * string) :=
  match e with
  | BadHandshake _ | Nameless => [(unrouted, outcomeHandshake)]
  | Unrouted _ => [(unrouted, outcomeNoRoute)]
  | Unreachable database | Unsent database _ => [(database, outcomeBackendFailed)]
  | Proxied database _ => [(database, outcomeProxied)]
  | Unset _ | HungUp _ | Cancelled _ | Uncleared _ => []
  end.

(** What the client is told once its startup message is there. *)
Definition told `{UnicodeTables} (e : ending) : option notice :=
  match e with
  | Nameless => Some (MkNotice SQLStateProtocolViolation nameless "")
  | Unrouted database =>
      Some (MkNotice SQLStateUndefinedDatabase (no_such_database database) no_route_detail)
  | Unreachable database =>
      Some (MkNotice SQLStateConnectionFailure
              (Sprintf [Lit "the gateway could not reach the backend for database "; PQ database])
              "Check the status of the PostgresRoute and of the backend Service.")
  | _ => None
  end.

Definition is_proxied (e : ending) : bool :=
  match e with Proxied _ _ => true | _ => false end.

(** The connection counts of a trace. *)
Definition tally_of (ev : event) : option (string * string) :=
  match ev with EvConnection database outcome => Some (database, outcome) | _ => None end.
Definition tally (trace : list event) : list (string * string) := omap tally_of trace.

(** ** Causes *)

Section Outcomes.
Context `{Network} `{UnicodeTables}.
Variable cfg : Config.

(** The negotiation came to [res], leaving [w1]. *)
Definition arrived (w : world) (res : result error StartupPacket) (w1 : world) : Prop :=
  ∃ w0, deadline_client (Some (StartupTimeout cfg)) w = Some (None, w0) ∧ negotiate cfg w0 = Some (res, w1).

(** A startup message that asks for [database]. *)
Definition wants (s : StartupPacket) (database : string) : Prop :=
  requested_database s = (database, true) ∧ database ≠ "".

(** What the table in force says of [database]. *)
Definition serves (database : string) (r : option Route) : Prop :=
  ∃ store table, cfg_Routes cfg = Some store ∧ Routes store = Some table ∧ Lookup table database = r.

(** With the backend connected, in [w2]. *)
Inductive forwards (s : StartupPacket) (database : string) (route : Route) (w2 : world) : ending → Prop :=
| fw_unsent n err w3 :
    write_backend (Encode (startup_for route database s)) w2 = Some ((n, Some err), w3) →
    forwards s database route w2 (Unsent database err)
| fw_client_uncleared n w3 err w4 :
    write_backend (Encode (startup_for route database s)) w2 = Some ((n, None), w3) →
    deadline_client None w3 = Some (Some err, w4) →
    forwards s database route w2 (Uncleared (Errorf [Lit "clearing handshake deadline: "; PW err]))
| fw_backend_uncleared n w3 w4 err w5 :
    write_backend (Encode (startup_for route database s)) w2 = Some ((n, None), w3) →
    deadline_client None w3 = Some (None, w4) → deadline_backend None w4 = Some (Some err, w5) →
    forwards s database route w2 (Uncleared (Errorf [Lit "clearing backend deadline: "; PW err]))
| fw_proxied n w3 w4 w5 err w6 :
    write_backend (Encode (startup_for route database s)) w2 = Some ((n, None), w3) →
    deadline_client None w3 = Some (None, w4) → deadline_backend None w4 = Some (None, w5) →
    (_ ← emit (EvConnection database outcomeProxied); _ ← emit (EvActive database 1);
     relay route database) w5 = Some (err, w6) →
    forwards s database route w2 (Proxied database err).

(** With the startup message [s] read, in [w1]. *)
Inductive routes (s : StartupPacket) (w1 : world) : ending → Prop :=
| ro_nameless : (∀ database, ¬ wants s database) → routes s w1 Nameless
| ro_unrouted database : wants s database → serves database None → routes s w1 (Unrouted database)
| ro_unreachable database route err w2 :
    wants s database → serves database (Some route) → dialBackend (DialTimeout cfg) route w1 = Some (Some err, w2) →
    routes s w1 (Unreachable database)
| ro_connected database route w2 e :
    wants s database → serves database (Some route) → dialBackend (DialTimeout cfg) route w1 = Some (None, w2) →
    forwards s database route w2 e → routes s w1 e.

(** Why a connection ends the way it does; [w1] is the world after the negotiation. *)
Inductive ends (w w1 : world) : ending → Prop :=
| ends_unset err : deadline_client (Some (StartupTimeout cfg)) w = Some (Some err, w1) → ends w w1 (Unset err)
| ends_hung_up err : arrived w (Err err) w1 → isBenignClose err = true → ends w w1 (HungUp err)
| ends_bad err : arrived w (Err err) w1 → isBenignClose err = false → ends w w1 (BadHandshake err)
| ends_cancelled s : arrived w (Ok s) w1 → IsCancelRequest s = true → ends w w1 (Cancelled (Cancel s))
| ends_started s e : arrived w (Ok s) w1 → IsCancelRequest s = false → routes s w1 e → ends w w1 e.

(** What the ending leaves on the client connection: nothing, the answer in one
    ErrorResponse that decodes to the notice (cut short only by a connection that takes
    no more), or the session. *)
Definition client_told (e : ending) (c1 c' : Conn) : Prop :=
  match told e with
  | Some (MkNotice s m d) =>
      ∃ n body, EncodeErrorResponse s m d = Message_Encode (MkMessage MsgErrorResponse body) ∧
        decode_fields (length body) body = Some (error_fields s m d) ∧
        c_out c' = c_out c1 ++ [(c_tls c1, take n (EncodeErrorResponse s m d))] ∧
        (c_limit c1 = None → n = length (EncodeErrorResponse s m d))
  | None => if is_proxied e then c_closed c' = true else c_out c' = c_out c1
  end.

(** ** The endings are all there are *)

Lemma tally_app t1 t2 : tally (t1 ++ t2) = tally t1 ++ tally t2.
Proof. apply omap_app. Qed.

Lemma tally_sans_bytes t : tally (sans_bytes t) = tally t.
Proof. unfold tally, sans_bytes. induction t as [|[] t IH]; [done|..]; cbn in *; by rewrite ?IH. Qed.

Lemma same_tally t t' : sans_bytes t' = sans_bytes t → tally t' = tally t.
Proof. intros Ht. by rewrite <- (tally_sans_bytes t'), Ht, tally_sans_bytes. Qed.

(** The texts of every notice are free of zero bytes, whatever the database's name. *)
Lemma told_no_nul e s m d :
  told e = Some (MkNotice s m d) → no_nul (bytes_of s) ∧ no_nul (bytes_of m) ∧ no_nul (bytes_of d).
Proof.
  destruct e; cbn [told]; intros [= <- <- <-]; (split; [literal_no_nul|split; [|literal_no_nul]]).
  - literal_no_nul.
  - apply no_such_database_no_nul.
  - unfold Sprintf, concat_strings. cbn [map foldr render_piece].
    rewrite !bytes_of_app, !no_nul_app. split_and!; [literal_no_nul|apply Quote_no_nul|literal_no_nul].
Qed.

(** An outcome counted and the notice written. *)
Lemma refuse_told e s m d db outcome (x : option error) w1 w w' r :
  told e = Some (MkNotice s m d) → w_client w = w_client w1 →
  (_ ← emit (EvConnection db outcome); _ ← writeFatal s m d; mret x) w = Some (r, w') →
  r = x ∧ w_trace w' = w_trace w ++ [EvConnection db outcome] ∧ client_told e (w_client w1) (w_client w').
Proof.
  intros He Hc. unfold mbind, gw_bind, emit. match goal with |- context [writeFatal s m d ?v] =>
    destruct (writeFatal_run s m d v) as (c' & n & -> & Ho & _ & Hn) end.
  cbn [w_client] in Ho, Hn. rewrite Hc in Ho, Hn.
  intros [= <- <-]. split_and!; [done..|]. destruct (told_no_nul _ _ _ _ He) as (Hs & Hm & Hd).
  destruct (EncodeErrorResponse_message s m d Hs Hm Hd) as (body & Heq & Hdec).
  unfold client_told. rewrite He. by exists n, body.
Qed.

(** A relayed session counts nothing more. *)
Lemma relay_uncounted route label w b err w' :
  w_backend w = Some b → relay route label w = Some (err, w') →
  tally (w_trace w') = tally (w_trace w) ∧ c_closed (w_client w') = true ∧
  is_Some (w_backend w').
Proof.
  intros Hb (ks & full & sent & m & b' & n & _ & _ & _ & _ & _ & Hb' & _ & _ & _ & Hcl & Ht)%(relay_run _ _ _ b);
    [|done].
  split_and!; [by apply same_tally|done|by eexists].
Qed.

(** The outcome of [handle] from a state [w1] in which the ending [e] began. *)
Definition outcome_of (w1 : world) (e : ending) (r : option error) (w' : world) : Prop :=
  r = returned e ∧ tally (w_trace w') = tally (w_trace w1) ++ counted e ∧
  client_told e (w_client w1) (w_client w').

Lemma deadline_client_out t w x w' :
  deadline_client t w = Some (x, w') →
  w_trace w' = w_trace w ∧ c_out (w_client w') = c_out (w_client w) ∧ w_backend w' = w_backend w ∧
  c_tls (w_client w') = c_tls (w_client w).
Proof.
  unfold deadline_client, with_client. destruct (SetDeadline t (w_client w)) as [o c'] eqn:E.
  apply SetDeadline_out in E as (Ho & Ht & _). by intros [= <- <-].
Qed.

(** A dial counts no connection and leaves the client alone. *)
Lemma dial_uncounted route w1 err w2 :
  dialBackend (DialTimeout cfg) route w1 = Some (err, w2) →
  w_client w2 = w_client w1 ∧ tally (w_trace w2) = tally (w_trace w1) ∧
  (err = None → is_Some (w_backend w2)).
Proof.
  intros Hd. destruct (dialBackend_run (DialTimeout cfg) route w1) as (err' & w' & Hd' & _ & (Hc & _) & Ht).
  rewrite Hd in Hd'. injection Hd' as <- <-. split_and!; [done| |].
  - rewrite Ht, tally_app. destruct (Dial _); cbn; apply app_nil_r.
  - intros ->. apply dialBackend_settles in Hd as (_ & _ & _ & _ & _ & _ & [b Hb]). by eexists.
Qed.

Lemma proxy_session_outcome s database route w1 w2 r w' :
  dialBackend (DialTimeout cfg) route w1 = Some (None, w2) → proxy_session route database s w2 = Some (r, w') →
  ∃ e, forwards s database route w2 e ∧ outcome_of w1 e r w'.
Proof.
  intros Hd. destruct (dial_uncounted _ _ _ _ Hd) as (Hc2 & Ht2 & Hb2).
  destruct (Hb2 eq_refl) as [b Hb]. unfold proxy_session. intros ([n werr] & w3 & H3 & Hrest)%bind_some.
  assert (w_trace w3 = w_trace w2 ∧ w_client w3 = w_client w2 ∧ is_Some (w_backend w3)) as (Ht3 & Hc3 & Hb3).
  { revert H3. unfold write_backend, with_backend. rewrite Hb. destruct (Write b _) as [[? ?] ?].
    intros [= <- <- <-]. by split_and!; [..|eexists]. }
  unfold outcome_of. destruct werr as [err|].
  { injection Hrest as <- <-. exists (Unsent database err). split; [by eapply fw_unsent|].
    split_and!; [done| |]; cbn; [|congruence]. by rewrite tally_app, Ht3, Ht2. }
  apply bind_some in Hrest as (cerr & w4 & H4 & Hrest).
  destruct (deadline_client_out _ _ _ _ H4) as (Ht4 & Ho4 & Hb4 & _). destruct cerr as [err|].
  { injection Hrest as <- <-. eexists. split; [by eapply fw_client_uncleared|].
    split_and!; [done| |]; cbn; [|congruence]. by rewrite app_nil_r, Ht4, Ht3, Ht2. }
  apply bind_some in Hrest as (berr & w5 & H5 & Hrest).
  assert (w_trace w5 = w_trace w4 ∧ w_client w5 = w_client w4 ∧ is_Some (w_backend w5)) as (Ht5 & Hc5 & [b5 Hb5]).
  { revert H5. unfold deadline_backend, with_backend. rewrite Hb4. destruct Hb3 as [b3 ->].
    destruct (SetDeadline None b3). intros [= <- <-]. by split_and!; [..|eexists]. }
  destruct berr as [err|].
  { injection Hrest as <- <-. eexists. split; [by eapply fw_backend_uncleared|].
    split_and!; [done| |]; cbn; [|congruence]. by rewrite app_nil_r, Ht5, Ht4, Ht3, Ht2. }
  apply bind_some in Hrest as ([] & w6 & H6 & Hrest). apply bind_some in Hrest as ([] & w7 & H7 & Hrest).
  apply bind_some in Hrest as (rerr & w8 & H8 & Hrest).
  exists (Proxied database rerr). split.
  { eapply fw_proxied; [done..|]. unfold mbind, gw_bind. cbn in H6, H7 |- *.
    injection H6 as <-. injection H7 as <-. exact H8. }
  injection H6 as <-. injection H7 as <-.
  apply (relay_uncounted _ _ _ b5) in H8 as (Ht8 & Hcl & _); [|done].
  injection Hrest as <- <-. split_and!; [done| |done]. cbn in *.
  rewrite !tally_app, Ht8, !tally_app. cbn. by rewrite !app_nil_r, Ht5, Ht4, Ht3, Ht2.
Qed.

Lemma handle_startup_outcome s w1 r w' :
  handle_startup cfg s w1 = Some (r, w') → ∃ e, routes s w1 e ∧ outcome_of w1 e r w'.
Proof.
  unfold handle_startup. destruct (requested_database s) as [database ok] eqn:Ereq.
  destruct (negb ok || bool_decide (database = "")) eqn:Ebad.
  { intros (-> & Ht & Hc)%(refuse_told Nameless _ _ _ _ _ _ w1); [|done..]. exists Nameless. split.
    - apply ro_nameless. intros db (Hr & Hne). rewrite Ereq in Hr.
      injection Hr as -> ->. cbn in Ebad. by apply bool_decide_eq_true in Ebad.
    - split_and!; [done| |done]. by rewrite Ht, tally_app. }
  apply orb_false_iff in Ebad as [->%negb_false_iff Hne%bool_decide_eq_false].
  assert (wants s database) as Hw by done.
  destruct (cfg_Routes cfg) as [store|] eqn:Est; [|done].
  destruct (Routes store) as [table|] eqn:Etab; [|done].
  assert (serves database (Lookup table database)) as Hs by by exists store, table.
  destruct (Lookup table database) as [route|].
  2:{ intros (-> & Ht & Hc)%(refuse_told (Unrouted database) _ _ _ _ _ _ w1); [|done..].
    exists (Unrouted database). split; [by apply ro_unrouted|].
    split_and!; [done| |done]. by rewrite Ht, tally_app. }
  intros (derr & w2 & Hd & Hrest)%bind_some. destruct derr as [err|].
  { destruct (dial_uncounted _ _ _ _ Hd) as (Hc2 & Ht2 & _).
    apply (refuse_told (Unreachable database) _ _ _ _ _ _ w1) in Hrest as (-> & Ht & Hc); [|done..].
    exists (Unreachable database). split; [by eapply ro_unreachable|].
    split_and!; [done| |done]. by rewrite Ht, tally_app, Ht2. }
  apply bind_some in Hrest as (perr & w3 & Hp & Hrest).
  apply (proxy_session_outcome _ _ _ w1) in Hp as (e & He & Ho); [|done].
  exists e. split; [by eapply ro_connected|]. revert Hrest. unfold mbind, gw_bind, with_backend.
  destruct (w_backend w3); [|done]. by intros [= <- <-].
Qed.

Lemma handle_outcome w r w' :
  handle cfg w = Some (r, w') → ∃ e w1, ends w w1 e ∧ outcome_of w1 e r w'.
Proof.
  unfold handle. intros (derr & w0 & Hd & Hrest)%bind_some. destruct derr as [err|].
  { injection Hrest as <- <-. exists (Unset err), w0. split; [by apply ends_unset|].
    split_and!; [done| |done]. by rewrite app_nil_r. }
  apply bind_some in Hrest as (res & w1 & Hn & Hrest).
  assert (arrived w res w1) as Ha by by exists w0.
  destruct res as [s|err].
  - destruct (IsCancelRequest s) eqn:Ec.
    + exists (Cancelled (Cancel s)), w1. split; [by apply ends_cancelled|]. revert Hrest.
      destruct (forwardCancel_run (DialTimeout cfg) (Cancel s) w1) as (w2 & Hf & Hcl & _ & Hcase). unfold mbind, gw_bind.
      rewrite Hf. intros [= <- <-]. split_and!; [done| |by unfold client_told; cbn; rewrite Hcl].
      destruct (lookup_cancel _ _); [destruct Hcase as (? & -> & _)|destruct Hcase as [_ ->]];
        by rewrite tally_app.
    + destruct (handle_startup_outcome _ _ _ _ Hrest) as (e & He & Ho). exists e, w1.
      split; [by eapply ends_started|done].
  - revert Hrest. unfold mbind, gw_bind. destruct (isBenignClose err) eqn:Eb; cbn; intros [= <- <-].
    + exists (HungUp err), w1. split; [by apply ends_hung_up|]. split_and!; [done| |done].
      by rewrite app_nil_r.
    + exists (BadHandshake err), w1. split; [by apply ends_bad|]. split_and!; [done| |done].
      cbn. by rewrite tally_app.
Qed.

(** ** Each connection has one ending *)

Lemma arrived_fun w res w1 res' w1' : arrived w res w1 → arrived w res' w1' → res' = res ∧ w1' = w1.
Proof. intros (w0 & Hd & Hn) (w0' & Hd' & Hn'). rewrite Hd in Hd'. injection Hd' as <-. by split; congruence. Qed.

Lemma serves_fun database r r' : serves database r → serves database r' → r' = r.
Proof. intros (? & ? & ? & ? & ?) (? & ? & ? & ? & ?). congruence. Qed.

Lemma wants_fun s database database' : wants s database → wants s database' → database' = database.
Proof. intros [Hr _] [Hr' _]. congruence. Qed.

Lemma forwards_fun s database route w2 e e' :
  forwards s database route w2 e → forwards s database route w2 e' → e' = e.
Proof. intros He He'. destruct He, He'; simplify_eq; try done; congruence. Qed.

Lemma routes_fun s w1 e e' : routes s w1 e → routes s w1 e' → e' = e.
Proof.
  intros He He'. destruct He as [Hn|db Hw Hs|db route err w2 Hw Hs Hd|db route w2 e Hw Hs Hd Hf],
    He' as [Hn'|db' Hw' Hs'|db' route' err' w2' Hw' Hs' Hd'|db' route' w2' e' Hw' Hs' Hd' Hf']; try done;
    try (by edestruct Hn); try (by edestruct Hn');
    pose proof (wants_fun _ _ _ Hw Hw') as ->; pose proof (serves_fun _ _ _ Hs Hs') as Heq; simplify_eq; try done.
  by eapply forwards_fun.
Qed.

Lemma ends_unique w w1 e w1' e' : ends w w1 e → ends w w1' e' → w1' = w1 ∧ e' = e.
Proof.
  assert (∀ err v res v', deadline_client (Some (StartupTimeout cfg)) w = Some (Some err, v) → arrived w res v' → False) as Hdl
    by (intros err v res v' Hd (w0 & Hd' & _); congruence).
  intros He He'. destruct He as [err Hd|err Ha Hb|err Ha Hb|s Ha Hc|s e Ha Hc Hr],
    He' as [err' Hd'|err' Ha' Hb'|err' Ha' Hb'|s' Ha' Hc'|s' e' Ha' Hc' Hr'];
    try (by destruct (Hdl _ _ _ _ Hd Ha')); try (by destruct (Hdl _ _ _ _ Hd' Ha));
    try (destruct (arrived_fun _ _ _ _ _ Ha Ha') as [Heq ->]); simplify_eq; try done; try congruence.
  split; [done|]. by eapply routes_fun.
Qed.

(** Up to the world [w1] nothing is counted, and the client has got the replies of the
    negotiation. *)
Lemma ends_start w w1 e :
  c_tls (w_client w) = false → ends w w1 e →
  tally (w_trace w1) = tally (w_trace w) ∧ ∃ replies,
    c_out (w_client w1) = c_out (w_client w) ++ replies ∧ negotiation_output maxNegotiationRounds replies.
Proof.
  intros Ht He.
  assert ((∃ err, deadline_client (Some (StartupTimeout cfg)) w = Some (Some err, w1)) ∨ ∃ res, arrived w res w1) as [[err Hd]|[res Ha]]
    by (destruct He; eauto).
  - destruct (deadline_client_out _ _ _ _ Hd) as (-> & Ho & _). split; [done|]. exists []. rewrite Ho, app_nil_r.
    split; [done|apply negotiation_output_nil].
  - destruct Ha as (w0 & Hd & Hn). apply deadline_client_out in Hd as (Htr0 & Ho0 & _ & Ht0).
    destruct (negotiate_loop_run cfg maxNegotiationRounds w0 false) as (res' & w1' & Hn' & Hneg);
      [congruence|]. unfold negotiate in Hn. rewrite Hn' in Hn. injection Hn as -> ->.
    destruct Hneg as ((_ & _ & _ & _ & Htr1) & (out & Ho1 & Hno) & _). split; [congruence|].
    exists out. split; [congruence|done].
Qed.

(** C9: every way a connection can end.  A connection that [handle] is done with has
    exactly one of ten endings, and its cause decides which; the ending alone decides
    what [handle] returns, which series of the connection counter moved (one at most,
    and once), and what the client was told after the negotiation: nothing, or one
    ErrorResponse whose SQLSTATE, message and detail every client can decode, whatever
    bytes the database's name holds, and which is complete unless the connection takes
    no more.  Not counted are the peers that hang up before their startup message,
    cancel requests, and connections whose deadlines fail. *)
Theorem handle_outcomes w r w' :
  c_tls (w_client w) = false → handle cfg w = Some (r, w') →
  ∃ e w1, ends w w1 e ∧ (∀ e' w1', ends w w1' e' → w1' = w1 ∧ e' = e) ∧
    r = returned e ∧ tally (w_trace w') = tally (w_trace w) ++ counted e ∧
    (∃ replies, c_out (w_client w1) = c_out (w_client w) ++ replies ∧
       negotiation_output maxNegotiationRounds replies) ∧
    client_told e (w_client w1) (w_client w').
Proof.
  intros Ht (e & w1 & He & -> & Hcnt & Htold)%handle_outcome. exists e, w1.
  assert (tally (w_trace w1) = tally (w_trace w) ∧ ∃ replies,
    c_out (w_client w1) = c_out (w_client w) ++ replies ∧ negotiation_output maxNegotiationRounds replies)
    as [Htr Hout] by by eapply ends_start.
  rewrite Hcnt, Htr. split_and!; try done. intros e' w1' He'. by eapply ends_unique.
Qed.
End Outcomes.

(** ** Samples *)

(** Nobody answers. *)
#[local] Instance nobody : Network := {|
  Dial := λ _, Err (ENew "connection refused");
  ServerHandshake := λ _ s, Ok s;
  ClientHandshake := λ _ s, Err (ENew "no TLS here");
  VerifyChain := λ _ _ _, None
|}.

#[local] Instance printable : UnicodeTables := λ r, (32 <=? r) && (r <=? 126).

Definition one_route : Config := sample_config {["billing" := sample_route]}.

(** A client of a backend that is down: told so, and counted for the database. *)
Lemma handle_outcomes_witness :
  ∃ r w', handle one_route sample_client = Some (r, w') ∧ r = None ∧
    tally (w_trace w') = [("billing", outcomeBackendFailed)] ∧
    ∃ e w1, ends one_route sample_client w1 e ∧
      (∀ e' w1', ends one_route sample_client w1' e' → w1' = w1 ∧ e' = e) ∧
      r = returned e ∧ tally (w_trace w') = [] ++ counted e ∧
      (∃ replies, c_out (w_client w1) = [] ++ replies ∧
         negotiation_output maxNegotiationRounds replies) ∧
      client_told e (w_client w1) (w_client w').
Proof.
  destruct (handle one_route sample_client) as [[r w']|] eqn:E; [|by vm_compute in E].
  exists r, w'. split; [done|].
  assert (r = None ∧ tally (w_trace w') = [("billing", outcomeBackendFailed)]) as [Hr Hc].
  { vm_compute in E. by injection E as <- <-. }
  split; [done|]. split; [done|].
  exact (handle_outcomes one_route sample_client r w' eq_refl E).
Defined.
