(* ===== verification/Deadline.v ===== *)
(** The handshake against the clock: what a client that sends its bytes over time gets
    under the deadline that [handle] sets before it negotiates, and lifts before it
    relays ([internal/proxy/session.go]).  The bytes race with the deadline as
    [Net.SetDeadline] says: each of them has the time at which it arrives, and a read
    that the deadline overtakes fails. *)

From stdpp Require Import base list gmap strings pretty.
From Stdlib Require Import ZArith Lia.
From Stdlib Require Import Init.Byte.
From S2P Require Import Prelude GoLib Wire Api Registry Net Cancel Backend Relay Session.

Local Open Scope go_scope.

(** ** Bytes in time *)






(** ** Cutting a stream short *)




(** ** The negotiation under a deadline *)

Section Deadline.
Context `{Network} `{UnicodeTables}.
Variable cfg : Session.Config.

(** The same world, with other bytes to come from the client. *)
Definition put_in (s : stream) (w : world) : world :=
  World (set_in s (w_client w)) (w_backend w) (w_cancels w) (w_rand w) (w_cut w) (w_trace w).








Lemma put_in_twice s s' w : put_in s (put_in s' w) = put_in s w.
Proof. done. Qed.








End Deadline.

(** ** A slow client *)

#[local] Existing Instance sample_backends.
#[local] Existing Instance ascii_tables.


