(* ===== verification/Server.v ===== *)
(** The server around the sessions ([internal/proxy/server.go]): configuration and
    defaults, the accept loop with its back-off, and the life of the process from
    listening to drained as a step relation over all connections. *)

From stdpp Require Import base list gmap strings pretty relations.
From Stdlib Require Import ZArith Lia.
From S2P Require Import Prelude GoLib Wire Api Registry Net Cancel Backend Relay Session.

Local Open Scope go_scope.

(** ** Configuration *)

Definition Millisecond : Z := 1000000.

Definition DefaultStartupTimeout : Z := 30 * Second.
Definition DefaultDialTimeout : Z := 5 * Second.
Definition DefaultShutdownGracePeriod : Z := 30 * Second.
Definition DefaultKeepAlivePeriod : Z := 30 * Second.

(** [Config.applyDefaults]; the logger is not modelled. *)
Definition applyDefaults (c : Config) : Config :=
  MkConfig (ListenAddress c) (cfg_Routes c) (cfg_TLS c) (MaxConnections c)
    (if StartupTimeout c <=? 0 then DefaultStartupTimeout else StartupTimeout c)
    (if DialTimeout c <=? 0 then DefaultDialTimeout else DialTimeout c)
    (if ShutdownGracePeriod c <=? 0 then DefaultShutdownGracePeriod else ShutdownGracePeriod c)
    (if KeepAlivePeriod c <=? 0 then DefaultKeepAlivePeriod else KeepAlivePeriod c).

Record Server := MkServer {
  srv_cfg : Config;
  srv_cancels : cancelRegistry;
  srv_gate : gate;
  srv_listening : bool
}.

(** [New]. *)
Definition New (cfg : Config) : result error Server :=
  match cfg_Routes cfg with
  | None => Err (ENew "proxy: Config.Routes is required")
  | Some _ =>
      if bool_decide (ListenAddress cfg = "") then
        Err (ENew "proxy: Config.ListenAddress is required")
      else if match cfg_TLS cfg with
              | Some tls => bool_decide (ServerTLS_Config tls = None)
              | None => false
              end then
        Err (ENew "proxy: Config.TLS.Config is required when TLS is enabled")
      else if MaxConnections cfg <? 0 then
        Err (Errorf [Lit "proxy: MaxConnections must not be negative, got "; PD (MaxConnections cfg)])
      else
        let cfg := applyDefaults cfg in
        Ok (MkServer cfg newCancelRegistry
              (MkGate (if 0 <? MaxConnections cfg
                       then Some (Z.to_nat (MaxConnections cfg), O) else None) ∅)
              false)
  end.

(** ** The accept loop *)

(** [nextBackoff]. *)
Definition minBackoff : Z := 5 * Millisecond.
Definition maxBackoff : Z := Second.

Definition nextBackoff (current : Z) : Z :=
  if current =? 0 then minBackoff
  else
    let doubled := current * 2 in
    if doubled <? maxBackoff then doubled else maxBackoff.

(** What [listener.Accept] fails with: an error number of the system call, the
    listener having been closed, or a deadline. *)
Inductive accept_error :=
| Errno (n : Z)
| ListenerClosed
| DeadlineExceeded.

Definition EAGAIN : Z := 11.
Definition EMFILE : Z := 24.
Definition ETIMEDOUT : Z := 110.

(** [net.Error]'s [Timeout], through [*net.OpError] down to [syscall.Errno]: of the
    error numbers only [EAGAIN] (which is also [EWOULDBLOCK]) and [ETIMEDOUT]. *)
Definition Timeout_ (e : accept_error) : bool :=
  match e with
  | Errno n => (n =? EAGAIN) || (n =? ETIMEDOUT)
  | ListenerClosed => false
  | DeadlineExceeded => true
  end.

Definition accept_failure (e : accept_error) : error :=
  match e with
  | Errno n => Errorf [Lit "accept: errno "; PD n]
  | ListenerClosed => ESentinel net_ErrClosed
  | DeadlineExceeded => ENew "i/o timeout"
  end.

(** One return of [Accept], with whether the context is done by then and, where a
    failure is retried, whether it is done before the wait is over. *)
Inductive accept_event :=
| Incoming (conn : nat)
| Failed (e : accept_error) (ctx_done : bool) (interrupted : bool).

(** [acceptLoop] over the coming returns of [Accept]: the connections it starts
    sessions for, the waits between retries, and how it returns; [None] while it is
    still in [Accept]. *)
Fixpoint acceptLoop (events : list accept_event) (backoff : Z)
  : list nat * list Z * option (option error) :=
  match events with
  | [] => ([], [], None)
  | Incoming conn :: rest =>
      let '(conns, waits, res) := acceptLoop rest 0 in (conn :: conns, waits, res)
  | Failed e ctx_done interrupted :: rest =>
      if ctx_done then ([], [], Some None)
      else if Timeout_ e then
        let backoff := nextBackoff backoff in
        if interrupted then ([], [backoff], Some None)
        else let '(conns, waits, res) := acceptLoop rest backoff in (conns, backoff :: waits, res)
      else ([], [], Some (Some (Errorf [Lit "proxy: accepting connections: ";
                                        PW (accept_failure e)])))
  end.

(** ** Properties *)

(** A configuration a server can be made from. *)
Definition valid_config (cfg : Config) : Prop :=
  is_Some (cfg_Routes cfg) ∧ ListenAddress cfg ≠ "" ∧
  (∀ tls, cfg_TLS cfg = Some tls → is_Some (ServerTLS_Config tls)) ∧ 0 <= MaxConnections cfg.

Lemma default_positive d v : 0 < d → 0 < (if v <=? 0 then d else v).
Proof. destruct (v <=? 0) eqn:E; [done|]. by apply Z.leb_gt in E. Qed.

Lemma default_kept d v : 0 < v → (if v <=? 0 then d else v) = v.
Proof. intros Hv. by replace (v <=? 0) with false by (symmetry; apply Z.leb_gt; lia). Qed.

(** [New] accepts exactly the valid configurations, and the server it makes has
    a routing store, positive time-outs throughout, every timeout the caller set
    kept, an empty key table and as many free slots as configured, none meaning no
    limit. *)
Theorem new_spec cfg :
  match New cfg with
  | Err _ => ¬ valid_config cfg
  | Ok s =>
      valid_config cfg ∧ srv_cfg s = applyDefaults cfg ∧
      0 < StartupTimeout (srv_cfg s) ∧ 0 < DialTimeout (srv_cfg s) ∧
      0 < ShutdownGracePeriod (srv_cfg s) ∧ 0 < KeepAlivePeriod (srv_cfg s) ∧
      (0 < StartupTimeout cfg → StartupTimeout (srv_cfg s) = StartupTimeout cfg) ∧
      (0 < DialTimeout cfg → DialTimeout (srv_cfg s) = DialTimeout cfg) ∧
      len_cancel (srv_cancels s) = 0%nat ∧ gate_ok (srv_gate s) ∧
      (if bool_decide (MaxConnections cfg = 0) then slots (srv_gate s) = None
       else slots (srv_gate s) = Some (Z.to_nat (MaxConnections cfg), O) ∧
            gate_full (srv_gate s) = false)
  end.
Proof.
  unfold New, valid_config. destruct (cfg_Routes cfg) as [store|] eqn:Er;
    [|intros [[? ?] _]; congruence].
  case_bool_decide as Ha; [naive_solver|].
  destruct (match cfg_TLS cfg with Some _ => _ | None => _ end) eqn:Et.
  { intros (_ & _ & Hcfg & _). destruct (cfg_TLS cfg) as [tls|]; [|done].
    apply bool_decide_eq_true in Et. destruct (Hcfg tls eq_refl) as [? ?]. congruence. }
  destruct (MaxConnections cfg <? 0) eqn:Em; [apply Z.ltb_lt in Em; intros (_ & _ & _ & ?); lia|].
  apply Z.ltb_ge in Em.
  assert (∀ tls, cfg_TLS cfg = Some tls → is_Some (ServerTLS_Config tls)) as Htls.
  { intros tls Heq. rewrite Heq in Et. apply bool_decide_eq_false in Et. by apply not_eq_None_Some. }
  cbn [srv_cfg srv_cancels srv_gate]. unfold gate_ok, gate_full.
  cbn [slots applyDefaults StartupTimeout DialTimeout ShutdownGracePeriod KeepAlivePeriod MaxConnections].
  split_and!; try done; try by apply default_positive; try by apply default_kept.
  - by apply default_kept.
  - by apply default_kept.
  - destruct (0 <? MaxConnections cfg); [lia|done].
  - case_bool_decide as Hz; [by rewrite Hz|].
    replace (0 <? MaxConnections cfg) with true by (symmetry; apply Z.ltb_lt; lia).
    split; [done|]. apply Nat.leb_gt. lia.
Qed.

(** *** Back-off *)

(** A back-off the loop can hold. *)
Definition backoff_ok (b : Z) : Prop := b = 0 ∨ minBackoff <= b <= maxBackoff.

Lemma nextBackoff_ok b : backoff_ok b → minBackoff <= nextBackoff b <= maxBackoff.
Proof.
  unfold backoff_ok, nextBackoff, minBackoff, maxBackoff, Second, Millisecond. intros Hb.
  destruct (b =? 0) eqn:E0; [lia|]. apply Z.eqb_neq in E0.
  case_match eqn:E1; [apply Z.ltb_lt in E1|apply Z.ltb_ge in E1]; lia.
Qed.

(** The connections among the events. *)
Definition accepted (events : list accept_event) : list nat :=
  omap (λ ev, match ev with Incoming c => Some c | Failed _ _ _ => None end) events.

(** An event the loop goes on after. *)
Definition passed (ev : accept_event) : Prop :=
  match ev with
  | Incoming _ => True
  | Failed e d i => d = false ∧ i = false ∧ Timeout_ e = true
  end.

(** How the loop came to return [res] after the events [pre]. *)
Definition ended (events pre : list accept_event) (res : option (option error)) : Prop :=
  match res with
  | None => events = pre
  | Some None => ∃ e d i post, events = pre ++ Failed e d i :: post ∧
      (d = true ∨ Timeout_ e = true ∧ i = true)
  | Some (Some err) => ∃ e i post, events = pre ++ Failed e false i :: post ∧ Timeout_ e = false ∧
      err = Errorf [Lit "proxy: accepting connections: "; PW (accept_failure e)]
  end.

Lemma ended_cons ev events pre res : ended events pre res → ended (ev :: events) (ev :: pre) res.
Proof.
  destruct res as [[err|]|]; cbn.
  - intros (e & i & post & -> & Hrest). by exists e, i, post.
  - intros (e & d & i & post & -> & Hrest). by exists e, d, i, post.
  - by intros ->.
Qed.

(** The accept loop starts exactly one session for each connection, in order,
    until it returns; it waits between 5 ms and 1 s after each temporary failure, once
    for each; and it returns exactly at the first failure that is no time-out, then
    with an error, or that meets a done context, then without one. *)
Theorem accept_loop_spec events backoff :
  backoff_ok backoff →
  let '(conns, waits, res) := acceptLoop events backoff in
  Forall (λ w, minBackoff <= w <= maxBackoff) waits ∧
  ∃ pre, Forall passed pre ∧ conns = accepted pre ∧ ended events pre res ∧
    (length pre <= length conns + length waits <= S (length pre))%nat.
Proof.
  revert backoff. induction events as [|[conn|e d i] events IH]; intros backoff Hb; cbn [acceptLoop].
  - split; [done|]. exists []. cbn. split_and!; [done..|lia|lia].
  - specialize (IH 0 (or_introl eq_refl)). destruct (acceptLoop events 0) as [[conns waits] res].
    destruct IH as (Hw & pre & Hpre & -> & Hend & Hlen). split; [done|].
    exists (Incoming conn :: pre). cbn in *. split_and!; [by constructor|done|by apply ended_cons|lia|lia].
  - destruct d.
    { split; [done|]. exists []. cbn. split_and!; [done|done| |lia|lia]. exists e, true, i, events. by auto. }
    destruct (Timeout_ e) eqn:Et.
    2: { split; [done|]. exists []. cbn. split_and!; [done|done| |lia|lia]. by exists e, i, events. }
    pose proof (nextBackoff_ok _ Hb) as Hn. destruct i.
    { split; [by constructor|]. exists []. cbn. split_and!; [done|done| |lia|lia].
      exists e, false, true, events. by auto. }
    specialize (IH (nextBackoff backoff) (or_intror Hn)).
    destruct (acceptLoop events (nextBackoff backoff)) as [[conns waits] res].
    destruct IH as (Hw & pre & Hpre & -> & Hend & Hlen). split; [by constructor|].
    exists (Failed e false false :: pre). cbn in *.
    split_and!; [by constructor|done|by apply ended_cons|lia|lia].
Qed.

Lemma accept_loop_spec_witness :
  let '(conns, waits, res) :=
    acceptLoop [Incoming 1; Failed DeadlineExceeded false false; Incoming 2;
                Failed ListenerClosed true false; Incoming 3] 0 in
  Forall (λ w, minBackoff <= w <= maxBackoff) waits ∧
  ∃ pre, Forall passed pre ∧ conns = accepted pre ∧
    ended [Incoming 1; Failed DeadlineExceeded false false; Incoming 2;
           Failed ListenerClosed true false; Incoming 3] pre res ∧
    (length pre <= length conns + length waits <= S (length pre))%nat.
Proof. apply accept_loop_spec. by left. Defined.

(** Running out of file descriptors, the failure the back-off is there for,
    ends the loop: the system reports it as [EMFILE], which is no time-out, so the
    gateway stops accepting for good at its first occurrence. *)
Theorem descriptor_exhaustion_fatal pre interrupted rest backoff :
  Forall (λ ev, match ev with Incoming _ => True | Failed _ _ _ => False end) pre →
  ∃ waits err, acceptLoop (pre ++ Failed (Errno EMFILE) false interrupted :: rest) backoff
  = (accepted pre, waits, Some (Some err)).
Proof.
  revert backoff. induction pre as [|[conn|] pre IH]; intros backoff Hpre.
  - by eexists _, _.
  - inversion Hpre; subst. cbn [app acceptLoop].
    destruct (IH 0) as (waits & err & ->); [done|]. by eexists _, _.
  - by inversion Hpre.
Qed.

Lemma descriptor_exhaustion_fatal_witness :
  ∃ waits err, acceptLoop ([Incoming 1] ++ Failed (Errno EMFILE) false false :: [Incoming 2]) 0
  = (accepted [Incoming 1], waits, Some (Some err)).
Proof. apply descriptor_exhaustion_fatal. by repeat constructor. Defined.

(** ** The life of the server *)

(** Where a session's goroutine is: started, tracked, holding a slot in [handle],
    being refused, past its slot, past its connection's close. *)
Inductive phase := Spawned | Tracked | Handling | Refusing | Leaving | Closed.

#[global] Instance phase_eq_dec : EqDecision phase.
Proof. solve_decision. Defined.

(** Where [Start] is: in the accept loop, waiting in [drain] for the sessions or
    the grace period, waiting after having closed what was left, returned. *)
Inductive stage := Accepting | Draining | Forced | Stopped.

#[global] Instance stage_eq_dec : EqDecision stage.
Proof. solve_decision. Defined.

(** The server's shared state, its live sessions, and the connections [drain] has
    closed. *)
Record proc := MkProc {
  pr_stage : stage;
  pr_gate : gate;
  pr_phases : gmap nat phase;
  pr_waiting : nat;              (* the wait group *)
  pr_closed : gset nat
}.

Definition start (g : gate) : proc := MkProc Accepting g ∅ 0 ∅.

(** One step of one goroutine: the accept loop, a session, or [drain]. *)
Inductive pstep : proc → proc → Prop :=
| step_accept c g ps n cl :
    ps !! c = None →
    pstep (MkProc Accepting g ps n cl) (MkProc Accepting g (<[c := Spawned]> ps) (S n) cl)
| step_track st c g ps n cl :
    ps !! c = Some Spawned →
    pstep (MkProc st g ps n cl) (MkProc st (track c g) (<[c := Tracked]> ps) n cl)
| step_acquire st c g g' ps n cl :
    ps !! c = Some Tracked → acquireSlot g = (true, g') →
    pstep (MkProc st g ps n cl) (MkProc st g' (<[c := Handling]> ps) n cl)
| step_refuse st c g g' ps n cl :
    ps !! c = Some Tracked → acquireSlot g = (false, g') →
    pstep (MkProc st g ps n cl) (MkProc st g' (<[c := Refusing]> ps) n cl)
| step_release st c g g' ps n cl :
    ps !! c = Some Handling → releaseSlot g = Some g' →
    pstep (MkProc st g ps n cl) (MkProc st g' (<[c := Leaving]> ps) n cl)
| step_untrack st c ph g ps n cl :
    ps !! c = Some ph → ph = Leaving ∨ ph = Refusing →
    pstep (MkProc st g ps n cl) (MkProc st (untrack c g) (<[c := Closed]> ps) n cl)
| step_done st c g ps n cl :
    ps !! c = Some Closed →
    pstep (MkProc st g ps (S n) cl) (MkProc st g (delete c ps) n cl)
| step_shutdown g ps n cl :
    pstep (MkProc Accepting g ps n cl) (MkProc Draining g ps n cl)
| step_grace_over g ps n cl :
    pstep (MkProc Draining g ps n cl) (MkProc Forced g ps n (activeConn g ∪ cl))
| step_drained st g ps cl :
    st = Draining ∨ st = Forced →
    pstep (MkProc st g ps 0 cl) (MkProc Stopped g ps 0 cl).

(** *** The invariant *)

(** Phases in which a connection is in the server's set. *)
Definition in_set (ph : phase) : bool :=
  match ph with Tracked | Handling | Refusing | Leaving => true | _ => false end.

Definition holding (ps : gmap nat phase) : nat := size (filter (λ kv, kv.2 = Handling) ps).

(** Slots in use are exactly the sessions in [handle], within the limit; the set of
    connections is exactly the tracked ones; the wait group counts the sessions. *)
Definition server_inv (limit : option nat) (p : proc) : Prop :=
  slots (pr_gate p) = (λ n, (n, holding (pr_phases p))) <$> limit ∧
  (∀ n, limit = Some n → holding (pr_phases p) ≤ n)%nat ∧
  (∀ c, c ∈ activeConn (pr_gate p) ↔ ∃ ph, pr_phases p !! c = Some ph ∧ in_set ph = true) ∧
  pr_waiting p = size (pr_phases p) ∧
  (pr_stage p = Stopped → pr_waiting p = 0%nat).

Lemma holding_insert c ph ps :
  holding (<[c := ph]> ps)
  = ((if decide (ph = Handling) then 1 else 0) + holding (delete c ps))%nat.
Proof.
  unfold holding. rewrite <- insert_delete_eq. case_decide as Hp.
  - rewrite map_filter_insert_True by done. apply map_size_insert_None.
    apply map_lookup_filter_None_2. left. apply lookup_delete_eq.
  - rewrite map_filter_insert_False by done. by rewrite delete_delete_eq.
Qed.

Lemma holding_lookup c ph ps :
  ps !! c = Some ph →
  holding ps = ((if decide (ph = Handling) then 1 else 0) + holding (delete c ps))%nat.
Proof. intros Hc. rewrite <- holding_insert. by rewrite insert_id. Qed.

(** The connection set after one session's phase changed. *)
Definition tracks (A : gset nat) (ps : gmap nat phase) : Prop :=
  ∀ x, x ∈ A ↔ ∃ ph, ps !! x = Some ph ∧ in_set ph = true.

Lemma tracks_update A A' ps c ph :
  tracks A ps → (∀ x, x ≠ c → x ∈ A' ↔ x ∈ A) → (c ∈ A' ↔ in_set ph = true) →
  tracks A' (<[c := ph]> ps).
Proof.
  intros HA Hne Hc x. destruct (decide (x = c)) as [->|Hx].
  - rewrite Hc, lookup_insert_eq. split; [eauto|]. by intros (? & [= <-] & ?).
  - rewrite Hne, (HA x), lookup_insert_ne by done. done.
Qed.

Lemma tracks_same A ps c ph0 ph :
  tracks A ps → ps !! c = Some ph0 → in_set ph = in_set ph0 → tracks A (<[c := ph]> ps).
Proof.
  intros HA Hc Heq. apply (tracks_update A); [done|done|]. rewrite (HA c), Hc, Heq.
  split; [intros (? & [= <-] & ?); done|eauto].
Qed.

Lemma tracks_delete A ps c ph :
  tracks A ps → ps !! c = Some ph → in_set ph = false → tracks A (delete c ps).
Proof.
  intros HA Hc Hout x. rewrite (HA x). destruct (decide (x = c)) as [->|Hx].
  - rewrite lookup_delete_eq, Hc. split; [|by intros (? & ? & _)].
    intros (? & [= <-] & ?). congruence.
  - by rewrite lookup_delete_ne.
Qed.

Lemma size_insert_live (ps : gmap nat phase) c ph0 ph :
  ps !! c = Some ph0 → size (<[c := ph]> ps) = size ps.
Proof. intros Hc. apply map_size_insert_Some. by rewrite Hc. Qed.

(** A session moving from one phase to another, neither of them [Handling]. *)
Lemma holding_move c ph0 ph ps :
  ps !! c = Some ph0 → ph0 ≠ Handling → ph ≠ Handling → holding (<[c := ph]> ps) = holding ps.
Proof.
  intros Hc H0 H1. rewrite holding_insert, (holding_lookup c ph0 ps Hc).
  by rewrite !decide_False.
Qed.

Lemma pstep_inv limit p p' : server_inv limit p → pstep p p' → server_inv limit p'.
Proof.
  intros (Hs & Hl & Ht & Hw & Hst) Hstep. change (tracks (activeConn (pr_gate p)) (pr_phases p)) in Ht.
  unfold server_inv. fold (tracks (activeConn (pr_gate p')) (pr_phases p')).
  destruct Hstep as [c g ps n cl Hc|st c g ps n cl Hc|st c g g' ps n cl Hc Ha|st c g g' ps n cl Hc Ha|
    st c g g' ps n cl Hc Hr|st c ph g ps n cl Hc Hph|st c g ps n cl Hc|g ps n cl|g ps n cl|st g ps cl Hor];
    cbn [pr_gate pr_phases pr_waiting pr_stage slots activeConn track untrack] in *.
  - rewrite holding_insert, decide_False, delete_id by done. split_and!; try done.
    + apply (tracks_update (activeConn g)); [done|done|]. rewrite (Ht c), Hc.
      split; [by intros (? & ? & _)|done].
    + rewrite map_size_insert_None by done. by rewrite Hw.
  - rewrite (holding_move c Spawned), (size_insert_live ps c Spawned) by done.
    split_and!; try done. apply (tracks_update (activeConn g)); [done|set_solver|set_solver].
  - rewrite (size_insert_live ps c Tracked) by done.
    rewrite holding_insert, decide_True by done.
    pose proof (holding_lookup c Tracked ps Hc) as Hh. rewrite decide_False in Hh by done.
    unfold acquireSlot in Ha. rewrite Hs in Ha. destruct limit as [m|]; cbn [fmap option_fmap option_map] in *.
    + destruct (holding ps <? m)%nat eqn:El; [|done]. apply Nat.ltb_lt in El. injection Ha as <-.
      cbn [slots activeConn]. cbn [Nat.add] in Hh |- *. rewrite <- Hh.
      split_and!; try done; [by intros n' [= <-]|]. by eapply tracks_same.
    + injection Ha as <-. split_and!; try done. by eapply tracks_same.
  - rewrite (size_insert_live ps c Tracked), (holding_move c Tracked) by done.
    apply acquire_refused in Ha as [-> _]. split_and!; try done. by eapply tracks_same.
  - rewrite (size_insert_live ps c Handling) by done.
    rewrite holding_insert, decide_False by done.
    pose proof (holding_lookup c Handling ps Hc) as Hh. rewrite decide_True in Hh by done.
    unfold releaseSlot in Hr. rewrite Hs in Hr. destruct limit as [m|]; cbn [fmap option_fmap option_map] in *.
    + rewrite Hh in Hr. injection Hr as <-. cbn [slots activeConn].
      split_and!; try done; [|by eapply tracks_same].
      intros n' [= <-]. specialize (Hl m eq_refl). lia.
    + injection Hr as <-. split_and!; try done. by eapply tracks_same.
  - rewrite (size_insert_live ps c ph), (holding_move c ph) by (done || naive_solver).
    split_and!; try done. apply (tracks_update (activeConn g)); [done|set_solver|set_solver].
  - pose proof (holding_lookup c Closed ps Hc) as Hh. rewrite decide_False in Hh by done.
    cbn in Hh. rewrite <- Hh. rewrite map_size_delete_Some by eauto.
    split_and!; try done; [by eapply tracks_delete|lia|].
    intros ->. by specialize (Hst eq_refl).
  - done.
  - done.
  - done.
Qed.

(** A gate before the first connection. *)
Definition fresh_gate (limit : option nat) : gate := MkGate ((λ n, (n, O)) <$> limit) ∅.

Lemma server_inv_start limit : server_inv limit (start (fresh_gate limit)).
Proof.
  split_and!; cbn; try done; [by intros n _; apply Nat.le_0_l|].
  intros c. split; [set_solver|]. by intros (ph & Hc & _).
Qed.

Lemma server_inv_reachable limit p :
  rtc pstep (start (fresh_gate limit)) p → server_inv limit p.
Proof.
  intros Hr. pose proof (server_inv_start limit) as Hi. revert Hi.
  induction Hr as [|p1 p2 p3 Hs _ IH]; [done|]. intros Hi. by apply IH, (pstep_inv _ p1).
Qed.

(** A session that holds a slot can give it back. *)
Lemma release_ready limit p c :
  server_inv limit p → pr_phases p !! c = Some Handling → is_Some (releaseSlot (pr_gate p)).
Proof.
  intros (Hs & _) Hc. unfold releaseSlot. rewrite Hs. destruct limit as [n|]; cbn; [|done].
  rewrite (holding_lookup c Handling _ Hc), decide_True by done. by eexists.
Qed.

(** Nothing is left once [Start] has returned. *)
Lemma server_stopped limit p :
  rtc pstep (start (fresh_gate limit)) p → pr_stage p = Stopped →
  pr_phases p = ∅ ∧ pr_gate p = fresh_gate limit.
Proof.
  intros (Hs & _ & Ht & Hw & Hst)%server_inv_reachable Hstop.
  rewrite Hw in Hst. apply Hst, map_size_empty_inv in Hstop. split; [done|].
  destruct (pr_gate p) as [sl ac]. cbn in *. unfold fresh_gate. rewrite Hstop in *. f_equal.
  - by rewrite Hs.
  - apply set_eq. intros x. rewrite (Ht x). set_solver.
Qed.

(** Past the accept loop there are no new sessions. *)
Lemma pstep_drains p p' :
  pstep p p' → pr_stage p ≠ Accepting →
  (pr_waiting p' <= pr_waiting p)%nat ∧ pr_stage p' ≠ Accepting.
Proof. intros Hs Hst. destruct Hs; cbn in *; try done; split; try done; lia. Qed.

(** C31: in every interleaving of accepts, sessions and shutdown, no more sessions
    are handled at once than the configured limit, a session that ends can always
    give its slot back without blocking, the connections a forced shutdown would
    close are exactly the tracked ones, and once [Start] has returned no session is
    left, every slot is free and no connection is tracked. *)
Theorem server_invariant limit p :
  rtc pstep (start (fresh_gate limit)) p →
  (∀ n, limit = Some n → holding (pr_phases p) ≤ n)%nat ∧
  (∀ c, pr_phases p !! c = Some Handling → is_Some (releaseSlot (pr_gate p))) ∧
  tracks (activeConn (pr_gate p)) (pr_phases p) ∧
  (pr_stage p = Stopped → pr_phases p = ∅ ∧ pr_gate p = fresh_gate limit).
Proof.
  intros Hr. pose proof Hr as (Hs & Hl & Ht & Hw & Hst)%server_inv_reachable. split_and!; try done.
  - intros c. apply (release_ready limit). by apply server_inv_reachable.
  - by apply server_stopped.
Qed.

(** How far a session still has to go, and [Start]. *)
Definition rank (ph : phase) : nat :=
  match ph with
  | Spawned => 5 | Tracked => 4 | Handling => 3 | Refusing => 2 | Leaving => 2 | Closed => 1
  end.

Definition stage_rank (st : stage) : nat :=
  match st with Accepting => 3 | Draining => 2 | Forced => 1 | Stopped => 0 end.

Definition left_to_do (p : proc) : nat := (map_sum rank (pr_phases p) + stage_rank (pr_stage p))%nat.

Lemma pstep_decreases p p' :
  pstep p p' → pr_stage p ≠ Accepting → (left_to_do p' < left_to_do p)%nat.
Proof.
  intros Hstep Hst. unfold left_to_do.
  destruct Hstep; cbn [pr_phases pr_stage stage_rank] in *; try done;
    rewrite ?map_sum_insert; try (match goal with Hc : _ !! ?c = Some _ |- _ =>
      rewrite (map_sum_lookup _ _ c _ Hc) end); cbn [rank]; try lia.
  all: match goal with Hor : _ ∨ _ |- _ => destruct Hor as [-> | ->] end; cbn; lia.
Qed.

(** A live session can always move. *)
Lemma session_moves limit p c ph :
  server_inv limit p → pr_phases p !! c = Some ph → ∃ p', pstep p p'.
Proof.
  intros Hi Hc. pose proof Hi as (_ & _ & _ & Hw & _). destruct p as [st g ps n cl]. cbn in *. destruct ph.
  - eexists. by apply (step_track _ c).
  - destruct (acquireSlot g) as [[] g'] eqn:E; eexists.
    + by eapply (step_acquire _ c).
    + by eapply (step_refuse _ c).
  - destruct (release_ready _ _ _ Hi Hc) as [g' Hr]. eexists. by eapply (step_release _ c).
  - eexists. eapply (step_untrack _ c); [done|by right].
  - eexists. eapply (step_untrack _ c); [done|by left].
  - destruct n as [|n]; [|eexists; by apply (step_done _ c)].
    symmetry in Hw. apply map_size_empty_inv in Hw. by rewrite Hw, lookup_empty in Hc.
Qed.

Lemma drain_moves limit p :
  server_inv limit p → pr_stage p ≠ Accepting → pr_stage p ≠ Stopped → ∃ p', pstep p p'.
Proof.
  intros Hi Ha Hs. destruct (map_choose_or_empty (pr_phases p)) as [(c & ph & Hc)|He];
    [by eapply session_moves|].
  destruct Hi as (_ & _ & _ & Hw & _). rewrite He, map_size_empty in Hw.
  destruct p as [st g ps n cl]. cbn in *. subst n. eexists. apply step_drained.
  destruct st; auto; done.
Qed.

Lemma pstep_not_accepting p p' : pstep p p' → pr_stage p ≠ Accepting → pr_stage p' ≠ Accepting.
Proof. by destruct 1. Qed.

Lemma drain_bound k p p' :
  nsteps pstep k p p' → pr_stage p ≠ Accepting → (k ≤ left_to_do p)%nat.
Proof.
  induction 1 as [|k p1 p2 p3 Hs _ IH]; intros Ha; [lia|].
  pose proof (pstep_decreases _ _ Hs Ha). specialize (IH (pstep_not_accepting _ _ Hs Ha)). lia.
Qed.

Lemma drain_stops limit p :
  server_inv limit p → pr_stage p ≠ Accepting → ∃ p', rtc pstep p p' ∧ pr_stage p' = Stopped.
Proof.
  remember (left_to_do p) as k eqn:Hk. revert p Hk.
  induction (lt_wf k) as [k _ IH]; intros p -> Hi Ha.
  destruct (decide (pr_stage p = Stopped)) as [Hs|Hs]; [by exists p|].
  destruct (drain_moves limit p Hi Ha Hs) as [p1 H1].
  destruct (IH (left_to_do p1) (pstep_decreases _ _ H1 Ha) p1 eq_refl) as (p' & Hr & Hstop).
  - by eapply pstep_inv.
  - by eapply pstep_not_accepting.
  - exists p'. split; [by eapply rtc_l|done].
Qed.

(** Once the listener is closed the server comes to a stop: as long as it has
    not, some goroutine can move, each move brings the end nearer, and so after at
    most [left_to_do] moves [Start] has returned.  (A session's stay in [handle] is
    one move here; [Process] takes it apart.) *)
Theorem drain_terminates limit p :
  rtc pstep (start (fresh_gate limit)) p → pr_stage p ≠ Accepting →
  (pr_stage p ≠ Stopped → ∃ p', pstep p p') ∧
  (∀ k p', nsteps pstep k p p' → (k ≤ left_to_do p)%nat) ∧
  ∃ p', rtc pstep p p' ∧ pr_stage p' = Stopped.
Proof.
  intros Hi%server_inv_reachable Ha. split_and!.
  - by apply (drain_moves limit).
  - intros k p' Hk. by eapply drain_bound.
  - by eapply drain_stops.
Qed.

(** One connection served while the server shuts down. *)
Definition one_draining : proc :=
  MkProc Draining (MkGate (Some (1, 1)%nat) {[7%nat]}) {[7%nat := Handling]} 1 ∅.

Lemma one_draining_reachable : rtc pstep (start (fresh_gate (Some 1%nat))) one_draining.
Proof.
  eapply rtc_l; [by apply (step_accept 7)|].
  eapply rtc_l; [by apply (step_track _ 7)|].
  eapply rtc_l; [by apply (step_acquire _ 7)|].
  eapply rtc_l; [apply step_shutdown|].
  unfold one_draining. match goal with |- rtc _ ?a ?b => replace a with b; [done|] end.
  by vm_compute.
Qed.

Lemma server_invariant_witness :
  (∀ n, Some 1%nat = Some n → holding {[7%nat := Handling]} ≤ n)%nat ∧
  (∀ c, ({[7%nat := Handling]} : gmap nat phase) !! c = Some Handling →
     is_Some (releaseSlot (pr_gate one_draining))) ∧
  tracks (activeConn (pr_gate one_draining)) {[7%nat := Handling]} ∧
  (Draining = Stopped → pr_phases one_draining = ∅ ∧ pr_gate one_draining = fresh_gate (Some 1%nat)).
Proof. apply (server_invariant (Some 1%nat) one_draining). apply one_draining_reachable. Defined.

Lemma drain_terminates_witness :
  (Draining ≠ Stopped → ∃ p', pstep one_draining p') ∧
  (∀ k p', nsteps pstep k one_draining p' → (k ≤ 5)%nat) ∧
  ∃ p', rtc pstep one_draining p' ∧ pr_stage p' = Stopped.
Proof.
  apply (drain_terminates (Some 1%nat) one_draining); [apply one_draining_reachable|discriminate].
Defined.
