(* ===== verification/RouteTable.v ===== *)
(** The rebuild loop that keeps the routing table in step with the cluster, and the
    notifications of changed decisions
    ([internal/controller/routetable.go]). *)

From stdpp Require Import base list gmap strings pretty relations.
From Stdlib Require Import ZArith Lia.
From S2P Require Import Prelude GoLib Api Registry.

Local Open Scope go_scope.

Definition DefaultDebounce : Z := 200 * 1000000.

(** What the cache holds: the routes, and the Services and Secrets as the resolver
    sees them. *)
Record cluster := MkCluster {
  cl_routes : list PostgresRoute;
  cl_resolver : Resolver
}.

(** [RouteTableBuilder]: its settings, the buffered trigger, the timer's deadline
    when a rebuild is pending ([pending] is the timer being armed), the store it
    publishes to, the gauge, and the queue of status events with its capacity,
    [None] for a nil channel. *)
Record RouteTableBuilder := MkBuilder {
  ClusterDomain : string;
  Debounce : Z;
  trigger : bool;
  timer : option Z;
  rt_Store : Store;
  routesGauge : Z;
  StatusEvents : option (nat * list NamespacedName)
}.

(** [schedule]: a send that does not block on a channel of depth one. *)
Definition schedule (b : RouteTableBuilder) : RouteTableBuilder :=
  MkBuilder (ClusterDomain b) (Debounce b) true (timer b) (rt_Store b) (routesGauge b)
    (StatusEvents b).

Section Notifications.
Context `{UnicodeTables}.

(** [errorMessage] and [decisionChanged]. *)
Definition errorMessage (err : option error) : string :=
  match err with None => "" | Some e => Error e end.

Definition decisionChanged (before now : Decision) : bool :=
  if negb (bool_decide (d_Database before = d_Database now))
     || negb (Bool.eqb (Accepted before) (Accepted now))
     || negb (bool_decide (ConflictsWith before = ConflictsWith now))
     || negb (bool_decide (Endpoint before = Endpoint now))
  then true
  else negb (bool_decide (errorMessage (ResolveErr before) = errorMessage (ResolveErr now))).

(** [notify]: a send that drops the event when the channel is full. *)
Definition notify (capacity : nat) (queue : list NamespacedName) (key : NamespacedName)
  : list NamespacedName :=
  if (length queue <? capacity)%nat then queue ++ [key] else queue.

(** The body of [notifyChanged]'s loop. *)
Definition notify_step (previous : Snapshot) (capacity : nat) (queue : list NamespacedName)
  (kd : NamespacedName * Decision) : list NamespacedName :=
  match Decisions previous !! kd.1 with
  | Some before =>
      if negb (decisionChanged before kd.2) then queue else notify capacity queue kd.1
  | None => notify capacity queue kd.1
  end.

(** [notifyChanged]; the order in which a Go map is traversed is arbitrary, and
    nothing below depends on the one taken here. *)
Definition notifyChanged (previous current : Snapshot) (events : option (nat * list NamespacedName))
  : option (nat * list NamespacedName) :=
  match events with
  | None => None
  | Some (capacity, queue) =>
      Some (capacity, fold_left (notify_step previous capacity)
                        (map_to_list (Decisions current)) queue)
  end.

(** [rebuild]: the routes it lists, or the error listing them gave. *)
Definition rebuild (ctx : context) (listed : result error (list PostgresRoute)) (R : Resolver)
  (b : RouteTableBuilder) : option error * RouteTableBuilder :=
  match listed with
  | Err err => (Some (Errorf [Lit "listing PostgresRoutes: "; PW err]), b)
  | Ok items =>
      let snapshot := Build ctx items (ClusterDomain b) in
      let previous := Load (rt_Store b) in
      (None,
       MkBuilder (ClusterDomain b) (Debounce b) (trigger b) (timer b)
         (Store_Store (rt_Store b) (Some snapshot))
         (match sn_Table snapshot with Some t => Z.of_nat (Len t) | None => 0 end)
         (notifyChanged previous snapshot (StatusEvents b)))
  end.

(** The two cases of [Start]'s loop that change the builder. *)
Definition on_trigger (now : Z) (b : RouteTableBuilder) : RouteTableBuilder :=
  MkBuilder (ClusterDomain b) (Debounce b) false
    (match timer b with None => Some (now + Debounce b) | Some t => Some t end)
    (rt_Store b) (routesGauge b) (StatusEvents b).

Definition on_timer (ctx : context) (listed : result error (list PostgresRoute)) (R : Resolver)
  (b : RouteTableBuilder) : option error * RouteTableBuilder :=
  rebuild ctx listed R
    (MkBuilder (ClusterDomain b) (Debounce b) (trigger b) None (rt_Store b) (routesGauge b)
       (StatusEvents b)).

(** ** The loop beside a changing cluster *)

(** The cache, informer events not yet delivered, the builder, the time, and
    whether the last rebuild failed. *)
Record system := MkSystem {
  sy_cluster : cluster;
  sy_undelivered : nat;
  sy_builder : RouteTableBuilder;
  sy_now : Z;
  sy_failed : bool
}.

Variable ctx : context.

(** The steps: the cache changes and an event is queued; an event handler calls
    [schedule]; time passes; the loop takes the trigger; the timer fires and the
    loop rebuilds, which succeeds or fails to list. *)
Inductive sstep : system → system → Prop :=
| sy_change cl cl' n b t f :
    sstep (MkSystem cl n b t f) (MkSystem cl' (S n) b t f)
| sy_deliver cl n b t f :
    sstep (MkSystem cl (S n) b t f) (MkSystem cl n (schedule b) t f)
| sy_tick cl n b t t' f :
    t < t' → sstep (MkSystem cl n b t f) (MkSystem cl n b t' f)
| sy_trigger cl n b t f :
    trigger b = true → sstep (MkSystem cl n b t f) (MkSystem cl n (on_trigger t b) t f)
| sy_rebuilt cl n b t f d :
    timer b = Some d → d <= t →
    sstep (MkSystem cl n b t f)
          (MkSystem cl n (on_timer ctx (Ok (cl_routes cl)) (cl_resolver cl) b).2 t false)
| sy_failure cl n b t f d err :
    timer b = Some d → d <= t →
    sstep (MkSystem cl n b t f)
          (MkSystem cl n (on_timer ctx (Err err) (cl_resolver cl) b).2 t true).

(** [Start] before its loop: the event handlers are registered, so [n] events may
    already be under way, and one rebuild is made up front, which can fail to list. *)
Definition started (cl : cluster) (n : nat) (b : RouteTableBuilder) (now : Z)
  (list_err : option error) : system :=
  let listed := match list_err with None => Ok (cl_routes cl) | Some err => Err err end in
  MkSystem cl n (rebuild ctx listed (cl_resolver cl) b).2 now (bool_decide (is_Some list_err)).

(** ** Notifications *)

(** The decision for a route is new or differs from the one before. *)
Definition affected (previous current : Snapshot) (k : NamespacedName) : Prop :=
  ∃ now, Decisions current !! k = Some now ∧
    ∀ before, Decisions previous !! k = Some before → decisionChanged before now = true.

Definition affected_of (previous : Snapshot) (kd : NamespacedName * Decision)
  : option NamespacedName :=
  match Decisions previous !! kd.1 with
  | Some before => if decisionChanged before kd.2 then Some kd.1 else None
  | None => Some kd.1
  end.

Lemma notify_fold previous capacity l queue :
  fold_left (notify_step previous capacity) l queue
  = queue ++ take (capacity - length queue) (omap (affected_of previous) l).
Proof.
  revert queue. induction l as [|kd l IH]; intros queue; cbn [fold_left].
  { cbn. by rewrite take_nil, app_nil_r. }
  rewrite IH. unfold notify_step, affected_of at 2. cbn [omap list_omap].
  assert (notify capacity queue kd.1
          ++ take (capacity - length (notify capacity queue kd.1)) (omap (affected_of previous) l)
          = queue ++ take (capacity - length queue) (kd.1 :: omap (affected_of previous) l)) as Hput.
  { unfold notify. destruct (length queue <? capacity)%nat eqn:E.
    - apply Nat.ltb_lt in E. rewrite length_app, <- app_assoc. cbn [length app].
      destruct (capacity - length queue)%nat as [|n] eqn:En; [lia|].
      replace (capacity - (length queue + 1))%nat with n by lia. done.
    - apply Nat.ltb_ge in E. by replace (capacity - length queue)%nat with 0%nat by lia. }
  destruct (Decisions previous !! kd.1) as [before|]; [|apply Hput].
  destruct (decisionChanged before kd.2); [apply Hput|done].
Qed.

Lemma affected_list previous current :
  NoDup (omap (affected_of previous) (map_to_list (Decisions current))) ∧
  ∀ k, k ∈ omap (affected_of previous) (map_to_list (Decisions current)) ↔ affected previous current k.
Proof.
  assert (∀ kd k, affected_of previous kd = Some k → k = kd.1) as Hfst.
  { intros kd k. unfold affected_of. repeat case_match; by intros [= <-]. }
  split.
  - pose proof (NoDup_fst_map_to_list (Decisions current)) as Hnd.
    induction (map_to_list (Decisions current)) as [|kd l IH]; cbn; [constructor|].
    apply NoDup_cons in Hnd as [Hni Hnd]. destruct (affected_of previous kd) as [k|] eqn:E; [|by apply IH].
    apply Hfst in E as ->. constructor; [|by apply IH].
    intros (kd' & Hin & Hk)%list_elem_of_omap. apply Hfst in Hk. apply Hni. rewrite Hk.
    by apply list_elem_of_fmap_2.
  - intros k. rewrite list_elem_of_omap. unfold affected, affected_of. split.
    + intros ([k' now] & Hin%elem_of_map_to_list & Hk). cbn in Hk. exists now.
      destruct (Decisions previous !! k') as [before|] eqn:E; [destruct (decisionChanged before now) eqn:Ec|];
        try done; injection Hk as <-; (split; [done|]); intros b Hb; congruence.
    + intros (now & Hk & Hb). exists (k, now). split; [by apply elem_of_map_to_list|]. cbn.
      destruct (Decisions previous !! k) as [before|]; [|done]. by rewrite (Hb before).
Qed.

(** A rebuild announces exactly the routes whose decision is new or changed,
    each once, as far as the queue has room: whatever exceeds the room is dropped,
    and nothing in the queue is lost or repeated. *)
Theorem notify_changed_spec previous current capacity queue :
  ∃ ks, NoDup ks ∧ (∀ k, k ∈ ks ↔ affected previous current k) ∧
    notifyChanged previous current (Some (capacity, queue))
    = Some (capacity, queue ++ take (capacity - length queue) ks).
Proof.
  destruct (affected_list previous current) as [Hnd Hin].
  eexists. split; [exact Hnd|]. split; [exact Hin|]. unfold notifyChanged. by rewrite notify_fold.
Qed.

Lemma decisionChanged_refl d : decisionChanged d d = false.
Proof.
  unfold decisionChanged. rewrite !bool_decide_eq_true_2, Bool.eqb_reflx by done. done.
Qed.

Lemma notify_unchanged snap events : notifyChanged snap snap events = events.
Proof.
  destruct events as [[capacity queue]|]; [|done]. unfold notifyChanged. rewrite notify_fold.
  destruct (omap (affected_of snap) (map_to_list (Decisions snap))) as [|k ks] eqn:E.
  - by rewrite take_nil, app_nil_r.
  - assert (affected snap snap k) as (now & Hk & Hch).
    { apply affected_list. rewrite E. left. }
    specialize (Hch now Hk). by rewrite decisionChanged_refl in Hch.
Qed.

(** What a successful rebuild leaves in the builder. *)
Lemma rebuild_ok items R b :
  rebuild ctx (Ok items) R b
  = (None, MkBuilder (ClusterDomain b) (Debounce b) (trigger b) (timer b)
             (MkStore (@Build R ctx items (ClusterDomain b)))
             (Z.of_nat (Len (default (MkTable ∅) (sn_Table (@Build R ctx items (ClusterDomain b))))))
             (notifyChanged (Load (rt_Store b)) (@Build R ctx items (ClusterDomain b))
                (StatusEvents b))).
Proof. done. Qed.

(** A rebuild publishes exactly the snapshot built from what the cache holds
    and reports its size; rebuilding an unchanged cluster changes nothing and
    announces nothing, so unresolvable routes are not reconciled for ever. *)
Theorem rebuild_idempotent cl b :
  let b1 := (rebuild ctx (Ok (cl_routes cl)) (cl_resolver cl) b).2 in
  let b2 := (rebuild ctx (Ok (cl_routes cl)) (cl_resolver cl) b1).2 in
  Load (rt_Store b1) = @Build (cl_resolver cl) ctx (cl_routes cl) (ClusterDomain b) ∧
  (∃ t, Routes (rt_Store b1) = Some t ∧ routesGauge b1 = Z.of_nat (Len t)) ∧
  b2 = b1.
Proof.
  cbn zeta. rewrite !rebuild_ok. cbn [snd rt_Store ClusterDomain Debounce trigger timer StatusEvents Load current].
  split_and!; [done|by eexists|]. by rewrite notify_unchanged.
Qed.

(** ** Convergence *)

(** The published snapshot is the one built from the cache as it is now. *)
Definition up_to_date (s : system) : Prop :=
  Load (rt_Store (sy_builder s))
  = @Build (cl_resolver (sy_cluster s)) ctx (cl_routes (sy_cluster s))
      (ClusterDomain (sy_builder s)).

(** Nothing is under way. *)
Definition quiescent (s : system) : Prop :=
  sy_undelivered s = 0%nat ∧ trigger (sy_builder s) = false ∧ timer (sy_builder s) = None.

Definition converging (s : system) : Prop :=
  up_to_date s ∨ sy_failed s = true ∨ ¬ quiescent s.

Lemma sstep_converging s s' : converging s → sstep s s' → converging s'.
Proof.
  intros Hc Hs. unfold converging, quiescent in *. destruct Hs; cbn in *.
  - right; right. by intros (? & _).
  - right; right. by intros (_ & ? & _).
  - done.
  - right; right. intros (_ & _ & Ht). by destruct (timer b).
  - left. done.
  - by right; left.
Qed.

Lemma converged_run cl n b now list_err s :
  rtc sstep (started cl n b now list_err) s → quiescent s → sy_failed s = false → up_to_date s.
Proof.
  intros Hr Hq Hf. assert (converging s) as [?|[?|?]]; [|done|congruence|done].
  assert (converging (started cl n b now list_err)) as Hi
    by (destruct list_err; [by right; left|by left]). revert Hi.
  induction Hr as [|s1 s2 s3 Hs _ IH]; [done|]. intros Hi. by apply IH; [..|eapply sstep_converging].
Qed.

(** No change of the cluster is lost: in every interleaving of changes, event
    deliveries, triggers and timers, once nothing is under way and the last rebuild
    did not fail, the published table is the one built from the current cluster. *)
Theorem table_converges cl n b now list_err s :
  rtc sstep (started cl n b now list_err) s → quiescent s → sy_failed s = false → up_to_date s.
Proof. apply converged_run. Qed.

Lemma deliver_all cl n b t f :
  rtc sstep (MkSystem cl n b t f) (MkSystem cl 0 (match n with O => b | S _ => schedule b end) t f).
Proof.
  revert b. induction n as [|n IH]; intros b; [done|]. eapply rtc_l; [apply sy_deliver|].
  specialize (IH (schedule b)). by destruct n.
Qed.

(** The time at which a pending rebuild is due. *)
Definition due (s : system) : Z :=
  Z.max (sy_now s) (default (sy_now s + Debounce (sy_builder s)) (timer (sy_builder s))).

(** From an armed timer to the rebuilt table. *)
Lemma fire cl b t f d :
  trigger b = false → timer b = Some d →
  ∃ s', rtc sstep (MkSystem cl 0 b t f) s' ∧ sy_cluster s' = cl ∧ quiescent s' ∧
    up_to_date s' ∧ sy_failed s' = false ∧ sy_now s' = Z.max t d.
Proof.
  intros Htr Ht.
  assert (rtc sstep (MkSystem cl 0 b t f) (MkSystem cl 0 b (Z.max t d) f)) as Hwait.
  { destruct (Z.lt_ge_cases t d).
    - apply rtc_once, sy_tick. lia.
    - by replace (Z.max t d) with t by lia. }
  eexists. split; [eapply rtc_r; [exact Hwait|eapply (sy_rebuilt _ _ _ _ _ d); [done|lia]]|].
  split_and!; done.
Qed.

(** A pending rebuild is never starved: whatever else happens, its deadline
    stays put until it fires, and if nothing changes meanwhile the system reaches,
    by the deadline, a state in which nothing is under way and the table is up to
    date. *)
Theorem rebuild_not_starved s :
  (∀ s' d, sstep s s' → timer (sy_builder s) = Some d →
     timer (sy_builder s') = Some d ∨
     (d <= sy_now s ∧ timer (sy_builder s') = None ∧ (sy_failed s' = true ∨ up_to_date s'))) ∧
  (¬ quiescent s →
     ∃ s', rtc sstep s s' ∧ sy_cluster s' = sy_cluster s ∧ quiescent s' ∧ up_to_date s' ∧
       sy_failed s' = false ∧ sy_now s' <= due s).
Proof.
  split.
  - intros s' d Hs Ht. destruct Hs; cbn in *; try by left.
    + left. by rewrite Ht.
    + right. split_and!; [congruence|done|by right].
    + right. split_and!; [congruence|done|by left].
  - intros Hq. destruct s as [cl n b t f]. unfold due. cbn [sy_cluster sy_builder sy_now].
    set (b1 := match n with O => b | S _ => schedule b end).
    pose proof (deliver_all cl n b t f) as Hdel. fold b1 in Hdel.
    assert (timer b1 = timer b ∧ Debounce b1 = Debounce b) as [Ht1 Hd1] by (by destruct n).
    destruct (trigger b1) eqn:Etr.
    + destruct (fire cl (on_trigger t b1) t f (default (t + Debounce b) (timer b)))
        as (s' & Hr & Hcl & Hqs & Hup & Hf & Hn); [done|cbn; rewrite Ht1, Hd1; by destruct (timer b)|].
      exists s'. split_and!; try done; [|by rewrite Hn].
      etrans; [exact Hdel|]. eapply rtc_l; [by apply sy_trigger|done].
    + destruct (timer b) as [d|] eqn:Ed.
      * destruct (fire cl b1 t f d) as (s' & Hr & Hcl & Hqs & Hup & Hf & Hn); [done|by rewrite Ht1|].
        exists s'. split_and!; try done; [by etrans|by rewrite Hn].
      * exfalso. apply Hq. unfold quiescent. cbn. subst b1. by destruct n.
Qed.
End Notifications.

(** ** A sample run *)

#[local] Instance sample_tables : UnicodeTables := λ _, true.

Definition sample_cluster (rs : list PostgresRoute) : cluster := MkCluster rs sample_resolver.

Definition sample_builder : RouteTableBuilder :=
  MkBuilder "cluster.local" DefaultDebounce false None NewStore 0 (Some (2%nat, [])).

(** A route appears; its event is delivered, taken and debounced, and the table
    rebuilt. *)
Definition after_change : system :=
  MkSystem (sample_cluster [by_hand]) 0
    (on_timer no_deadline (Ok [by_hand]) sample_resolver
       (on_trigger 5 (schedule (rebuild no_deadline (Ok []) sample_resolver sample_builder).2))).2
    (5 + DefaultDebounce) false.

Lemma after_change_reachable :
  rtc (sstep no_deadline) (started no_deadline (sample_cluster []) 0 sample_builder 5 None) after_change.
Proof.
  eapply rtc_l; [apply (sy_change _ _ (sample_cluster [by_hand]))|].
  eapply rtc_l; [apply sy_deliver|]. eapply rtc_l; [by apply sy_trigger|].
  eapply rtc_l; [by apply (sy_tick _ _ _ _ _ (5 + DefaultDebounce))|].
  apply rtc_once. by eapply (sy_rebuilt no_deadline (sample_cluster [by_hand])).
Qed.

Lemma table_converges_witness : up_to_date no_deadline after_change.
Proof.
  apply (table_converges no_deadline (sample_cluster []) 0 sample_builder 5 None after_change).
  - apply after_change_reachable.
  - by split_and!.
  - reflexivity.
Defined.
