(* ===== verification/Staleness.v ===== *)
(** How old the routing table in force can be ([internal/controller/routetable.go]):
    the builder's loop of [RouteTable] on a clock, in an environment that delivers a
    watch event, takes a trigger and runs a due rebuild each within [latency], while the
    cluster may change at any time and any number of times. *)

From stdpp Require Import base list gmap strings pretty relations.
From Stdlib Require Import ZArith Lia.
From S2P Require Import Prelude GoLib Api Registry RouteTable.

Local Open Scope go_scope.

(** The system, the times at which the undelivered events were queued, since when the
    trigger is set, and the first change that no rebuild has seen yet: when it happened,
    and the cluster before it. *)
Record clocked := MkClocked {
  ck_sys : system;
  ck_events : list Z;
  ck_set : option Z;
  ck_unseen : option (Z * cluster)
}.

Section Staleness.
Context `{UnicodeTables}.
Variable ctx : context.
Variable latency : Z.

(** The clock may go on to [t'] if by then nothing has been waiting for longer than
    [latency]. *)
Definition may_wait (k : clocked) (t' : Z) : Prop :=
  Forall (λ e, t' <= e + latency) (ck_events k) ∧
  (∀ r, ck_set k = Some r → t' <= r + latency) ∧
  (∀ d, timer (sy_builder (ck_sys k)) = Some d → t' <= d + latency).

(** The steps of [sstep], with the times they happen at. *)
Inductive kstep : clocked → clocked → Prop :=
| k_change cl cl' b t f es r u :
    kstep (MkClocked (MkSystem cl (length es) b t f) es r u)
          (MkClocked (MkSystem cl' (S (length es)) b t f) (t :: es) r (Some (default (t, cl) u)))
| k_deliver cl b t f es e es' r u :
    kstep (MkClocked (MkSystem cl (S (length (es ++ es'))) b t f) (es ++ e :: es') r u)
          (MkClocked (MkSystem cl (length (es ++ es')) (schedule b) t f) (es ++ es')
             (Some (default t r)) u)
| k_tick cl n b t t' f es r u :
    t < t' → may_wait (MkClocked (MkSystem cl n b t f) es r u) t' →
    kstep (MkClocked (MkSystem cl n b t f) es r u) (MkClocked (MkSystem cl n b t' f) es r u)
| k_trigger cl n b t f es r u :
    trigger b = true →
    kstep (MkClocked (MkSystem cl n b t f) es r u) (MkClocked (MkSystem cl n (on_trigger t b) t f) es None u)
| k_rebuilt cl n b t f es r u d :
    timer b = Some d → d <= t →
    kstep (MkClocked (MkSystem cl n b t f) es r u)
          (MkClocked (MkSystem cl n (on_timer ctx (Ok (cl_routes cl)) (cl_resolver cl) b).2 t false) es r None)
| k_failure cl n b t f es r u d err :
    timer b = Some d → d <= t →
    kstep (MkClocked (MkSystem cl n b t f) es r u)
          (MkClocked (MkSystem cl n (on_timer ctx (Err err) (cl_resolver cl) b).2 t true) es r u).

(** [Start] before its loop, with the events [es] under way already. *)
Definition clock_start (cl : cluster) (es : list Z) (b : RouteTableBuilder) (now : Z)
  (list_err : option error) : clocked :=
  MkClocked (started ctx cl (length es) b now list_err) es None None.

(** The clock only restricts when things happen. *)
Lemma kstep_sstep k k' : kstep k k' → sstep ctx (ck_sys k) (ck_sys k').
Proof.
  destruct 1 as [| | | |cl n b t f es r u d Ht Hdt|cl n b t f es r u d err Ht Hdt]; cbn; [apply sy_change|apply sy_deliver|by apply sy_tick|by apply sy_trigger
    |by eapply sy_rebuilt|by apply (sy_failure _ _ _ _ _ _ d err)].
Qed.

Lemma kstep_run k k' : rtc kstep k k' → rtc (sstep ctx) (ck_sys k) (ck_sys k').
Proof. induction 1; [done|]. eapply rtc_l; [by apply kstep_sstep|done]. Qed.

(** The snapshot published for a cluster. *)
Definition published_for (k : clocked) (cl : cluster) : Prop :=
  Load (rt_Store (sy_builder (ck_sys k)))
  = @Build (cl_resolver cl) ctx (cl_routes cl) (ClusterDomain (sy_builder (ck_sys k))).

(** A rebuild that will see a change made at [c] is under way: its timer is set, or its
    trigger, or its event is queued. *)
Definition under_way (k : clocked) (c : Z) : Prop :=
  (∃ d, timer (sy_builder (ck_sys k)) = Some d ∧
     d <= c + 2 * latency + Debounce (sy_builder (ck_sys k))) ∨
  (∃ r, ck_set k = Some r ∧ r <= c + latency) ∨
  (∃ e, e ∈ ck_events k ∧ e <= c).

Record clocked_inv (D : Z) (k : clocked) : Prop := {
  ci_debounce : Debounce (sy_builder (ck_sys k)) = D;
  ci_set : trigger (sy_builder (ck_sys k)) = true ↔ is_Some (ck_set k);
  ci_since : ∀ r, ck_set k = Some r → r <= sy_now (ck_sys k);
  ci_now : may_wait k (sy_now (ck_sys k));
  ci_timer : ∀ d, timer (sy_builder (ck_sys k)) = Some d → d <= sy_now (ck_sys k) + D;
  ci_past : ∀ c cl, ck_unseen k = Some (c, cl) → c <= sy_now (ck_sys k);
  ci_seen : sy_failed (ck_sys k) = false →
    match ck_unseen k with
    | None => published_for k (sy_cluster (ck_sys k))
    | Some (c, cl) => published_for k cl ∧ under_way k c
    end
}.

Lemma kstep_inv D k k' :
  0 <= latency → 0 <= D → clocked_inv D k → kstep k k' → clocked_inv D k'.
Proof.
  intros Hlat HD [Hd Hset Hsince Hnow Htm Hpast Hseen] Hs. destruct Hs as [cl cl' b t f es r u|cl b t f es e es' r u
    |cl n b t t' f es r u Hlt Hw|cl n b t f es r u Htr|cl n b t f es r u d Ht Hdt|cl n b t f es r u d err Ht Hdt];
    unfold may_wait in *; cbn in *.
  - destruct Hnow as (He & Hr & Hdl). split; cbn; try done.
    + split_and!; [constructor; [lia|done]|done..].
    + intros c cl0. destruct u as [[c' cl1]|]; cbn; intros [= <- <-]; [by eapply Hpast|lia].
    + intros Hf. specialize (Hseen Hf). destruct u as [[c cl0]|]; cbn.
      * destruct Hseen as (Hp & Hu). split; [done|]. unfold under_way in *. cbn in *.
        destruct Hu as [?|[?|(e & He' & Hle)]]; [by left|by right; left|].
        right; right. exists e. split; [by right|done].
      * split; [done|]. right; right. exists t. split; [by left|lia].
  - destruct Hnow as (He & Hr & Hdl). rewrite Forall_app, Forall_cons in He.
    destruct He as (He1 & He & He2).
    assert (t <= default t r + latency) as Hdef by (destruct r as [r|]; cbn; [by apply Hr|lia]).
    split; cbn; try done.
    + intros x [= <-]. destruct r as [r|]; cbn; [by apply Hsince|lia].
    + split_and!; [by apply Forall_app| |done]. by intros x [= <-].
    + intros Hf. specialize (Hseen Hf). destruct u as [[c cl0]|]; [|done].
      destruct Hseen as (Hp & Hu). split; [done|]. unfold under_way in *. cbn in *.
      destruct Hu as [?|[(x & -> & Hx)|(x & Hin & Hx)]]; [by left|by right; left; eexists|].
      destruct (decide (x = e)) as [->|Hne].
      * right; left. eexists. split; [done|]. destruct r as [r|]; cbn; [specialize (Hsince r eq_refl)|]; lia.
      * right; right. exists x. split; [|done]. set_solver.
  - split; cbn; try done.
    + intros x Hx. specialize (Hsince x Hx). lia.
    + intros d Hdt. specialize (Htm d Hdt). lia.
    + intros c cl0 Hu. specialize (Hpast c cl0 Hu). lia.
  - destruct Hnow as (He & Hr & Hdl).
    assert (∀ d, match timer b with Some d => Some d | None => Some (t + Debounce b) end = Some d →
              d <= t + D ∧ t <= d + latency) as Htimer.
    { intros d. destruct (timer b) as [d0|]; intros [= <-]; [|lia]. split; [by apply Htm|by apply Hdl]. }
    split; cbn; try done.
    + split_and!; [done|done|]. intros d Hx. by apply Htimer.
    + intros d Hx. by apply Htimer.
    + intros Hf. specialize (Hseen Hf). destruct u as [[c cl0]|]; [|done].
      destruct Hseen as (Hp & Hu). split; [done|]. unfold under_way in *. cbn in *.
      destruct Hu as [(d & Hx & Hle)|[(x & Hx & Hle)|?]]; [|specialize (Hr x Hx)|by right; right].
      * left. exists d. by rewrite Hx.
      * left. destruct (timer b) as [d|]; eexists; (split; [done|]); [specialize (Htm d eq_refl)|]; lia.
  - split; cbn; try done. split_and!; [apply Hnow..|done].
  - split; cbn; try done. split_and!; [apply Hnow..|done].
Qed.

Lemma clocked_inv_start cl es b now list_err :
  trigger b = false → timer b = None → Forall (λ e, now <= e + latency) es →
  clocked_inv (Debounce b) (clock_start cl es b now list_err).
Proof.
  intros Htr Ht He. unfold clock_start, started. split; cbn; try done.
  - by destruct list_err.
  - destruct list_err; cbn; rewrite Htr; (split; [done|by intros [? ?]]).
  - split_and!; [done|done|]. intros d. destruct list_err; cbn; by rewrite Ht.
  - intros d. destruct list_err; cbn; by rewrite Ht.
  - destruct list_err; cbn; [done|]. by intros _.
Qed.

(** The cluster [cl] is the one of now, or the one before a change that is at most [D]
    and three latencies old. *)
Definition recent (D : Z) (k : clocked) (cl : cluster) : Prop :=
  match ck_unseen k with
  | None => cl = sy_cluster (ck_sys k)
  | Some (c, cl0) => cl = cl0 ∧ c <= sy_now (ck_sys k) <= c + D + 3 * latency
  end.

Lemma clocked_run D k k' :
  0 <= latency → 0 <= D → clocked_inv D k → rtc kstep k k' → clocked_inv D k'.
Proof. intros Hlat HD Hi Hr. induction Hr as [|k1 k2 k3 Hs _ IH]; [done|]. apply IH. by eapply kstep_inv. Qed.

Lemma clocked_recent D k :
  0 <= latency → 0 <= D → clocked_inv D k → sy_failed (ck_sys k) = false →
  ∃ cl, recent D k cl ∧ published_for k cl.
Proof.
  intros Hlat HD [Hd _ _ (Hev & Hset & Hdl) _ Hpast Hseen] Hf.
  specialize (Hseen Hf). unfold recent. destruct (ck_unseen k) as [[c cl0]|]; [|by eexists].
  destruct Hseen as (Hp & Hu). exists cl0. split; [|done]. split; [done|]. split; [by eapply Hpast|].
  unfold under_way in Hu. rewrite Hd in Hu.
  destruct Hu as [(d & Hx & Hle)|[(r & Hx & Hle)|(e & Hx & Hle)]].
  - specialize (Hdl d Hx). lia.
  - specialize (Hset r Hx). lia.
  - rewrite Forall_forall in Hev. specialize (Hev e Hx). lia.
Qed.

Lemma staleness_run cl es b now list_err k :
  0 <= latency → 0 <= Debounce b → trigger b = false → timer b = None →
  Forall (λ e, now <= e + latency) es →
  rtc kstep (clock_start cl es b now list_err) k → sy_failed (ck_sys k) = false →
  ∃ cl', recent (Debounce b) k cl' ∧ published_for k cl'.
Proof.
  intros Hlat HD Htr Ht He Hr Hf. apply clocked_recent; [done..| |done].
  eapply clocked_run; [done..| |exact Hr]. by apply clocked_inv_start.
Qed.

(** The table in force is never older than the debounce and three latencies.  In
    every run of the builder's loop, whatever changes and whenever, if no listing has
    failed since: the published snapshot is the one built from the cluster as it is now,
    or from the cluster as it was before a change that is at most [Debounce] and three
    times [latency] old, one for delivering the event, one for taking the trigger and
    one for the timer.  So once the cluster has been left alone for that long the table
    is that of the cluster. *)
Theorem staleness_bounded cl es b now list_err k :
  0 <= latency → 0 <= Debounce b → trigger b = false → timer b = None →
  Forall (λ e, now <= e + latency) es →
  rtc kstep (clock_start cl es b now list_err) k → sy_failed (ck_sys k) = false →
  rtc (sstep ctx) (started ctx cl (length es) b now list_err) (ck_sys k) ∧
  match ck_unseen k with
  | None => published_for k (sy_cluster (ck_sys k))
  | Some (c, cl0) =>
      published_for k cl0 ∧ c <= sy_now (ck_sys k) <= c + Debounce b + 3 * latency
  end.
Proof.
  intros Hlat HD Htr Ht He Hr Hf. split; [by apply kstep_run in Hr|].
  destruct (staleness_run cl es b now list_err k Hlat HD Htr Ht He Hr Hf) as (cl' & Hrec & Hp).
  unfold recent in Hrec. destruct (ck_unseen k) as [[c cl0]|]; [|by subst].
  destruct Hrec as [-> Hb]. by split.
Qed.
End Staleness.

(** ** A sample run *)

#[local] Existing Instance sample_tables.

(** A route appeared at 5 and the rebuild for it is due: the table is 200 ms old. *)
Definition due_rebuild : clocked :=
  MkClocked
    (MkSystem (sample_cluster [by_hand]) 0
       (on_trigger 5 (schedule (rebuild no_deadline (Ok []) sample_resolver sample_builder).2))
       (5 + DefaultDebounce) false)
    [] None (Some (5, sample_cluster [])).

Lemma due_rebuild_reachable :
  rtc (kstep no_deadline 3) (clock_start no_deadline (sample_cluster []) [] sample_builder 5 None) due_rebuild.
Proof.
  eapply rtc_l; [apply (k_change _ _ _ (sample_cluster [by_hand]))|].
  eapply rtc_l; [apply (k_deliver _ _ _ _ _ _ [] 5 [])|].
  eapply rtc_l; [by apply k_trigger|].
  eapply rtc_l; [apply (k_tick _ _ _ _ _ _ (5 + DefaultDebounce)); [done|]|].
  { split_and!; [done|done|]. intros d [= <-]. cbn. lia. }
  done.
Qed.

Lemma staleness_bounded_witness :
  rtc (sstep no_deadline) (started no_deadline (sample_cluster []) 0 sample_builder 5 None)
    (ck_sys due_rebuild) ∧
  published_for no_deadline due_rebuild (sample_cluster []) ∧
  5 <= 5 + DefaultDebounce <= 5 + DefaultDebounce + 3 * 3.
Proof.
  apply (staleness_bounded no_deadline 3 (sample_cluster []) [] sample_builder 5 None due_rebuild);
    try reflexivity; try done.
  exact due_rebuild_reachable.
Defined.
