(* ===== verification/RouteStatus.v ===== *)
(** The status reconciler: publishing the routing decision of each route into its
    status ([internal/controller/postgresroute_controller.go]). *)

From stdpp Require Import base list gmap strings pretty.
From Stdlib Require Import ZArith Lia.
From S2P Require Import Prelude GoLib Api Registry Resolver RouteTable.

Local Open Scope go_scope.

(** ** What the reconcilers call *)

(** Functions of the Kubernetes libraries. *)
Class KubeMeta := {
  NamespacedName_String : NamespacedName → string;
  SetStatusCondition : list Condition → Condition → list Condition;
  FindStatusCondition : list Condition → string → option Condition;
  IsConflict : error → bool
}.

(** Two conditions that differ at most in their transition time. *)
Definition same_condition (a b : Condition) : Prop :=
  c_Type a = c_Type b ∧ c_Status a = c_Status b ∧ c_Reason a = c_Reason b ∧
  c_Message a = c_Message b ∧ c_ObservedGeneration a = c_ObservedGeneration b.

Definition condition_types (l : list Condition) : list string := map c_Type l.

(** Their documented behaviour: [FindStatusCondition] finds the condition of a
    type; [SetStatusCondition] updates the condition of the type in place, all
    fields but the transition time, or appends it, and leaves the others alone. *)
Class KubeMetaOk `{KubeMeta} : Prop := {
  find_elem : ∀ l t c, FindStatusCondition l t = Some c → c ∈ l ∧ c_Type c = t;
  find_unique : ∀ l c, NoDup (condition_types l) → c ∈ l →
    FindStatusCondition l (c_Type c) = Some c;
  set_types : ∀ l c, condition_types (SetStatusCondition l c)
    = condition_types l ++ (if decide (c_Type c ∈ condition_types l) then [] else [c_Type c]);
  find_set_same : ∀ l c, ∃ c',
    FindStatusCondition (SetStatusCondition l c) (c_Type c) = Some c' ∧ same_condition c' c;
  find_set_other : ∀ l c t, t ≠ c_Type c →
    FindStatusCondition (SetStatusCondition l c) t = FindStatusCondition l t
}.

Definition ConditionTrue : string := "True".
Definition ConditionFalse : string := "False".

(** [ctrl.Result]. *)
Record Result := MkResult { Requeue : bool; RequeueAfter : Z }.
Definition zero_result : Result := MkResult false 0.

Section RouteStatus.
Context `{KubeReader} `{KubeMeta} `{UnicodeTables}.

(** [client.IgnoreNotFound]. *)
Definition IgnoreNotFound (err : error) : option error :=
  if IsNotFound err then None else Some err.

(** [resolveFailureReason]. *)
Definition resolveFailureReason (err : error) : string :=
  if Is err ErrBackendNotFound || IsNotFound err then ReasonBackendNotFound
  else if Is err ErrPortNotFound then ReasonPortNotFound
  else if Is err ErrCABundle then ReasonCABundleFailed
  else ReasonInvalidBackend.

(** [equalStatus]. *)
Definition equalStatus (a b : PostgresRouteStatus) : bool :=
  if negb (ObservedGeneration a =? ObservedGeneration b)
     || negb (bool_decide (st_Database a = st_Database b))
     || negb (bool_decide (st_Endpoint a = st_Endpoint b))
     || negb (bool_decide (st_ConflictingRoute a = st_ConflictingRoute b))
     || negb (length (Conditions a) =? length (Conditions b))%nat
  then false
  else forallb (λ want,
    match FindStatusCondition (Conditions a) (c_Type want) with
    | None => false
    | Some got =>
        bool_decide (c_Status got = c_Status want) && bool_decide (c_Reason got = c_Reason want)
        && bool_decide (c_Message got = c_Message want)
        && (c_ObservedGeneration got =? c_ObservedGeneration want)
    end) (Conditions b).

(** The three conditions of [applyConditions], in the order they are set. *)
Definition accepted_condition (generation : Z) (d : Decision) : Condition :=
  if Accepted d then
    MkCondition ConditionAccepted ConditionTrue generation 0 ReasonAccepted
      (Sprintf [Lit "This route owns the database name "; PQ (d_Database d); Lit "."])
  else
    MkCondition ConditionAccepted ConditionFalse generation 0 ReasonDatabaseConflict
      (Sprintf [Lit "Database name "; PQ (d_Database d); Lit " is already claimed by ";
                PS (NamespacedName_String (ConflictsWith d));
                Lit ", which has a higher priority or is older."]).

Definition resolved_condition (generation : Z) (d : Decision) : Condition :=
  if negb (Accepted d) then
    MkCondition ConditionResolved ConditionFalse generation 0 ReasonDatabaseConflict
      "The backend was not resolved because the route did not win its database name."
  else
    match ResolveErr d with
    | Some err =>
        MkCondition ConditionResolved ConditionFalse generation 0 (resolveFailureReason err)
          (Error err)
    | None =>
        MkCondition ConditionResolved ConditionTrue generation 0 ReasonResolved
          (Sprintf [Lit "The backend resolved to "; PS (Endpoint d); Lit "."])
    end.

Definition programmed_condition (generation : Z) (d : Decision) : Condition :=
  if Programmed d then
    MkCondition ConditionProgrammed ConditionTrue generation 0 ReasonProgrammed
      (Sprintf [Lit "Connections to database "; PQ (d_Database d); Lit " are routed to ";
                PS (Endpoint d); Lit "."])
  else
    MkCondition ConditionProgrammed ConditionFalse generation 0 ReasonNotProgrammed
      "The gateway is not routing connections for this route.".

(** [applyConditions]. *)
Definition applyConditions (status : PostgresRouteStatus) (route : PostgresRoute) (d : Decision)
  : PostgresRouteStatus :=
  let generation := Generation (Meta route) in
  let '(endpoint, conflicting) :=
    if Accepted d then (st_Endpoint status, st_ConflictingRoute status)
    else ("", NamespacedName_String (ConflictsWith d)) in
  let conditions := SetStatusCondition (Conditions status) (accepted_condition generation d) in
  let conditions := SetStatusCondition conditions (resolved_condition generation d) in
  let conditions := SetStatusCondition conditions (programmed_condition generation d) in
  MkStatus (ObservedGeneration status) (st_Database status) endpoint conflicting conditions.

(** The status [Reconcile] wants the route to have. *)
Definition desired_status (route : PostgresRoute) (d : Decision) : PostgresRouteStatus :=
  applyConditions
    (MkStatus (Generation (Meta route)) (d_Database d) (Endpoint d) "" (Conditions (Status route)))
    route d.

(** [Reconcile], given what reading the route and patching its status will
    return: the result, the error, and the route it patched, if it did. *)
Definition Reconcile (get : result error PostgresRoute) (patch : PostgresRoute → option error)
  (store : Store) (req : NamespacedName) : Result * option error * option PostgresRoute :=
  match get with
  | Err err => (zero_result, IgnoreNotFound err, None)
  | Ok route =>
      if bool_decide (DeletionTimestamp (Meta route) ≠ None) then (zero_result, None, None)
      else
        match Snapshot_Decision (Load store) req with
        | None => (MkResult false (2 * DefaultDebounce), None, None)
        | Some decision =>
            let desired := desired_status route decision in
            if equalStatus (Status route) desired then (zero_result, None, None)
            else
              let route' := MkRoute (Meta route) (Spec route) desired in
              match patch route' with
              | Some err =>
                  if IsConflict err then (zero_result, None, Some route')
                  else (zero_result,
                        Some (Errorf [Lit "patching PostgresRoute status: "; PW err]),
                        Some route')
              | None => (zero_result, None, Some route')
              end
        end
  end.
End RouteStatus.

(** ** Properties *)

Section StatusProperties.
Context `{KubeReader} `{KubeMeta} `{UnicodeTables} `{!KubeMetaOk}.

(** The condition a status reports for a type is [c], up to its transition time. *)
Definition reports (s : PostgresRouteStatus) (c : Condition) : Prop :=
  ∃ c', FindStatusCondition (Conditions s) (c_Type c) = Some c' ∧ same_condition c' c.

Lemma accepted_type g d : c_Type (accepted_condition g d) = ConditionAccepted.
Proof. unfold accepted_condition. by case_match. Qed.
Lemma resolved_type g d : c_Type (resolved_condition g d) = ConditionResolved.
Proof. unfold resolved_condition. by repeat case_match. Qed.
Lemma programmed_type g d : c_Type (programmed_condition g d) = ConditionProgrammed.
Proof. unfold programmed_condition. by case_match. Qed.

Lemma Conditions_apply s r d :
  Conditions (applyConditions s r d)
  = SetStatusCondition
      (SetStatusCondition
         (SetStatusCondition (Conditions s) (accepted_condition (Generation (Meta r)) d))
         (resolved_condition (Generation (Meta r)) d))
      (programmed_condition (Generation (Meta r)) d).
Proof. unfold applyConditions. by destruct (Accepted d). Qed.

(** The status after [applyConditions], read back condition by condition. *)
Lemma desired_reports r d :
  let s := desired_status r d in
  let g := Generation (Meta r) in
  reports s (accepted_condition g d) ∧ reports s (resolved_condition g d) ∧
  reports s (programmed_condition g d) ∧
  (∀ t, t ≠ ConditionAccepted → t ≠ ConditionResolved → t ≠ ConditionProgrammed →
     FindStatusCondition (Conditions s) t = FindStatusCondition (Conditions (Status r)) t).
Proof.
  intros s g. unfold reports. subst s. unfold desired_status. rewrite Conditions_apply. fold g.
  cbn [Conditions].
  pose proof (accepted_type g d) as Ha. pose proof (resolved_type g d) as Hr.
  pose proof (programmed_type g d) as Hp. split_and!.
  - rewrite find_set_other by (rewrite Ha, Hp; done). rewrite find_set_other by (rewrite Ha, Hr; done).
    apply find_set_same.
  - rewrite find_set_other by (rewrite Hr, Hp; done). apply find_set_same.
  - apply find_set_same.
  - intros t Hn1 Hn2 Hn3. by rewrite !find_set_other by congruence.
Qed.

(** Reading a condition of a desired status. *)
Lemma reported_status s c :
  reports s c → ∃ c', FindStatusCondition (Conditions s) (c_Type c) = Some c' ∧
    c_Status c' = c_Status c ∧ c_Reason c' = c_Reason c.
Proof. intros (c' & Hf & _ & Hs & Hr & _). eauto. Qed.

(** The status of a condition type, if the condition is there. *)
Definition condition_status (s : PostgresRouteStatus) (t : string) : option string :=
  c_Status <$> FindStatusCondition (Conditions s) t.
Definition condition_reason (s : PostgresRouteStatus) (t : string) : option string :=
  c_Reason <$> FindStatusCondition (Conditions s) t.

(** The status says what the decision is. *)
Definition reported (s : PostgresRouteStatus) (d : Decision) : Prop :=
  condition_status s ConditionAccepted
    = Some (if Accepted d then ConditionTrue else ConditionFalse) ∧
  condition_status s ConditionResolved
    = Some (if Programmed d then ConditionTrue else ConditionFalse) ∧
  condition_status s ConditionProgrammed
    = Some (if Programmed d then ConditionTrue else ConditionFalse) ∧
  st_Endpoint s = (if Accepted d then Endpoint d else "") ∧
  st_ConflictingRoute s = (if Accepted d then "" else NamespacedName_String (ConflictsWith d)).

Lemma desired_reported r d : reported (desired_status r d) d.
Proof.
  pose proof (desired_reports r d) as (Ha & Hr & Hp & _). set (s := desired_status r d) in *.
  apply reported_status in Ha as (ca & Hfa & Hsa & _). apply reported_status in Hr as (cr & Hfr & Hsr & _).
  apply reported_status in Hp as (cp & Hfp & Hsp & _).
  rewrite accepted_type in Hfa. rewrite resolved_type in Hfr. rewrite programmed_type in Hfp.
  unfold reported, condition_status. rewrite Hfa, Hfr, Hfp. cbn [fmap option_fmap option_map].
  rewrite Hsa, Hsr, Hsp. subst s. unfold desired_status, applyConditions.
  unfold accepted_condition, resolved_condition, programmed_condition, Programmed.
  destruct (Accepted d); destruct (ResolveErr d); by split_and!.
Qed.

(** A status that tells the truth about the data plane for a snapshot built from
    [rs]: accepted exactly when the route owns its database name, programmed exactly
    when the table serves that database from it, then with the address the table
    has, and otherwise with the name of the route that owns the database. *)
Definition truthful `{Resolver} (ctx : context) (rs : list PostgresRoute) (cd : string)
  (r : PostgresRoute) (s : PostgresRouteStatus) : Prop :=
  (condition_status s ConditionAccepted = Some ConditionTrue ↔ owns rs r) ∧
  (condition_status s ConditionProgrammed = Some ConditionTrue ↔
     ∃ rt, (t ← sn_Table (Build ctx rs cd); Lookup t (EffectiveDatabase r)) = Some rt ∧
       Source rt = route_key r ∧ st_Endpoint s = Address rt) ∧
  (¬ owns rs r → ∃ w, owns rs w ∧ EffectiveDatabase w = EffectiveDatabase r ∧
     st_ConflictingRoute s = NamespacedName_String (route_key w) ∧ st_Endpoint s = "").

(** Whatever says what [Build] decided is truthful. *)
Lemma reported_truthful `{Resolver} ctx rs cd r d s :
  unique_names rs → r ∈ rs →
  Snapshot_Decision (Build ctx rs cd) (route_key r) = Some d →
  reported s d → truthful ctx rs cd r s.
Proof.
  intros Hu Hr Hd (Ha & _ & Hp & He & Hc). unfold truthful.
  pose proof (build_decision_spec_aux ctx cd rs (route_key r) Hu) as Hspec.
  unfold Snapshot_Decision in Hd. rewrite Hd in Hspec.
  destruct Hspec as (r' & Hr' & Hk & Hcase). apply (unique_names_inj rs) in Hk as ->; [|done..].
  destruct (decisions_match_table_aux ctx cd rs Hu) as [Hfwd Hbwd].
  assert (d_Database d = EffectiveDatabase r ∧ (Accepted d = true ↔ owns rs r)) as [Hdb Hacc].
  { destruct Hcase as [[Ho ->]|(w & Hw & Hne & Hdw & ->)].
    - unfold won. destruct (resolveBounded ctx r cd); cbn; (split; [done|]); by split.
    - split; [done|]. cbn. split; [done|]. intros Ho. destruct Hne.
      by apply (owns_unique rs). }
  rewrite Ha, Hp. split_and!.
  - rewrite <- Hacc. by destruct (Accepted d).
  - split.
    + intros Hprog. destruct (Programmed d) eqn:EP; [|done].
      destruct (Hfwd _ _ Hd EP) as (rt & Hl & Hsrc & Hend). rewrite Hdb in Hl.
      exists rt. split_and!; try done. rewrite He.
      unfold Programmed in EP. apply andb_true_iff in EP as [-> _]. done.
    + intros (rt & Hl & Hsrc & _). destruct (Hbwd _ _ Hl) as (d' & Hd' & Hpr & _).
      rewrite Hsrc, Hd in Hd'. injection Hd' as <-. by rewrite Hpr.
  - intros Hno. destruct Hcase as [[Ho _]|(w & Hw & Hne & Hdw & ->)]; [done|].
    exists w. by rewrite He, Hc.
Qed.

(** A status [equalStatus] takes for the desired one says the same. *)
Lemma equalStatus_same a b :
  equalStatus a b = true →
  st_Endpoint a = st_Endpoint b ∧ st_ConflictingRoute a = st_ConflictingRoute b ∧
  ∀ t v, condition_status b t = Some v → condition_status a t = Some v.
Proof.
  unfold equalStatus. destruct (_ || _) eqn:E; [done|]. intros Hall.
  rewrite !orb_false_iff, !negb_false_iff, !bool_decide_eq_true in E.
  destruct E as ((((_ & _) & He) & Hc) & _). split_and!; [done..|].
  intros t v. unfold condition_status. rewrite !fmap_Some. intros (c & Hf & ->).
  apply find_elem in Hf as [Hin <-]. rewrite forallb_forall in Hall.
  specialize (Hall c). rewrite <- list_elem_of_In in Hall. specialize (Hall Hin).
  destruct (FindStatusCondition (Conditions a) (c_Type c)) as [got|]; [|done].
  exists got. split; [done|]. rewrite !andb_true_iff, !bool_decide_eq_true in Hall. naive_solver.
Qed.

Lemma equalStatus_reported a b d : equalStatus a b = true → reported b d → reported a d.
Proof.
  intros (He & Hc & Hcond)%equalStatus_same (Ha & Hr & Hp & Hbe & Hbc).
  split_and!; try (by apply Hcond); congruence.
Qed.

(** Reconciling a live route with a decision: nothing to do, or a patch to the desired
    status. *)
Lemma Reconcile_decided r patch store k d :
  DeletionTimestamp (Meta r) = None → Snapshot_Decision (Load store) k = Some d →
  (reported (Status r) d ∧ Reconcile (Ok r) patch store k = (zero_result, None, None)) ∨
  (∃ r' err, r' = MkRoute (Meta r) (Spec r) (desired_status r d) ∧
     Reconcile (Ok r) patch store k = (zero_result, err, Some r') ∧
     (err = None ↔ ∀ e, patch r' = Some e → IsConflict e = true)).
Proof.
  intros Hdel Hd. unfold Reconcile. rewrite bool_decide_eq_false_2, Hd by tauto.
  destruct (equalStatus (Status r) (desired_status r d)) eqn:Eq.
  - left. split; [|done]. eapply equalStatus_reported; [done|apply desired_reported].
  - right. destruct (patch _) as [err|] eqn:Ep; [destruct (IsConflict err) eqn:Ec|];
      (eexists _, _; split; [done|]; split; [done|]); rewrite Ep; split; try done.
    + intros _ e [= <-]. done.
    + intros Hall. specialize (Hall err eq_refl). congruence.
Qed.

(** C22: the status tells the truth about the data plane.  Reconciling a live route
    against the snapshot built from the current routes always comes to a status, the
    one it found or the one it patches in, and that is a truthful one; an error is
    reported only if the patch gave one. *)
Theorem status_truthful `{Resolver} ctx rs cd r store patch :
  unique_names rs → r ∈ rs → DeletionTimestamp (Meta r) = None → Load store = Build ctx rs cd →
  ∃ err out, Reconcile (Ok r) patch store (route_key r) = (zero_result, err, out) ∧
    truthful ctx rs cd r (Status (default r out)) ∧
    (is_Some err → ∃ r', out = Some r' ∧ is_Some (patch r')).
Proof.
  intros Hu Hr Hdel Hst.
  pose proof (build_decision_spec_aux ctx cd rs (route_key r) Hu) as Hspec.
  destruct (Snapshot_Decision (Build ctx rs cd) (route_key r)) as [d|] eqn:Ed;
    unfold Snapshot_Decision in Ed; rewrite Ed in Hspec;
    [|destruct Hspec; by apply list_elem_of_fmap_2].
  assert (∀ s, reported s d → truthful ctx rs cd r s) as Ht by (intros s; by apply reported_truthful).
  change (Snapshot_Decision (Build ctx rs cd) (route_key r) = Some d) in Ed. rewrite <- Hst in Ed.
  destruct (Reconcile_decided r patch store (route_key r) d Hdel Ed)
    as [[Hrep ->]|(r' & err & -> & -> & Herr)].
  - exists None, None. split_and!; [done|by apply Ht|by intros [? ?]].
  - eexists err, (Some _). split; [done|]. split; [apply Ht, desired_reported|].
    intros [e He]. eexists. split; [done|].
    destruct (patch _) as [e'|]; [by eexists|]. destruct Herr as [_ Herr]. by rewrite Herr in He.
Qed.

(** *** Reconciling twice *)

Lemma set_types_elem l c t :
  t ∈ condition_types (SetStatusCondition l c) ↔ t ∈ condition_types l ∨ t = c_Type c.
Proof. rewrite set_types. case_decide; set_solver. Qed.

Lemma set_types_NoDup l c :
  NoDup (condition_types l) → NoDup (condition_types (SetStatusCondition l c)).
Proof.
  intros Hnd. rewrite set_types. case_decide as Hin; [by rewrite app_nil_r|].
  apply NoDup_app. split_and!; [done|set_solver|]. apply NoDup_singleton.
Qed.

Lemma set_types_present l c :
  c_Type c ∈ condition_types l → condition_types (SetStatusCondition l c) = condition_types l.
Proof. intros Hin. rewrite set_types, decide_True by done. apply app_nil_r. Qed.

Lemma desired_types_NoDup r d :
  NoDup (condition_types (Conditions (Status r))) →
  NoDup (condition_types (Conditions (desired_status r d))).
Proof.
  intros Hnd. unfold desired_status. rewrite Conditions_apply. by do 3 apply set_types_NoDup.
Qed.

Lemma desired_types_elem r d t :
  t ∈ [ConditionAccepted; ConditionResolved; ConditionProgrammed] →
  t ∈ condition_types (Conditions (desired_status r d)).
Proof.
  intros Ht. unfold desired_status. rewrite Conditions_apply, !set_types_elem.
  rewrite accepted_type, resolved_type, programmed_type. set_solver.
Qed.

(** A second reconciliation adds no conditions. *)
Lemma desired_types_stable r r' d :
  Status r' = desired_status r d →
  condition_types (Conditions (desired_status r' d)) = condition_types (Conditions (desired_status r d)).
Proof.
  intros Hs. unfold desired_status at 1. rewrite Conditions_apply. cbn [Conditions].
  rewrite <- Hs. set (l := Conditions (Status r')).
  assert (∀ t, t ∈ [ConditionAccepted; ConditionResolved; ConditionProgrammed] →
            t ∈ condition_types l) as Hin.
  { intros t Ht. unfold l. rewrite Hs. by apply desired_types_elem. }
  rewrite set_types_present, set_types_present, set_types_present; try done;
    rewrite ?accepted_type, ?resolved_type, ?programmed_type, ?set_types_elem;
    repeat left; apply Hin; set_solver.
Qed.

(** What [equalStatus] compares of two conditions. *)
Lemma same_condition_bool a b :
  same_condition a b →
  bool_decide (c_Status a = c_Status b) && bool_decide (c_Reason a = c_Reason b)
  && bool_decide (c_Message a = c_Message b) && (c_ObservedGeneration a =? c_ObservedGeneration b) = true.
Proof.
  intros (_ & Hs & Hr & Hm & Hg). rewrite !bool_decide_eq_true_2 by done. by apply Z.eqb_eq.
Qed.

Lemma same_condition_both c1 c2 c : same_condition c1 c → same_condition c2 c → same_condition c1 c2.
Proof. unfold same_condition. intuition congruence. Qed.

Lemma desired_stable r r' d :
  NoDup (condition_types (Conditions (Status r))) → Meta r' = Meta r →
  Status r' = desired_status r d → equalStatus (Status r') (desired_status r' d) = true.
Proof.
  intros Hnd Hm Hs.
  pose proof (desired_types_stable r r' d Hs) as Htypes.
  pose proof (desired_types_NoDup r d Hnd) as Hnd1.
  pose proof (desired_reports r d) as (Ha1 & Hr1 & Hp1 & _).
  pose proof (desired_reports r' d) as (Ha2 & Hr2 & Hp2 & Hother).
  rewrite Hm in Ha2, Hr2, Hp2. rewrite <- Hs in Ha1, Hr1, Hp1, Hnd1, Htypes.
  set (s' := desired_status r' d) in *. unfold equalStatus.
  assert (ObservedGeneration (Status r') = ObservedGeneration s' ∧ st_Database (Status r') = st_Database s' ∧
          st_Endpoint (Status r') = st_Endpoint s' ∧
          st_ConflictingRoute (Status r') = st_ConflictingRoute s') as (-> & -> & -> & ->).
  { rewrite Hs. unfold s', desired_status, applyConditions. rewrite Hm. by destruct (Accepted d). }
  assert (length (Conditions (Status r')) = length (Conditions s')) as ->.
  { apply (f_equal length) in Htypes. unfold condition_types in Htypes. by rewrite !length_map in Htypes. }
  rewrite Z.eqb_refl, Nat.eqb_refl, !bool_decide_eq_true_2 by done. cbn [negb orb].
  apply forallb_forall. intros want Hin%list_elem_of_In.
  assert (FindStatusCondition (Conditions s') (c_Type want) = Some want) as Hwant.
  { apply find_unique; [by rewrite Htypes|done]. }
  assert (∀ c, reports (Status r') c → reports s' c → c_Type want = c_Type c →
            match FindStatusCondition (Conditions (Status r')) (c_Type want) with
            | None => false
            | Some got => bool_decide (c_Status got = c_Status want) && bool_decide (c_Reason got = c_Reason want)
               && bool_decide (c_Message got = c_Message want)
               && (c_ObservedGeneration got =? c_ObservedGeneration want)
            end = true) as Hone.
  { intros c (c1 & Hf1 & Hc1) (c2 & Hf2 & Hc2) Ht. rewrite Ht in *. rewrite Hf1.
    rewrite Hf2 in Hwant. injection Hwant as <-. apply same_condition_bool.
    by eapply same_condition_both. }
  destruct (decide (c_Type want = ConditionAccepted)) as [Ht|Hn1];
    [by apply (Hone _ Ha1 Ha2); rewrite accepted_type|].
  destruct (decide (c_Type want = ConditionResolved)) as [Ht|Hn2];
    [by apply (Hone _ Hr1 Hr2); rewrite resolved_type|].
  destruct (decide (c_Type want = ConditionProgrammed)) as [Ht|Hn3];
    [by apply (Hone _ Hp1 Hp2); rewrite programmed_type|].
  rewrite <- (Hother _ Hn1 Hn2 Hn3), Hwant. by apply same_condition_bool.
Qed.

(** The status reconciler settles: once it has written a route's status, running
    it again on the result for the same decision writes nothing, asks for no requeue
    and reports no error, whatever other conditions the status carries. *)
Theorem reconcile_settles route patch patch' store req res err route' :
  NoDup (condition_types (Conditions (Status route))) →
  Reconcile (Ok route) patch store req = (res, err, Some route') →
  Meta route' = Meta route ∧ Spec route' = Spec route ∧
  Reconcile (Ok route') patch' store req = (zero_result, None, None).
Proof.
  intros Hnd. unfold Reconcile. destruct (bool_decide (DeletionTimestamp (Meta route) ≠ None)) eqn:Ed; [done|].
  destruct (Snapshot_Decision (Load store) req) as [d|]; [|done].
  destruct (equalStatus (Status route) _) eqn:Eq; [done|]. intros Hrun.
  assert (route' = MkRoute (Meta route) (Spec route) (desired_status route d)) as ->.
  { revert Hrun. repeat case_match; by intros [= <- <- <-]. }
  cbn [Meta Spec]. rewrite Ed. split_and!; [done..|].
  by rewrite (desired_stable route _ d).
Qed.
End StatusProperties.

(** ** Failure reasons *)

Section Reasons.
Context `{KubeReader} `{X509} `{!KubeErrorsOk}.

(** A route whose CA bundle Secret does not exist is reported with the reason
    for a missing backend Service, not with the one for an unreadable CA bundle: the
    API's NotFound is recognised through the wrapping before the class the resolver
    gave the error is looked at. *)
Theorem missing_ca_reason ctx route spec ref e :
  TLS (Spec route) = Some spec →
  bt_Mode spec = BackendTLSVerifyCA ∨ bt_Mode spec = BackendTLSVerifyFull →
  bt_CASecretRef spec = Some ref →
  GetSecret ctx (MkName (Namespace (Meta route)) (sk_Name ref)) = Err e →
  carries_reason e "NotFound" = true →
  ∃ err, @resolveTLS (client_resolver (MkClientResolver true)) ctx route = Err err ∧
    Is err ErrCABundle = true ∧ Is err ErrBackendNotFound = Is e ErrBackendNotFound ∧
    resolveFailureReason err = ReasonBackendNotFound.
Proof.
  intros Ht Hm Href Hget He. unfold resolveTLS. rewrite Ht, Href. cbn [LoadCABundle client_resolver].
  unfold client_LoadCABundle. rewrite Hget. cbn [CABundles negb].
  destruct Hm as [-> | ->]; cbn; eexists; (split; [done|]); unfold resolveFailureReason;
    rewrite IsNotFound_spec; cbn; rewrite He, ?orb_true_r, ?orb_false_r; done.
Qed.

(** A port the Service does not declare is reported as such when the reference is
    a string; the same reference as an integer is reported as an invalid backend. *)
Theorem undeclared_port_reason ctx ns name svc port :
  GetService ctx (MkName ns name) = Ok svc → (∀ p, ¬ denotes svc port p) →
  ∃ err, client_ResolveServicePort ctx ns name port = Err err ∧
    resolveFailureReason err
    = match port with FromString _ => ReasonPortNotFound | _ => ReasonInvalidBackend end.
Proof.
  intros Hget Hno. unfold client_ResolveServicePort. rewrite Hget.
  unfold denotes in Hno. unfold resolveFailureReason. destruct port as [v|s|tag].
  - destruct (has_port (svc_Ports svc) v) eqn:E.
    { exfalso. apply (Hno v). by apply has_port_spec in E. }
    eexists. split; [done|]. by rewrite IsNotFound_spec.
  - destruct (parsePortNumber s) as [v|].
    + destruct (has_port (svc_Ports svc) v) eqn:E.
      { exfalso. apply (Hno v). by apply has_port_spec in E. }
      eexists. split; [done|]. by rewrite IsNotFound_spec.
    + destruct (named_port (svc_Ports svc) s) as [p|] eqn:E.
      { exfalso. by apply (Hno p). }
      eexists. split; [done|]. by rewrite IsNotFound_spec.
  - eexists. split; [done|]. by rewrite IsNotFound_spec.
Qed.
End Reasons.

(** ** A sample library *)

Fixpoint sample_find (l : list Condition) (t : string) : option Condition :=
  match l with
  | [] => None
  | c :: rest => if decide (c_Type c = t) then Some c else sample_find rest t
  end.

Definition sample_update (old new : Condition) : Condition :=
  MkCondition (c_Type new) (c_Status new) (c_ObservedGeneration new) (c_LastTransitionTime old)
    (c_Reason new) (c_Message new).

Fixpoint sample_set (l : list Condition) (c : Condition) : list Condition :=
  match l with
  | [] => [c]
  | x :: rest => if decide (c_Type x = c_Type c) then sample_update x c :: rest
                 else x :: sample_set rest c
  end.

#[local] Instance sample_kube_meta : KubeMeta := {|
  NamespacedName_String k := nn_Namespace k +:+ "/" +:+ nn_Name k;
  SetStatusCondition := sample_set;
  FindStatusCondition := sample_find;
  IsConflict e := carries_reason e "Conflict"
|}.

#[local] Instance sample_kube_meta_ok : KubeMetaOk.
Proof.
  split; cbn.
  - intros l t c. induction l as [|x l IH]; cbn; [done|]. case_decide; [|intros [? ?]%IH; set_solver].
    intros [= <-]. set_solver.
  - intros l c. induction l as [|x l IH]; cbn; [set_solver|]. intros [Hni Hnd]%NoDup_cons.
    rewrite elem_of_cons. intros [->|Hin]; [by rewrite decide_True|].
    rewrite decide_False; [by apply IH|]. intros Heq. apply Hni. rewrite Heq.
    by apply list_elem_of_fmap_2.
  - intros l c. induction l as [|x l IH]; cbn; [by rewrite decide_False by set_solver|].
    destruct (decide (c_Type x = c_Type c)) as [E|E]; cbn.
    + rewrite decide_True; [by rewrite app_nil_r, E|]. rewrite <- E. left.
    + unfold condition_types in IH. rewrite IH. f_equal. f_equal.
      destruct (decide (c_Type c ∈ map c_Type l)) as [Hi|Hi].
      * by rewrite decide_True by by right.
      * rewrite decide_False; [done|]. rewrite elem_of_cons. intros [?|?]; [congruence|done].
  - intros l c. induction l as [|x l IH]; cbn; [rewrite decide_True by done; by exists c|].
    case_decide as E; cbn.
    + rewrite decide_True by done. by eexists.
    + by rewrite decide_False.
  - intros l c t Ht. induction l as [|x l IH]; cbn; [by rewrite decide_False|].
    case_decide as E; cbn.
    + rewrite !decide_False by congruence. done.
    + by rewrite IH.
Qed.

#[local] Existing Instance sample_reader.
#[local] Existing Instance sample_tables.
#[local] Instance sample_reader_ok : KubeErrorsOk.
Proof. by intros e. Qed.
#[local] Instance sample_x509 : X509 := λ _, true.

Definition sample_snapshot : Snapshot :=
  @Build sample_resolver no_deadline [discovered; by_hand; broken] "cluster.local".

Lemma status_truthful_witness :
  ∃ err out, Reconcile (Ok by_hand) (λ _, None) (MkStore sample_snapshot) (route_key by_hand)
             = (zero_result, err, out) ∧
    truthful (H3 := sample_resolver) no_deadline [discovered; by_hand; broken] "cluster.local" by_hand
      (Status (default by_hand out)) ∧
    (is_Some err → ∃ r', out = Some r' ∧ is_Some (None : option error)).
Proof.
  apply (@status_truthful sample_reader sample_kube_meta sample_tables sample_kube_meta_ok
           sample_resolver no_deadline [discovered; by_hand; broken] "cluster.local" by_hand
           (MkStore sample_snapshot) (λ _, None)).
  - exact sample_unique.
  - by right; left.
  - reflexivity.
  - reflexivity.
Defined.

Lemma reconcile_settles_witness :
  ∃ route', Reconcile (Ok by_hand) (λ _, None) (MkStore sample_snapshot) (route_key by_hand)
            = (zero_result, None, Some route') ∧
    Meta route' = Meta by_hand ∧ Spec route' = Spec by_hand ∧
    Reconcile (Ok route') (λ _, None) (MkStore sample_snapshot) (route_key by_hand)
    = (zero_result, None, None).
Proof.
  eexists. split; [by vm_compute|].
  eapply (reconcile_settles by_hand (λ _, None) (λ _, None) (MkStore sample_snapshot)
            (route_key by_hand) zero_result None); [constructor|by vm_compute].
Defined.

Definition verify_ca : PostgresRoute :=
  MkRoute (sample_meta "apps" "secure" 1)
    (MkSpec "" "" (MkBackend BackendTypeAddress None (Some (MkAddressBackend "pg" 0)))
       (Some (MkBackendTLS BackendTLSVerifyCA (Some (MkSecretKeyReference "ca" "")) "")) 0)
    (MkStatus 0 "" "" "" []).

Lemma missing_ca_reason_witness :
  ∃ err, @resolveTLS (client_resolver (MkClientResolver true)) no_deadline verify_ca = Err err ∧
    Is err ErrCABundle = true ∧ Is err ErrBackendNotFound = false ∧
    resolveFailureReason err = ReasonBackendNotFound.
Proof.
  apply (missing_ca_reason no_deadline verify_ca
           (MkBackendTLS BackendTLSVerifyCA (Some (MkSecretKeyReference "ca" "")) "")
           (MkSecretKeyReference "ca" "") (EExt (ExtError "not found" [] false (Some "NotFound"))));
    try reflexivity.
  by left.
Defined.

Lemma undeclared_port_reason_witness :
  ∃ err, client_ResolveServicePort no_deadline "apps" "pg" (FromInt 5432) = Err err ∧
    resolveFailureReason err = ReasonInvalidBackend.
Proof.
  apply (undeclared_port_reason no_deadline "apps" "pg" sample_service (FromInt 5432)).
  - reflexivity.
  - intros p [-> Hp]. apply has_port_spec in Hp. by vm_compute in Hp.
Defined.
