(* ===== verification/Requeue.v ===== *)
(** The status reconciler and the table builder on one clock
    ([internal/controller/postgresroute_controller.go] and [routetable.go]): a route
    that is reconciled before the table knows it is reconciled again after
    [RequeueAfter], and the builder debounces; the one has to outlast the other. *)

From stdpp Require Import base list gmap strings pretty relations.
From Stdlib Require Import ZArith Lia.
From S2P Require Import Prelude GoLib Api Registry Resolver RouteTable Staleness RouteStatus.

Local Open Scope go_scope.

Section Requeue.
Context `{KubeReader} `{KubeMeta} `{UnicodeTables} `{!KubeMetaOk}.
Variable ctx : context.
Variable latency : Z.

(** Steps through clusters with the property [Q]. *)
Definition keeping (Q : cluster → Prop) (k k' : clocked) : Prop :=
  kstep ctx latency k k' ∧ Q (sy_cluster (ck_sys k')).

Lemma keeping_run Q k k' : rtc (keeping Q) k k' → rtc (kstep ctx latency) k k'.
Proof. induction 1 as [|k1 k2 k3 [Hs _] _ IH]; [done|]. by eapply rtc_l. Qed.

(** A change that the builder has not seen, since the cluster has the property, was made
    to a cluster that had it. *)
Lemma unseen_since Q c0 k k' :
  Q (sy_cluster (ck_sys k)) → (∀ c cl, ck_unseen k = Some (c, cl) → Q cl ∨ c <= c0) →
  rtc (keeping Q) k k' →
  Q (sy_cluster (ck_sys k')) ∧ ∀ c cl, ck_unseen k' = Some (c, cl) → Q cl ∨ c <= c0.
Proof.
  intros HQ Hu Hr. induction Hr as [|k1 k2 k3 [Hs HQ2] _ IH]; [done|]. apply IH; [done|]. clear IH HQ2.
  destruct Hs as [cl cl' b t f es r u| | | | |]; cbn in *; try done.
  intros c cl0. destruct u as [[c' cl1]|]; cbn; intros [= <- <-]; [by apply Hu|by left].
Qed.

(** A route of the name is in the cluster, and no two routes share a name. *)
Definition has_route (name : NamespacedName) (cl : cluster) : Prop :=
  unique_names (cl_routes cl) ∧ name ∈ map route_key (cl_routes cl).

(** A reconcile asks to be called again exactly when there is no decision yet. *)
Lemma requeued get patch store name res err out :
  Reconcile get patch store name = (res, err, out) → 0 < RequeueAfter res →
  RequeueAfter res = 2 * DefaultDebounce ∧ Snapshot_Decision (Load store) name = None.
Proof.
  unfold Reconcile. destruct get as [r|e]; [|by intros [= <- <- <-]].
  case_bool_decide; [by intros [= <- <- <-]|].
  destruct (Snapshot_Decision (Load store) name) as [d|]; [|by intros [= <- <- <-]].
  destruct (equalStatus _ _); [by intros [= <- <- <-]|]. destruct (patch _) as [e|]; [|by intros [= <- <- <-]].
  destruct (IsConflict e); by intros [= <- <- <-].
Qed.

(** The table knows every route that has been there for the debounce and three
    latencies. *)
Lemma known_in_time D k0 k1 name :
  0 <= latency → 0 <= D → clocked_inv ctx latency D k0 → has_route name (sy_cluster (ck_sys k0)) →
  rtc (keeping (has_route name)) k0 k1 → sy_failed (ck_sys k1) = false →
  sy_now (ck_sys k0) + D + 3 * latency < sy_now (ck_sys k1) →
  ∃ cl d, recent latency D k1 cl ∧ has_route name cl ∧ published_for ctx k1 cl ∧
    Snapshot_Decision (Load (rt_Store (sy_builder (ck_sys k1)))) name = Some d.
Proof.
  intros Hlat HD Hi HQ Hr Hf Hlate.
  destruct (unseen_since _ (sy_now (ck_sys k0)) k0 k1 HQ) as [HQ1 Hu]; [|done|].
  { intros c cl Hc. right. by eapply ci_past. }
  assert (clocked_inv ctx latency D k1) as Hi1 by (eapply clocked_run; [done..|by eapply keeping_run]).
  destruct (clocked_recent ctx latency D k1 Hlat HD Hi1 Hf) as (cl & Hrec & Hp).
  assert (has_route name cl) as [Huniq Hin].
  { unfold recent in Hrec. destruct (ck_unseen k1) as [[c cl0]|]; [|by subst].
    destruct Hrec as [-> Hb]. destruct (Hu c cl0 eq_refl); [done|lia]. }
  pose proof (@build_decision_spec_aux (cl_resolver cl) ctx (ClusterDomain (sy_builder (ck_sys k1)))
    (cl_routes cl) name Huniq) as Hspec.
  unfold Snapshot_Decision. unfold published_for in Hp. rewrite Hp.
  destruct (Decisions _ !! name) as [d|]; [|done]. by exists cl, d.
Qed.

(** C21: a freshly created route is looked at twice.  Take any run of the builder on its
    clock, the debounce being the default and the three latencies of the environment
    together shorter than it, and a moment at which a route of the name is in the cluster
    and reconciling it asked to be called again, the table not knowing it yet.  If the
    name stays in the cluster, then by the time the reconciler asked for the table knows
    it: reconciling does not ask again, and the status that is found or patched in
    reports the decision made for the name in a cluster at most the debounce and the
    latencies old. *)
Theorem requeue_suffices cl es b now list_err k0 k1 name get patch0 res out0 r patch :
  0 <= latency → 3 * latency < DefaultDebounce → Debounce b = DefaultDebounce →
  trigger b = false → timer b = None → Forall (λ e, now <= e + latency) es →
  rtc (kstep ctx latency) (clock_start ctx cl es b now list_err) k0 →
  has_route name (sy_cluster (ck_sys k0)) →
  Reconcile get patch0 (rt_Store (sy_builder (ck_sys k0))) name = (res, None, out0) →
  0 < RequeueAfter res →
  rtc (keeping (has_route name)) k0 k1 →
  sy_now (ck_sys k0) + RequeueAfter res <= sy_now (ck_sys k1) → sy_failed (ck_sys k1) = false →
  DeletionTimestamp (Meta r) = None →
  ∃ cl' d err out, recent latency DefaultDebounce k1 cl' ∧
    Snapshot_Decision (@Build (cl_resolver cl') ctx (cl_routes cl')
                         (ClusterDomain (sy_builder (ck_sys k1)))) name = Some d ∧
    Reconcile (Ok r) patch (rt_Store (sy_builder (ck_sys k1))) name = (zero_result, err, out) ∧
    reported (Status (default r out)) d.
Proof.
  intros Hlat Hsum HD Htr Ht He Hr0 HQ Hrec Hpos Hr1 Hlate Hf Hdel.
  apply requeued in Hrec as [Hafter _]; [|done]. rewrite Hafter in Hlate.
  assert (clocked_inv ctx latency DefaultDebounce k0) as Hi.
  { rewrite <- HD. eapply clocked_run; [done|by rewrite HD| |exact Hr0]. by apply clocked_inv_start. }
  destruct (known_in_time DefaultDebounce k0 k1 name) as (cl' & d & Hrecent & _ & Hp & Hd); try done; [lia|].
  destruct (Reconcile_decided r patch _ name d Hdel Hd) as [[Hrep HR]|(r' & err & -> & HR & _)].
  - exists cl', d, None, None. split_and!; [done| |done|done]. by rewrite <- Hp.
  - eexists cl', d, err, _. split_and!; [done| |exact HR|apply desired_reported]. by rewrite <- Hp.
Qed.
End Requeue.

(** ** A sample run *)

#[local] Existing Instance sample_reader.
#[local] Existing Instance sample_kube_meta.
#[local] Existing Instance sample_kube_meta_ok.
#[local] Existing Instance sample_tables.

Definition first_builder : RouteTableBuilder :=
  (rebuild no_deadline (Ok []) sample_resolver sample_builder).2.

(** A route has just appeared; and the same cluster 400 ms later. *)
Definition just_created : clocked :=
  MkClocked (MkSystem (sample_cluster [by_hand]) 1 first_builder 5 false) [5] None
    (Some (5, sample_cluster [])).
Definition long_after : clocked :=
  MkClocked
    (MkSystem (sample_cluster [by_hand]) 0
       (on_timer no_deadline (Ok [by_hand]) sample_resolver (on_trigger 5 (schedule first_builder))).2
       (5 + 2 * DefaultDebounce) false)
    [] None None.

Lemma by_hand_alone : has_route (route_key by_hand) (sample_cluster [by_hand]).
Proof. split; [apply NoDup_singleton|by left]. Qed.

Lemma just_created_reachable :
  rtc (kstep no_deadline 3) (clock_start no_deadline (sample_cluster []) [] sample_builder 5 None) just_created.
Proof.
  eapply rtc_l; [apply (k_change _ _ _ (sample_cluster [by_hand]))|]. done.
Qed.

Lemma long_after_reachable :
  rtc (keeping no_deadline 3 (has_route (route_key by_hand))) just_created long_after.
Proof.
  eapply rtc_l; [split; [apply (k_deliver _ _ _ _ _ _ [] 5 [])|exact by_hand_alone]|].
  eapply rtc_l; [split; [by apply k_trigger|exact by_hand_alone]|].
  eapply rtc_l; [split; [apply (k_tick _ _ _ _ _ _ (5 + DefaultDebounce)); [done|]|exact by_hand_alone]|].
  { split_and!; [done|done|]. intros d [= <-]. cbn. lia. }
  eapply rtc_l; [split; [by eapply (k_rebuilt no_deadline 3 (sample_cluster [by_hand]))|exact by_hand_alone]|].
  eapply rtc_l; [split; [by apply (k_tick _ _ _ _ _ _ (5 + 2 * DefaultDebounce))|exact by_hand_alone]|].
  done.
Qed.

Lemma requeue_suffices_witness :
  ∃ cl' d err out, recent 3 DefaultDebounce long_after cl' ∧
    Snapshot_Decision (@Build (cl_resolver cl') no_deadline (cl_routes cl') "cluster.local")
      (route_key by_hand) = Some d ∧
    Reconcile (Ok by_hand) (λ _, None) (rt_Store (sy_builder (ck_sys long_after))) (route_key by_hand)
    = (zero_result, err, out) ∧
    reported (Status (default by_hand out)) d.
Proof.
  apply (requeue_suffices no_deadline 3 (sample_cluster []) [] sample_builder 5 None just_created long_after
           (route_key by_hand) (Ok by_hand) (λ _, None) (MkResult false (2 * DefaultDebounce)) None
           by_hand (λ _, None)); try reflexivity; try done.
  - exact just_created_reachable.
  - exact by_hand_alone.
  - exact long_after_reachable.
Defined.
