(* ===== verification/Discovery.v ===== *)
(** The discovery controller: a PostgresRoute for every Service that carries the
    configured label ([internal/controller/servicediscovery_controller.go]). *)

From stdpp Require Import base list gmap strings pretty.
From Stdlib Require Import ZArith Lia.
From S2P Require Import Prelude GoLib Api Registry Resolver RouteTable RouteStatus.

Local Open Scope go_scope.

Definition ManagedByLabel : string := "pgproxy.io/managed-by".
Definition ManagedByServiceDiscovery : string := "service-discovery".
Definition SourceServiceLabel : string := "pgproxy.io/source-service".
Definition DefaultDatabaseAnnotation : string := "pgproxy.io/database-name".
Definition PortAnnotation : string := "pgproxy.io/port".
Definition PriorityAnnotation : string := "pgproxy.io/priority".
Definition IgnoreAnnotation : string := "pgproxy.io/ignore".

Definition discoveredRoutePriority : Z := -100.

(** ** What the controller calls *)

(** The PostgresRoutes of the cluster, by name. *)
Abbreviation api := (gmap NamespacedName PostgresRoute).

(** The label selector, [intstr.Parse], the helpers for owner references, the
    writing half of the client, and the predicate made from a filter, as it decides
    about an update of a Service. *)
Class ControllerRuntime := {
  Matches : gmap string string → bool;
  intstr_Parse : string → IntOrString;
  SetControllerReference : Service → PostgresRoute → result error PostgresRoute;
  GetControllerOf : PostgresRoute → option OwnerReference;
  CreateOrUpdate : api → PostgresRoute → (PostgresRoute → result error PostgresRoute)
                   → api * result error string;
  Delete_route : api → NamespacedName → api * option error;
  predicate_Update : (Service → bool) → Service → Service → bool
}.

(** Their documented behaviour.  An API call either takes effect or fails and
    changes nothing, and fails with NotFound only for what is not there;
    [CreateOrUpdate] applies the mutation to the object that is there, or to the given
    one; [SetControllerReference] only touches the owner references, where it makes the
    owner the controller; for updates a predicate applies its filter to the new object. *)
Class ControllerRuntimeOk `{KubeReader} `{ControllerRuntime} : Prop := {
  create_or_update : ∀ a route f,
    match f (default route (a !! route_key route)) with
    | Err e => CreateOrUpdate a route f = (a, Err e)
    | Ok r => (∃ op, CreateOrUpdate a route f = (<[route_key route := r]> a, Ok op)) ∨
              (∃ e, CreateOrUpdate a route f = (a, Err e))
    end;
  delete_ok : ∀ a k, Delete_route a k = (delete k a, None) ∨
    ∃ e, Delete_route a k = (a, Some e) ∧ (IsNotFound e = true → a !! k = None);
  set_controller : ∀ svc r r', SetControllerReference svc r = Ok r' →
    Spec r' = Spec r ∧ Status r' = Status r ∧ Labels (Meta r') = Labels (Meta r) ∧
    route_key r' = route_key r ∧
    ∃ owner, GetControllerOf r' = Some owner ∧ own_UID owner = UID (svc_Meta svc);
  update_filter : ∀ f old new, predicate_Update f old new = f new
}.

Section Discovery.
Context `{KubeReader} `{KubeMeta} `{ControllerRuntime}.

(** [r.DatabaseAnnotation], defaulted by [SetupWithManager]. *)
Variable DatabaseAnnotation : string.

(** A lookup in a Go map of strings. *)
Definition map_get (m : gmap string string) (k : string) : string := default "" (m !! k).

(** [databaseName]. *)
Definition databaseName (svc : Service) : string :=
  let name := map_get (Annotations (svc_Meta svc)) DatabaseAnnotation in
  if negb (bool_decide (name = "")) then name else Name (svc_Meta svc).

(** [priority]. *)
Definition priority (svc : Service) : Z :=
  match Annotations (svc_Meta svc) !! PriorityAnnotation with
  | Some raw =>
      match ParseInt 32 raw with
      | Some p => i32 p
      | None => discoveredRoutePriority
      end
  | None => discoveredRoutePriority
  end.

(** The first port with one of the two names, and whether 5432 is declared. *)
Fixpoint postgres_port (ports : list ServicePort) : option Z :=
  match ports with
  | [] => None
  | p :: rest =>
      if bool_decide (p_Name p = "postgresql") || bool_decide (p_Name p = "postgres")
      then Some (p_Port p) else postgres_port rest
  end.

(** [port]. *)
Definition port (svc : Service) : IntOrString :=
  let raw := map_get (Annotations (svc_Meta svc)) PortAnnotation in
  if negb (bool_decide (raw = "")) then intstr_Parse raw
  else
    match postgres_port (svc_Ports svc) with
    | Some p => FromInt p
    | None =>
        if has_port (svc_Ports svc) 5432 then FromInt 5432
        else match svc_Ports svc with
             | [p] => FromInt (p_Port p)
             | _ => FromInt 5432
             end
    end.

(** [generatedRouteName]. *)
Definition generatedRouteName (serviceName : string) : string := serviceName +:+ "-discovered".

(** The key of the route generated for a Service. *)
Definition generated_key (svc : Service) : NamespacedName :=
  MkName (Namespace (svc_Meta svc)) (generatedRouteName (Name (svc_Meta svc))).

(** The object handed to [CreateOrUpdate]: only its name is set. *)
Definition empty_route (k : NamespacedName) : PostgresRoute :=
  MkRoute (MkMeta (nn_Namespace k) (nn_Name k) "" 0 0 None ∅ ∅ [])
    (MkSpec "" "" (MkBackend "" None None) None 0) (MkStatus 0 "" "" "" []).

Definition with_labels (m : ObjectMeta) (l : gmap string string) : ObjectMeta :=
  MkMeta (Namespace m) (Name m) (UID m) (Generation m) (CreationTimestamp m) (DeletionTimestamp m)
    l (Annotations m) (OwnerReferences m).

(** The mutation [Reconcile] passes to [CreateOrUpdate]. *)
Definition mutate (svc : Service) (route : PostgresRoute) : result error PostgresRoute :=
  let manager := map_get (Labels (Meta route)) ManagedByLabel in
  if negb (bool_decide (manager = "")) && negb (bool_decide (manager = ManagedByServiceDiscovery)) then
    Err (Errorf [Lit "route "; PS (Namespace (Meta route)); Lit "/"; PS (Name (Meta route));
                 Lit " is managed by "; PQ manager; Lit ", not by service discovery"])
  else
    let labels := <[SourceServiceLabel := Name (svc_Meta svc)]>
                    (<[ManagedByLabel := ManagedByServiceDiscovery]> (Labels (Meta route))) in
    let spec := MkSpec (databaseName svc) (TargetDatabase (Spec route))
                  (MkBackend BackendTypeService
                     (Some (MkServiceBackend (Name (svc_Meta svc)) (Namespace (svc_Meta svc)) (port svc)))
                     None)
                  (TLS (Spec route)) (priority svc) in
    SetControllerReference svc (MkRoute (with_labels (Meta route) labels) spec (Status route)).

(** [deleteGeneratedRoute], given what reading the route returns. *)
Definition deleteGeneratedRoute (svc : Service) (get : result error PostgresRoute) (a : api)
  : api * option error :=
  match get with
  | Err err => (a, IgnoreNotFound err)
  | Ok existing =>
      if negb (bool_decide (map_get (Labels (Meta existing)) ManagedByLabel
                            = ManagedByServiceDiscovery)) then (a, None)
      else
        match GetControllerOf existing with
        | None => (a, None)
        | Some owner =>
            if negb (bool_decide (own_UID owner = UID (svc_Meta svc))) then (a, None)
            else
              let '(a', err) := Delete_route a (route_key existing) in
              (a', match err with Some e => IgnoreNotFound e | None => None end)
        end
  end.

(** The Service is no longer to be published. *)
Definition out_of_scope (svc : Service) : bool :=
  bool_decide (DeletionTimestamp (svc_Meta svc) ≠ None)
  || negb (Matches (Labels (svc_Meta svc)))
  || bool_decide (map_get (Annotations (svc_Meta svc)) IgnoreAnnotation = "true").

(** [Reconcile], given what reading the Service and the generated route return. *)
Definition Reconcile (req : NamespacedName) (get_svc : result error Service)
  (get_route : result error PostgresRoute) (a : api) : api * Result * option error :=
  match get_svc with
  | Err err => (a, zero_result, IgnoreNotFound err)
  | Ok svc =>
      if out_of_scope svc then
        let '(a', err) := deleteGeneratedRoute svc get_route a in (a', zero_result, err)
      else
        match CreateOrUpdate a (empty_route (generated_key svc)) (mutate svc) with
        | (a', Err err) =>
            if IsConflict err then (a', MkResult true 0, None)
            else (a', zero_result,
                  Some (Errorf [Lit "reconciling the generated route for service ";
                                PS (NamespacedName_String req); Lit ": "; PW err]))
        | (a', Ok _) => (a', zero_result, None)
        end
  end.

(** The filter of the Service watch in [SetupWithManager]. *)
Definition matchesSelector (svc : Service) : bool := Matches (Labels (svc_Meta svc)).
End Discovery.

(** ** Properties *)

Section DiscoveryProperties.
Context `{KubeReader} `{KubeMeta} `{ControllerRuntime} `{!ControllerRuntimeOk}.
Variable DatabaseAnnotation : string.

(** The route publishes the Service. *)
Definition publishes (svc : Service) (r : PostgresRoute) : Prop :=
  Labels (Meta r) !! ManagedByLabel = Some ManagedByServiceDiscovery ∧
  Labels (Meta r) !! SourceServiceLabel = Some (Name (svc_Meta svc)) ∧
  Database (Spec r) = databaseName DatabaseAnnotation svc ∧ Priority (Spec r) = priority svc ∧
  BackendRef (Spec r) = MkBackend BackendTypeService
    (Some (MkServiceBackend (Name (svc_Meta svc)) (Namespace (svc_Meta svc)) (port svc))) None.

(** The route was generated by discovery for the Service. *)
Definition generated_for (svc : Service) (r : PostgresRoute) : Prop :=
  map_get (Labels (Meta r)) ManagedByLabel = ManagedByServiceDiscovery ∧
  ∃ owner, GetControllerOf r = Some owner ∧ own_UID owner = UID (svc_Meta svc).

Lemma mutate_ok svc r r' :
  mutate DatabaseAnnotation svc r = Ok r' →
  publishes svc r' ∧ generated_for svc r' ∧ TargetDatabase (Spec r') = TargetDatabase (Spec r) ∧ TLS (Spec r') = TLS (Spec r) ∧
  Status r' = Status r ∧ map_get (Labels (Meta r)) ManagedByLabel ∈ [""; ManagedByServiceDiscovery].
Proof.
  unfold mutate. destruct (_ && _) eqn:Em; [done|]. intros Hs.
  apply set_controller in Hs as (Hspec & Hst & Hl & _ & Hown). unfold publishes, generated_for.
  rewrite Hspec, Hst, Hl.
  cbn [Meta Spec Labels with_labels Database Priority BackendRef TargetDatabase TLS Status].
  split_and!; try done.
  - by rewrite lookup_insert_ne, lookup_insert_eq by done.
  - apply lookup_insert_eq.
  - unfold map_get. by rewrite lookup_insert_ne, lookup_insert_eq by done.
  - apply andb_false_iff in Em as [E|E]; apply negb_false_iff, bool_decide_eq_true in E; set_solver.
Qed.

(** What the read of the generated route saw. *)
Definition reads (a : api) (k : NamespacedName) (get : result error PostgresRoute) : Prop :=
  match get with
  | Ok r => a !! k = Some r ∧ route_key r = k
  | Err e => IsNotFound e = true → a !! k = None
  end.

Lemma route_key_empty k : route_key (empty_route k) = k.
Proof. by destruct k. Qed.

Lemma generated_for_dec svc r :
  (negb (bool_decide (map_get (Labels (Meta r)) ManagedByLabel = ManagedByServiceDiscovery)) = false ∧
   ∃ owner, GetControllerOf r = Some owner ∧ negb (bool_decide (own_UID owner = UID (svc_Meta svc))) = false) ↔
  generated_for svc r.
Proof.
  unfold generated_for. rewrite negb_false_iff, bool_decide_eq_true.
  by setoid_rewrite negb_false_iff; setoid_rewrite bool_decide_eq_true.
Qed.

(** [deleteGeneratedRoute] deletes the route of this Service or nothing; and where it
    reports no error, no route of this Service is left. *)
Lemma delete_run svc get a a' err :
  reads a (generated_key svc) get → deleteGeneratedRoute svc get a = (a', err) →
  (a' = a ∨ (a' = delete (generated_key svc) a ∧
             ∃ r, a !! generated_key svc = Some r ∧ generated_for svc r)) ∧
  (err = None → ∀ r, a' !! generated_key svc = Some r → ¬ generated_for svc r).
Proof.
  unfold deleteGeneratedRoute, reads. destruct get as [r|e].
  2:{ unfold IgnoreNotFound. intros Hn [= <- <-]. split; [by left|]. destruct (IsNotFound e); [|done].
      by rewrite Hn by done. }
  intros [Ha Hk] Hrun. assert (¬ generated_for svc r → a' = a ∧ err = None →
    (a' = a ∨ (a' = delete (generated_key svc) a ∧ ∃ r, a !! generated_key svc = Some r ∧ generated_for svc r)) ∧
    (err = None → ∀ r, a' !! generated_key svc = Some r → ¬ generated_for svc r)) as Hkeep.
  { intros Hng [-> ->]. split; [by left|]. rewrite Ha. by intros _ ? [= <-]. }
  rewrite <- generated_for_dec in Hkeep. revert Hkeep Hrun.
  destruct (negb (bool_decide (map_get _ _ = _))) eqn:El; [intros Hkeep [= <- <-]; apply Hkeep; naive_solver|].
  destruct (GetControllerOf r) as [owner|] eqn:Eo; [|intros Hkeep [= <- <-]; apply Hkeep; naive_solver].
  destruct (negb (bool_decide (own_UID owner = _))) eqn:Eu;
    [intros Hkeep [= <- <-]; apply Hkeep; [intros (_ & o & [= <-] & Ho); congruence|done]|].
  assert (generated_for svc r) as Hg by (apply generated_for_dec; eauto).
  destruct (delete_ok a (route_key r)) as [-> | (e & -> & He)]; rewrite ?Hk in *; intros _ [= <- <-].
  - split; [right; eauto|]. intros _ r'. by rewrite lookup_delete_eq.
  - split; [by left|]. unfold IgnoreNotFound. destruct (IsNotFound e); [|done]. rewrite He in Ha by done. done.
Qed.

(** The one step of publishing. *)
Lemma publish_run req svc get_route a a' res err :
  out_of_scope svc = false → Reconcile DatabaseAnnotation req (Ok svc) get_route a = (a', res, err) →
  (a' = a ∧ (is_Some err ∨ Requeue res = true)) ∨
  (err = None ∧ res = zero_result ∧ ∃ r, a' = <[generated_key svc := r]> a ∧
   mutate DatabaseAnnotation svc
     (default (empty_route (generated_key svc)) (a !! generated_key svc)) = Ok r).
Proof.
  intros Hs. unfold Reconcile. rewrite Hs.
  pose proof (create_or_update a (empty_route (generated_key svc)) (mutate DatabaseAnnotation svc)) as Hc.
  rewrite route_key_empty in Hc. destruct (mutate DatabaseAnnotation svc (default _ _)) as [r|e] eqn:Em.
  - destruct Hc as [[op ->]|[e ->]]; [intros [= <- <- <-]; right; eauto|].
    destruct (IsConflict e); intros [= <- <- <-]; left; eauto.
  - rewrite Hc. destruct (IsConflict e); intros [= <- <- <-]; left; eauto.
Qed.

(** C35: what one reconcile of a Service does to the routes.  Provided the route that
    has the generated name carries a managed-by label, if there is one: a Service in
    scope is published as one route, named after it, generated for it, with the
    database, priority and port its annotations and ports determine and the TLS
    settings, target database and status the route already had, or else nothing changes
    and the reconcile reports an error or asks to be run again; for a Service out of
    scope the route that was generated for this very Service is deleted and nothing
    else, and unless an error is reported there is none left; no route of another name
    and none with the label of another manager is ever touched. *)
Theorem discovery_spec req svc get_route a a' res err :
  reads a (generated_key svc) get_route →
  (∀ r, a !! generated_key svc = Some r → map_get (Labels (Meta r)) ManagedByLabel ≠ "") →
  Reconcile DatabaseAnnotation req (Ok svc) get_route a = (a', res, err) →
  (∀ k, k ≠ generated_key svc → a' !! k = a !! k) ∧
  (∀ r, a !! generated_key svc = Some r →
     map_get (Labels (Meta r)) ManagedByLabel ≠ ManagedByServiceDiscovery → a' = a) ∧
  (out_of_scope svc = true →
     (a' = a ∨ (a' !! generated_key svc = None ∧
                ∃ r, a !! generated_key svc = Some r ∧ generated_for svc r)) ∧
     (err = None → ∀ r, a' !! generated_key svc = Some r → ¬ generated_for svc r)) ∧
  (out_of_scope svc = false →
     (a' = a ∧ (is_Some err ∨ Requeue res = true)) ∨
     (err = None ∧ res = zero_result ∧
      ∃ r, a' !! generated_key svc = Some r ∧ publishes svc r ∧ generated_for svc r ∧
        match a !! generated_key svc with
        | Some old => TLS (Spec r) = TLS (Spec old) ∧ TargetDatabase (Spec r) = TargetDatabase (Spec old) ∧
                      Status r = Status old
        | None => TLS (Spec r) = None ∧ TargetDatabase (Spec r) = ""
        end)).
Proof.
  intros Hreads Hlab Hrun. destruct (out_of_scope svc) eqn:Es.
  - revert Hrun. unfold Reconcile. rewrite Es.
    destruct (deleteGeneratedRoute svc get_route a) as [a1 e1] eqn:Ed. intros [= <- <- <-].
    apply delete_run in Ed as [[->|(-> & r & Hr & Hg)] Hnone]; [..|done].
    + split_and!; [done|done| |done]. intros _. split; [by left|done].
    + split_and!; [intros k Hk; by rewrite lookup_delete_ne| | |done].
      * intros r' Hr'. rewrite Hr in Hr'. injection Hr' as <-. by destruct Hg.
      * intros _. split; [|done]. right. rewrite lookup_delete_eq. eauto.
  - destruct (publish_run _ _ _ _ _ _ _ Es Hrun) as [[-> He]|(-> & -> & r & -> & Em)];
      [split_and!; [done|done|done|]; by left|].
    apply mutate_ok in Em as (Hp & Hg & Htd & Htls & Hst & Hman).
    split_and!; [intros k Hk; by rewrite lookup_insert_ne| |done|].
    + intros old Ho. rewrite Ho in Hman. specialize (Hlab old Ho). cbn in Hman. set_solver.
    + intros _. right. split_and!; [done..|]. exists r. rewrite lookup_insert_eq. split_and!; try done.
      by destruct (a !! generated_key svc).
Qed.

(** A route written by hand under the generated name and without a managed-by
    label, which no hand-written route needs to have, is taken over: its database,
    backend and priority are replaced by the Service's, and it is labelled as
    generated. *)
Theorem unlabelled_route_overwritten req svc get_route a a' res hand :
  out_of_scope svc = false →
  a !! generated_key svc = Some hand → Labels (Meta hand) !! ManagedByLabel = None →
  Reconcile DatabaseAnnotation req (Ok svc) get_route a = (a', res, None) → Requeue res = false →
  ∃ r, a' !! generated_key svc = Some r ∧ publishes svc r.
Proof.
  intros Hs Ha Hl Hrun Hq.
  destruct (publish_run _ _ _ _ _ _ _ Hs Hrun) as [[_ [[? ?]|?]]|(_ & _ & r & -> & Em)]; [congruence..|].
  apply mutate_ok in Em as (Hp & _). exists r. by rewrite lookup_insert_eq.
Qed.

(** A Service that loses the selector's label drops out of the watch with it: the
    update is filtered by the new labels, so the clean-up that [Reconcile] would do
    for it does not run, and the generated route stays. *)
Theorem label_loss_unnoticed req old new a owner r :
  Matches (Labels (svc_Meta old)) = true → Matches (Labels (svc_Meta new)) = false →
  predicate_Update matchesSelector old new = false ∧
  (a !! generated_key new = Some r → route_key r = generated_key new →
   map_get (Labels (Meta r)) ManagedByLabel = ManagedByServiceDiscovery →
   GetControllerOf r = Some owner → own_UID owner = UID (svc_Meta new) →
   Delete_route a (generated_key new) = (delete (generated_key new) a, None) →
   ∃ a', Reconcile DatabaseAnnotation req (Ok new) (Ok r) a = (a', zero_result, None) ∧
     a' !! generated_key new = None).
Proof.
  intros Hold Hnew. split; [by rewrite update_filter|]. intros Ha Hk Hl Ho Hu Hdel.
  unfold Reconcile, out_of_scope. rewrite Hnew, orb_true_r. cbn [negb orb].
  unfold deleteGeneratedRoute. rewrite Hl, Ho, Hu, !bool_decide_eq_true_2 by done. cbn [negb].
  rewrite Hk, Hdel. eexists. split; [done|]. apply lookup_delete_eq.
Qed.

(** A hand-written route at the default priority, or any other above -100, beats
    the route generated for a Service that does not set its own priority, in whatever
    order they were created; and the priority of a generated route is an int32 at
    all times. *)
Theorem handwritten_wins svc hand r :
  publishes svc r →
  - 2 ^ 31 <= Priority (Spec r) < 2 ^ 31 ∧
  (Annotations (svc_Meta svc) !! PriorityAnnotation = None → -100 < Priority (Spec hand) →
   less hand r = true ∧ less r hand = false).
Proof.
  intros (_ & _ & _ & Hp & _). rewrite Hp. unfold priority. split.
  - destruct (Annotations (svc_Meta svc) !! PriorityAnnotation) as [raw|];
      [destruct (ParseInt 32 raw)|]; [apply i32_range|unfold discoveredRoutePriority; lia..].
  - intros Hno Hhand.
    assert (less hand r = true) as Hless.
    { unfold less. rewrite Hp. unfold priority. rewrite Hno. unfold discoveredRoutePriority.
      replace (Priority (Spec hand) =? -100) with false by (symmetry; apply Z.eqb_neq; lia).
      cbn [negb]. apply Z.ltb_lt. lia. }
    split; [done|by apply less_asym].
Qed.

(** The port of a discovered Service without a port annotation is one it declares,
    the one named postgresql or postgres if there is one, except that a Service with
    several other ports gets 5432 whether it declares it or not. *)
Theorem discovered_port_declared svc :
  map_get (Annotations (svc_Meta svc)) PortAnnotation = "" →
  ∃ p, port svc = FromInt p ∧
    (p ∈ map p_Port (svc_Ports svc) ∨ (p = 5432 ∧ length (svc_Ports svc) ≠ 1%nat)) ∧
    (∀ q, postgres_port (svc_Ports svc) = Some q → p = q) ∧
    (postgres_port (svc_Ports svc) = None → 5432 ∈ map p_Port (svc_Ports svc) → p = 5432).
Proof.
  intros Hno. unfold port. rewrite Hno, bool_decide_eq_true_2 by done. cbn [negb].
  destruct (postgres_port (svc_Ports svc)) as [q|] eqn:Eq.
  - exists q. split_and!; try done; [|by intros ? [= <-]]. left. revert Eq.
    induction (svc_Ports svc) as [|x l IH]; cbn; [done|].
    destruct (_ || _); [intros [= <-]; left|intros ?%IH; by right].
  - destruct (has_port (svc_Ports svc) 5432) eqn:Eh.
    + exists 5432. split_and!; try done. left. by apply has_port_spec.
    + assert (5432 ∉ map p_Port (svc_Ports svc)) as Hni.
      { intros Hin%has_port_spec. congruence. }
      destruct (svc_Ports svc) as [|x [|y l]]; eexists; split_and!; try done; cbn.
      * by right.
      * left. left.
      * by right.
Qed.
End DiscoveryProperties.

(** ** A sample cluster *)

#[local] Existing Instance sample_reader.
#[local] Existing Instance sample_kube_meta.

#[local] Instance sample_runtime : ControllerRuntime := {|
  Matches l := bool_decide (l !! "postgres" = Some "true");
  intstr_Parse s := match ParseInt 32 s with Some v => FromInt v | None => FromString s end;
  SetControllerReference svc r :=
    Ok (MkRoute (MkMeta (Namespace (Meta r)) (Name (Meta r)) (UID (Meta r)) (Generation (Meta r))
                   (CreationTimestamp (Meta r)) (DeletionTimestamp (Meta r)) (Labels (Meta r))
                   (Annotations (Meta r)) [MkOwner (UID (svc_Meta svc)) true])
          (Spec r) (Status r));
  GetControllerOf r := head (filter (λ o, own_Controller o = true) (OwnerReferences (Meta r)));
  CreateOrUpdate a route f :=
    match f (default route (a !! route_key route)) with
    | Err e => (a, Err e)
    | Ok r => (<[route_key route := r]> a, Ok "updated")
    end;
  Delete_route a k := (delete k a, None);
  predicate_Update f old new := f new
|}.

#[local] Instance sample_runtime_ok (R : KubeReader) : @ControllerRuntimeOk R sample_runtime.
Proof.
  split; cbn.
  - intros a route f. destruct (f _) as [r|e]; [left; by eexists|done].
  - intros a k. by left.
  - intros svc r r' [= <-]. split_and!; [done..|]. by eexists.
  - done.
Qed.

Definition labelled_service (l : gmap string string) : Service :=
  MkService (MkMeta "apps" "pg" "uid-1" 1 1 None l ∅ [])
    [MkServicePort "metrics" 9187; MkServicePort "postgres" 5433].

Definition in_scope : Service := labelled_service {["postgres" := "true"]}.

(** A route written by hand that happens to have the generated name. *)
Definition hand_written : PostgresRoute :=
  MkRoute (MkMeta "apps" "pg-discovered" "uid-2" 1 1 None ∅ ∅ [])
    (MkSpec "payroll" "" (MkBackend BackendTypeAddress None (Some (MkAddressBackend "10.0.0.9" 0)))
       None 0) (MkStatus 0 "" "" "" []).

Definition no_route : result error PostgresRoute :=
  Err (EExt (ExtError "not found" [] false (Some "NotFound"))).

(** What the Service is published as, and the Service once it opts out. *)
Definition published_route : PostgresRoute :=
  match mutate DefaultDatabaseAnnotation in_scope (empty_route (generated_key in_scope)) with
  | Ok r => r | Err _ => hand_written
  end.
Definition opted_out : Service :=
  MkService (MkMeta "apps" "pg" "uid-1" 2 1 None {["postgres" := "true"]} {[IgnoreAnnotation := "true"]} [])
    (svc_Ports in_scope).

Lemma discovery_spec_witness :
  (∃ r, (Reconcile DefaultDatabaseAnnotation (MkName "apps" "pg") (Ok in_scope) no_route ∅).1.1
          !! generated_key in_scope = Some r ∧
        publishes DefaultDatabaseAnnotation in_scope r ∧ generated_for in_scope r) ∧
  (∀ r, (Reconcile DefaultDatabaseAnnotation (MkName "apps" "pg") (Ok opted_out) (Ok published_route)
           {[generated_key in_scope := published_route]}).1.1 !! generated_key opted_out = Some r →
        ¬ generated_for opted_out r).
Proof.
  split.
  - destruct (discovery_spec DefaultDatabaseAnnotation (MkName "apps" "pg") in_scope no_route ∅ _ zero_result None
      (λ _, lookup_empty _) ltac:(by intros r; rewrite lookup_empty) eq_refl) as (_ & _ & _ & Hin).
    destruct (Hin ltac:(by vm_compute)) as [[_ [[? ?]|?]]|(_ & _ & r & Hr & Hp & Hg & _)]; [done..|by exists r].
  - destruct (discovery_spec DefaultDatabaseAnnotation (MkName "apps" "pg") opted_out (Ok published_route)
      {[generated_key in_scope := published_route]} _ zero_result None ltac:(by split; vm_compute)
      ltac:(by intros r [_ <-]%lookup_singleton_Some) eq_refl) as (_ & _ & Hout & _).
    apply Hout; by vm_compute.
Defined.

Lemma unlabelled_route_overwritten_witness :
  ∃ a' r, Reconcile DefaultDatabaseAnnotation (MkName "apps" "pg") (Ok in_scope) (Ok hand_written)
            {[generated_key in_scope := hand_written]} = (a', zero_result, None) ∧
    a' !! generated_key in_scope = Some r ∧ publishes DefaultDatabaseAnnotation in_scope r.
Proof.
  assert (∃ a', Reconcile DefaultDatabaseAnnotation (MkName "apps" "pg") (Ok in_scope) (Ok hand_written)
            {[generated_key in_scope := hand_written]} = (a', zero_result, None)) as [a' E]
    by (eexists; reflexivity).
  exists a'.
  destruct (unlabelled_route_overwritten DefaultDatabaseAnnotation (MkName "apps" "pg") in_scope
              (Ok hand_written) {[generated_key in_scope := hand_written]} a' zero_result hand_written)
    as (r & Hr & Hp); [vm_compute; reflexivity..|exact E|reflexivity|].
  exists r. exact (conj E (conj Hr Hp)).
Defined.

Lemma label_loss_unnoticed_witness :
  predicate_Update matchesSelector in_scope (labelled_service ∅) = false.
Proof.
  apply (label_loss_unnoticed DefaultDatabaseAnnotation (MkName "apps" "pg") in_scope
           (labelled_service ∅) ∅ (MkOwner "" true) hand_written); by vm_compute.
Defined.

Lemma handwritten_wins_witness :
  let r := MkRoute (MkMeta "apps" "pg-discovered" "" 1 1 None
                      {[ManagedByLabel := ManagedByServiceDiscovery; SourceServiceLabel := "pg"]} ∅ [])
             (MkSpec "pg" "" (MkBackend BackendTypeService
                (Some (MkServiceBackend "pg" "apps" (FromInt 5433))) None) None (-100))
             (MkStatus 0 "" "" "" []) in
  - 2 ^ 31 <= Priority (Spec r) < 2 ^ 31 ∧
  (Annotations (svc_Meta in_scope) !! PriorityAnnotation = None → -100 < Priority (Spec hand_written) →
   less hand_written r = true ∧ less r hand_written = false).
Proof.
  intros r. apply (handwritten_wins DefaultDatabaseAnnotation in_scope hand_written r).
  by split_and!.
Defined.

Lemma discovered_port_declared_witness :
  ∃ p, port in_scope = FromInt p ∧
    (p ∈ map p_Port (svc_Ports in_scope) ∨ (p = 5432 ∧ length (svc_Ports in_scope) ≠ 1%nat)) ∧
    (∀ q, postgres_port (svc_Ports in_scope) = Some q → p = q) ∧
    (postgres_port (svc_Ports in_scope) = None → 5432 ∈ map p_Port (svc_Ports in_scope) → p = 5432).
Proof. apply discovered_port_declared. reflexivity. Defined.
