(* ===== verification/Config.v ===== *)
(** Runtime configuration and how the processes are put together from it
    ([internal/config/config.go], [internal/config/env.go], and [newGateway],
    [buildServerTLS] and [readinessCheck] of [cmd/pg-k8s-proxy/run.go]) with the
    probe handler ([internal/health/server.go]). *)

From stdpp Require Import base list gmap strings pretty.
From Stdlib Require Import ZArith Lia.
From Stdlib Require Import Init.Byte.
From S2P Require Import Prelude GoLib Wire Api Registry Net Cancel Backend Relay Session Server.

Local Open Scope go_scope.

(** ** Text *)

(** [unicode.IsSpace]. *)
Definition IsSpace (r : Z) : bool :=
  in_range 9 13 r || (r =? 32) || (r =? 0x85) || (r =? 0xA0) || (r =? 0x1680)
  || in_range 0x2000 0x200a r || (r =? 0x2028) || (r =? 0x2029) || (r =? 0x202f)
  || (r =? 0x205f) || (r =? 0x3000).

(** The characters of a text, each with whether it is white space; a byte that is
    no UTF-8 stands alone. *)
Fixpoint split_runes (fuel : nat) (b : bytes) : list (bool * bytes) :=
  match fuel, b with
  | S fuel', c :: rest =>
      match DecodeRune b with
      | Some (r, w) => (IsSpace r, take w b) :: split_runes fuel' (drop w b)
      | None => (false, [c]) :: split_runes fuel' rest
      end
  | _, _ => []
  end.

Fixpoint drop_spaces (l : list (bool * bytes)) : list (bool * bytes) :=
  match l with
  | (true, _) :: rest => drop_spaces rest
  | _ => l
  end.

(** [strings.TrimSpace]. *)
Definition TrimSpace (s : string) : string :=
  let runes := split_runes (String.length s) (bytes_of s) in
  string_of (concat (map snd (reverse (drop_spaces (reverse (drop_spaces runes)))))).

(** [strings.Split] at a byte. *)
Fixpoint split_at (sep : byte) (b : bytes) : list bytes :=
  match b with
  | [] => [[]]
  | c :: rest =>
      if bool_decide (c = sep) then [] :: split_at sep rest
      else match split_at sep rest with
           | [] => [[c]]
           | x :: l => (c :: x) :: l
           end
  end.

Definition Split (s : string) (sep : byte) : list string := map string_of (split_at sep (bytes_of s)).

(** [strconv.Atoi]: a 64-bit decimal integer with an optional sign. *)
Definition Atoi (s : string) : option Z := ParseInt 64 s.

(** ** Configuration *)

Definition RoleAll : string := "all".
Definition RoleManager : string := "manager".
Definition RoleProxy : string := "proxy".

Definition RunsProxy (r : string) : bool := bool_decide (r = RoleAll) || bool_decide (r = RoleProxy).
Definition RunsManager (r : string) : bool :=
  bool_decide (r = RoleAll) || bool_decide (r = RoleManager).

Definition TLSDisable : string := "disable".
Definition TLSAllow : string := "allow".
Definition TLSRequire : string := "require".

Record ProxyConfig := MkProxyConfig {
  BindAddress : string;
  pc_MaxConnections : Z;
  pc_StartupTimeout : Z;
  pc_DialTimeout : Z;
  pc_ShutdownGracePeriod : Z;
  pc_KeepAlivePeriod : Z;
  TLSMode : string;
  TLSCertFile : string;
  TLSKeyFile : string;
  TLSClientCAFile : string
}.

Record WatchConfig := MkWatchConfig {
  Namespaces : list string;
  wc_ClusterDomain : string;
  WatchSecrets : bool
}.

Definition ClusterScoped (w : WatchConfig) : bool := (length (Namespaces w) =? 0)%nat.

(** [selector] is the parsed selector, by the text it was parsed from; [None] is
    nil. *)
Record DiscoveryConfig := MkDiscoveryConfig {
  dc_Enabled : bool;
  LabelSelector : string;
  dc_DatabaseAnnotation : string;
  selector : option string
}.

Record LeaderConfig := MkLeaderConfig {
  lc_Enabled : bool;
  lc_ID : string;
  lc_Namespace : string;
  LeaseDuration : Z;
  RenewDeadline : Z;
  RetryPeriod : Z
}.

Record Config := MkConfig {
  Role : string;
  Proxy : ProxyConfig;
  Watch : WatchConfig;
  Discovery : DiscoveryConfig;
  Leader : LeaderConfig;
  HealthBindAddress : string;
  MetricsBindAddress : string;
  LogLevel : string;
  LogFormat : string
}.

Definition Default : Config :=
  MkConfig RoleAll
    (MkProxyConfig ":5432" 0 (30 * Second) (5 * Second) (30 * Second) (30 * Second) TLSDisable "" "" "")
    (MkWatchConfig [] "cluster.local" false)
    (MkDiscoveryConfig true "app.kubernetes.io/name=postgresql" "pgproxy.io/database-name" None)
    (MkLeaderConfig true "pg-k8s-proxy.pgproxy.io" "" (15 * Second) (10 * Second) (2 * Second))
    ":8080" ":9090" "info" "json".

(** The label selector parser: the error it gives, or whether the selector it
    parsed is empty. *)
Class LabelsParser := labels_Parse : string → result error bool.

(** The process's surroundings: the service account's namespace file and the
    environment. *)
Record process := MkProcess {
  token_namespace : result error bytes;
  environment : gmap string string
}.

Section Validate.
Context `{LabelsParser}.

(** [currentNamespace]. *)
Definition currentNamespace (env : process) : string :=
  let fallback := default "" (environment env !! "POD_NAMESPACE") in
  match token_namespace env with
  | Ok data =>
      let ns := TrimSpace (string_of data) in
      if negb (bool_decide (ns = "")) then ns else fallback
  | Err _ => fallback
  end.

Definition one_of (s : string) (l : list string) : bool := bool_decide (s ∈ l).

(** The discovery settings [Validate] leaves. *)
Definition validateDiscovery (role : string) (d : DiscoveryConfig) : result error DiscoveryConfig :=
  if dc_Enabled d then
    if negb (RunsManager role) then
      Ok (MkDiscoveryConfig false (LabelSelector d) (dc_DatabaseAnnotation d) (selector d))
    else
      match labels_Parse (LabelSelector d) with
      | Err err => Err (Errorf [Lit "--service-discovery-selector "; PQ (LabelSelector d); Lit ": "; PW err])
      | Ok empty =>
          if empty then
            Err (ENew "--service-discovery-selector must not be empty when service discovery is enabled; an empty selector would adopt every Service in scope")
          else Ok (MkDiscoveryConfig true (LabelSelector d) (dc_DatabaseAnnotation d)
                     (Some (LabelSelector d)))
      end
  else Ok d.

(** [Validate]: the configuration with its derived fields, or the first error. *)
Definition Validate (env : process) (c : Config) : result error Config :=
  if negb (one_of (Role c) [RoleAll; RoleManager; RoleProxy]) then
    Err (Errorf [Lit "--role must be all, manager, or proxy, got "; PQ (Role c)])
  else if one_of (TLSMode (Proxy c)) [TLSAllow; TLSRequire]
          && (bool_decide (TLSCertFile (Proxy c) = "") || bool_decide (TLSKeyFile (Proxy c) = "")) then
    Err (Errorf [Lit "--proxy-tls-mode="; PS (TLSMode (Proxy c));
                 Lit " needs both --proxy-tls-cert-file and --proxy-tls-key-file"])
  else if negb (one_of (TLSMode (Proxy c)) [TLSDisable; TLSAllow; TLSRequire]) then
    Err (Errorf [Lit "--proxy-tls-mode must be disable, allow, or require, got "; PQ (TLSMode (Proxy c))])
  else if pc_MaxConnections (Proxy c) <? 0 then
    Err (Errorf [Lit "--proxy-max-connections must not be negative, got "; PD (pc_MaxConnections (Proxy c))])
  else if bool_decide (wc_ClusterDomain (Watch c) = "") then
    Err (Errorf [Lit "--cluster-domain must not be empty"])
  else
    let! discovery := validateDiscovery (Role c) (Discovery c) in
    let l := Leader c in
    let leader :=
      MkLeaderConfig (lc_Enabled l && RunsManager (Role c)) (lc_ID l)
        (if bool_decide (lc_Namespace l = "") then currentNamespace env else lc_Namespace l)
        (LeaseDuration l) (RenewDeadline l) (RetryPeriod l) in
    if negb (one_of (LogLevel c) ["debug"; "info"; "warn"; "error"]) then
      Err (Errorf [Lit "--log-level must be debug, info, warn, or error, got "; PQ (LogLevel c)])
    else if negb (one_of (LogFormat c) ["json"; "text"]) then
      Err (Errorf [Lit "--log-format must be json or text, got "; PQ (LogFormat c)])
    else
      let namespaces := filter (λ ns, ns ≠ "") (map TrimSpace (Namespaces (Watch c))) in
      Ok (MkConfig (Role c) (Proxy c)
            (MkWatchConfig namespaces (wc_ClusterDomain (Watch c)) (WatchSecrets (Watch c)))
            discovery leader (HealthBindAddress c) (MetricsBindAddress c) (LogLevel c) (LogFormat c)).
End Validate.

(** ** The environment of older deployments ([env.go]) *)

Section Environment.
Context `{UnicodeTables}.

(** The closure [setPort]: the new value of the target and its warnings. *)
Definition setPort (env : process) (explicitlySet : string → bool) (name flag : string)
  (target : string) : string * list string :=
  if explicitlySet flag then (target, [])
  else
    match environment env !! name with
    | None => (target, [])
    | Some raw =>
        if bool_decide (raw = "") then (target, [])
        else
          match Atoi raw with
          | None => (target, [Sprintf [Lit "ignoring "; PS name; Lit "="; PQ raw;
                                       Lit ": not a port number"]])
          | Some _ => (JoinHostPort "" raw,
                       [Sprintf [PS name; Lit " is deprecated, use --"; PS flag]])
          end
    end.

(** A variable that replaces a flag's default unless the flag was given. *)
Definition legacy (env : process) (explicitlySet : string → bool) (name flag : string)
  : option string :=
  match environment env !! name with
  | Some raw => if negb (bool_decide (raw = "")) && negb (explicitlySet flag) then Some raw else None
  | None => None
  end.

(** [ApplyEnvironment]. *)
Definition ApplyEnvironment (env : process) (explicitlySet : string → bool) (c : Config)
  : Config * list string :=
  let '(bind, w1) := setPort env explicitlySet "POSTGRES_PORT" "proxy-bind-address"
                       (BindAddress (Proxy c)) in
  let '(health, w2) := setPort env explicitlySet "HEALTH_PORT" "health-bind-address"
                         (HealthBindAddress c) in
  let '(sel, w3) :=
    match legacy env explicitlySet "LABEL_SELECTOR" "service-discovery-selector" with
    | Some raw => (raw, ["LABEL_SELECTOR is deprecated, use --service-discovery-selector"])
    | None => (LabelSelector (Discovery c), [])
    end in
  let '(namespaces, w4) :=
    match legacy env explicitlySet "KUBERNETES_NAMESPACE" "watch-namespaces" with
    | Some raw => (Split raw x2c, ["KUBERNETES_NAMESPACE is deprecated, use --watch-namespaces"])
    | None => (Namespaces (Watch c), [])
    end in
  let w5 :=
    match environment env !! "POLL_INTERVAL" with
    | Some _ => ["POLL_INTERVAL is ignored: the gateway now watches the API server instead of polling it"]
    | None => []
    end in
  let p := Proxy c in
  (MkConfig (Role c)
     (MkProxyConfig bind (pc_MaxConnections p) (pc_StartupTimeout p) (pc_DialTimeout p)
        (pc_ShutdownGracePeriod p) (pc_KeepAlivePeriod p) (TLSMode p) (TLSCertFile p) (TLSKeyFile p)
        (TLSClientCAFile p))
     (MkWatchConfig namespaces (wc_ClusterDomain (Watch c)) (WatchSecrets (Watch c)))
     (MkDiscoveryConfig (dc_Enabled (Discovery c)) sel (dc_DatabaseAnnotation (Discovery c))
        (selector (Discovery c)))
     (Leader c) health (MetricsBindAddress c) (LogLevel c) (LogFormat c),
   w1 ++ w2 ++ w3 ++ w4 ++ w5).
End Environment.

(** ** Putting the gateway together ([run.go]) *)

(** Reading the certificate files. *)
Class Files := {
  LoadX509KeyPair : string → string → option error;
  ReadFile : string → result error bytes;
  AppendCertsFromPEM : bytes → bool
}.

Section Gateway.
Context `{Files}.

(** [buildServerTLS]. *)
Definition buildServerTLS (cfg : ProxyConfig) : result error (option ServerTLS) :=
  if bool_decide (TLSMode cfg = TLSDisable) then Ok None
  else
    match LoadX509KeyPair (TLSCertFile cfg) (TLSKeyFile cfg) with
    | Some err => Err (Errorf [Lit "loading the client-facing TLS keypair: "; PW err])
    | None =>
        let! clientCAs :=
          (if negb (bool_decide (TLSClientCAFile cfg = "")) then
             match ReadFile (TLSClientCAFile cfg) with
             | Err err => Err (Errorf [Lit "reading the client CA bundle: "; PW err])
             | Ok pem =>
                 if negb (AppendCertsFromPEM pem) then
                   Err (Errorf [Lit "client CA bundle "; PS (TLSClientCAFile cfg);
                                Lit " holds no PEM certificates"])
                 else Ok (Some (MkCertPool [pem]))
             end
           else Ok None) in
        Ok (Some (MkServerTLS (Some (MkTlsConfig "" None VersionTLS12 false clientCAs))
                    (bool_decide (TLSMode cfg = TLSRequire))))
    end.

(** [newGateway]. *)
Definition newGateway (cfg : Config) (store : Store) : result error Server :=
  let! serverTLS := buildServerTLS (Proxy cfg) in
  New (Session.MkConfig (BindAddress (Proxy cfg)) (Some store) serverTLS
         (pc_MaxConnections (Proxy cfg)) (pc_StartupTimeout (Proxy cfg)) (pc_DialTimeout (Proxy cfg))
         (pc_ShutdownGracePeriod (Proxy cfg)) (pc_KeepAlivePeriod (Proxy cfg))).
End Gateway.

(** [readinessCheck]. *)
Definition readinessCheck (gateway : option Server) : option error :=
  match gateway with
  | Some s =>
      if negb (srv_listening s)
      then Some (ENew "the gateway is not accepting connections yet") else None
  | None => None
  end.

(** ** Probes ([health/server.go]) *)

(** The response to a probe: its status code and the fields of its body. *)
Record probe_response := MkProbe {
  pb_code : Z;
  pb_routes : Z;
  pb_status : string;
  pb_error : option string
}.

(** [handle], given what the check returned. *)
Definition probe_handle `{UnicodeTables} (check : option error) (routes : Z) : probe_response :=
  match check with
  | Some err => MkProbe 503 routes "unhealthy" (Some (Error err))
  | None => MkProbe 200 routes "ok" None
  end.

(** The routes of [New]'s multiplexer; [None] for any other path. *)
Definition probe `{UnicodeTables} (path : string) (live ready : option error) (routes : Z)
  : option probe_response :=
  if bool_decide (path ∈ ["/healthz"; "/health"]) then Some (probe_handle live routes)
  else if bool_decide (path ∈ ["/readyz"; "/ready"]) then Some (probe_handle ready routes)
  else None.

(** ** Properties *)

Section ConfigProperties.
Context `{LabelsParser} `{UnicodeTables}.

(** A configuration without contradictions. *)
Definition consistent (c : Config) : Prop :=
  Role c ∈ [RoleAll; RoleManager; RoleProxy] ∧
  (TLSMode (Proxy c) = TLSDisable ∨
   (TLSMode (Proxy c) ∈ [TLSAllow; TLSRequire] ∧ TLSCertFile (Proxy c) ≠ "" ∧ TLSKeyFile (Proxy c) ≠ "")) ∧
  0 <= pc_MaxConnections (Proxy c) ∧ wc_ClusterDomain (Watch c) ≠ "" ∧
  (dc_Enabled (Discovery c) = true → RunsManager (Role c) = true →
     labels_Parse (LabelSelector (Discovery c)) = Ok false) ∧
  LogLevel c ∈ ["debug"; "info"; "warn"; "error"] ∧ LogFormat c ∈ ["json"; "text"].

Lemma filter_map_nil (l : list string) :
  filter (λ ns, ns ≠ "") (map TrimSpace l) = [] ↔ ∀ ns, ns ∈ l → TrimSpace ns = "".
Proof.
  induction l as [|ns l IH]; [set_solver|]. cbn [map].
  destruct (decide (TrimSpace ns = "")) as [He|Hne].
  - rewrite filter_cons_False by tauto. rewrite IH. set_solver.
  - rewrite filter_cons_True by done. split; [done|]. intros Hall. destruct Hne. apply Hall. left.
Qed.

Lemma validateDiscovery_spec role d :
  match validateDiscovery role d with
  | Ok d' =>
      dc_Enabled d' = (dc_Enabled d && RunsManager role) ∧ LabelSelector d' = LabelSelector d ∧
      dc_DatabaseAnnotation d' = dc_DatabaseAnnotation d ∧
      (dc_Enabled d' = true → selector d' = Some (LabelSelector d)) ∧
      (dc_Enabled d = true → RunsManager role = true → labels_Parse (LabelSelector d) = Ok false)
  | Err _ => dc_Enabled d = true ∧ RunsManager role = true ∧ labels_Parse (LabelSelector d) ≠ Ok false
  end.
Proof.
  unfold validateDiscovery. destruct (dc_Enabled d) eqn:Ed; [|by rewrite Ed].
  destruct (RunsManager role) eqn:Er; cbn [negb andb]; [|by split_and!].
  destruct (labels_Parse (LabelSelector d)) as [[]|e] eqn:Ep; by split_and!.
Qed.

(** [Validate] accepts exactly the configurations without contradictions.  What it
    returns runs discovery and leader election only in a process that reconciles,
    discovery only with a selector that is not empty, watches only namespaces with a
    name and everything when none is left, and keeps the settings it was given. *)
Theorem validate_spec env c :
  match Validate env c with
  | Err _ => ¬ consistent c
  | Ok c' =>
      consistent c ∧ Role c' = Role c ∧ Proxy c' = Proxy c ∧
      HealthBindAddress c' = HealthBindAddress c ∧ MetricsBindAddress c' = MetricsBindAddress c ∧
      dc_Enabled (Discovery c') = (dc_Enabled (Discovery c) && RunsManager (Role c)) ∧
      (dc_Enabled (Discovery c') = true → selector (Discovery c') = Some (LabelSelector (Discovery c))) ∧
      lc_Enabled (Leader c') = (lc_Enabled (Leader c) && RunsManager (Role c)) ∧
      Forall (λ ns, ns ≠ "") (Namespaces (Watch c')) ∧
      (ClusterScoped (Watch c') = true ↔ ∀ ns, ns ∈ Namespaces (Watch c) → TrimSpace ns = "") ∧
      wc_ClusterDomain (Watch c') = wc_ClusterDomain (Watch c) ∧
      WatchSecrets (Watch c') = WatchSecrets (Watch c) ∧
      (lc_Namespace (Leader c) ≠ "" → lc_Namespace (Leader c') = lc_Namespace (Leader c)) ∧
      LogLevel c' = LogLevel c ∧ LogFormat c' = LogFormat c
  end.
Proof.
  unfold Validate, consistent. unfold one_of.
  destruct (bool_decide_reflect (Role c ∈ [RoleAll; RoleManager; RoleProxy])) as [Hrole|Hrole]; cbn [negb];  [|by intros (? & _)].
  destruct (bool_decide (TLSMode (Proxy c) ∈ [TLSAllow; TLSRequire]) && _) eqn:Etls.
  { apply andb_true_iff in Etls as [Hm%bool_decide_eq_true Hf%orb_true_iff].
    rewrite !bool_decide_eq_true in Hf. intros (_ & [Hd|(_ & ? & ?)] & _); [|tauto].
    rewrite Hd in Hm. apply (bool_decide_eq_true_2 _) in Hm. by vm_compute in Hm. }
  destruct (bool_decide_reflect (TLSMode (Proxy c) ∈ [TLSDisable; TLSAllow; TLSRequire])) as [Hmode|Hmode]; cbn [negb]; 
     [|intros (_ & Hd & _); apply Hmode; set_solver].
  destruct (pc_MaxConnections (Proxy c) <? 0) eqn:Emax;
    [apply Z.ltb_lt in Emax; intros (_ & _ & ? & _); lia|apply Z.ltb_ge in Emax].
  destruct (bool_decide_reflect (wc_ClusterDomain (Watch c) = "")) as [Hdom|Hdom]; cbn [negb];  [naive_solver|].
  pose proof (validateDiscovery_spec (Role c) (Discovery c)) as Hdisc.
  destruct (validateDiscovery (Role c) (Discovery c)) as [d'|e]; [|naive_solver].
  destruct Hdisc as (Hen & _ & _ & Hsel & Hparse).
  destruct (bool_decide_reflect (LogLevel c ∈ ["debug"; "info"; "warn"; "error"])) as [Hlvl|Hlvl]; cbn [negb]; 
     [|by intros (_ & _ & _ & _ & _ & ? & _)].
  destruct (bool_decide_reflect (LogFormat c ∈ ["json"; "text"])) as [Hfmt|Hfmt]; cbn [negb]; 
     [|by intros (_ & _ & _ & _ & _ & _ & ?)].
  assert (TLSMode (Proxy c) = TLSDisable ∨
          (TLSMode (Proxy c) ∈ [TLSAllow; TLSRequire] ∧ TLSCertFile (Proxy c) ≠ "" ∧ TLSKeyFile (Proxy c) ≠ "")) as Htls.
  { apply elem_of_cons in Hmode as [?|Hm]; [by left|right].
    rewrite bool_decide_eq_true_2 in Etls by done. cbn [andb] in Etls.
    apply orb_false_iff in Etls as [?%bool_decide_eq_false ?%bool_decide_eq_false]. done. }
  cbn. split_and!; try done.
  - apply Forall_forall. intros ns Hin. by apply list_elem_of_filter in Hin as [? _].
  - unfold ClusterScoped. cbn [Namespaces]. rewrite Nat.eqb_eq, length_zero_iff_nil.
    apply filter_map_nil.
  - intros Hne. by rewrite bool_decide_eq_false_2.
Qed.

(** A variable of an older deployment never overrides a flag that was given,
    never touches a setting other than the two addresses, the selector and the
    namespaces, and without such variables the configuration is unchanged and
    nothing is reported. *)
Theorem env_flags_win env explicitlySet c :
  let '(c', warnings) := ApplyEnvironment env explicitlySet c in
  (explicitlySet "proxy-bind-address" = true → BindAddress (Proxy c') = BindAddress (Proxy c)) ∧
  (explicitlySet "health-bind-address" = true → HealthBindAddress c' = HealthBindAddress c) ∧
  (explicitlySet "service-discovery-selector" = true →
     LabelSelector (Discovery c') = LabelSelector (Discovery c)) ∧
  (explicitlySet "watch-namespaces" = true → Namespaces (Watch c') = Namespaces (Watch c)) ∧
  TLSMode (Proxy c') = TLSMode (Proxy c) ∧ pc_MaxConnections (Proxy c') = pc_MaxConnections (Proxy c) ∧
  Role c' = Role c ∧ Leader c' = Leader c ∧ MetricsBindAddress c' = MetricsBindAddress c ∧
  dc_Enabled (Discovery c') = dc_Enabled (Discovery c) ∧
  (environment env = ∅ → c' = c ∧ warnings = []).
Proof.
  unfold ApplyEnvironment.
  destruct (setPort env explicitlySet "POSTGRES_PORT" _ _) as [bind w1] eqn:E1.
  destruct (setPort env explicitlySet "HEALTH_PORT" _ _) as [hea w2] eqn:E2.
  destruct (match legacy env explicitlySet "LABEL_SELECTOR" _ with Some _ => _ | None => _ end)
    as [sel w3] eqn:E3.
  destruct (match legacy env explicitlySet "KUBERNETES_NAMESPACE" _ with Some _ => _ | None => _ end)
    as [nss w4] eqn:E4.
  unfold setPort, legacy in *. cbn. split_and!; try done.
  - intros Hx. rewrite Hx in E1. congruence.
  - intros Hx. rewrite Hx in E2. congruence.
  - intros Hx. rewrite Hx in E3.
    destruct (environment env !! "LABEL_SELECTOR") as [raw|]; [|congruence].
    rewrite andb_false_r in E3. congruence.
  - intros Hx. rewrite Hx in E4.
    destruct (environment env !! "KUBERNETES_NAMESPACE") as [raw|]; [|congruence].
    rewrite andb_false_r in E4. congruence.
  - intros Henv. rewrite Henv, !lookup_empty in *.
    assert (bind = BindAddress (Proxy c) ∧ w1 = []) as [-> ->]
      by (destruct (explicitlySet "proxy-bind-address"); naive_solver).
    assert (hea = HealthBindAddress c ∧ w2 = []) as [-> ->]
      by (destruct (explicitlySet "health-bind-address"); naive_solver).
    injection E3 as <- <-. injection E4 as <- <-. by destruct c as [? [] [] [] ? ? ? ? ?].
Qed.

(** Any integer is taken for a port: a port variable that reads as an integer
    replaces the listen address, whether or not it is between 1 and 65535. *)
Theorem env_port_unchecked env explicitlySet c raw n :
  explicitlySet "proxy-bind-address" = false →
  environment env !! "POSTGRES_PORT" = Some raw → raw ≠ "" → Atoi raw = Some n →
  BindAddress (Proxy (ApplyEnvironment env explicitlySet c).1) = JoinHostPort "" raw.
Proof.
  intros Hx Hl Hne Ha. unfold ApplyEnvironment.
  destruct (setPort env explicitlySet "POSTGRES_PORT" _ _) as [bind w1] eqn:E1.
  destruct (setPort env explicitlySet "HEALTH_PORT" _ _) as [hea w2].
  destruct (match legacy env explicitlySet "LABEL_SELECTOR" _ with Some _ => _ | None => _ end).
  destruct (match legacy env explicitlySet "KUBERNETES_NAMESPACE" _ with Some _ => _ | None => _ end).
  cbn. unfold setPort in E1. rewrite Hx, Hl, bool_decide_eq_false_2, Ha in E1 by done.
  by injection E1 as <- <-.
Qed.

(** The readiness probe answers 200 exactly when the process has no gateway or
    its gateway is listening, whatever the number of routes, and the liveness probe
    always does; both bodies carry the number of routes. *)
Theorem probe_spec gateway routes :
  probe "/readyz" None (readinessCheck gateway) routes
    = probe "/ready" None (readinessCheck gateway) routes ∧
  (∃ r, probe "/readyz" None (readinessCheck gateway) routes = Some r ∧ pb_routes r = routes ∧
        (pb_code r = 200 ↔ ∀ s, gateway = Some s → srv_listening s = true) ∧
        (pb_code r ≠ 200 → pb_code r = 503 ∧ is_Some (pb_error r))) ∧
  probe "/healthz" None (readinessCheck gateway) routes = Some (MkProbe 200 routes "ok" None).
Proof.
  split; [done|]. split; [|done].
  destruct gateway as [s|].
  - unfold readinessCheck. destruct (srv_listening s) eqn:El; (eexists; split; [reflexivity|]); cbn.
    + split; [done|]. split; [|done]. split; [|done]. intros _ s' [= <-]. done.
    + split; [done|]. split; [|done]. split; [done|]. intros Hall.
      specialize (Hall s eq_refl). congruence.
  - eexists; (split; [reflexivity|]); cbn; split; [done|]. split; [|done]. by split.
Qed.

Lemma validate_proxy env c c' :
  Validate env c = Ok c' →
  Proxy c' = Proxy c ∧ TLSMode (Proxy c) ∈ [TLSDisable; TLSAllow; TLSRequire] ∧
  0 <= pc_MaxConnections (Proxy c).
Proof.
  unfold Validate, one_of. intros Hv. repeat (case_match; try done);
  simplify_eq; cbn; repeat match goal with
  | Hb : negb _ = false |- _ => apply negb_false_iff, bool_decide_eq_true in Hb
  | Hz : (_ <? _) = false |- _ => apply Z.ltb_ge in Hz
  end; done.
Qed.

Section GatewayProperties.
Context `{Files}.

Lemma buildServerTLS_spec p tls :
  buildServerTLS p = Ok tls →
  (tls = None ↔ TLSMode p = TLSDisable) ∧
  (∀ t, tls = Some t → is_Some (ServerTLS_Config t) ∧ Required t = bool_decide (TLSMode p = TLSRequire)).
Proof.
  unfold buildServerTLS. case_bool_decide as Hd; [intros [= <-]; done|].
  destruct (LoadX509KeyPair _ _); [done|].
  intros Hb. assert (∃ cas, tls = Some (MkServerTLS (Some (MkTlsConfig "" None VersionTLS12 false cas))
                                   (bool_decide (TLSMode p = TLSRequire)))) as [cas ->].
  { repeat (case_match; try done); simplify_eq; eauto. }
  split; [done|]. intros t [= <-]. cbn. by split.
Qed.

(** Of a configuration [Validate] accepts, with a listen address and readable
    certificate files, [newGateway] always makes a server; it speaks TLS to clients
    exactly when the mode is not [disable], and refuses plaintext exactly when it is
    [require]. *)
Theorem gateway_of_valid_config env c c' store tls :
  Validate env c = Ok c' → BindAddress (Proxy c') ≠ "" → buildServerTLS (Proxy c') = Ok tls →
  ∃ s, newGateway c' store = Ok s ∧ cfg_Routes (srv_cfg s) = Some store ∧
    (cfg_TLS (srv_cfg s) = None ↔ TLSMode (Proxy c) = TLSDisable) ∧
    ((∃ t, cfg_TLS (srv_cfg s) = Some t ∧ Required t = true) ↔ TLSMode (Proxy c) = TLSRequire).
Proof.
  intros Hv Haddr Htls. apply validate_proxy in Hv as (Hp & Hmode & Hmax). rewrite Hp in *.
  unfold newGateway. rewrite Hp, Htls. cbn beta iota.
  apply buildServerTLS_spec in Htls as [Hoff Hon].
  unfold New. cbn [cfg_Routes ListenAddress cfg_TLS MaxConnections].
  rewrite bool_decide_eq_false_2 by done.
  assert (match tls with Some t => bool_decide (ServerTLS_Config t = None) | None => false end = false)
    as ->.
  { destruct tls as [t|]; [|done]. apply bool_decide_eq_false. intros Hn.
    destruct (Hon t eq_refl) as [[? ?] _]. congruence. }
  replace (pc_MaxConnections (Proxy c) <? 0) with false by (symmetry; apply Z.ltb_ge; lia).
  eexists. split; [reflexivity|]. cbn. split; [done|]. split; [done|].
  split.
  - intros (t & -> & Hr). destruct (Hon t eq_refl) as [_ Hreq]. rewrite Hr in Hreq.
    symmetry in Hreq. by apply bool_decide_eq_true in Hreq.
  - intros Hr. destruct tls as [t|].
    + exists t. split; [done|]. destruct (Hon t eq_refl) as [_ ->]. by apply bool_decide_eq_true.
    + destruct Hoff as [Hd _]. specialize (Hd eq_refl). rewrite Hr in Hd. discriminate Hd.
Qed.
End GatewayProperties.
End ConfigProperties.

(** ** Example configurations *)

Section ConfigWitnesses.
#[local] Instance sample_parser : LabelsParser := λ s, Ok (bool_decide (s = "")).
#[local] Instance sample_unicode : UnicodeTables := λ _, true.
#[local] Instance sample_files : Files :=
  {| LoadX509KeyPair := λ _ _, None; ReadFile := λ _, Ok []; AppendCertsFromPEM := λ _, true |}.

Definition outside : process := MkProcess (Err (ENew "no such file")) {["POSTGRES_PORT" := "70000"]}.

(** A gateway that requires TLS. *)
Definition tls_config : Config :=
  MkConfig RoleProxy
    (MkProxyConfig ":5432" 100 0 0 0 0 TLSRequire "/tls/tls.crt" "/tls/tls.key" "/tls/ca.crt")
    (MkWatchConfig ["apps"; " "] "cluster.local" false) (Discovery Default) (Leader Default)
    ":8080" ":9090" "info" "json".

Definition tls_validated : Config := if Validate outside tls_config is Ok c then c else tls_config.

Lemma gateway_of_valid_config_witness :
  Namespaces (Watch tls_validated) = ["apps"] ∧ dc_Enabled (Discovery tls_validated) = false ∧
  ∃ s, newGateway tls_validated NewStore = Ok s ∧ cfg_Routes (srv_cfg s) = Some NewStore ∧
    (cfg_TLS (srv_cfg s) = None ↔ TLSMode (Proxy tls_config) = TLSDisable) ∧
    ((∃ t, cfg_TLS (srv_cfg s) = Some t ∧ Required t = true) ↔ TLSMode (Proxy tls_config) = TLSRequire).
Proof.
  split; [reflexivity|]. split; [reflexivity|].
  apply (gateway_of_valid_config outside tls_config tls_validated NewStore
           (Some (MkServerTLS (Some (MkTlsConfig "" None VersionTLS12 false (Some (MkCertPool [[]])))) true)));
    [reflexivity|discriminate|reflexivity].
Defined.

Lemma env_port_unchecked_witness :
  BindAddress (Proxy (ApplyEnvironment outside (λ _, false) Default).1) = JoinHostPort "" "70000" ∧
  JoinHostPort "" "70000" = ":70000".
Proof.
  split; [|reflexivity].
  apply (env_port_unchecked outside (λ _, false) Default "70000" 70000);
    [reflexivity|reflexivity|discriminate|reflexivity].
Defined.
End ConfigWitnesses.
