(* ===== verification/Lifecycle.v ===== *)
(** [Start] of the gateway around the accept loop and the drain
    ([internal/proxy/server.go]), the listening flag it keeps for the readiness probe,
    and the sessions it starts as runs of [serve] ([internal/proxy/session.go]). *)

From stdpp Require Import base list gmap strings pretty relations.
From Stdlib Require Import ZArith Lia.
From S2P Require Import Prelude GoLib Wire Api Registry Net Cancel Backend Relay Session Server Config.

Local Open Scope go_scope.

(** ** A session's goroutine is a run of [serve] *)

Section ServePath.
Context `{Network} `{UnicodeTables} (cfg : Session.Config).

(** The moves of the goroutine between the accept and the end of [serve], when no
    other goroutine moves in between. *)
Lemma serve_steps c st g ps n cl w g' w' :
  ps !! c = Some Spawned → serve cfg c g w = Some (g', w') →
  rtc pstep (MkProc st g ps n cl) (MkProc st g' (<[c := Closed]> ps) n cl).
Proof.
  intros Hc. unfold serve. destruct (acquireSlot (track c g)) as [[] g2] eqn:EA; cbn [negb];
    unfold mbind, gw_bind.
  - destruct (handle cfg w) as [[r w1]|]; [|done]. destruct (releaseSlot g2) as [g3|] eqn:ER; [|done].
    cbn. intros [= <- _].
    eapply rtc_l; [by apply (step_track _ c)|].
    eapply rtc_l; [apply (step_acquire _ c); [by rewrite lookup_insert_eq|done]|].
    eapply rtc_l; [apply (step_release _ c); [by rewrite lookup_insert_eq|done]|].
    eapply rtc_l; [eapply (step_untrack _ c Leaving); [by rewrite lookup_insert_eq|by left]|].
    by rewrite !insert_insert_eq.
  - unfold emit. match goal with |- context [writeFatal ?s ?m ?d ?v] =>
      destruct (writeFatal_run s m d v) as (c' & k & -> & _) end.
    cbn. intros [= <- _].
    eapply rtc_l; [by apply (step_track _ c)|].
    eapply rtc_l; [apply (step_refuse _ c); [by rewrite lookup_insert_eq|done]|].
    eapply rtc_l; [eapply (step_untrack _ c Refusing); [by rewrite lookup_insert_eq|by right]|].
    by rewrite !insert_insert_eq.
Qed.
End ServePath.

(** ** [Start] *)

(** The server, its listener once there is one and whether it is open, whether the
    context is done, the goroutines [Start] has, what the accept loop returned, and
    what [Start] itself has returned. *)
Record life := MkLife {
  lf_server : Server;
  lf_listener : option bool;
  lf_done : bool;
  lf_proc : option proc;
  lf_accept : option error;
  lf_result : option (option error)
}.

Definition set_listening (on : bool) (s : Server) : Server :=
  MkServer (srv_cfg s) (srv_cancels s) (srv_gate s) on.

(** A connection is accepted in this step; the accept loop returns in it. *)
Definition accepts (p p' : proc) : Prop := (pr_waiting p < pr_waiting p')%nat.
Definition leaves (p p' : proc) : Prop := pr_stage p = Accepting ∧ pr_stage p' ≠ Accepting.

Inductive lstep : life → life → Prop :=
| l_listen_fails s d err :
    lstep (MkLife s None d None None None)
          (MkLife s None d None None
             (Some (Some (Errorf [Lit "proxy: listening on "; PS (ListenAddress (srv_cfg s));
                                  Lit ": "; PW err]))))
| l_listen s d :
    lstep (MkLife s None d None None None)
          (MkLife (set_listening true s) (Some true) d (Some (start (srv_gate s))) None None)
| l_done s l d p a r : lstep (MkLife s l d p a r) (MkLife s l true p a r)
| l_close s p a r : lstep (MkLife s (Some true) true p a r) (MkLife s (Some false) true p a r)
| l_run s l d p p' a a' :
    pstep p p' → (accepts p p' → l = Some true) → (leaves p p' → a' = None → d = true) →
    (¬ leaves p p' → a' = a) →
    lstep (MkLife s l d (Some p) a None) (MkLife s l d (Some p') a' None)
| l_return s l d p a :
    pr_stage p = Stopped →
    lstep (MkLife s l d (Some p) a None) (MkLife (set_listening false s) l d (Some p) a (Some a)).

(** A server [New] made, before [Start]. *)
Definition unstarted (s : Server) : life := MkLife s None false None None None.

(** ** Properties *)

(** The flag is up exactly while [Start] has a listener's goroutines to look after. *)
Definition life_ok (l : life) : Prop :=
  (srv_listening (lf_server l) = true ↔ is_Some (lf_proc l) ∧ lf_result l = None) ∧
  (∀ p, lf_proc l = Some p → lf_result l ≠ None → pr_stage p = Stopped) ∧
  (lf_proc l = None → lf_listener l = None).

Lemma lstep_ok l l' : lstep l l' → life_ok l → life_ok l'.
Proof.
  intros Hs (Hl & Hr & Hn). destruct Hs as [s d err|s d|s l d p a r|s p a r|s l d p p' a a' _ _ _ _|s l d p a Hst];
    unfold life_ok; cbn in *; split_and!; try done.
  - split; [intros Hx; by apply Hl in Hx as [[? ?] _]|by intros [[? ?] _]].
  - intros Hp. by specialize (Hn Hp).
  - split; [intros _; by split; [eexists|]|]. intros _. apply Hl. by split; [eexists|].
  - split; [done|by intros [_ ?]].
  - by intros q [= <-] _.
Qed.

Lemma life_ok_reachable s l :
  srv_listening s = false → rtc lstep (unstarted s) l → life_ok l.
Proof.
  intros Hs Hr. assert (life_ok (unstarted s)) as Hok.
  { split_and!; cbn; [|done|done]. rewrite Hs. split; [done|by intros [[? ?] _]]. }
  revert Hok. induction Hr as [|l1 l2 l3 Hs' _ IH]; [done|]. intros Hok. by apply IH, (lstep_ok l1).
Qed.








Section Readiness.
Context `{UnicodeTables}.

Definition readyz (l : life) (routes : Z) : option probe_response :=
  probe "/readyz" None (readinessCheck (Some (lf_server l))) routes.
Definition ready (routes : Z) : option probe_response := Some (MkProbe 200 routes "ok" None).
Definition not_ready (routes : Z) : option probe_response :=
  Some (MkProbe 503 routes "unhealthy" (Some "the gateway is not accepting connections yet")).

(** The probe follows [Start]. *)
Lemma readyz_run s l routes :
  srv_listening s = false → rtc lstep (unstarted s) l →
  (is_Some (lf_proc l) → lf_result l = None → readyz l routes = ready routes) ∧
  (lf_proc l = None ∨ is_Some (lf_result l) → readyz l routes = not_ready routes).
Proof.
  intros Hs Hr. pose proof (life_ok_reachable s l Hs Hr) as (Hl & _ & _).
  unfold readyz, readinessCheck. split.
  - intros Hp Hn. by rewrite (proj2 Hl (conj Hp Hn)).
  - intros Hor. destruct (srv_listening (lf_server l)) eqn:E; [|done].
    destruct (proj1 Hl eq_refl) as [[p Hp] Hn]. exfalso. destruct Hor as [?|[r ?]]; congruence.
Qed.

End Readiness.

(** ** A gateway that drains *)

Definition plain_config : Session.Config := Session.MkConfig ":5432" (Some NewStore) None 1 0 0 0 0.
Definition plain_server : Server :=
  match New plain_config with
  | Ok s => s
  | Err _ => MkServer plain_config newCancelRegistry (fresh_gate None) false
  end.

(** One session is being handled when the process is told to stop. *)
Definition draining_life : life :=
  MkLife (set_listening true plain_server) (Some false) true (Some one_draining) None None.

(** The side conditions of a step of the goroutines. *)
Ltac life_step := unfold accepts, leaves; cbn; intuition (done || lia).

Lemma draining_reachable : rtc lstep (unstarted plain_server) draining_life.
Proof.
  eapply rtc_l; [apply l_listen|].
  eapply rtc_l; [eapply (l_run _ _ _ _ _ None None); [by apply (step_accept 7)|by life_step..]|].
  eapply rtc_l; [eapply (l_run _ _ _ _ _ None None); [by apply (step_track _ 7)|by life_step..]|].
  eapply rtc_l; [eapply (l_run _ _ _ _ _ None None); [by apply (step_acquire _ 7)|by life_step..]|].
  eapply rtc_l; [apply l_done|]. eapply rtc_l; [apply l_close|].
  eapply rtc_l; [eapply (l_run _ _ _ _ _ None None); [by apply step_shutdown|by life_step..]|].
  unfold draining_life. match goal with |- rtc _ ?a ?b => replace a with b; [done|] end.
  by vm_compute.
Qed.

#[local] Instance ready_tables : UnicodeTables := λ _, true.

(** While it drains behind its closed listener, the gateway still reports that it is
    ready. *)
Theorem draining_still_ready :
  rtc lstep (unstarted plain_server) draining_life ∧ lf_listener draining_life = Some false ∧
  lf_proc draining_life = Some one_draining ∧ pr_stage one_draining = Draining ∧
  readyz draining_life 0 = ready 0.
Proof.
  split; [exact draining_reachable|]. split_and!; [done..|].
  apply (readyz_run plain_server); [by vm_compute|exact draining_reachable|by eexists|done].
Qed.



