(* ===== verification/ControlPlane.v ===== *)
(** The control plane as one system: the API server, the watch events and the cache,
    the builder that rebuilds the routing table from the cache and announces changed
    decisions ([internal/controller/routetable.go]), the channel that carries the
    announcements ([statusEvents] of [cmd/pg-k8s-proxy/run.go]), and the work queue of
    the status reconciler ([internal/controller/postgresroute_controller.go]). *)

From stdpp Require Import base list gmap strings pretty relations.
From Stdlib Require Import ZArith Lia.
From S2P Require Import Prelude GoLib Api Registry Resolver RouteTable RouteStatus.

Local Open Scope go_scope.

(** ** The system *)

(** The routes in the API server, the names whose last change has not been delivered
    yet, the cache, the builder with its store and channel, the names waiting to be
    reconciled (for a requeue too), and whether a full channel ever dropped an
    announcement. *)
Record plane := MkPlane {
  cp_api : gmap NamespacedName PostgresRoute;
  cp_stale : gset NamespacedName;
  cp_cache : gmap NamespacedName PostgresRoute;
  cp_builder : RouteTableBuilder;
  cp_queue : gset NamespacedName;
  cp_dropped : bool
}.

Definition values (m : gmap NamespacedName PostgresRoute) : list PostgresRoute :=
  map snd (map_to_list m).

(** The announcements in the channel. *)
Definition announced (b : RouteTableBuilder) : list NamespacedName :=
  match StatusEvents b with Some (_, queue) => queue | None => [] end.

Definition set_events (events : option (nat * list NamespacedName)) (b : RouteTableBuilder)
  : RouteTableBuilder :=
  MkBuilder (ClusterDomain b) (Debounce b) (trigger b) (timer b) (rt_Store b) (routesGauge b) events.

Section Plane.
Context `{KubeReader} `{KubeMeta} `{UnicodeTables}.
Variable ctx : context.

(** More decisions changed than the channel has room for. *)
Definition overflows (b : RouteTableBuilder) (current : Snapshot) : bool :=
  match StatusEvents b with
  | Some (capacity, queue) =>
      (capacity - length queue
       <? length (omap (affected_of (Load (rt_Store b))) (map_to_list (Decisions current))))%nat
  | None => true
  end.

(** A reconcile that returned [res] and [err] is tried again. *)
Definition again (res : Result) (err : option error) : bool :=
  bool_decide (is_Some err) || Requeue res || (0 <? RequeueAfter res).

(** What reading a name from the cache may give: the route it holds; not found only if
    it holds none; any other error at any time. *)
Definition cached_read (cache : gmap NamespacedName PostgresRoute) (k : NamespacedName)
  (get : result error PostgresRoute) : Prop :=
  match get with
  | Ok r => cache !! k = Some r
  | Err e => IsNotFound e = true → cache !! k = None
  end.

(** What a patch does to the API server: one that is refused, nothing, and it is
    refused as a conflict only if the route has changed since it was read; one that is
    taken sets the status, to whatever the merge gives if the route has changed since,
    and a watch event is due. *)
Definition patched (api : gmap NamespacedName PostgresRoute) (stale : gset NamespacedName)
  (k : NamespacedName) (patch : PostgresRoute → option error) (out : option PostgresRoute)
  (api' : gmap NamespacedName PostgresRoute) (stale' : gset NamespacedName) : Prop :=
  match out with
  | None => api' = api ∧ stale' = stale
  | Some r' =>
      match patch r' with
      | Some e => api' = api ∧ stale' = stale ∧ (IsConflict e = true → k ∈ stale)
      | None => ∃ cur s, api !! k = Some cur ∧ (k ∉ stale → s = Status r') ∧
          api' = <[k := MkRoute (Meta cur) (Spec cur) s]> api ∧ stale' = {[k]} ∪ stale
      end
  end.

(** The steps: a route is written or removed, by anybody; a watch event reaches the
    cache and the reconciler; the builder rebuilds from the cache, with whatever the
    resolver answers now; an announcement is taken off the channel; a name is
    reconciled against the cache. *)
Inductive cstep : plane → plane → Prop :=
| cp_write api stale cache b q dr k r :
    route_key r = k →
    cstep (MkPlane api stale cache b q dr)
          (MkPlane (<[k := r]> api) ({[k]} ∪ stale) cache b q dr)
| cp_remove api stale cache b q dr k :
    cstep (MkPlane api stale cache b q dr)
          (MkPlane (delete k api) ({[k]} ∪ stale) cache b q dr)
| cp_deliver api stale cache b q dr k :
    cstep (MkPlane api stale cache b q dr)
          (MkPlane api (stale ∖ {[k]}) (partial_alter (λ _, api !! k) k cache) b ({[k]} ∪ q) dr)
| cp_rebuild R api stale cache b q dr :
    cstep (MkPlane api stale cache b q dr)
          (MkPlane api stale cache (rebuild ctx (Ok (values cache)) R b).2 q
             (dr || overflows b (@Build R ctx (values cache) (ClusterDomain b))))
| cp_take api stale cache b q dr k capacity queue :
    StatusEvents b = Some (capacity, k :: queue) →
    cstep (MkPlane api stale cache b q dr)
          (MkPlane api stale cache (set_events (Some (capacity, queue)) b) ({[k]} ∪ q) dr)
| cp_reconcile api stale cache b q dr k get patch res err out api' stale' :
    k ∈ q →
    cached_read cache k get →
    Reconcile get patch (rt_Store b) k = (res, err, out) →
    patched api stale k patch out api' stale' →
    cstep (MkPlane api stale cache b q dr)
          (MkPlane api' stale' cache b (if again res err then q else q ∖ {[k]}) dr).

(** A process that has just started: nothing is cached, so everything is still to be
    delivered, and nothing is published. *)
Definition boot (api : gmap NamespacedName PostgresRoute) (domain : string) (capacity : nat) : plane :=
  MkPlane api (dom api) ∅ (MkBuilder domain DefaultDebounce false None NewStore 0 (Some (capacity, [])))
    ∅ false.

(** ** The invariant *)

(** A decision is programmed exactly when it has an endpoint. *)
Definition sane (s : Snapshot) : Prop :=
  ∀ k d, Decisions s !! k = Some d → Programmed d = true ↔ Endpoint d ≠ "".

(** The status of a route says what the published decision is. *)
Definition settled (s : Snapshot) (k : NamespacedName) (r : PostgresRoute) : Prop :=
  DeletionTimestamp (Meta r) ≠ None ∨ ∃ d, Snapshot_Decision s k = Some d ∧ reported (Status r) d.

Record plane_inv (p : plane) : Prop := {
  inv_api : ∀ k r, cp_api p !! k = Some r → route_key r = k;
  inv_cache : ∀ k r, cp_cache p !! k = Some r → route_key r = k;
  inv_fresh : ∀ k, k ∉ cp_stale p → cp_cache p !! k = cp_api p !! k;
  inv_sane : sane (Load (rt_Store (cp_builder p)));
  inv_channel : is_Some (StatusEvents (cp_builder p));
  inv_settled : cp_dropped p = false → ∀ k r, cp_cache p !! k = Some r →
    k ∉ cp_stale p → k ∉ cp_queue p → k ∉ announced (cp_builder p) →
    settled (Load (rt_Store (cp_builder p))) k r
}.

Lemma values_unique m :
  (∀ k r, m !! k = Some r → route_key r = k) → unique_names (values m).
Proof.
  intros Hk. unfold unique_names, values. rewrite map_map.
  replace (map (λ x, route_key x.2) (map_to_list m)) with (map fst (map_to_list m)).
  - apply NoDup_fst_map_to_list.
  - apply map_ext_in. intros [k r] Hin%list_elem_of_In%elem_of_map_to_list. symmetry. by apply Hk.
Qed.

Lemma elem_of_values m r : r ∈ values m ↔ ∃ k, m !! k = Some r.
Proof.
  unfold values. rewrite list_elem_of_fmap. split.
  - intros ([k r'] & -> & Hin%elem_of_map_to_list). by exists k.
  - intros [k Hk]. exists (k, r). split; [done|]. by apply elem_of_map_to_list.
Qed.

(** An address is never empty. *)
Lemma Address_nonempty rt : Address rt ≠ "".
Proof.
  unfold Address, JoinHostPort. destruct (contains _ _); [done|]. by destruct (Host rt).
Qed.

Lemma sane_Build `{Resolver} rs cd : unique_names rs → sane (Build ctx rs cd).
Proof.
  intros Hu k d Hd. pose proof (build_decision_spec_aux ctx cd rs k Hu) as Hs. rewrite Hd in Hs.
  destruct Hs as (r & _ & _ & [[_ ->]|(w & _ & _ & _ & ->)]);
    [|split; [done|by intros []]].
  unfold won. destruct (resolveBounded ctx r cd) as [rt|e]; cbn.
  - split; [intros _; apply Address_nonempty|done].
  - split; [done|by intros []].
Qed.

(** ** Every step keeps it *)

Context `{!KubeMetaOk}.

(** A decision that [decisionChanged] takes for the same reads the same in a status. *)
Lemma reported_unchanged s s' k d d' st :
  sane s → sane s' → Decisions s !! k = Some d → Decisions s' !! k = Some d' →
  decisionChanged d d' = false → reported st d → reported st d'.
Proof.
  intros Hs Hs' Hd Hd' Hc. apply Hs in Hd. apply Hs' in Hd'. unfold decisionChanged in Hc.
  destruct (_ || _) eqn:E; [done|].
  rewrite !orb_false_iff, !negb_false_iff, !bool_decide_eq_true, Bool.eqb_true_iff in E.
  destruct E as (((Hdb & Ha) & Hw) & He).
  assert (Programmed d = Programmed d') as Hp.
  { apply eq_true_iff_eq. by rewrite Hd, Hd', He. }
  unfold reported. by rewrite Ha, Hp, Hw, He.
Qed.

(** What a rebuild announces when nothing is dropped: what was there, and every route
    whose decision is new or changed. *)
Lemma announced_rebuild R items b k :
  is_Some (StatusEvents b) → overflows b (@Build R ctx items (ClusterDomain b)) = false →
  k ∈ announced (rebuild ctx (Ok items) R b).2 ↔
  k ∈ announced b ∨ affected (Load (rt_Store b)) (@Build R ctx items (ClusterDomain b)) k.
Proof.
  intros [[capacity queue] He]. rewrite rebuild_ok. unfold overflows, announced.
  cbn [snd StatusEvents]. rewrite He. intros Hroom%Nat.ltb_ge. cbn [notifyChanged].
  rewrite notify_fold, take_ge by lia. rewrite elem_of_app. by rewrite (proj2 (affected_list _ _)).
Qed.

Lemma settled_rebuild R cache b k r :
  (∀ k r, cache !! k = Some r → route_key r = k) → sane (Load (rt_Store b)) →
  cache !! k = Some r →
  ¬ affected (Load (rt_Store b)) (@Build R ctx (values cache) (ClusterDomain b)) k →
  settled (Load (rt_Store b)) k r →
  settled (@Build R ctx (values cache) (ClusterDomain b)) k r.
Proof.
  intros Hk Hs Hr Hna [Hdel|(d & Hd & Hrep)]; [by left|right].
  pose proof (values_unique _ Hk) as Hu. unfold Snapshot_Decision in *.
  destruct (Decisions (@Build R ctx (values cache) (ClusterDomain b)) !! k) as [d'|] eqn:Ed'.
  - exists d'. split; [done|]. eapply (reported_unchanged (Load (rt_Store b)) (@Build R ctx (values cache) (ClusterDomain b)) k d d');
      eauto using sane_Build.
    destruct (decisionChanged d d') eqn:Ec; [|done]. destruct Hna. exists d'. split; [done|].
    intros ? ?. congruence.
  - pose proof (@build_decision_spec_aux R ctx (ClusterDomain b) (values cache) k Hu) as Hno.
    rewrite Ed' in Hno. destruct Hno. rewrite <- (Hk _ _ Hr). apply list_elem_of_fmap_2.
    apply elem_of_values. eauto.
Qed.

Lemma Reconcile_read_error e patch store k :
  Reconcile (Err e) patch store k = (zero_result, IgnoreNotFound e, None).
Proof. done. Qed.

(** A name leaves the queue only once its route, as the cache has it, needs nothing
    more: its status is right, or a write is under way. *)
Lemma reconcile_done cache store k get patch res err out r :
  cached_read cache k get → Reconcile get patch store k = (res, err, out) →
  again res err = false → cache !! k = Some r →
  settled (Load store) k r ∨
  ∃ r', out = Some r' ∧ ∀ e, patch r' = Some e → IsConflict e = true.
Proof.
  intros Hget Hrun Hag Hr. destruct get as [r0|e]; cbn in Hget.
  - assert (r0 = r) as -> by congruence.
    destruct (DeletionTimestamp (Meta r)) as [t|] eqn:Edel; [left; left; by rewrite Edel|].
    destruct (Snapshot_Decision (Load store) k) as [d|] eqn:Ed.
    + destruct (Reconcile_decided r patch store k d Edel Ed) as [[Hrep Heq]|(r' & err' & _ & Heq & Herr)].
      * left. right. eauto.
      * right. rewrite Heq in Hrun. injection Hrun as <- <- <-. exists r'. split; [done|].
        apply Herr. by destruct err'.
    + exfalso. revert Hrun. unfold Reconcile. rewrite bool_decide_eq_false_2, Ed by tauto.
      by intros [= <- <- <-].
  - exfalso. rewrite Reconcile_read_error in Hrun. injection Hrun as <- <- <-. unfold IgnoreNotFound in Hag.
    destruct (IsNotFound e) eqn:E; [|done]. rewrite Hget in Hr; done.
Qed.

(** A patch touches one name, which then has an event due. *)
Lemma patched_spec api stale k patch out api' stale' :
  patched api stale k patch out api' stale' →
  (∀ k' r', api' !! k' = Some r' → ∃ r, api !! k' = Some r ∧ Meta r' = Meta r) ∧
  stale ⊆ stale' ∧ (∀ k', k' ∉ stale' → api' !! k' = api !! k') ∧
  (∀ r', out = Some r' → (∀ e, patch r' = Some e → IsConflict e = true) → k ∈ stale').
Proof.
  unfold patched. destruct out as [r'|]; [destruct (patch r') as [e|] eqn:Ep|].
  - intros (-> & -> & Hc). split_and!; [eauto|done..|]. intros ? [= <-] Hall. by apply Hc, Hall.
  - intros (cur & s & Hcur & _ & -> & ->). split_and!.
    + intros k' r'' [[<- <-]|[_ Hr]]%lookup_insert_Some; eauto.
    + set_solver.
    + intros k' Hk'. apply lookup_insert_ne. set_solver.
    + set_solver.
  - intros [-> ->]. split_and!; eauto; done.
Qed.

Lemma plane_inv_step p p' : plane_inv p → cstep p p' → plane_inv p'.
Proof.
  intros [Hapi Hcache Hfresh Hsane Hch Hset] Hs.
  destruct Hs as [api stale cache b q dr k r Hk|api stale cache b q dr k|api stale cache b q dr k
    |R api stale cache b q dr|api stale cache b q dr k capacity queue He
    |api stale cache b q dr k get patch res err out api' stale' Hk Hget Hrun Hout];
    cbn [cp_api cp_stale cp_cache cp_builder cp_queue cp_dropped] in *.
  - split; cbn; try done.
    + intros k' r' [[<- <-]|[_ Hr']]%lookup_insert_Some; [done|by apply Hapi].
    + intros k' Hk'. rewrite lookup_insert_ne by set_solver. apply Hfresh. set_solver.
    + intros Hd k' r' Hr' Hst. apply Hset; [done..|set_solver].
  - split; cbn; try done.
    + intros k' r' [_ Hr']%lookup_delete_Some. by apply Hapi.
    + intros k' Hk'. rewrite lookup_delete_ne by set_solver. apply Hfresh. set_solver.
    + intros Hd k' r' Hr' Hst. apply Hset; [done..|set_solver].
  - split; cbn; try done.
    + intros k' r'. destruct (decide (k' = k)) as [->|Hne].
      * rewrite lookup_partial_alter_eq. apply Hapi.
      * rewrite lookup_partial_alter_ne by done. apply Hcache.
    + intros k' Hk'. destruct (decide (k' = k)) as [->|Hne]; [by rewrite lookup_partial_alter_eq|].
      rewrite lookup_partial_alter_ne by done. apply Hfresh. set_solver.
    + intros Hd k' r'. destruct (decide (k' = k)) as [->|Hne]; [set_solver|].
      rewrite lookup_partial_alter_ne by done. intros Hr' Hst Hq. apply Hset; [done..|set_solver|set_solver].
  - split; try done; cbn [cp_api cp_stale cp_cache cp_builder cp_queue cp_dropped].
    + rewrite rebuild_ok. cbn. by apply sane_Build, values_unique.
    + rewrite rebuild_ok. cbn. by destruct Hch as [[capacity queue] ->].
    + intros [-> Hov]%orb_false_iff k r Hr Hst Hq. rewrite announced_rebuild by done.
      intros [Ha Hna]%Decidable.not_or. apply settled_rebuild; try done. by apply Hset.
  - split; cbn; try done. intros Hd k' r' Hr' Hst Hq Hni. apply Hset; [done..|set_solver|].
    unfold announced in *. cbn in *. rewrite He. set_solver.
  - apply patched_spec in Hout as (Hmeta & Hsub & Hsame & Hdue). split; cbn; try done.
    + intros k' r' (r & Hr & Hm)%Hmeta. rewrite <- (Hapi _ _ Hr). unfold route_key. by rewrite Hm.
    + intros k' Hk'. rewrite Hsame by done. apply Hfresh. set_solver.
    + intros Hd k' r' Hr' Hst Hq Hni.
      assert (k' ∉ stale) as Hst' by set_solver.
      destruct (again res err) eqn:Eag; [by apply Hset|].
      destruct (decide (k' = k)) as [->|Hne]; [|apply Hset; set_solver].
      destruct (reconcile_done cache (rt_Store b) k get patch res err out r') as [?|(r1 & Ho & Hp)]; try done.
      destruct Hst. by apply (Hdue r1).
Qed.

Lemma plane_inv_boot api domain capacity :
  (∀ k r, api !! k = Some r → route_key r = k) → plane_inv (boot api domain capacity).
Proof.
  intros Hk. split; cbn; try done.
  intros k Hni. symmetry. by apply not_elem_of_dom.
Qed.

Lemma plane_inv_reachable api domain capacity p :
  (∀ k r, api !! k = Some r → route_key r = k) →
  rtc cstep (boot api domain capacity) p → plane_inv p.
Proof.
  intros Hk. apply (rtc_ind_r plane_inv); [by apply plane_inv_boot|].
  intros p1 p2 _ Hs Hi. by eapply plane_inv_step.
Qed.

(** Every event has been delivered, every announcement taken and every name reconciled. *)
Definition quiet (p : plane) : Prop :=
  cp_stale p = ∅ ∧ cp_queue p = ∅ ∧ announced (cp_builder p) = [].

(** C12: the statuses converge with the table.  Whatever is written to the API server
    and in whatever order events are delivered, tables built, announcements taken and
    names reconciled, with patches refused, failing or racing other writers: once all
    is quiet and no announcement was ever dropped, the status of every live route says
    what the published snapshot decided for it, and if that is the snapshot of the
    routes in the API server now, the status tells the truth about the data plane. *)
Theorem status_converges api domain capacity p k r :
  (∀ k r, api !! k = Some r → route_key r = k) →
  rtc cstep (boot api domain capacity) p →
  quiet p → cp_dropped p = false →
  cp_api p !! k = Some r → DeletionTimestamp (Meta r) = None →
  (∃ d, Snapshot_Decision (Load (rt_Store (cp_builder p))) k = Some d ∧ reported (Status r) d) ∧
  ∀ R cd, Load (rt_Store (cp_builder p)) = @Build R ctx (values (cp_api p)) cd →
    @truthful _ R ctx (values (cp_api p)) cd r (Status r).
Proof.
  intros Hk Hr (Hst & Hq & Ha) Hd Hkr Hdel.
  pose proof (plane_inv_reachable _ _ _ _ Hk Hr) as [Hapi _ Hfresh _ _ Hset].
  destruct (Hset Hd k r) as [?|(d & Hdec & Hrep)]; try done;
    [by rewrite Hfresh, Hkr by (rewrite Hst; set_solver)|rewrite ?Hst, ?Hq, ?Ha; set_solver..|].
  split; [eauto|]. intros R cd Hload. rewrite Hload in Hdec.
  apply (reported_truthful ctx (values (cp_api p)) cd r d).
  - by apply values_unique.
  - apply elem_of_values. eauto.
  - by rewrite (Hapi _ _ Hkr).
  - done.
Qed.
End Plane.

(** ** A sample run *)

#[local] Existing Instance sample_reader.
#[local] Existing Instance sample_tables.
#[local] Existing Instance sample_kube_meta.
#[local] Existing Instance sample_kube_meta_ok.

Definition taken : PostgresRoute → option error := λ _, None.

(** A process starts beside one route: the route reaches the cache, the table is built
    and announced, the status patched, and the patch comes back as an event. *)
Definition sample_patched : PostgresRoute :=
  default by_hand
    (Reconcile (Ok by_hand) taken
       (MkStore (@Build sample_resolver no_deadline [by_hand] "cluster.local")) (route_key by_hand)).2.

Definition sample_end : plane :=
  MkPlane {[route_key by_hand := sample_patched]} ∅ {[route_key by_hand := sample_patched]}
    (set_events (Some (1%nat, []))
       (rebuild no_deadline (Ok [by_hand]) sample_resolver
          (MkBuilder "cluster.local" DefaultDebounce false None NewStore 0 (Some (1%nat, [])))).2)
    ∅ false.

Lemma sample_end_reachable :
  rtc (cstep no_deadline) (boot {[route_key by_hand := by_hand]} "cluster.local" 1) sample_end.
Proof.
  eapply rtc_l; [apply (cp_deliver _ _ _ _ _ _ _ (route_key by_hand))|].
  eapply rtc_l; [apply (cp_rebuild no_deadline sample_resolver)|].
  eapply rtc_l; [apply (cp_take _ _ _ _ _ _ _ (route_key by_hand) 1%nat []); by vm_compute|].
  eapply rtc_l.
  { eapply (cp_reconcile _ _ _ _ _ _ _ (route_key by_hand) (Ok by_hand) taken _ _ (Some sample_patched)
      _ _).
    - set_solver.
    - by vm_compute.
    - by vm_compute.
    - eexists by_hand, _. split; [by vm_compute|]. split; [done|]. split; reflexivity. }
  eapply rtc_l; [apply (cp_deliver _ _ _ _ _ _ _ (route_key by_hand))|].
  eapply rtc_l.
  { eapply (cp_reconcile _ _ _ _ _ _ _ (route_key by_hand) (Ok sample_patched) taken _ _ None).
    - set_solver.
    - by vm_compute.
    - by vm_compute.
    - split; reflexivity. }
  match goal with |- rtc _ ?p _ => replace p with sample_end; [done|] end.
  by vm_compute.
Qed.

Lemma status_converges_witness :
  @truthful _ sample_resolver no_deadline [sample_patched] "cluster.local" sample_patched
    (Status sample_patched).
Proof.
  eapply (status_converges no_deadline {[route_key by_hand := by_hand]} "cluster.local" 1 sample_end
            (route_key by_hand) sample_patched).
  - intros k r [<- <-]%lookup_singleton_Some. done.
  - apply sample_end_reachable.
  - by vm_compute.
  - reflexivity.
  - by vm_compute.
  - by vm_compute.
  - by vm_compute.
Defined.
