(* ===== verification/Settle.v ===== *)
(** The control plane left to itself: once the published table is the one built from
    the routes in the API server, every step it takes on its own brings it nearer to
    rest, and at rest every status tells the truth.  The steps are those of
    [ControlPlane] that no user takes. *)

From stdpp Require Import base list list_numbers gmap strings pretty relations.
From Stdlib Require Import ZArith Lia Wf_nat.
From S2P Require Import Prelude GoLib Api Registry Resolver RouteTable RouteStatus ControlPlane.

Local Open Scope go_scope.

(** ** The table does not read the statuses *)

Definition erase (r : PostgresRoute) : PostgresRoute :=
  MkRoute (Meta r) (Spec r) (MkStatus 0 "" "" "" []).

(** Two maps of routes that differ at most in the statuses. *)
Definition same_routes (m1 m2 : gmap NamespacedName PostgresRoute) : Prop :=
  ∀ k, erase <$> m1 !! k = erase <$> m2 !! k.

#[export] Instance same_routes_equivalence : Equivalence same_routes.
Proof.
  split; unfold same_routes; [done|intros m1 m2 Hs k; by rewrite Hs|].
  intros m1 m2 m3 H12 H23 k. by rewrite H12.
Qed.

Lemma insert_stable_erase x l :
  map erase (insert_stable less x l) = insert_stable less (erase x) (map erase l).
Proof.
  induction l as [|y l IH]; cbn [insert_stable map]; [done|].
  change (less (erase y) (erase x)) with (less y x). by destruct (less y x); cbn; rewrite ?IH.
Qed.

Lemma SliceStable_erase l : map erase (SliceStable less l) = SliceStable less (map erase l).
Proof.
  unfold SliceStable. induction l as [|x l IH]; [done|]. cbn [foldr map].
  by rewrite insert_stable_erase, IH.
Qed.

Lemma Build_erase `{Resolver} ctx rs cd : Build ctx (map erase rs) cd = Build ctx rs cd.
Proof.
  unfold Build. rewrite <- SliceStable_erase.
  assert (∀ l s, fold_left (build_step ctx cd) (map erase l) s = fold_left (build_step ctx cd) l s) as ->;
    [|done].
  intros l. induction l as [|r l IH]; intros s; [done|]. cbn [fold_left map].
  change (build_step ctx cd s (erase r)) with (build_step ctx cd s r). apply IH.
Qed.

Lemma values_erase m : map erase (values m) = values (erase <$> m).
Proof.
  unfold values. rewrite map_to_list_fmap, !map_map. apply map_ext. by intros [k r].
Qed.

#[export] Instance Build_values_proper `{Resolver} ctx :
  Proper (same_routes ==> eq ==> eq) (λ m, Build ctx (values m)).
Proof.
  intros m1 m2 Hs cd ? <-. rewrite <- (Build_erase ctx (values m1)), <- (Build_erase ctx (values m2)).
  rewrite !values_erase. by replace (erase <$> m2) with (erase <$> m1)
    by (apply map_eq; intros k; rewrite !lookup_fmap; apply Hs).
Qed.

(** ** The steps the control plane takes on its own *)

(** Condition types are unique in a list of conditions, which the API server sees to. *)
Definition typed (m : gmap NamespacedName PostgresRoute) : Prop :=
  ∀ k r, m !! k = Some r → NoDup (condition_types (Conditions (Status r))).

Section Settle.
Context `{KubeReader} `{KubeMeta} `{UnicodeTables} `{!KubeMetaOk}.
Variable ctx : context.
Variable R : Resolver.

(** A due event is delivered; the table is rebuilt while the resolver answers as it
    does; an announcement is taken; a name is reconciled. *)
Inductive own : plane → plane → Prop :=
| own_deliver api stale cache b q dr k :
    k ∈ stale →
    own (MkPlane api stale cache b q dr)
        (MkPlane api (stale ∖ {[k]}) (partial_alter (λ _, api !! k) k cache) b ({[k]} ∪ q) dr)
| own_rebuild api stale cache b q dr :
    own (MkPlane api stale cache b q dr)
        (MkPlane api stale cache (rebuild ctx (Ok (values cache)) R b).2 q
           (dr || overflows b (@Build R ctx (values cache) (ClusterDomain b))))
| own_take api stale cache b q dr k capacity queue :
    StatusEvents b = Some (capacity, k :: queue) →
    own (MkPlane api stale cache b q dr)
        (MkPlane api stale cache (set_events (Some (capacity, queue)) b) ({[k]} ∪ q) dr)
| own_reconcile api stale cache b q dr k get patch res err out api' stale' :
    k ∈ q →
    cached_read cache k get →
    Reconcile get patch (rt_Store b) k = (res, err, out) →
    patched api stale k patch out api' stale' →
    typed api' →
    own (MkPlane api stale cache b q dr)
        (MkPlane api' stale' cache b (if again res err then q else q ∖ {[k]}) dr).

Lemma own_cstep p p' : own p p' → cstep ctx p p'.
Proof. destruct 1; econstructor; eauto. Qed.

(** The published table is that of the routes in the API server, and what the cache
    lacks are statuses only. *)
Record in_step (p : plane) : Prop := {
  st_inv : plane_inv p;
  st_same : same_routes (cp_cache p) (cp_api p);
  st_built : Load (rt_Store (cp_builder p))
    = @Build R ctx (values (cp_api p)) (ClusterDomain (cp_builder p));
  st_typed : typed (cp_api p)
}.

(** ** How far it is from rest *)

(** The status of a live route is not the one its decision calls for. *)
Definition needs (api : gmap NamespacedName PostgresRoute) (s : Snapshot) (k : NamespacedName) : bool :=
  match api !! k, Snapshot_Decision s k with
  | Some r, Some d =>
      bool_decide (DeletionTimestamp (Meta r) = None)
      && negb (equalStatus (Status r) (desired_status r d))
  | _, _ => false
  end.

(** What is still to be done for one name: being queued and up to date costs a
    reconcile, and a status that is not right an event after it; an event that is due
    costs its delivery and the reconcile it causes. *)
Definition weight (queued due need : bool) : nat :=
  match queued, due with
  | false, false => 0
  | true, false => if need then 3 else 1
  | false, true => if need then 4 else 2
  | true, true => 5
  end.

Definition weight_of (p : plane) (k : NamespacedName) : nat :=
  weight (bool_decide (k ∈ cp_queue p)) (bool_decide (k ∈ cp_stale p))
    (needs (cp_api p) (Load (rt_Store (cp_builder p))) k).

Definition work (p : plane) : nat :=
  (6 * length (announced (cp_builder p))
   + sum_list_with (weight_of p) (elements (cp_queue p ∪ cp_stale p)))%nat.

(** Nothing but the gauge may have changed. *)
Definition idle (p p' : plane) : Prop :=
  cp_api p' = cp_api p ∧ cp_stale p' = cp_stale p ∧ cp_cache p' = cp_cache p ∧
  cp_queue p' = cp_queue p ∧ announced (cp_builder p') = announced (cp_builder p) ∧
  Load (rt_Store (cp_builder p')) = Load (rt_Store (cp_builder p)).

Lemma weight_of_outside p k : k ∉ cp_queue p ∪ cp_stale p → weight_of p k = 0%nat.
Proof. intros Hk. unfold weight_of. by rewrite !bool_decide_eq_false_2 by set_solver. Qed.

Lemma weight_bound a b c : (weight a b c ≤ 5)%nat.
Proof. destruct a, b, c; cbn; lia. Qed.

(** A step that concerns one name, and leaves less to do for it. *)
Lemma work_less p p' k :
  (∀ k', k' ≠ k → weight_of p' k' = weight_of p k') →
  (weight_of p' k + 6 * length (announced (cp_builder p'))
   < weight_of p k + 6 * length (announced (cp_builder p)))%nat →
  (work p' < work p)%nat.
Proof.
  intros Heq Hlt. unfold work.
  pose proof (sum_over_change (weight_of p) (weight_of p') (cp_queue p ∪ cp_stale p)
    (cp_queue p' ∪ cp_stale p') k (weight_of_outside p) (weight_of_outside p') Heq). lia.
Qed.

Lemma idle_work p p' : idle p p' → work p' = work p.
Proof.
  intros (Ha & Hs & _ & Hq & Hn & Hl). unfold work, weight_of. by rewrite Ha, Hs, Hq, Hn, Hl.
Qed.

(** ** Every step of its own keeps it in step *)

Lemma overflows_same b :
  is_Some (StatusEvents b) → overflows b (Load (rt_Store b)) = false.
Proof.
  intros [[capacity queue] He]. unfold overflows. rewrite He.
  destruct (omap (affected_of _) (map_to_list _)) as [|k ks] eqn:E.
  - apply Nat.ltb_ge. cbn. lia.
  - assert (affected (Load (rt_Store b)) (Load (rt_Store b)) k) as (now & Hk & Hch).
    { apply affected_list. rewrite E. left. }
    specialize (Hch now Hk). by rewrite decisionChanged_refl in Hch.
Qed.

(** What a reconcile that patches has found. *)
Lemma Reconcile_patches r patch store k res err r' :
  Reconcile (Ok r) patch store k = (res, err, Some r') →
  ∃ d, DeletionTimestamp (Meta r) = None ∧ Snapshot_Decision (Load store) k = Some d ∧
    equalStatus (Status r) (desired_status r d) = false ∧
    r' = MkRoute (Meta r) (Spec r) (desired_status r d).
Proof.
  unfold Reconcile. destruct (bool_decide _) eqn:Ed; [done|]. destruct (Snapshot_Decision _ _) as [d|]; [|done].
  destruct (equalStatus _ _) eqn:Eq; [done|]. intros Hrun. exists d.
  split_and!; [|done..|].
  - apply bool_decide_eq_false in Ed. destruct (DeletionTimestamp _); [by destruct Ed|done].
  - revert Hrun. repeat case_match; by intros [= <- <- <-].
Qed.

(** A reconcile that is tried again has changed nothing. *)
Lemma again_unpatched cache api stale k get patch store res err out api' stale' :
  cached_read cache k get → Reconcile get patch store k = (res, err, out) →
  again res err = true → patched api stale k patch out api' stale' → api' = api ∧ stale' = stale.
Proof.
  intros Hget Hrun Hag Hp. destruct out as [r'|]; [|done]. cbn in Hp.
  destruct (patch r') as [e|] eqn:Ep; [tauto|]. exfalso.
  destruct get as [r|e]; [|by rewrite Reconcile_read_error in Hrun].
  pose proof Hrun as (d & Hdel & Hd & Heq & ->)%Reconcile_patches.
  revert Hrun. unfold Reconcile. rewrite bool_decide_eq_false_2, Hd, Heq, Ep by tauto.
  by intros [= <- <-].
Qed.

Lemma patched_same_routes api stale k patch out api' stale' :
  patched api stale k patch out api' stale' → same_routes api' api.
Proof.
  unfold patched. destruct out as [r'|]; [destruct (patch r')|].
  - by intros [-> _].
  - intros (cur & s & Hcur & _ & -> & _) k'. destruct (decide (k' = k)) as [->|Hne].
    + by rewrite lookup_insert_eq, Hcur.
    + by rewrite lookup_insert_ne.
  - by intros [-> _].
Qed.

Lemma in_step_own p p' : in_step p → own p p' → in_step p' ∧ cp_dropped p' = cp_dropped p.
Proof.
  intros [Hinv Hsame Hb Ht] Hs. pose proof (plane_inv_step ctx p p' Hinv (own_cstep _ _ Hs)) as Hinv'.
  destruct Hs as [api stale cache b q dr k Hst|api stale cache b q dr|api stale cache b q dr k capacity queue He
    |api stale cache b q dr k get patch res err out api' stale' Hq Hget Hrun Hout Htyped];
    cbn [cp_api cp_stale cp_cache cp_builder cp_queue cp_dropped] in *; split; try split; try done;
    cbn [cp_api cp_stale cp_cache cp_builder cp_queue cp_dropped].
  - intros k'. destruct (decide (k' = k)) as [->|Hne]; [by rewrite lookup_partial_alter_eq|].
    by rewrite lookup_partial_alter_ne.
  - rewrite rebuild_ok. cbn. by rewrite (Build_values_proper ctx cache api Hsame _ _ eq_refl).
  - rewrite (Build_values_proper ctx cache api Hsame _ _ eq_refl), <- Hb.
    rewrite overflows_same; [apply orb_false_r|]. apply (inv_channel _ Hinv).
  - rewrite Hsame. symmetry. by eapply patched_same_routes.
  - rewrite Hb. symmetry. apply (Build_values_proper ctx api' api); [|done]. by eapply patched_same_routes.
Qed.

(** ** Every step of its own is idle or brings it nearer to rest *)

(** A reconcile of an up-to-date name that ends leaves less to do for it. *)
Lemma reconcile_weight p k get patch res err out api' stale' :
  in_step p → k ∈ cp_queue p → cached_read (cp_cache p) k get →
  Reconcile get patch (rt_Store (cp_builder p)) k = (res, err, out) →
  patched (cp_api p) (cp_stale p) k patch out api' stale' →
  (weight false (bool_decide (k ∈ stale')) (needs api' (Load (rt_Store (cp_builder p))) k)
   < weight_of p k)%nat.
Proof.
  intros Hp Hq Hget Hrun Hout. unfold weight_of. rewrite (bool_decide_eq_true_2 _ Hq).
  destruct (decide (k ∈ cp_stale p)) as [Hst|Hst].
  { rewrite (bool_decide_eq_true_2 _ Hst). destruct (bool_decide (k ∈ stale')), (needs api' _ k); cbn; lia. }
  rewrite (bool_decide_eq_false_2 _ Hst). destruct out as [r'|]; cbn in Hout.
  2:{ destruct Hout as [-> ->]. rewrite (bool_decide_eq_false_2 _ Hst). cbn. destruct (needs _ _ k); lia. }
  destruct (patch r') as [e|].
  { destruct Hout as (-> & -> & _). rewrite (bool_decide_eq_false_2 _ Hst). cbn.
    destruct (needs _ _ k); lia. }
  destruct Hout as (cur & s & Hcur & Hs & -> & ->). rewrite bool_decide_eq_true_2 by set_solver.
  destruct get as [r|e]; [|by rewrite Reconcile_read_error in Hrun]. cbn in Hget.
  rewrite (inv_fresh _ (st_inv _ Hp) k Hst), Hcur in Hget. injection Hget as ->.
  apply Reconcile_patches in Hrun as (d & Hdel & Hd & Heq & ->).
  unfold needs at 2. rewrite Hcur, Hd, Hdel, Heq. cbn [bool_decide negb andb].
  unfold needs. rewrite lookup_insert_eq, Hd. rewrite (Hs Hst). cbn [Meta Status].
  pose proof (desired_stable r (MkRoute (Meta r) (Spec r) (desired_status r d)) d
    (st_typed _ Hp _ _ Hcur) eq_refl eq_refl) as Hstable. cbn [Status] in Hstable. rewrite Hstable.
  rewrite bool_decide_eq_true_2 by done. cbn. lia.
Qed.

(** A patch concerns one name. *)
Lemma patched_other api stale k patch out api' stale' k' :
  patched api stale k patch out api' stale' → k' ≠ k →
  (k' ∈ stale' ↔ k' ∈ stale) ∧ api' !! k' = api !! k'.
Proof.
  unfold patched. intros Hout Hne. destruct out as [r'|]; [destruct (patch r')|].
  - by destruct Hout as (-> & -> & _).
  - destruct Hout as (cur & s & _ & _ & -> & ->). rewrite lookup_insert_ne by done.
    split; [set_solver|done].
  - by destruct Hout as (-> & ->).
Qed.

Lemma own_work p p' : in_step p → own p p' → idle p p' ∨ (work p' < work p)%nat.
Proof.
  intros Hp Hs. pose proof Hp as [Hinv Hsame Hb _].
  destruct Hs as [api stale cache b q dr k Hst|api stale cache b q dr|api stale cache b q dr k capacity queue He
    |api stale cache b q dr k get patch res err out api' stale' Hq Hget Hrun Hout Htyped];
    cbn [cp_api cp_stale cp_cache cp_builder cp_queue cp_dropped] in *.
  - right. apply (work_less _ _ k); unfold weight_of; cbn.
    + intros k' Hne. f_equal; apply bool_decide_ext; set_solver.
    + rewrite (bool_decide_eq_true_2 (k ∈ stale)) by done.
      rewrite (bool_decide_eq_true_2 (k ∈ {[k]} ∪ q)), (bool_decide_eq_false_2 (k ∈ stale ∖ {[k]})) by set_solver.
      destruct (bool_decide (k ∈ q)), (needs _ _ k); cbn; lia.
  - left. unfold idle. cbn [cp_api cp_stale cp_cache cp_builder cp_queue]. split_and!; try done;
      rewrite rebuild_ok; cbn; rewrite (Build_values_proper ctx cache api Hsame _ _ eq_refl), <- Hb; [|done].
    unfold announced. cbn. by rewrite notify_unchanged.
  - right. apply (work_less _ _ k).
    + intros k' Hne. unfold weight_of. cbn. f_equal. apply bool_decide_ext; set_solver.
    + match goal with |- (weight_of ?p' k + _ < _)%nat => assert (weight_of p' k ≤ 5)%nat by apply weight_bound end.
      unfold announced. cbn [cp_builder]. rewrite He. cbn. lia.
  - destruct (again res err) eqn:Eag.
    { left. destruct (again_unpatched cache api stale k get patch (rt_Store b) res err out api' stale')
        as [-> ->]; done. }
    right. pose proof (reconcile_weight _ k get patch res err out api' stale' Hp Hq Hget Hrun Hout) as Hlt.
    apply (work_less _ _ k).
    + intros k' Hne. destruct (patched_other _ _ _ _ _ _ _ k' Hout Hne) as [Hst' Hapi']. unfold weight_of. cbn.
      f_equal; [apply bool_decide_ext; set_solver..|]. unfold needs. by rewrite Hapi'.
    + unfold weight_of at 1. cbn [cp_queue cp_stale cp_api cp_builder] in *.
      rewrite (bool_decide_eq_false_2 (k ∈ q ∖ {[k]})) by set_solver. lia.
Qed.

Lemma in_step_run p p' :
  rtc own p p' → in_step p → in_step p' ∧ cp_dropped p' = cp_dropped p ∧ (work p' ≤ work p)%nat.
Proof.
  induction 1 as [p|p1 p2 p3 Hs _ IH]; intros Hp; [done|].
  destruct (in_step_own _ _ Hp Hs) as [Hp2 Hd2]. destruct (IH Hp2) as (Hp3 & Hd3 & Hle).
  split_and!; [done|congruence|]. destruct (own_work _ _ Hp Hs) as [Hi%idle_work|Hlt]; lia.
Qed.

(** ** Short of rest there is always such a step *)

#[export] Instance quiet_dec p : base.Decision (quiet p).
Proof. unfold quiet. apply _. Defined.

(** A route the API server has is decided. *)
Lemma in_step_decided p k r :
  in_step p → cp_cache p !! k = Some r →
  ∃ d, Snapshot_Decision (Load (rt_Store (cp_builder p))) k = Some d.
Proof.
  intros [Hinv Hsame Hb _] Hr. rewrite Hb.
  pose proof (values_unique _ (inv_api _ Hinv)) as Hu.
  pose proof (@build_decision_spec_aux R ctx (ClusterDomain (cp_builder p)) (values (cp_api p)) k Hu) as Hd.
  unfold Snapshot_Decision. destruct (Decisions _ !! k) as [d|]; [by eexists|]. destruct Hd.
  specialize (Hsame k). rewrite Hr in Hsame. destruct (cp_api p !! k) as [r'|] eqn:Er'; [|done].
  rewrite <- (inv_api _ Hinv _ _ Er'). apply list_elem_of_fmap_2. apply elem_of_values. eauto.
Qed.

(** When no event is due, a queued name can be reconciled for good. *)
Lemma reconcile_step `{!KubeErrorsOk} p k :
  in_step p → cp_stale p = ∅ → k ∈ cp_queue p →
  ∃ p', own p p' ∧ cp_queue p' = cp_queue p ∖ {[k]}.
Proof.
  intros Hp Hst Hq. pose proof (in_step_decided p k) as Hdec. destruct p as [api stale cache b q dr].
  cbn in *. pose proof Hp as [Hinv _ _ Ht]. cbn in Ht.
  assert (∀ get out api' stale', cached_read cache k get →
    Reconcile get (λ _, None) (rt_Store b) k = (zero_result, None, out) →
    patched api stale k (λ _, None) out api' stale' → typed api' →
    ∃ p', own (MkPlane api stale cache b q dr) p' ∧ cp_queue p' = q ∖ {[k]}) as Hgo.
  { intros get out api' stale' Hget Hrun Hout Ht'. eexists. split; [by eapply own_reconcile|done]. }
  destruct (cache !! k) as [r|] eqn:Er.
  2:{ apply (Hgo (Err (EExt (ExtError "not found" [] false (Some "NotFound")))) None api stale);
        [by intros _| |done..].
      rewrite Reconcile_read_error. unfold IgnoreNotFound. by rewrite IsNotFound_spec. }
  destruct (Hdec r Hp eq_refl) as [d Hd]. clear Hdec.
  destruct (DeletionTimestamp (Meta r)) as [t|] eqn:Edel.
  { apply (Hgo (Ok r) None api stale); try done. unfold Reconcile. by rewrite Edel, bool_decide_eq_true_2. }
  destruct (Reconcile_decided r (λ _, None) (rt_Store b) k d Edel Hd) as [[_ Hrun]|(r' & err & -> & Hrun & Herr)].
  { by apply (Hgo (Ok r) None api stale). }
  assert (err = None) as -> by by apply Herr.
  assert (api !! k = Some r) as Hapi.
  { rewrite <- Er. symmetry. apply (inv_fresh _ Hinv k). cbn. rewrite Hst. set_solver. }
  eapply (Hgo (Ok r)); [done|exact Hrun| |].
  - eexists r, _. split_and!; [done|intros _; reflexivity|reflexivity..].
  - intros k' r' [[<- <-]|[_ Hr']]%lookup_insert_Some; [|by eapply Ht].
    cbn [Status]. apply desired_types_NoDup. by eapply Ht.
Qed.

Lemma own_progress `{!KubeErrorsOk} p :
  in_step p → ¬ quiet p → ∃ p', own p p' ∧ (work p' < work p)%nat.
Proof.
  intros Hp Hnq.
  enough (∃ p', own p p' ∧ ¬ idle p p') as (p' & Hs & Hni).
  { exists p'. split; [done|]. by destruct (own_work p p' Hp Hs). }
  destruct (set_choose_or_empty (cp_stale p)) as [[k Hk]|Hst%leibniz_equiv].
  { destruct p as [api stale cache b q dr]. eexists. split; [by apply (own_deliver _ _ _ _ _ _ k)|].
    intros (_ & Hs & _). cbn in *. set_solver. }
  destruct (set_choose_or_empty (cp_queue p)) as [[k Hk]|Hq%leibniz_equiv].
  { destruct (reconcile_step p k) as (p' & Hs & Hq'); [done..|]. exists p'. split; [done|].
    intros (_ & _ & _ & Hsame & _). set_solver. }
  destruct p as [api stale cache b q dr]. cbn in *.
  destruct (inv_channel _ (st_inv _ Hp)) as [[capacity [|k queue]] He]; cbn in He.
  { destruct Hnq. split_and!; [done..|]. unfold announced. cbn. by rewrite He. }
  eexists. split; [by eapply own_take|]. intros (_ & _ & _ & _ & Hann & _). revert Hann.
  unfold announced. cbn. rewrite He. intros Hann%(f_equal length). cbn in Hann. lia.
Qed.

(** At rest only idle steps are left. *)
Lemma quiet_own p p' : in_step p → quiet p → own p p' → quiet p' ∧ idle p p'.
Proof.
  intros Hp (Hst & Hq & Ha) Hs. destruct (own_work p p' Hp Hs) as [Hi|Hw].
  - split; [|done]. destruct Hi as (_ & Hs' & _ & Hq' & Ha' & _). unfold quiet. by rewrite Hs', Hq', Ha'.
  - unfold work at 2 in Hw. rewrite Ha, Hst, Hq, (left_id_L ∅ (∪)), elements_empty in Hw. cbn in Hw. lia.
Qed.

(** ** Rest *)

(** Nothing is under way, and every live route has a truthful status. *)
Definition at_rest (p : plane) : Prop :=
  quiet p ∧ ∀ k r, cp_api p !! k = Some r → DeletionTimestamp (Meta r) = None →
    @truthful _ R ctx (values (cp_api p)) (ClusterDomain (cp_builder p)) r (Status r).

Lemma quiet_at_rest p : in_step p → cp_dropped p = false → quiet p → at_rest p.
Proof.
  intros [Hinv _ Hb _] Hk Hq. split; [done|]. intros k r Hr Hdel. destruct Hq as (Hst & Hq & Ha).
  pose proof Hinv as [Hapi _ Hfresh _ _ Hset].
  destruct (Hset Hk k r) as [?|(d & Hdec & Hrep)]; try done;
    [by rewrite Hfresh, Hr by (rewrite Hst; set_solver)|rewrite ?Hst, ?Hq, ?Ha; set_solver..|].
  rewrite Hb in Hdec. apply (reported_truthful ctx _ _ r d); [by apply values_unique| |by rewrite (Hapi _ _ Hr)|done].
  apply elem_of_values. eauto.
Qed.

Lemma in_step_settles `{!KubeErrorsOk} p : in_step p → ∃ p', rtc own p p' ∧ quiet p'.
Proof.
  induction p as [p IH] using (induction_ltof1 _ work).
  intros Hp. destruct (decide (quiet p)) as [Hq|Hnq]; [by exists p|].
  destruct (own_progress p Hp Hnq) as (p1 & Hs & Hlt).
  destruct (IH p1 Hlt) as (p' & Hr & Hq); [by eapply (in_step_own p)|].
  exists p'. split; [by eapply rtc_l|done].
Qed.

(** The states of an unending run. *)
Lemma run_rtc (f : nat → plane) i j :
  (∀ i, own (f i) (f (S i))) → (i ≤ j)%nat → rtc own (f i) (f j).
Proof. intros Hf. induction 1; [done|]. by eapply rtc_r. Qed.

(** C5: left to itself, the control plane comes to rest.  Take any unending run of its
    own steps, events delivered, tables rebuilt, announcements taken, names reconciled,
    with reads and patches that fail or conflict, from a state in which the table is
    that of the routes in the API server and no announcement has been dropped; if, as
    long as something is under way, some later step is not idle, then from some point on nothing is under way, nothing is
    written any more, and every live route has a status that tells the truth. *)
Theorem fair_runs_settle (f : nat → plane) :
  in_step (f 0%nat) → cp_dropped (f 0%nat) = false → (∀ i, own (f i) (f (S i))) →
  (∀ i, ¬ quiet (f i) → ∃ j, (i ≤ j)%nat ∧ ¬ idle (f j) (f (S j))) →
  ∃ n, ∀ m, (n ≤ m)%nat → at_rest (f m) ∧ cp_api (f m) = cp_api (f n).
Proof.
  intros Hstart Hdrop Hf Hfair.
  assert (∀ i, in_step (f i) ∧ cp_dropped (f i) = false) as Hall.
  { intros i. destruct (in_step_run (f 0%nat) (f i)) as (Hi & Hd & _); [apply run_rtc; [done|lia]|done|].
    by rewrite Hd. }
  assert (∀ i, in_step (f i)) as Hin by apply Hall.
  assert (∃ n, quiet (f n)) as [n Hn].
  { enough (∀ w i, work (f i) = w → ∃ n, quiet (f n)) as Hq by by eapply (Hq _ 0%nat).
    intros w. induction w as [w IH] using lt_wf_ind. intros i <-.
    destruct (decide (quiet (f i))) as [Hq|Hnq]; [by exists i|].
    destruct (Hfair i Hnq) as (j & Hij & Hni).
    destruct (own_work _ _ (Hin j) (Hf j)) as [?|Hlt]; [done|].
    pose proof (proj2 (proj2 (in_step_run _ _ (run_rtc f i j Hf Hij) (Hin i)))).
    by eapply (IH (work (f (S j))) ltac:(lia) (S j)). }
  exists n. intros m Hm. enough (quiet (f m) ∧ cp_api (f m) = cp_api (f n)) as [Hq ?].
  { split; [apply quiet_at_rest; [apply Hall..|done]|done]. }
  induction Hm as [|m Hm [Hq Ha]]; [done|].
  destruct (quiet_own _ _ (Hin m) Hq (Hf m)) as [Hq' (Hi & _)]. split; [done|]. congruence.
Qed.

(** ** From anywhere to a state in step *)

Lemma deliver_due api stale cache b q dr :
  ∃ cache' q', rtc own (MkPlane api stale cache b q dr) (MkPlane api ∅ cache' b q' dr).
Proof.
  revert cache q. induction stale as [|k stale Hk IH] using set_ind_L; intros cache q.
  { by exists cache, q. }
  destruct (IH (partial_alter (λ _, api !! k) k cache) ({[k]} ∪ q)) as (cache' & q' & Hr).
  exists cache', q'. eapply rtc_l; [apply (own_deliver _ _ _ _ _ _ k); set_solver|].
  by replace (({[k]} ∪ stale) ∖ {[k]}) with stale by set_solver.
Qed.

Lemma take_announced api stale cache b q dr capacity queue :
  StatusEvents b = Some (capacity, queue) →
  ∃ q', rtc own (MkPlane api stale cache b q dr)
                (MkPlane api stale cache (set_events (Some (capacity, [])) b) q' dr).
Proof.
  revert b q. induction queue as [|k queue IH]; intros b q He.
  { exists q. unfold set_events. rewrite <- He. by destruct b. }
  destruct (IH (set_events (Some (capacity, queue)) b) ({[k]} ∪ q) eq_refl) as (q' & Hr).
  exists q'. eapply rtc_l; [by apply own_take|]. exact Hr.
Qed.

(** A rebuild announces no more names than there are routes. *)
Lemma affected_bounded previous rs cd :
  unique_names rs →
  (length (omap (affected_of previous) (map_to_list (Decisions (@Build R ctx rs cd)))) ≤ length rs)%nat.
Proof.
  intros Hu. rewrite <- (length_map route_key). destruct (affected_list previous (@Build R ctx rs cd)) as [Hnd Hin].
  apply submseteq_length, NoDup_submseteq; [done|]. intros k (now & Hk & _)%Hin.
  pose proof (@build_decision_spec_aux R ctx cd rs k Hu) as Hd. rewrite Hk in Hd.
  destruct Hd as (r & Hr & <- & _). by apply list_elem_of_fmap_2.
Qed.

Lemma length_values m : length (values m) = size m.
Proof. unfold values. by rewrite length_map, length_map_to_list. Qed.

Lemma plane_inv_own p p' : rtc own p p' → plane_inv p → plane_inv p'.
Proof.
  induction 1 as [|p1 p2 p3 Hs _ IH]; [done|]. intros Hp. apply IH.
  by eapply plane_inv_step, own_cstep.
Qed.

Lemma catch_up p capacity queue :
  plane_inv p → cp_dropped p = false → typed (cp_api p) →
  StatusEvents (cp_builder p) = Some (capacity, queue) → (size (cp_api p) ≤ capacity)%nat →
  ∃ p', rtc own p p' ∧ in_step p' ∧ cp_dropped p' = false ∧ cp_api p' = cp_api p.
Proof.
  destruct p as [api stale cache b q dr]. cbn. intros Hinv -> Ht He Hsize.
  destruct (deliver_due api stale cache b q false) as (cache1 & q1 & Hr1).
  destruct (take_announced api ∅ cache1 b q1 false capacity queue He) as (q2 & Hr2).
  pose proof (transitivity Hr1 Hr2) as Hr. set (b2 := set_events _ b) in *.
  assert (plane_inv (MkPlane api ∅ cache1 b2 q2 false)) as Hinv2.
  { by apply (plane_inv_own _ _ Hr). }
  assert (cache1 = api) as ->.
  { apply map_eq. intros k. apply (inv_fresh _ Hinv2). cbn. set_solver. }
  pose proof (own_rebuild api ∅ api b2 q2 false) as Hs.
  pose proof (plane_inv_step ctx _ _ Hinv2 (own_cstep _ _ Hs)) as Hinv3.
  eexists. split; [by eapply rtc_r|]. split; [by split|]. split; [|done].
  cbn [cp_dropped orb]. unfold overflows. cbn [StatusEvents b2 set_events]. apply Nat.ltb_ge.
  pose proof (values_unique _ (inv_api _ Hinv2)) as Hu. cbn in Hu.
  pose proof (affected_bounded (Load (rt_Store b2)) _ (ClusterDomain b2) Hu) as Hlen.
  rewrite length_values in Hlen. cbn [length]. cbn in *. lia.
Qed.

(** C14: the control plane recovers from anything that has happened to it.  From every
    state it can reach, whatever was written meanwhile and however far the cache, the
    table, the announcements and the statuses lag behind, as long as no announcement was
    dropped and the channel has room for one announcement per route: steps of its own
    lead to rest, with the routes untouched but for their statuses, and each of these
    tells the truth. *)
Theorem control_plane_recovers `{!KubeErrorsOk} api domain room p capacity queue :
  (∀ k r, api !! k = Some r → route_key r = k) →
  rtc (cstep ctx) (boot api domain room) p → cp_dropped p = false → typed (cp_api p) →
  StatusEvents (cp_builder p) = Some (capacity, queue) → (size (cp_api p) ≤ capacity)%nat →
  ∃ p', rtc own p p' ∧ at_rest p' ∧ same_routes (cp_api p') (cp_api p).
Proof.
  intros Hk Hr Hd Ht He Hsize. pose proof (plane_inv_reachable ctx _ _ _ _ Hk Hr) as Hinv.
  destruct (catch_up p capacity queue) as (p1 & Hr1 & Hp1 & Hd1 & Ha); [done..|].
  destruct (in_step_settles p1 Hp1) as (p2 & Hr2 & Hq).
  destruct (in_step_run p1 p2 Hr2 Hp1) as (Hp2 & Hd2 & _).
  exists p2. split; [by etrans|]. split; [apply quiet_at_rest; [done|congruence|done]|].
  rewrite <- Ha. clear -Hr2. induction Hr2 as [|? ? ? Hs _ IH]; [done|]. rewrite IH.
  destruct Hs; cbn; try done. by eapply patched_same_routes.
Qed.
End Settle.

(** ** A sample run *)

#[local] Existing Instance sample_reader.
#[local] Existing Instance sample_reader_ok.
#[local] Existing Instance sample_tables.
#[local] Existing Instance sample_kube_meta.
#[local] Existing Instance sample_kube_meta_ok.

Definition sample_built : RouteTableBuilder :=
  (rebuild no_deadline (Ok [by_hand]) sample_resolver
     (MkBuilder "cluster.local" DefaultDebounce false None NewStore 0 (Some (1%nat, [])))).2.

Definition sample_key : NamespacedName := route_key by_hand.

(** The table has been built from the one route: its announcement is taken, its status
    patched, the patch comes back as an event, the reconcile that causes finds nothing
    to do, and then the table is rebuilt again and again. *)
Definition sample_settling (i : nat) : plane :=
  match i with
  | 0 => MkPlane {[sample_key := by_hand]} ∅ {[sample_key := by_hand]} sample_built {[sample_key]} false
  | 1 => MkPlane {[sample_key := by_hand]} ∅ {[sample_key := by_hand]}
           (set_events (Some (1%nat, [])) sample_built) {[sample_key]} false
  | 2 => MkPlane {[sample_key := sample_patched]} {[sample_key]} {[sample_key := by_hand]}
           (set_events (Some (1%nat, [])) sample_built) ∅ false
  | 3 => MkPlane {[sample_key := sample_patched]} ∅ {[sample_key := sample_patched]}
           (set_events (Some (1%nat, [])) sample_built) {[sample_key]} false
  | _ => sample_end
  end%nat.

Lemma sample_typed : typed {[sample_key := by_hand]} ∧ typed {[sample_key := sample_patched]}.
Proof.
  split; intros k r [_ <-]%lookup_singleton_Some; apply (bool_decide_unpack _); by vm_compute.
Qed.

(** A step to a state that computes to the one of the goal. *)
Ltac to_step t :=
  match goal with |- own _ _ _ ?q => let T := type of t in
    match T with own _ _ _ ?q' => replace q with q'; [exact t|by vm_compute] end end.

Lemma sample_settling_own i :
  own no_deadline sample_resolver (sample_settling i) (sample_settling (S i)).
Proof.
  destruct i as [|[|[|[|i]]]]; cbn [sample_settling].
  - eassert (own _ _ _ _) as Hs; [eapply (own_take no_deadline sample_resolver {[sample_key := by_hand]} ∅ {[sample_key := by_hand]}
      sample_built {[sample_key]} false sample_key 1 []); by vm_compute|]. to_step Hs.
  - eassert (own _ _ _ _) as Hs.
    { eapply (own_reconcile no_deadline sample_resolver {[sample_key := by_hand]} ∅ {[sample_key := by_hand]}
        (set_events (Some (1%nat, [])) sample_built) {[sample_key]} false sample_key (Ok by_hand) taken
        zero_result None (Some sample_patched) {[sample_key := sample_patched]} {[sample_key]}).
      - set_solver.
      - by vm_compute.
      - by vm_compute.
      - exists by_hand, (Status sample_patched). split; [by vm_compute|]. split; [intros _; reflexivity|].
        split; [|set_solver]. rewrite insert_singleton_eq. f_equal; by vm_compute.
      - apply sample_typed. }
    to_step Hs.
  - eassert (own _ _ _ _) as Hs.
    { eapply (own_deliver no_deadline sample_resolver {[sample_key := sample_patched]} {[sample_key]}
        {[sample_key := by_hand]} (set_events (Some (1%nat, [])) sample_built) ∅ false sample_key). set_solver. }
    to_step Hs.
  - eassert (own _ _ _ _) as Hs.
    { eapply (own_reconcile no_deadline sample_resolver {[sample_key := sample_patched]} ∅
        {[sample_key := sample_patched]} (set_events (Some (1%nat, [])) sample_built) {[sample_key]} false
        sample_key (Ok sample_patched) taken zero_result None None {[sample_key := sample_patched]} ∅).
      - set_solver.
      - by vm_compute.
      - by vm_compute.
      - done.
      - apply sample_typed. }
    to_step Hs.
  - to_step (own_rebuild no_deadline sample_resolver {[sample_key := sample_patched]} ∅
      {[sample_key := sample_patched]} (cp_builder sample_end) ∅ false).
Qed.

Lemma sample_settling_in_step : in_step no_deadline sample_resolver (sample_settling 0).
Proof.
  split; [|done|by vm_compute|apply sample_typed].
  apply (plane_inv_reachable no_deadline {[sample_key := by_hand]} "cluster.local" 1).
  { by intros k r [<- <-]%lookup_singleton_Some. }
  eapply rtc_l; [apply (cp_deliver _ _ _ _ _ _ _ sample_key)|].
  eapply rtc_l; [apply (cp_rebuild no_deadline sample_resolver)|].
  match goal with |- rtc _ ?p _ => replace p with (sample_settling 0); [done|] end. by vm_compute.
Qed.

Lemma fair_runs_settle_witness :
  ∃ n, ∀ m, (n ≤ m)%nat →
    at_rest no_deadline sample_resolver (sample_settling m) ∧
    cp_api (sample_settling m) = cp_api (sample_settling n).
Proof.
  apply (fair_runs_settle no_deadline sample_resolver).
  - exact sample_settling_in_step.
  - done.
  - exact sample_settling_own.
  - intros [|[|[|[|i]]]] Hnq.
    + exists 0%nat. split; [lia|]. intros (_ & _ & _ & _ & Ha & _). by vm_compute in Ha.
    + exists 1%nat. split; [lia|]. intros (_ & Hs & _). cbn in Hs. set_solver.
    + exists 2%nat. split; [lia|]. intros (_ & Hs & _). cbn in Hs. set_solver.
    + exists 3%nat. split; [lia|]. intros (_ & _ & _ & Hq & _). cbn in Hq. set_solver.
    + destruct Hnq. split_and!; [done..|by vm_compute].
Defined.

Lemma control_plane_recovers_witness :
  ∃ p', rtc (own no_deadline sample_resolver)
          (boot {[sample_key := by_hand]} "cluster.local" 1) p' ∧
    at_rest no_deadline sample_resolver p' ∧
    same_routes (cp_api p') (cp_api (boot {[sample_key := by_hand]} "cluster.local" 1)).
Proof.
  apply (control_plane_recovers no_deadline sample_resolver {[sample_key := by_hand]} "cluster.local" 1
            (boot {[sample_key := by_hand]} "cluster.local" 1) 1 []).
  - by intros k r [<- <-]%lookup_singleton_Some.
  - done.
  - done.
  - apply sample_typed.
  - done.
  - unfold boot. cbn [cp_api]. by rewrite map_size_singleton.
Defined.

(** ** What a dropped announcement does *)

(** A schedule: whose event is delivered, which resolver a rebuild finds, that an
    announcement is taken, and which name is reconciled, with patches that are taken. *)
Inductive move :=
| Deliver (k : NamespacedName)
| Rebuild (R : Resolver)
| Take
| Attempt (k : NamespacedName).

Definition perform (m : move) (p : plane) : option plane :=
  let '(MkPlane api stale cache b q dr) := p in
  match m with
  | Deliver k => Some (MkPlane api (stale ∖ {[k]}) (partial_alter (λ _, api !! k) k cache) b ({[k]} ∪ q) dr)
  | Rebuild R =>
      Some (MkPlane api stale cache (rebuild no_deadline (Ok (values cache)) R b).2 q
              (dr || overflows b (@Build R no_deadline (values cache) (ClusterDomain b))))
  | Take =>
      match StatusEvents b with
      | Some (capacity, k :: queue) =>
          Some (MkPlane api stale cache (set_events (Some (capacity, queue)) b) ({[k]} ∪ q) dr)
      | _ => None
      end
  | Attempt k =>
      if bool_decide (k ∈ q ∧ k ∉ stale) then
        r ← cache !! k;
        let '(res, err, out) := Reconcile (Ok r) taken (rt_Store b) k in
        let q' := if again res err then q else q ∖ {[k]} in
        match out with
        | None => Some (MkPlane api stale cache b q' dr)
        | Some r' => cur ← api !! k;
            Some (MkPlane (<[k := MkRoute (Meta cur) (Spec cur) (Status r')]> api) ({[k]} ∪ stale) cache b q' dr)
        end
      else None
  end.

Lemma perform_cstep m p p' : perform m p = Some p' → cstep no_deadline p p'.
Proof.
  destruct p as [api stale cache b q dr], m as [k|R| |k]; cbn [perform].
  - intros [= <-]. apply cp_deliver.
  - intros [= <-]. apply cp_rebuild.
  - destruct (StatusEvents b) as [[capacity [|k queue]]|] eqn:He; try done. intros [= <-]. by apply cp_take.
  - case_bool_decide as Hk; [|done]. destruct Hk as [Hq Hst].
    destruct (cache !! k) as [r|] eqn:Er; [|done]. cbn [mbind option_bind].
    destruct (Reconcile (Ok r) taken (rt_Store b) k) as [[res err] out] eqn:Hrun.
    destruct out as [r'|]; [destruct (api !! k) as [cur|] eqn:Ecur; [|done]|]; intros [= <-];
      (eapply (cp_reconcile _ _ _ _ _ _ _ k (Ok r)); [done|exact Er|exact Hrun|]); [|done].
    by exists cur, (Status r').
Qed.

Fixpoint perform_all (ms : list move) (p : plane) : option plane :=
  match ms with [] => Some p | m :: ms' => p' ← perform m p; perform_all ms' p' end.

Lemma perform_all_rtc ms p p' : perform_all ms p = Some p' → rtc (cstep no_deadline) p p'.
Proof.
  revert p. induction ms as [|m ms IH]; intros p; cbn [perform_all]; [by intros [= <-]|].
  destruct (perform m p) as [p1|] eqn:E; [|done]. cbn [mbind option_bind]. intros Hr.
  eapply rtc_l; [by eapply perform_cstep|by apply IH].
Qed.

(** Two routes with a Service each, and a channel with room for one announcement: both
    Services disappear at once. *)
Definition second : PostgresRoute := sample_route "apps" "orders" "" "orders-rw" 0 60.
Definition two_routes : gmap NamespacedName PostgresRoute :=
  <[route_key second := second]> {[route_key by_hand := by_hand]}.

Definition no_services : Resolver := {|
  ResolveServicePort _ _ _ _ := Err (ESentinel ErrBackendNotFound);
  LoadCABundle _ _ _ _ := Ok (MkCertPool [])
|}.

Definition both (f : NamespacedName → move) : list move := [f (route_key by_hand); f (route_key second)].

Definition announced_first : NamespacedName :=
  default (route_key by_hand)
    (head (omap (affected_of (MkSnapshot None ∅))
       (map_to_list (Decisions (@Build no_services no_deadline (values two_routes) "cluster.local"))))).
Definition left_out : NamespacedName :=
  if bool_decide (announced_first = route_key by_hand) then route_key second else route_key by_hand.

Definition losing : list move :=
  both Deliver ++ [Rebuild sample_resolver; Take] ++ both Attempt ++ both Deliver ++ both Attempt
  ++ [Rebuild no_services; Take; Attempt announced_first; Deliver announced_first; Attempt announced_first].

Definition lost : plane :=
  default (boot two_routes "cluster.local" 1) (perform_all losing (boot two_routes "cluster.local" 1)).

Lemma lost_reachable : rtc (cstep no_deadline) (boot two_routes "cluster.local" 1) lost.
Proof. apply (perform_all_rtc losing). by vm_compute. Qed.

Lemma two_routes_keys k r : two_routes !! k = Some r → route_key r = k.
Proof.
  unfold two_routes. by intros [[<- <-]|[_ [<- <-]%lookup_singleton_Some]]%lookup_insert_Some.
Qed.

Lemma lost_quiet : quiet lost.
Proof.
  assert (∀ X : gset NamespacedName, elements X = [] → X = ∅) as He.
  { intros X HX. by apply leibniz_equiv, elements_empty_inv. }
  split_and!; [apply He; by vm_compute|apply He; by vm_compute|by vm_compute].
Qed.

Lemma lost_in_step : in_step no_deadline no_services lost.
Proof.
  pose proof (plane_inv_reachable no_deadline _ _ _ _ two_routes_keys lost_reachable) as Hinv.
  split; [done| |by vm_compute|].
  - intros k. rewrite (inv_fresh _ Hinv); [done|]. destruct lost_quiet as [-> _]. apply not_elem_of_empty.
  - intros k r Hr. revert k r Hr.
    change (map_Forall (λ _ r, NoDup (condition_types (Conditions (Status r)))) (cp_api lost)).
    apply (bool_decide_unpack _). by vm_compute.
Qed.

(** A dropped announcement leaves a status wrong for ever: after both Services are gone,
    with nothing under way any more, the route whose announcement found the channel
    full still claims to be programmed, and no step of the control plane's own will ever
    correct it. *)
Theorem dropped_stale :
  ∃ p k r, rtc (cstep no_deadline) (boot two_routes "cluster.local" 1) p ∧ quiet p ∧
    cp_api p !! k = Some r ∧ DeletionTimestamp (Meta r) = None ∧
    ∀ p', rtc (own no_deadline no_services) p p' →
      cp_api p' !! k = Some r ∧
      ¬ @truthful _ no_services no_deadline (values (cp_api p')) "cluster.local" r (Status r).
Proof.
  exists lost, left_out, (default by_hand (cp_api lost !! left_out)).
  split; [exact lost_reachable|]. split; [exact lost_quiet|]. split; [by vm_compute|].
  split; [by vm_compute|]. intros p' Hr.
  assert (cp_api p' = cp_api lost) as ->.
  { assert (in_step no_deadline no_services lost ∧ quiet lost) as Hl
      by (split; [exact lost_in_step|exact lost_quiet]).
    revert Hl. induction Hr as [|p1 p2 p3 Hs _ IH]; [done|]. intros [Hp Hq].
    destruct (quiet_own _ _ _ _ Hp Hq Hs) as [Hq2 (Ha & _)]. rewrite IH; [done|].
    split; [by eapply (in_step_own _ _ p1)|done]. }
  split; [by vm_compute|]. intros (_ & Hprog & _).
  destruct (proj1 Hprog) as (rt & Hl & _); [by vm_compute|]. by vm_compute in Hl.
Qed.
