(* ===== verification/Flags.v ===== *)
(** The command-line flags ([BindFlags] and the flag values of
    [internal/config/config.go]) and how they combine with the environment of older
    deployments ([internal/config/env.go]). *)

From stdpp Require Import base list gmap strings pretty.
From Stdlib Require Import ZArith Lia.
From Stdlib Require Import Init.Byte.
From S2P Require Import Prelude GoLib Api Registry Config.

Local Open Scope go_scope.

(** ** Flag values *)

Inductive kind := KString | KInt | KDuration | KBool | KStrings | KRole | KTLSMode.

Inductive value :=
| VString (s : string)
| VInt (n : Z)
| VDuration (d : Z)
| VBool (b : bool)
| VStrings (l : list string).

(** The kinds whose values are of this form. *)
Definition of_kind (k : kind) (v : value) : bool :=
  match k, v with
  | (KString | KRole | KTLSMode), VString _ | KInt, VInt _ | KDuration, VDuration _
  | KBool, VBool _ | KStrings, VStrings _ => true
  | _, _ => false
  end.

(** What pflag does: how it reads the text of its own kinds of value, a list given
    whether the flag was set before and what it holds, and the error for a name it
    does not know. *)
Class Pflag := {
  pf_Int : string → result error Z;
  pf_Duration : string → result error Z;
  pf_Bool : string → result error bool;
  pf_Strings : bool → list string → string → result error (list string);
  pf_unknown : string → error
}.

(** [roleValue] and [tlsModeValue]: the text is taken as it is. *)
Definition roleValue_Set (s : string) : result error string := Ok s.
Definition roleValue_String (r : string) : string := r.
Definition roleValue_Type : string := "role".
Definition tlsModeValue_Set (s : string) : result error string := Ok s.
Definition tlsModeValue_String (t : string) : string := t.
Definition tlsModeValue_Type : string := "tlsMode".

(** A bound flag: its name, its kind, and the field of the configuration it points to. *)
Record flag := MkFlag {
  fl_name : string;
  fl_kind : kind;
  fl_get : Config → value;
  fl_put : value → Config → Config
}.

Definition text_flag (k : kind) (get : Config → string) (put : string → Config → Config)
  (name : string) : flag :=
  MkFlag name k (λ c, VString (get c)) (λ v c, if v is VString s then put s c else c).
Definition StringVar := text_flag KString.
Definition IntVar (get : Config → Z) (put : Z → Config → Config) (name : string) : flag :=
  MkFlag name KInt (λ c, VInt (get c)) (λ v c, if v is VInt n then put n c else c).
Definition DurationVar (get : Config → Z) (put : Z → Config → Config) (name : string) : flag :=
  MkFlag name KDuration (λ c, VDuration (get c)) (λ v c, if v is VDuration n then put n c else c).
Definition BoolVar (get : Config → bool) (put : bool → Config → Config) (name : string) : flag :=
  MkFlag name KBool (λ c, VBool (get c)) (λ v c, if v is VBool b then put b c else c).
Definition StringSliceVar (get : Config → list string) (put : list string → Config → Config)
  (name : string) : flag :=
  MkFlag name KStrings (λ c, VStrings (get c)) (λ v c, if v is VStrings l then put l c else c).

(** ** Assigning the fields of the configuration *)

Definition on_Proxy (f : ProxyConfig → ProxyConfig) (c : Config) : Config :=
  MkConfig (Role c) (f (Proxy c)) (Watch c) (Discovery c) (Leader c) (HealthBindAddress c)
    (MetricsBindAddress c) (LogLevel c) (LogFormat c).
Definition on_Watch (f : WatchConfig → WatchConfig) (c : Config) : Config :=
  MkConfig (Role c) (Proxy c) (f (Watch c)) (Discovery c) (Leader c) (HealthBindAddress c)
    (MetricsBindAddress c) (LogLevel c) (LogFormat c).
Definition on_Discovery (f : DiscoveryConfig → DiscoveryConfig) (c : Config) : Config :=
  MkConfig (Role c) (Proxy c) (Watch c) (f (Discovery c)) (Leader c) (HealthBindAddress c)
    (MetricsBindAddress c) (LogLevel c) (LogFormat c).
Definition on_Leader (f : LeaderConfig → LeaderConfig) (c : Config) : Config :=
  MkConfig (Role c) (Proxy c) (Watch c) (Discovery c) (f (Leader c)) (HealthBindAddress c)
    (MetricsBindAddress c) (LogLevel c) (LogFormat c).

(** [BindFlags]. *)
Definition BindFlags : list flag := [
  text_flag KRole Role
    (λ v c, MkConfig v (Proxy c) (Watch c) (Discovery c) (Leader c) (HealthBindAddress c)
       (MetricsBindAddress c) (LogLevel c) (LogFormat c)) "role";

  StringVar (λ c, BindAddress (Proxy c))
    (λ v, on_Proxy (λ '(MkProxyConfig _ m s d g k t x y z), MkProxyConfig v m s d g k t x y z))
    "proxy-bind-address";
  IntVar (λ c, pc_MaxConnections (Proxy c))
    (λ v, on_Proxy (λ '(MkProxyConfig b _ s d g k t x y z), MkProxyConfig b v s d g k t x y z))
    "proxy-max-connections";
  DurationVar (λ c, pc_StartupTimeout (Proxy c))
    (λ v, on_Proxy (λ '(MkProxyConfig b m _ d g k t x y z), MkProxyConfig b m v d g k t x y z))
    "proxy-startup-timeout";
  DurationVar (λ c, pc_DialTimeout (Proxy c))
    (λ v, on_Proxy (λ '(MkProxyConfig b m s _ g k t x y z), MkProxyConfig b m s v g k t x y z))
    "proxy-dial-timeout";
  DurationVar (λ c, pc_ShutdownGracePeriod (Proxy c))
    (λ v, on_Proxy (λ '(MkProxyConfig b m s d _ k t x y z), MkProxyConfig b m s d v k t x y z))
    "proxy-shutdown-grace-period";
  DurationVar (λ c, pc_KeepAlivePeriod (Proxy c))
    (λ v, on_Proxy (λ '(MkProxyConfig b m s d g _ t x y z), MkProxyConfig b m s d g v t x y z))
    "proxy-keepalive-period";

  text_flag KTLSMode (λ c, TLSMode (Proxy c))
    (λ v, on_Proxy (λ '(MkProxyConfig b m s d g k _ x y z), MkProxyConfig b m s d g k v x y z))
    "proxy-tls-mode";

  StringVar (λ c, TLSCertFile (Proxy c))
    (λ v, on_Proxy (λ '(MkProxyConfig b m s d g k t _ y z), MkProxyConfig b m s d g k t v y z))
    "proxy-tls-cert-file";
  StringVar (λ c, TLSKeyFile (Proxy c))
    (λ v, on_Proxy (λ '(MkProxyConfig b m s d g k t x _ z), MkProxyConfig b m s d g k t x v z))
    "proxy-tls-key-file";
  StringVar (λ c, TLSClientCAFile (Proxy c))
    (λ v, on_Proxy (λ '(MkProxyConfig b m s d g k t x y _), MkProxyConfig b m s d g k t x y v))
    "proxy-tls-client-ca-file";

  StringSliceVar (λ c, Namespaces (Watch c))
    (λ v, on_Watch (λ '(MkWatchConfig _ d s), MkWatchConfig v d s)) "watch-namespaces";
  StringVar (λ c, wc_ClusterDomain (Watch c))
    (λ v, on_Watch (λ '(MkWatchConfig n _ s), MkWatchConfig n v s)) "cluster-domain";
  BoolVar (λ c, WatchSecrets (Watch c))
    (λ v, on_Watch (λ '(MkWatchConfig n d _), MkWatchConfig n d v)) "watch-secrets";

  BoolVar (λ c, dc_Enabled (Discovery c))
    (λ v, on_Discovery (λ '(MkDiscoveryConfig _ l a s), MkDiscoveryConfig v l a s))
    "service-discovery";
  StringVar (λ c, LabelSelector (Discovery c))
    (λ v, on_Discovery (λ '(MkDiscoveryConfig e _ a s), MkDiscoveryConfig e v a s))
    "service-discovery-selector";
  StringVar (λ c, dc_DatabaseAnnotation (Discovery c))
    (λ v, on_Discovery (λ '(MkDiscoveryConfig e l _ s), MkDiscoveryConfig e l v s))
    "service-discovery-database-annotation";

  BoolVar (λ c, lc_Enabled (Leader c))
    (λ v, on_Leader (λ '(MkLeaderConfig _ i n l d r), MkLeaderConfig v i n l d r)) "leader-elect";
  StringVar (λ c, lc_ID (Leader c))
    (λ v, on_Leader (λ '(MkLeaderConfig e _ n l d r), MkLeaderConfig e v n l d r)) "leader-elect-id";
  StringVar (λ c, lc_Namespace (Leader c))
    (λ v, on_Leader (λ '(MkLeaderConfig e i _ l d r), MkLeaderConfig e i v l d r))
    "leader-elect-namespace";
  DurationVar (λ c, LeaseDuration (Leader c))
    (λ v, on_Leader (λ '(MkLeaderConfig e i n _ d r), MkLeaderConfig e i n v d r))
    "leader-elect-lease-duration";
  DurationVar (λ c, RenewDeadline (Leader c))
    (λ v, on_Leader (λ '(MkLeaderConfig e i n l _ r), MkLeaderConfig e i n l v r))
    "leader-elect-renew-deadline";
  DurationVar (λ c, RetryPeriod (Leader c))
    (λ v, on_Leader (λ '(MkLeaderConfig e i n l d _), MkLeaderConfig e i n l d v))
    "leader-elect-retry-period";

  StringVar HealthBindAddress
    (λ v c, MkConfig (Role c) (Proxy c) (Watch c) (Discovery c) (Leader c) v
       (MetricsBindAddress c) (LogLevel c) (LogFormat c)) "health-bind-address";
  StringVar MetricsBindAddress
    (λ v c, MkConfig (Role c) (Proxy c) (Watch c) (Discovery c) (Leader c) (HealthBindAddress c)
       v (LogLevel c) (LogFormat c)) "metrics-bind-address";

  StringVar LogLevel
    (λ v c, MkConfig (Role c) (Proxy c) (Watch c) (Discovery c) (Leader c) (HealthBindAddress c)
       (MetricsBindAddress c) v (LogFormat c)) "log-level";
  StringVar LogFormat
    (λ v c, MkConfig (Role c) (Proxy c) (Watch c) (Discovery c) (Leader c) (HealthBindAddress c)
       (MetricsBindAddress c) (LogLevel c) v) "log-format"
].

(** Binding writes each variable's default to it, which is the value it has. *)
Definition bind_defaults (c : Config) : Config :=
  fold_left (λ c f, fl_put f (fl_get f c) c) BindFlags c.

Section CommandLine.
Context `{Pflag} `{UnicodeTables}.

(** [Set] of a flag's value: its new value from a text. *)
Definition value_Set (k : kind) (changed : bool) (old : value) (text : string) : result error value :=
  match k with
  | KString => Ok (VString text)
  | KInt => let! n := pf_Int text in Ok (VInt n)
  | KDuration => let! d := pf_Duration text in Ok (VDuration d)
  | KBool => let! b := pf_Bool text in Ok (VBool b)
  | KStrings => let! l := pf_Strings changed (if old is VStrings l then l else []) text in Ok (VStrings l)
  | KRole => let! s := roleValue_Set text in Ok (VString s)
  | KTLSMode => let! s := tlsModeValue_Set text in Ok (VString s)
  end.

Definition lookup_flag (name : string) : option flag :=
  list_find (λ f, fl_name f = name) BindFlags ≫= λ nf, Some nf.2.

(** One flag of the command line, and all of them in order: the configuration and the
    names of the flags that were set. *)
Definition set_flag (name text : string) (s : Config * gset string) : result error (Config * gset string) :=
  match lookup_flag name with
  | None => Err (pf_unknown name)
  | Some f =>
      let! v := value_Set (fl_kind f) (bool_decide (name ∈ s.2)) (fl_get f s.1) text in
      Ok (fl_put f v s.1, {[name]} ∪ s.2)
  end.

Fixpoint set_flags (args : list (string * string)) (s : Config * gset string)
  : result error (Config * gset string) :=
  match args with
  | [] => Ok s
  | (name, text) :: rest => let! s' := set_flag name text s in set_flags rest s'
  end.

(** ** What one flag ends up with *)

(** The texts a command line gives a flag, and the value they leave. *)
Definition flag_texts (f : flag) (args : list (string * string)) : list string :=
  omap (λ '(name, text), if decide (name = fl_name f) then Some text else None) args.

Fixpoint settle (f : flag) (changed : bool) (old : value) (texts : list string) : result error value :=
  match texts with
  | [] => Ok old
  | text :: rest => let! v := value_Set (fl_kind f) changed old text in settle f true v rest
  end.

(** A variable of the environment that is set and not empty. *)
Definition env_text (env : process) (name : string) : option string :=
  environment env !! name ≫= λ s, if decide (s = "") then None else Some s.

(** The value a variable of an older deployment gives a flag. *)
Definition legacy_value (env : process) (name : string) : option value :=
  if decide (name = "proxy-bind-address") then
    env_text env "POSTGRES_PORT" ≫= λ s, (λ _, VString (JoinHostPort "" s)) <$> Atoi s
  else if decide (name = "health-bind-address") then
    env_text env "HEALTH_PORT" ≫= λ s, (λ _, VString (JoinHostPort "" s)) <$> Atoi s
  else if decide (name = "service-discovery-selector") then VString <$> env_text env "LABEL_SELECTOR"
  else if decide (name = "watch-namespaces") then
    (λ s, VStrings (Split s x2c)) <$> env_text env "KUBERNETES_NAMESPACE"
  else None.
End CommandLine.

(** ** The flags do not interfere *)

Definition flag_names : list string := map fl_name BindFlags.

Lemma flag_names_NoDup : NoDup flag_names.
Proof. apply (bool_decide_unpack _). by vm_compute. Qed.

Lemma flag_name_inj f g : f ∈ BindFlags → g ∈ BindFlags → fl_name f = fl_name g → f = g.
Proof.
  intros Hf Hg Heq. pose proof flag_names_NoDup as Hnd. unfold flag_names in Hnd.
  apply list_elem_of_lookup in Hf as [i Hi], Hg as [j Hj].
  assert (i = j) as ->; [|congruence]. eapply NoDup_lookup; [exact Hnd|..];
    rewrite list_lookup_fmap; [by rewrite Hi|by rewrite Hj, Heq].
Qed.

Lemma lookup_flag_Some name f : lookup_flag name = Some f ↔ f ∈ BindFlags ∧ fl_name f = name.
Proof.
  unfold lookup_flag. rewrite bind_Some. split.
  - intros ([i g] & (Hl & Hn & _)%list_find_Some & [= <-]). split; [|done].
    by eapply list_elem_of_lookup_2.
  - intros [Hin Hn]. destruct (list_find_elem_of (λ g, fl_name g = name) BindFlags f) as [[i g] Hg]; [done..|].
    exists (i, g). split; [done|]. apply list_find_Some in Hg as (Hl & Hgn & _).
    cbn in *. f_equal. apply flag_name_inj; [by eapply list_elem_of_lookup_2|done|congruence].
Qed.

(** Each flag is a well-behaved view of its own field. *)
Record flag_laws (f : flag) : Prop := {
  flag_kind : ∀ c, of_kind (fl_kind f) (fl_get f c) = true;
  flag_get_put : ∀ c v, of_kind (fl_kind f) v = true → fl_get f (fl_put f v c) = v;
  flag_put_get : ∀ c, fl_put f (fl_get f c) c = c
}.

Ltac each_flag := repeat (apply Forall_cons; split); try (apply Forall_nil; exact I).

Lemma flags_lawful : Forall flag_laws BindFlags.
Proof.
  unfold BindFlags. each_flag; split; intros [? [] [] [] [] ? ? ? ?]; cbn; try done;
    intros []; done.
Qed.

Lemma flag_ok f : f ∈ BindFlags → flag_laws f.
Proof. intros Hf. by apply (proj1 (Forall_forall _ _) flags_lawful). Qed.

(** Writing through one flag is not seen through another. *)
Lemma flags_disjoint :
  Forall (λ f, Forall (λ g, fl_name f ≠ fl_name g → ∀ c v, fl_get f (fl_put g v c) = fl_get f c)
                 BindFlags) BindFlags.
Proof.
  unfold BindFlags. each_flag; cbn; try done; intros _ [? [] [] [] [] ? ? ? ?] []; reflexivity.
Qed.

Lemma flag_other f g c v :
  f ∈ BindFlags → g ∈ BindFlags → fl_name f ≠ fl_name g → fl_get f (fl_put g v c) = fl_get f c.
Proof.
  intros Hf Hg Hne. pose proof flags_disjoint as Hd. rewrite Forall_forall in Hd. specialize (Hd f Hf).
  rewrite Forall_forall in Hd. by apply Hd.
Qed.

(** Binding the flags leaves the defaults as they are. *)
Lemma bind_defaults_same c : bind_defaults c = c.
Proof.
  unfold bind_defaults. pose proof flags_lawful as Hl. induction Hl as [|f l Hf _ IH]; [done|].
  cbn [fold_left]. by rewrite (flag_put_get f Hf).
Qed.

Section Precedence.
Context `{Pflag} `{UnicodeTables}.

Lemma value_Set_kind k changed old text v : value_Set k changed old text = Ok v → of_kind k v = true.
Proof. unfold value_Set. repeat case_match; intros; by simplify_eq. Qed.

(** A flag set on the command line changes its own field, and only that. *)
Lemma set_flag_get f name text c ch c' ch' :
  f ∈ BindFlags → set_flag name text (c, ch) = Ok (c', ch') →
  ch' = {[name]} ∪ ch ∧
  (if decide (name = fl_name f)
   then value_Set (fl_kind f) (bool_decide (fl_name f ∈ ch)) (fl_get f c) text = Ok (fl_get f c')
   else fl_get f c' = fl_get f c).
Proof.
  intros Hf. unfold set_flag. destruct (lookup_flag name) as [g|] eqn:Eg; [|done].
  apply lookup_flag_Some in Eg as [Hg <-]. cbn [fst snd].
  destruct (value_Set (fl_kind g) _ _ _) as [v|e] eqn:Ev; [|done]. intros [= <- <-].
  split; [done|]. destruct (decide (fl_name g = fl_name f)) as [Hn|Hn].
  - apply flag_name_inj in Hn as ->; [|done..]. rewrite Ev. f_equal.
    symmetry. apply (flag_get_put f (flag_ok f Hf)). by eapply value_Set_kind.
  - by apply flag_other.
Qed.

Lemma set_flags_get f args c ch c' ch' :
  f ∈ BindFlags → set_flags args (c, ch) = Ok (c', ch') →
  ch' = list_to_set (map fst args) ∪ ch ∧
  settle f (bool_decide (fl_name f ∈ ch)) (fl_get f c) (flag_texts f args) = Ok (fl_get f c').
Proof.
  intros Hf. revert c ch. induction args as [|[name text] args IH]; intros c ch; cbn [set_flags].
  { intros [= <- <-]. split; [set_solver -Hf|done]. }
  destruct (set_flag name text (c, ch)) as [[c1 ch1]|e] eqn:E; [|done]. intros Hrun.
  apply (set_flag_get f) in E as [-> Hset]; [|done]. apply IH in Hrun as [-> Hrest].
  split; [set_solver -Hf|]. unfold flag_texts. cbn [omap list_omap].
  fold (flag_texts f args). destruct (decide (name = fl_name f)) as [Hn|Hn].
  - cbn [settle]. rewrite Hset. rewrite bool_decide_eq_true_2 in Hrest by set_solver -Hf. done.
  - rewrite Hset in Hrest. rewrite <- Hrest. f_equal. apply bool_decide_ext. set_solver -Hf.
Qed.

Lemma flag_texts_nil f args : flag_texts f args = [] ↔ fl_name f ∉ map fst args.
Proof.
  induction args as [|[name text] args IH]; [set_solver|]. unfold flag_texts. cbn [omap list_omap].
  fold (flag_texts f args). destruct (decide (name = fl_name f)) as [Hn|Hn]; [set_solver|].
  rewrite IH. set_solver.
Qed.

(** The variables, each seen through its flag. *)
Lemma setPort_fst env changed name flag target :
  (setPort env changed name flag target).1
  = if changed flag then target
    else default target (env_text env name ≫= λ s, (λ _, JoinHostPort "" s) <$> Atoi s).
Proof.
  unfold setPort, env_text. destruct (changed flag); [done|].
  destruct (environment env !! name) as [raw|]; [|done]. cbn.
  case_bool_decide; [by rewrite decide_True|]. rewrite decide_False by done. cbn.
  by destruct (Atoi raw).
Qed.

Lemma legacy_text env changed name flag :
  legacy env changed name flag = if changed flag then None else env_text env name.
Proof.
  unfold legacy, env_text. destruct (environment env !! name) as [raw|]; [|by destruct (changed flag)].
  cbn. destruct (changed flag); rewrite ?andb_false_r, ?andb_true_r; [done|].
  case_bool_decide; [by rewrite decide_True|by rewrite decide_False].
Qed.

Lemma legacy_value_None env name :
  bool_decide (name ∈ ["proxy-bind-address"; "health-bind-address"; "service-discovery-selector";
                       "watch-namespaces"]) = false → legacy_value env name = None.
Proof.
  rewrite bool_decide_eq_false, !not_elem_of_cons. intros (? & ? & ? & ? & _). unfold legacy_value.
  by rewrite !decide_False.
Qed.

Lemma ApplyEnvironment_fst env changed c :
  (ApplyEnvironment env changed c).1
  = on_Proxy (λ '(MkProxyConfig b m s d g k t x y z),
      MkProxyConfig (setPort env changed "POSTGRES_PORT" "proxy-bind-address" b).1 m s d g k t x y z)
    (on_Watch (λ '(MkWatchConfig n d s),
       MkWatchConfig (from_option (λ raw, Split raw x2c) n
         (legacy env changed "KUBERNETES_NAMESPACE" "watch-namespaces")) d s)
    (on_Discovery (λ '(MkDiscoveryConfig e l a s),
       MkDiscoveryConfig e (default l (legacy env changed "LABEL_SELECTOR" "service-discovery-selector")) a s)
    (MkConfig (Role c) (Proxy c) (Watch c) (Discovery c) (Leader c)
       (setPort env changed "HEALTH_PORT" "health-bind-address" (HealthBindAddress c)).1
       (MetricsBindAddress c) (LogLevel c) (LogFormat c)))).
Proof.
  destruct c as [r [b m s d g k t x y z] [n dom sec] [e l a sel] lead h me lv lf]. 
  unfold ApplyEnvironment, on_Proxy, on_Watch, on_Discovery.
  cbn [Role Proxy Watch Discovery Leader HealthBindAddress BindAddress LabelSelector Namespaces].
  destruct (setPort env changed "POSTGRES_PORT" _ _) as [bind w1].
  destruct (setPort env changed "HEALTH_PORT" _ _) as [hea w2].
  by destruct (legacy env changed "LABEL_SELECTOR" _), (legacy env changed "KUBERNETES_NAMESPACE" _).
Qed.

Lemma env_flags env (changed : string → bool) c f :
  f ∈ BindFlags →
  fl_get f (ApplyEnvironment env changed c).1
  = if changed (fl_name f) then fl_get f c else default (fl_get f c) (legacy_value env (fl_name f)).
Proof.
  revert f. apply Forall_forall. rewrite ApplyEnvironment_fst, !setPort_fst, !legacy_text.
  destruct c as [? [] [] [] [] ? ? ? ?]. unfold BindFlags. each_flag;
    try (rewrite legacy_value_None by reflexivity; cbn; by destruct (changed _));
    cbn; rewrite ?setPort_fst; (destruct (changed _); [done|]); unfold legacy_value;
    repeat first [rewrite decide_True by done|rewrite decide_False by done];
    (destruct (env_text _ _) as [raw|]; [|done]); cbn; try done; by destruct (Atoi raw).
Qed.

(** C36: where each setting comes from.  If the command line reads, then for every flag,
    whatever else is on the command line and in the environment: the field it names is
    what its own texts on the command line make of the default; without any, what the environment variable of older deployments says;
    and the default without that.  Every other variable leaves it alone, and binding
    the flags does not change the defaults. *)
Theorem settings_precedence env args c1 changed f :
  set_flags args (bind_defaults Default, ∅) = Ok (c1, changed) → f ∈ BindFlags →
  let c2 := (ApplyEnvironment env (λ name, bool_decide (name ∈ changed)) c1).1 in
  match flag_texts f args with
  | [] => fl_get f c2 = default (fl_get f Default) (legacy_value env (fl_name f))
  | texts => settle f false (fl_get f Default) texts = Ok (fl_get f c2)
  end.
Proof.
  intros Hrun Hf. rewrite bind_defaults_same in Hrun.
  apply (set_flags_get f) in Hrun as [-> Hset]; [|done].
  rewrite bool_decide_eq_false_2 in Hset by (by apply not_elem_of_empty).
  cbn zeta. rewrite env_flags by done. destruct (flag_texts f args) as [|text texts] eqn:E.
  - injection Hset as Hset. rewrite bool_decide_eq_false_2; [by rewrite Hset|].
    apply flag_texts_nil in E. rewrite elem_of_union, elem_of_list_to_set. by intros [?|?%elem_of_empty].
  - rewrite bool_decide_eq_true_2; [done|]. rewrite elem_of_union, elem_of_list_to_set.
    destruct (decide (fl_name f ∈ map fst args)) as [?|Hn]; [by left|].
    apply flag_texts_nil in Hn. congruence.
Qed.
End Precedence.

(** ** A command line *)

#[local] Instance sample_pflag : Pflag := {|
  pf_Int s := if Atoi s is Some n then Ok n else Err (ENew "invalid syntax");
  pf_Duration s := if Atoi s is Some n then Ok n else Err (ENew "invalid duration");
  pf_Bool s := Ok (bool_decide (s = "true"));
  pf_Strings changed old s := Ok ((if changed then old else []) ++ Split s x2c);
  pf_unknown name := ENew ("unknown flag: --" +:+ name)
|}.
#[local] Instance flag_tables : UnicodeTables := λ _, true.

Definition sample_args : list (string * string) :=
  [("watch-namespaces", "apps,jobs"); ("proxy-max-connections", "5"); ("watch-namespaces", "db");
   ("proxy-max-connections", "7"); ("health-bind-address", ":81")].

Definition sample_env : process :=
  MkProcess (Err (ENew "no such file"))
    {["POSTGRES_PORT" := "6432"; "HEALTH_PORT" := "82"; "KUBERNETES_NAMESPACE" := "old"]}.

Definition sample_given : Config * gset string :=
  if set_flags sample_args (bind_defaults Default, ∅) is Ok s then s else (Default, ∅).

Lemma settings_precedence_witness :
  let c2 := (ApplyEnvironment sample_env (λ name, bool_decide (name ∈ sample_given.2)) sample_given.1).1 in
  Namespaces (Watch c2) = ["apps"; "jobs"; "db"] ∧ pc_MaxConnections (Proxy c2) = 7 ∧
  BindAddress (Proxy c2) = ":6432" ∧
  ∀ f, f ∈ BindFlags →
    match flag_texts f sample_args with
    | [] => fl_get f c2 = default (fl_get f Default) (legacy_value sample_env (fl_name f))
    | texts => settle f false (fl_get f Default) texts = Ok (fl_get f c2)
    end.
Proof.
  cbn zeta. split; [reflexivity|]. split; [reflexivity|]. split; [reflexivity|]. intros f Hf.
  apply (settings_precedence sample_env sample_args sample_given.1 sample_given.2 f); [reflexivity|exact Hf].
Defined.
