(* ===== verification/Startup.v ===== *)
(** What happens before [main]: the API group is registered with a scheme builder
    ([api/v1alpha1/groupversion_info.go] and the [init] of [postgresroute_types.go]),
    and the metrics with the registry of the controller runtime (the [init] of
    [internal/proxy/metrics.go]). *)

From stdpp Require Import base list gmap strings pretty.
From Stdlib Require Import ZArith Lia.
From S2P Require Import Prelude GoLib.

Local Open Scope go_scope.

(** ** The API group *)

(** [schema.GroupVersion]. *)
Record GroupVersion_t := MkGroupVersion { gv_Group : string; gv_Version : string }.

(** Schemes and scheme builders, library types: [runtime.NewScheme], client-go's
    [AddToScheme], and the builder's [Register] and [AddToScheme]; the kind of an object
    is the name of its Go type. *)
Class SchemeLib := {
  Scheme : Type;
  NewScheme : Scheme;
  AddBuiltinTypes : Scheme → Scheme * option error;
  Builder : Type;
  NewBuilder : GroupVersion_t → Builder;
  Builder_Register : Builder → list string → Builder;
  Builder_AddToScheme : Builder → Scheme → Scheme * option error;
  Recognizes : Scheme → GroupVersion_t → string → bool
}.

Definition core_v1 : GroupVersion_t := MkGroupVersion "" "v1".

(** Their documented behaviour: a builder that succeeds has added whatever was
    registered with it, under its group and version, and takes nothing away; the
    built-in types include Services and Secrets. *)
Class SchemeLibOk `{SchemeLib} : Prop := {
  builder_adds : ∀ gv objs s s',
    Builder_AddToScheme (foldl Builder_Register (NewBuilder gv) objs) s = (s', None) →
    (∀ l k, l ∈ objs → k ∈ l → Recognizes s' gv k = true) ∧
    (∀ gv' k, Recognizes s gv' k = true → Recognizes s' gv' k = true);
  builtins_added : ∀ s s', AddBuiltinTypes s = (s', None) →
    ∀ k, k ∈ ["Service"; "Secret"] → Recognizes s' core_v1 k = true
}.

Section Group.
Context `{SchemeLib}.

Definition GroupVersion : GroupVersion_t := MkGroupVersion "pgproxy.io" "v1alpha1".

(** The package's variables that change: what [SchemeBuilder] points to. *)
Record package := MkPackage { SchemeBuilder : Builder }.

Definition package_vars : package := MkPackage (NewBuilder GroupVersion).

(** The [init] of [postgresroute_types.go]. *)
Definition types_init (p : package) : package :=
  MkPackage (Builder_Register (SchemeBuilder p) ["PostgresRoute"; "PostgresRouteList"]).

(** The package once it is initialised. *)
Definition v1alpha1 : package := types_init package_vars.

(** [AddToScheme], the method of what [SchemeBuilder] points to: it sees what was
    registered after the variable was set. *)
Definition AddToScheme (p : package) (s : Scheme) : Scheme * option error :=
  Builder_AddToScheme (SchemeBuilder p) s.

(** [buildScheme] of [cmd/pg-k8s-proxy/run.go]. *)
Definition buildScheme : result error Scheme :=
  match AddBuiltinTypes NewScheme with
  | (_, Some err) => Err (Errorf [Lit "registering the built-in Kubernetes types: "; PW err])
  | (s, None) =>
      match AddToScheme v1alpha1 s with
      | (_, Some err) => Err (Errorf [Lit "registering the pgproxy.io types: "; PW err])
      | (s', None) => Ok s'
      end
  end.

(** A library gave an error. *)
Definition scheme_failed : Prop :=
  (∃ e, (AddBuiltinTypes NewScheme).2 = Some e) ∨ (∃ s e, (AddToScheme v1alpha1 s).2 = Some e).

Lemma buildScheme_cases :
  match buildScheme with
  | Ok s => ∃ s0, AddBuiltinTypes NewScheme = (s0, None) ∧ AddToScheme v1alpha1 s0 = (s, None)
  | Err _ => scheme_failed
  end.
Proof.
  unfold buildScheme, scheme_failed. destruct (AddBuiltinTypes NewScheme) as [s0 [e|]]; [by left; exists e|].
  destruct (AddToScheme v1alpha1 s0) as [s [e|]] eqn:E; [|by exists s0].
  right. exists s0, e. by rewrite E.
Qed.

(** Every kind of object the process reads or writes through its client and its cache
    is known to the scheme [buildScheme] returns. *)
Theorem scheme_complete `{!SchemeLibOk} s :
  buildScheme = Ok s →
  (∀ k, k ∈ ["PostgresRoute"; "PostgresRouteList"] → Recognizes s GroupVersion k = true) ∧
  (∀ k, k ∈ ["Service"; "Secret"] → Recognizes s core_v1 k = true).
Proof.
  intros Hb. pose proof buildScheme_cases as Hc. rewrite Hb in Hc.
  destruct Hc as (s0 & Hs0 & Hs).
  destruct (builder_adds GroupVersion [["PostgresRoute"; "PostgresRouteList"]] s0 s Hs) as [Hnew Hold].
  split; intros k Hk.
  - by apply (Hnew ["PostgresRoute"; "PostgresRouteList"]); [left|].
  - by apply Hold, (builtins_added NewScheme).
Qed.
End Group.

(** ** The metrics *)

(** The registry of the controller runtime; [None] is a panic. *)
Class MetricsLib := {
  MetricsRegistry : Type;
  MustRegister : MetricsRegistry → list string → option MetricsRegistry;
  Registered : MetricsRegistry → string → bool
}.

(** Documented: collectors whose names are new, and not given twice, are registered. *)
Class MetricsLibOk `{MetricsLib} : Prop :=
  must_register : ∀ r l, NoDup l → (∀ n, n ∈ l → Registered r n = false) →
    ∃ r', MustRegister r l = Some r' ∧
      ∀ n, Registered r' n = Registered r n || bool_decide (n ∈ l).

(** The collectors by name, in the order of the [init] of [internal/proxy/metrics.go]. *)
Definition collectors : list string :=
  ["pgproxy_connections_total"; "pgproxy_active_connections"; "pgproxy_bytes_total";
   "pgproxy_backend_dial_duration_seconds"; "pgproxy_session_duration_seconds"; "pgproxy_routes";
   "pgproxy_cancel_requests_total"].

Definition metrics_init `{MetricsLib} (r : MetricsRegistry) : option MetricsRegistry := MustRegister r collectors.

(** The process does not die registering its metrics, and they are all exported. *)
Theorem metrics_registered `{MetricsLibOk} r :
  (∀ n, n ∈ collectors → Registered r n = false) →
  ∃ r', metrics_init r = Some r' ∧ ∀ n, n ∈ collectors → Registered r' n = true.
Proof.
  intros Hnew. destruct (must_register r collectors) as (r' & Hr & Hall); [|done|].
  - apply (bool_decide_unpack _). by vm_compute.
  - exists r'. split; [done|]. intros n Hn. by rewrite Hall, (bool_decide_eq_true_2 _ Hn), orb_true_r.
Qed.

(** ** Sample libraries *)

(** A scheme as the list of what it recognises, a builder as what it will add. *)
#[local] Instance sample_schemes : SchemeLib := {|
  Scheme := list (GroupVersion_t * string);
  NewScheme := [];
  AddBuiltinTypes s := ((core_v1, "Service") :: (core_v1, "Secret") :: s, None);
  Builder := GroupVersion_t * list string;
  NewBuilder gv := (gv, []);
  Builder_Register b l := (b.1, b.2 ++ l);
  Builder_AddToScheme b s := (map (pair b.1) b.2 ++ s, None);
  Recognizes s gv k := existsb (λ x, bool_decide (gv_Group x.1 = gv_Group gv) &&
    bool_decide (gv_Version x.1 = gv_Version gv) && bool_decide (x.2 = k)) s
|}.

#[local] Instance sample_schemes_ok : SchemeLibOk.
Proof.
  split; cbn.
  - intros gv objs s s' [= <-].
    assert (∀ b, (foldl (λ b l, (b.1, b.2 ++ l)) b objs : GroupVersion_t * list string)
              = (b.1, b.2 ++ concat objs)) as Hf.
    { induction objs as [|l objs IH]; intros [g b]; cbn; [by rewrite app_nil_r|]. by rewrite IH, app_assoc. }
    rewrite Hf. cbn. split.
    + intros l k Hl Hk. rewrite existsb_app. apply orb_true_iff. left. apply existsb_exists.
      exists (gv, k). rewrite !bool_decide_eq_true_2 by done. split; [|done].
      apply in_map, in_concat. exists l. by rewrite <- !list_elem_of_In.
    + intros gv' k Hr. by rewrite existsb_app, Hr, orb_true_r.
  - intros s s' [= <-] k Hk. cbn.
    apply elem_of_cons in Hk as [->|[->|[]%elem_of_nil]%elem_of_cons]; by rewrite ?orb_true_r.
Qed.

Lemma scheme_complete_witness :
  ∃ s, buildScheme = Ok s ∧
    (∀ k, k ∈ ["PostgresRoute"; "PostgresRouteList"] → Recognizes s GroupVersion k = true) ∧
    (∀ k, k ∈ ["Service"; "Secret"] → Recognizes s core_v1 k = true).
Proof. eexists. split; [reflexivity|]. by apply scheme_complete. Defined.

#[local] Instance sample_metrics : MetricsLib := {|
  MetricsRegistry := list string;
  MustRegister r l :=
    if bool_decide (NoDup l) && forallb (λ n, negb (bool_decide (n ∈ r))) l then Some (l ++ r) else None;
  Registered r n := bool_decide (n ∈ r)
|}.

#[local] Instance sample_metrics_ok : MetricsLibOk.
Proof.
  intros r l Hnd Hnew. cbn in *. rewrite bool_decide_eq_true_2 by done.
  replace (forallb _ l) with true.
  - eexists. split; [done|]. intros n. apply eq_true_iff_eq.
    rewrite orb_true_iff, !bool_decide_eq_true. set_solver.
  - symmetry. apply forallb_forall. intros n Hn%list_elem_of_In. by rewrite Hnew.
Qed.

Lemma metrics_registered_witness :
  ∃ r' : list string, metrics_init ["go_goroutines"] = Some r' ∧
    ∀ n, n ∈ collectors → Registered (MetricsLib := sample_metrics) r' n = true.
Proof.
  apply (metrics_registered (H := sample_metrics) ["go_goroutines"]). intros n Hn. cbn.
  apply bool_decide_eq_false. intros ->%list_elem_of_singleton. revert Hn.
  apply (bool_decide_unpack _). by vm_compute.
Defined.
