(* ===== verification/Wiring.v ===== *)
(** The process: what [run] registers with the controller manager and with which
    options ([cmd/pg-k8s-proxy/run.go]), how the command line leads there
    ([cmd/pg-k8s-proxy/main.go]), the registration of the controllers
    ([SetupWithManager] in [internal/controller/]), the prologue of the table builder
    ([internal/controller/routetable.go]), the probe server around its handler
    ([internal/health/server.go]) and the version it reports
    ([internal/version/version.go]). *)

From stdpp Require Import base list gmap strings pretty.
From Stdlib Require Import ZArith Lia.
From S2P Require Import Prelude GoLib Api Registry Resolver Net Cancel Backend Relay Session Server.
From S2P Require Import RouteTable Discovery Config Flags Startup.

Local Open Scope go_scope.

(** ** What is registered *)

(** The settings of [cache.Options]: the labels a Secret must carry, and the
    namespaces, [None] for all. *)
Record cache_options := MkCacheOptions {
  co_secret_labels : gmap string string;
  co_namespaces : option (gset string)
}.

(** The settings of [manager.Options]. *)
Record manager_options := MkManagerOptions {
  mo_Cache : cache_options;
  mo_MetricsBindAddress : string;
  mo_HealthProbeBindAddress : string;
  mo_LeaderElection : bool;
  mo_LeaderElectionID : string;
  mo_LeaderElectionNamespace : string;
  mo_ReleaseOnCancel : bool;
  mo_LeaseDuration : Z;
  mo_RenewDeadline : Z;
  mo_RetryPeriod : Z;
  mo_GracefulShutdownTimeout : Z
}.

(** What the manager runs: the table builder, with its resolver and whether it watches
    Secrets; the two controllers, the first with whether it has a channel of
    announcements, the second with its selector and annotation; the gateway; and the
    probe server with the gateway its readiness check looks at. *)
Inductive component :=
| TableBuilder (b : RouteTableBuilder) (resolver : ClientResolver) (watchSecrets : bool)
| RouteController (events : bool)
| DiscoveryController (sel annotation : string)
| Gateway (s : Server)
| Probes (address : string) (gateway : option Server).

(** [NeedLeaderElection]; a controller that does not say needs it. *)
Definition NeedLeaderElection (x : component) : bool :=
  match x with
  | TableBuilder _ _ _ | Gateway _ | Probes _ _ => false
  | RouteController _ | DiscoveryController _ _ => true
  end.

(** The kinds of object an informer is asked for. *)
Inductive watched_kind := WatchRoutes | WatchServices | WatchSecretKind.

(** The controller manager and its cache: the errors they give, registration depending
    on what is registered already. *)
Class Manager `{SchemeLib} := {
  NewManager : Scheme → manager_options → option error;
  Add : list component → component → option error;
  StartManager : list component → option error;
  GetInformer : watched_kind → option error;
  AddEventHandler : watched_kind → option error;
  kind_name : watched_kind → string
}.

Section Process.
Context `{Manager} `{LabelsParser} `{Files} `{UnicodeTables}.

Definition wrap (prefix : string) (err : option error) : result error unit :=
  match err with
  | Some e => Err (Errorf [Lit prefix; PW e])
  | None => Ok tt
  end.

(** Registration, of a runnable or of a controller. *)
Definition register (mgr : list component) (x : component) : result error (list component) :=
  match Add mgr x with Some e => Err e | None => Ok (mgr ++ [x]) end.

(** ** The table builder *)

(** The fields of [RouteTableBuilder] the caller sets, [None] for nil; the channel by
    its capacity.  The cache is the manager's. *)
Record builder_fields := MkBuilderFields {
  bf_Store : option Store;
  bf_Resolver : option ClientResolver;
  bf_ClusterDomain : string;
  bf_WatchSecrets : bool;
  bf_Debounce : Z;
  bf_StatusEvents : option nat
}.

(** [RouteTableBuilder.SetupWithManager]. *)
Definition builder_SetupWithManager (mgr : list component) (b : builder_fields)
  : result error (list component) :=
  match bf_Store b with
  | None => Err (Errorf [Lit "RouteTableBuilder.Store is required"])
  | Some store =>
      let resolver :=
        match bf_Resolver b with
        | None => WithCABundles NewClientResolver (bf_WatchSecrets b)
        | Some r => r
        end in
      if bool_decide (bf_ClusterDomain b = "") then Err (Errorf [Lit "RouteTableBuilder.ClusterDomain is required"])
      else
        let debounce := if bf_Debounce b <=? 0 then DefaultDebounce else bf_Debounce b in
        register mgr
          (TableBuilder
             (MkBuilder (bf_ClusterDomain b) debounce false None store 0
                ((λ capacity, (capacity, [])) <$> bf_StatusEvents b))
             resolver (bf_WatchSecrets b))
  end.

(** [watch]. *)
Definition watch (k : watched_kind) : result error unit :=
  match GetInformer k with
  | Some err => Err (Errorf [Lit "getting informer for "; PS (kind_name k); Lit ": "; PW err])
  | None =>
      match AddEventHandler k with
      | Some err => Err (Errorf [Lit "watching "; PS (kind_name k); Lit ": "; PW err])
      | None => Ok tt
      end
  end.

Definition watched (watchSecrets : bool) : list watched_kind :=
  [WatchRoutes; WatchServices] ++ (if watchSecrets then [WatchSecretKind] else []).

Fixpoint watch_all (ks : list watched_kind) : result error unit :=
  match ks with
  | [] => Ok tt
  | k :: rest => let! _ := watch k in watch_all rest
  end.

(** [RouteTableBuilder.Start] up to its loop: the informers, then one rebuild, whose
    error is only logged. *)
Definition builder_Start (ctx : context) (watchSecrets : bool) (cl : cluster) (n : nat)
  (b : RouteTableBuilder) (now : Z) (list_err : option error) : result error system :=
  let! _ := watch_all (watched watchSecrets) in
  Ok (started ctx cl n b now list_err).

(** ** The controllers *)

(** [PostgresRouteReconciler.SetupWithManager]. *)
Definition route_SetupWithManager (mgr : list component) (store : option Store) (events : bool)
  : result error (list component) :=
  match store with
  | None => Err (Errorf [Lit "PostgresRouteReconciler.Store is required"])
  | Some _ => register mgr (RouteController events)
  end.

(** [ServiceDiscoveryReconciler.SetupWithManager]; a selector is given by the text it
    was parsed from, [None] for nil. *)
Definition discovery_SetupWithManager (mgr : list component) (sel : option string) (annotation : string)
  : result error (list component) :=
  let refused := Err (Errorf [Lit "ServiceDiscoveryReconciler.Selector must not be empty"]) in
  match sel with
  | None => refused
  | Some text =>
      match labels_Parse text with
      | Ok true => refused
      | _ =>
          register mgr
            (DiscoveryController text
               (if bool_decide (annotation = "") then DefaultDatabaseAnnotation else annotation))
      end
  end.

(** ** [run] *)

(** [cacheOptions]. *)
Definition cacheOptions (cfg : Config) : cache_options :=
  MkCacheOptions {[CABundleLabel := "true"]}
    (if negb (ClusterScoped (Watch cfg)) then Some (list_to_set (Namespaces (Watch cfg))) else None).

(** The options [run] gives the manager. *)
Definition managerOptions (cfg : Config) : manager_options :=
  MkManagerOptions (cacheOptions cfg) (MetricsBindAddress cfg) "0"
    (lc_Enabled (Leader cfg)) (lc_ID (Leader cfg)) (lc_Namespace (Leader cfg)) true
    (LeaseDuration (Leader cfg)) (RenewDeadline (Leader cfg)) (RetryPeriod (Leader cfg))
    (pc_ShutdownGracePeriod (Proxy cfg)).

(** An error of a step of [run], under the prefix [run] gives it. *)
Definition under {A} (prefix : string) (r : result error A) : result error A :=
  match r with Err e => Err (Errorf [Lit prefix; PW e]) | Ok a => Ok a end.

(** The controllers of [run]. *)
Definition add_controllers (cfg : Config) (store : Store) (mgr : list component)
  : result error (list component) :=
  if RunsManager (Role cfg) then
    let! mgr := under "setting up the PostgresRoute controller: "
                  (route_SetupWithManager mgr (Some store) true) in
    if dc_Enabled (Discovery cfg) then
      under "setting up the service discovery controller: "
        (discovery_SetupWithManager mgr (selector (Discovery cfg)) (dc_DatabaseAnnotation (Discovery cfg)))
    else Ok mgr
  else Ok mgr.

(** The gateway of [run]. *)
Definition add_gateway (cfg : Config) (store : Store) (mgr : list component)
  : result error (option Server * list component) :=
  if RunsProxy (Role cfg) then
    let! gateway := newGateway cfg store in
    let! mgr := under "registering the gateway: " (register mgr (Gateway gateway)) in
    Ok (Some gateway, mgr)
  else Ok (None, mgr).

(** [run] up to the start of the manager: the components registered. *)
Definition assemble (cfg : Config) : result error (list component) :=
  let! scheme := buildScheme in
  let! _ := wrap "creating the controller manager: " (NewManager scheme (managerOptions cfg)) in
  let store := NewStore in
  let! mgr := under "setting up the routing table builder: "
                (builder_SetupWithManager []
                   (MkBuilderFields (Some store) None (wc_ClusterDomain (Watch cfg))
                      (WatchSecrets (Watch cfg)) 0 (Some 1024%nat))) in
  let! mgr := add_controllers cfg store mgr in
  let! gm := add_gateway cfg store mgr in
  under "registering the probe server: " (register gm.2 (Probes (HealthBindAddress cfg) gm.1)).

(** [run]: the error it returns, and the components the manager was started with, if
    it was. *)
Definition run (cfg : Config) : option error * option (list component) :=
  match assemble cfg with
  | Err e => (Some e, None)
  | Ok components =>
      ((λ e, Errorf [Lit "running the controller manager: "; PW e]) <$> StartManager components,
       Some components)
  end.

(** [newLogger]: the level of [log/slog], and whether the output is text. *)
Definition newLogger (cfg : Config) : Z * bool :=
  (if bool_decide (LogLevel cfg = "debug") then -4
   else if bool_decide (LogLevel cfg = "warn") then 4
   else if bool_decide (LogLevel cfg = "error") then 8
   else 0,
   bool_decide (LogFormat cfg = "text")).

(** [scopeDescription]; a slice prints as its elements in brackets. *)
Definition scopeDescription (cfg : Config) : string :=
  if ClusterScoped (Watch cfg) then "cluster"
  else Sprintf [Lit "namespaces=["; PS (String.concat " " (Namespaces (Watch cfg))); Lit "]"].

(** ** The command *)

(** [RunE] of the root command, after the flags were set: the error, the warnings
    [run] logs, and what the manager was started with. *)
Definition RunE (env : process) (given : Config * gset string)
  : option error * list string * option (list component) :=
  let '(cfg, warnings) := ApplyEnvironment env (λ name, bool_decide (name ∈ given.2)) given.1 in
  match Validate env cfg with
  | Err e => (Some e, [], None)
  | Ok cfg => let '(err, started) := run cfg in (err, warnings, started)
  end.

(** The root command on the flags of a command line. *)
Definition newRootCommand `{Pflag} (env : process) (args : list (string * string))
  : option error * list string * option (list component) :=
  match set_flags args (bind_defaults Default, ∅) with
  | Err e => (Some e, [], None)
  | Ok given => RunE env given
  end.

(** [main]: the exit code and what is printed to standard error. *)
Definition main (err : option error) : Z * string :=
  match err with
  | Some e => (1, "error: " +:+ Error e +:+ newline)
  | None => (0, "")
  end.
End Process.

(** ** The probe server *)

Section Health.
Context `{UnicodeTables} {St : Type}.

(** [health.Config], its checks reading a state; [None] for nil. *)
Record health_config := MkHealthConfig {
  hc_BindAddress : string;
  hc_Live : option (St → option error);
  hc_Ready : option (St → option error);
  hc_RouteCount : option (St → Z)
}.

(** [health.New]: the configuration with its defaults. *)
Definition health_New (cfg : health_config) : health_config :=
  MkHealthConfig (hc_BindAddress cfg)
    (Some (default (λ _, None) (hc_Live cfg)))
    (Some (default (λ _, None) (hc_Ready cfg)))
    (Some (default (λ _, 0) (hc_RouteCount cfg))).

(** A GET request to the server; [None] for a path that is not served. *)
Definition health_ServeHTTP (s : health_config) (st : St) (path : string) : option probe_response :=
  probe path (hc_Live s ≫= λ check, check st) (hc_Ready s ≫= λ check, check st)
    (from_option (λ count, count st) 0 (hc_RouteCount s)).

(** [health.Start]: the error it returns, given what binding the socket gives and the
    error serving ends with, [None] for the [http.ErrServerClosed] of a shutdown. *)
Definition health_Start (cfg : health_config) (listen served : option error) : option error :=
  match listen with
  | Some err => Some (Errorf [Lit "health: listening on "; PS (hc_BindAddress cfg); Lit ": "; PW err])
  | None =>
      match served with
      | Some err => Some (Errorf [Lit "health: serving probes: "; PW err])
      | None => None
      end
  end.
End Health.
Arguments health_config : clear implicits.

(** The probes of [run], over the gateway it registered, if any, and the store. *)
Definition run_probes (address : string) : health_config (option Server * Store) :=
  health_New (MkHealthConfig address (Some (λ _, None)) (Some (λ st, readinessCheck st.1))
    (Some (λ st, match Routes st.2 with Some t => Z.of_nat (Len t) | None => 0 end))).

(** ** The version *)

(** What the linker and the Go tool put into the binary. *)
Record build_info := MkBuildInfo {
  bi_Version : string;
  bi_Commit : string;
  bi_BuildDate : string;
  bi_go : string;
  bi_GOOS : string;
  bi_GOARCH : string;
  bi_Settings : option (list (string * string))
}.

(** [vcsRevision] and [orUnknown]. *)
Definition vcsRevision (b : build_info) : string :=
  match bi_Settings b with
  | None => ""
  | Some settings => from_option (λ s, s.2.2) "" (list_find (λ s, s.1 = "vcs.revision") settings)
  end.

Definition orUnknown (s : string) : string := if bool_decide (s = "") then "unknown" else s.

(** [version.String]. *)
Definition version_String `{UnicodeTables} (b : build_info) : string :=
  let commit := if bool_decide (bi_Commit b = "") then vcsRevision b else bi_Commit b in
  Sprintf [Lit "pg-k8s-proxy "; PS (bi_Version b); Lit " (commit "; PS (orUnknown commit);
           Lit ", built "; PS (orUnknown (bi_BuildDate b)); Lit ", "; PS (bi_go b); Lit " ";
           PS (bi_GOOS b); Lit "/"; PS (bi_GOARCH b); Lit ")"].

(** What [newVersionCommand] prints. *)
Definition newVersionCommand `{UnicodeTables} (b : build_info) : string := version_String b +:+ newline.

(** A build without linker flags still names the commit the Go tool recorded, and a
    build without either says so. *)
Example version_fallback `{UnicodeTables} :
  version_String (MkBuildInfo "dev" "" "" "go1.24" "linux" "amd64"
                    (Some [("vcs", "git"); ("vcs.revision", "3f2a")]))
    = "pg-k8s-proxy dev (commit 3f2a, built unknown, go1.24 linux/amd64)" ∧
  version_String (MkBuildInfo "v1" "" "" "go1.24" "linux" "amd64" None)
    = "pg-k8s-proxy v1 (commit unknown, built unknown, go1.24 linux/amd64)".
Proof. by split. Qed.

(** ** What a validated configuration runs *)

Section Roster.
Context `{Manager} `{LabelsParser} `{Files} `{UnicodeTables}.

(** The table builder [run] registers. *)
Definition run_builder (cfg : Config) : component :=
  TableBuilder
    (MkBuilder (wc_ClusterDomain (Watch cfg)) DefaultDebounce false None NewStore 0 (Some (1024%nat, [])))
    (MkClientResolver (WatchSecrets (Watch cfg))) (WatchSecrets (Watch cfg)).

(** The components of a process, by its configuration. *)
Definition roster (cfg : Config) (gateway : option Server) : list component :=
  run_builder cfg ::
  (if RunsManager (Role cfg) then [RouteController true] else []) ++
  (if RunsManager (Role cfg) && dc_Enabled (Discovery cfg) then
     [DiscoveryController (LabelSelector (Discovery cfg))
        (if bool_decide (dc_DatabaseAnnotation (Discovery cfg) = "") then DefaultDatabaseAnnotation
         else dc_DatabaseAnnotation (Discovery cfg))]
   else []) ++
  (if gateway is Some s then [Gateway s] else []) ++
  [Probes (HealthBindAddress cfg) gateway].

(** The manager and its libraries gave an error. *)
Definition manager_failed (cfg : Config) : Prop :=
  scheme_failed ∨ (∃ s, is_Some (NewManager s (managerOptions cfg))) ∨
  ∃ l x, is_Some (Add l x).

(** What [run] needs of a configuration. *)
Definition runnable (cfg : Config) : Prop :=
  wc_ClusterDomain (Watch cfg) ≠ "" ∧
  (RunsManager (Role cfg) = true → dc_Enabled (Discovery cfg) = true →
     selector (Discovery cfg) = Some (LabelSelector (Discovery cfg)) ∧
     labels_Parse (LabelSelector (Discovery cfg)) = Ok false).

Lemma register_cases mgr x :
  register mgr x = Ok (mgr ++ [x]) ∨ (∃ e, register mgr x = Err e ∧ Add mgr x = Some e).
Proof. unfold register. destruct (Add mgr x); eauto. Qed.

Lemma add_controllers_cases cfg store mgr :
  runnable cfg →
  add_controllers cfg store mgr
    = Ok (mgr ++ (if RunsManager (Role cfg) then [RouteController true] else []) ++
       (if RunsManager (Role cfg) && dc_Enabled (Discovery cfg) then
          [DiscoveryController (LabelSelector (Discovery cfg))
             (if bool_decide (dc_DatabaseAnnotation (Discovery cfg) = "") then DefaultDatabaseAnnotation
              else dc_DatabaseAnnotation (Discovery cfg))]
        else [])) ∨
  ((∃ e, add_controllers cfg store mgr = Err e) ∧ ∃ l x, is_Some (Add l x)).
Proof.
  intros [_ Hsel]. unfold add_controllers. destruct (RunsManager (Role cfg)); cbn [andb].
  2: { left. by rewrite app_nil_r. }
  unfold route_SetupWithManager.
  destruct (register_cases mgr (RouteController true)) as [->|(e & -> & He)]; cbn [under].
  2: { right. split; [eauto|]. eexists _, _. by rewrite He. }
  destruct (dc_Enabled (Discovery cfg)); [|left; by rewrite app_nil_r].
  destruct Hsel as [-> Hp]; [done..|]. unfold discovery_SetupWithManager. rewrite Hp.
  match goal with |- context [register ?m ?x] =>
    destruct (register_cases m x) as [->|(e & -> & He)] end; cbn [under].
  - left. by rewrite <- app_assoc.
  - right. split; [eauto|]. eexists _, _. by rewrite He.
Qed.

Lemma add_gateway_cases cfg store mgr :
  (∃ g, add_gateway cfg store mgr = Ok (g, mgr ++ (if g is Some s then [Gateway s] else [])) ∧
     (if RunsProxy (Role cfg) then ∃ s, g = Some s ∧ newGateway cfg store = Ok s else g = None)) ∨
  ((∃ e, add_gateway cfg store mgr = Err e) ∧
   ((∃ l x, is_Some (Add l x)) ∨ (RunsProxy (Role cfg) = true ∧ ∃ e, newGateway cfg store = Err e))).
Proof.
  unfold add_gateway. destruct (RunsProxy (Role cfg)).
  2: { left. exists None. by rewrite app_nil_r. }
  destruct (newGateway cfg store) as [s|e]; [|right; split; [eauto|right; eauto]].
  destruct (register_cases mgr (Gateway s)) as [->|(e & -> & He)]; cbn [under].
  - left. exists (Some s). split; [done|eauto].
  - right. split; [eauto|]. left. eexists _, _. by rewrite He.
Qed.

Lemma setup_builder cfg :
  wc_ClusterDomain (Watch cfg) ≠ "" →
  builder_SetupWithManager []
    (MkBuilderFields (Some NewStore) None (wc_ClusterDomain (Watch cfg)) (WatchSecrets (Watch cfg)) 0
       (Some 1024%nat))
  = register [] (run_builder cfg).
Proof. intros Hd. unfold builder_SetupWithManager. cbn. by rewrite bool_decide_eq_false_2. Qed.

Lemma assemble_cases cfg :
  runnable cfg →
  match assemble cfg with
  | Ok comps => ∃ g, comps = roster cfg g ∧
      (if RunsProxy (Role cfg) then ∃ s, g = Some s ∧ newGateway cfg NewStore = Ok s else g = None)
  | Err _ => manager_failed cfg ∨ (RunsProxy (Role cfg) = true ∧ ∃ e, newGateway cfg NewStore = Err e)
  end.
Proof.
  intros Hr. unfold assemble, manager_failed. pose proof buildScheme_cases as Hsch.
  destruct buildScheme as [scheme|e]; [|by left; left]. clear Hsch.
  destruct (NewManager scheme _) as [e|] eqn:En; cbn [wrap]; [left; right; left; exists scheme; eauto|].
  rewrite (setup_builder cfg) by apply Hr.
  destruct (register_cases [] (run_builder cfg)) as [->|(e & -> & He)]; cbn [under].
  2: { left; right; right. eexists _, _. by rewrite He. }
  destruct (add_controllers_cases cfg NewStore ([] ++ [run_builder cfg]) Hr) as [->|[[e ->] Hadd]].
  2: { by left; right; right. }
  match goal with |- context [add_gateway cfg NewStore ?m] =>
    destruct (add_gateway_cases cfg NewStore m) as [(g & -> & Hg)|[[e ->] [Hadd|Hgw]]] end;
    [|by left; right; right|by right].
  cbn [fst snd]. match goal with |- context [register ?m ?x] =>
    destruct (register_cases m x) as [->|(e & -> & He)] end; cbn [under].
  - exists g. split; [|done]. unfold roster. by rewrite <- !app_assoc.
  - left; right; right. eexists _, _. by rewrite He.
Qed.

(** What [Validate] returns. *)
Lemma Validate_Ok env c c' :
  Validate env c = Ok c' →
  Role c' = Role c ∧ Role c ∈ [RoleAll; RoleManager; RoleProxy] ∧ wc_ClusterDomain (Watch c') ≠ "" ∧
  Watch c' = MkWatchConfig (filter (λ ns, ns ≠ "") (map TrimSpace (Namespaces (Watch c))))
               (wc_ClusterDomain (Watch c)) (WatchSecrets (Watch c)) ∧
  validateDiscovery (Role c) (Discovery c) = Ok (Discovery c') ∧
  lc_Enabled (Leader c') = lc_Enabled (Leader c) && RunsManager (Role c).
Proof.
  unfold Validate, one_of. intros Hv. repeat (case_match; try done); simplify_eq; cbn;
  repeat match goal with
  | Hb : negb _ = false |- _ => apply negb_false_iff, bool_decide_eq_true in Hb
  | Hb : bool_decide _ = false |- _ => apply bool_decide_eq_false in Hb
  end; done.
Qed.

Lemma validated_runnable env c cfg : Validate env c = Ok cfg → runnable cfg.
Proof.
  intros (Hr & _ & Hd & _ & Hdisc & _)%Validate_Ok. split; [done|]. rewrite Hr. intros Hm He.
  pose proof (validateDiscovery_spec (Role c) (Discovery c)) as Hs. rewrite Hdisc in Hs.
  destruct Hs as (Hen & Hl & _ & Hsel & Hp). rewrite Hl. split; [by apply Hsel|].
  apply Hp; [|done]. rewrite He in Hen. by destruct (dc_Enabled (Discovery c)).
Qed.

(** A validated configuration always wires up.  [run] either starts the manager
    with exactly the components the role calls for, in order: the table builder, the
    controllers of a process that reconciles, the gateway of one that proxies, and the
    probes; or it starts nothing, and then the manager or its libraries gave an error
    or the gateway could not be made.  None of the checks of the controllers' own
    registration can fail. *)
Theorem run_spec env c cfg :
  Validate env c = Ok cfg →
  match run cfg with
  | (err, Some comps) =>
      (is_Some err ↔ is_Some (StartManager comps)) ∧
      ∃ g, comps = roster cfg g ∧
        (if RunsProxy (Role c) then ∃ s, g = Some s ∧ newGateway cfg NewStore = Ok s else g = None)
  | (err, None) =>
      is_Some err ∧
      (manager_failed cfg ∨ (RunsProxy (Role c) = true ∧ ∃ e, newGateway cfg NewStore = Err e))
  end.
Proof.
  intros Hv. pose proof (validated_runnable env c cfg Hv) as Hr.
  apply Validate_Ok in Hv as (Hrole & _). unfold run. apply assemble_cases in Hr. rewrite Hrole in Hr.
  destruct (assemble cfg) as [comps|e]; [|eauto]. split; [|done]. by rewrite fmap_is_Some.
Qed.

(** ** Who writes to the API server *)

Lemma elem_of_roster cfg g x :
  x ∈ roster cfg g ↔
  x = run_builder cfg ∨ (RunsManager (Role cfg) = true ∧ x = RouteController true) ∨
  (RunsManager (Role cfg) = true ∧ dc_Enabled (Discovery cfg) = true ∧
   ∃ a, x = DiscoveryController (LabelSelector (Discovery cfg)) a ∧
     a = (if bool_decide (dc_DatabaseAnnotation (Discovery cfg) = "") then DefaultDatabaseAnnotation
          else dc_DatabaseAnnotation (Discovery cfg))) ∨
  (∃ s, g = Some s ∧ x = Gateway s) ∨ x = Probes (HealthBindAddress cfg) g.
Proof.
  unfold roster. rewrite elem_of_cons, !elem_of_app, list_elem_of_singleton.
  destruct (RunsManager (Role cfg)), (dc_Enabled (Discovery cfg)), g as [s|]; cbn [andb];
    rewrite ?list_elem_of_singleton, ?elem_of_nil; naive_solver.
Qed.

Lemma roster_writers cfg g :
  (∀ x, x ∈ roster cfg g → NeedLeaderElection x = true ↔
     x = RouteController true ∨ ∃ sel a, x = DiscoveryController sel a) ∧
  ((∃ x, x ∈ roster cfg g ∧ NeedLeaderElection x = true) ↔ RunsManager (Role cfg) = true) ∧
  ((∃ s, Gateway s ∈ roster cfg g) ↔ is_Some g).
Proof.
  split_and!.
  - intros x. rewrite elem_of_roster. unfold run_builder. naive_solver.
  - split.
    + intros (x & Hx & Hw). rewrite elem_of_roster in Hx. unfold run_builder in Hx. naive_solver.
    + intros Hm. exists (RouteController true). split; [|done]. apply elem_of_roster. auto.
  - split.
    + intros [s Hs]. rewrite elem_of_roster in Hs. unfold run_builder in Hs. naive_solver.
    + intros [s ->]. exists s. apply elem_of_roster. eauto 10.
Qed.

(** *** From the command line *)

Context `{Pflag}.

(** The role a command line asks for: the last one given, or the default. *)
Definition given_role (args : list (string * string)) : string :=
  default RoleAll
    (last (omap (λ '(name, text), if decide (name = "role") then Some text else None) args)).

Lemma settle_role f b old texts :
  fl_kind f = KRole → settle f b (VString old) texts = Ok (VString (default old (last texts))).
Proof.
  intros Hk. revert b old. induction texts as [|t texts IH]; intros b old; [done|].
  cbn [settle]. rewrite Hk. cbn. rewrite IH, last_cons. by destruct (last texts).
Qed.

Lemma set_flags_role args c1 changed :
  set_flags args (bind_defaults Default, ∅) = Ok (c1, changed) → Role c1 = given_role args.
Proof.
  intros Hs. rewrite bind_defaults_same in Hs.
  assert (∃ f, f ∈ BindFlags ∧ fl_name f = "role" ∧ fl_kind f = KRole ∧ ∀ c, fl_get f c = VString (Role c))
    as (f & Hf & Hn & Hk & Hg) by (eexists; split; [left|done]).
  destruct (set_flags_get f _ _ _ _ _ Hf Hs) as [_ Hset]. rewrite !Hg, settle_role in Hset by done.
  unfold flag_texts in Hset. rewrite Hn in Hset. by injection Hset as <-.
Qed.

Lemma ApplyEnvironment_Role env changed c : Role (ApplyEnvironment env changed c).1 = Role c.
Proof. by rewrite ApplyEnvironment_fst. Qed.

(** C23: what runs, and on which replicas, is decided by the role.  Whatever the command
    line and the environment: if the process gets to start its components, the role it was
    given is one of the three; what the manager runs on the elected leader only are
    exactly the two reconcilers, the one that patches route statuses and the one that
    creates, updates and deletes generated routes; there are some exactly if the role is
    not proxy, and there is a gateway exactly if it is not manager; and Services are only
    adopted by a selector that is not empty. *)
Theorem writers_elected env args err warnings comps :
  newRootCommand env args = (err, warnings, Some comps) →
  given_role args ∈ [RoleAll; RoleManager; RoleProxy] ∧
  (∀ x, x ∈ comps → NeedLeaderElection x = true ↔
     x = RouteController true ∨ ∃ sel a, x = DiscoveryController sel a) ∧
  ((∃ x, x ∈ comps ∧ NeedLeaderElection x = true) ↔ given_role args ≠ RoleProxy) ∧
  ((∃ s, Gateway s ∈ comps) ↔ given_role args ≠ RoleManager) ∧
  (∀ sel a, DiscoveryController sel a ∈ comps → labels_Parse sel = Ok false).
Proof.
  unfold newRootCommand, RunE. destruct (set_flags args _) as [[c1 changed]|e] eqn:Es; [|done].
  cbn [fst snd]. apply set_flags_role in Es.
  destruct (ApplyEnvironment _ _ _) as [c w] eqn:Ea.
  assert (Role c = given_role args) as Hc.
  { rewrite <- Es, <- (ApplyEnvironment_Role env (λ name, bool_decide (name ∈ changed)) c1). by rewrite Ea. }
  destruct (Validate env c) as [cfg|e] eqn:Ev; [|done].
  pose proof (validated_runnable env c cfg Ev) as Hrun.
  apply Validate_Ok in Ev as (Hrole & Hin & _). unfold run.
  pose proof (assemble_cases cfg Hrun) as Has. destruct (assemble cfg) as [comps'|e]; [|done].
  intros [= _ _ ->]. destruct Has as (g & -> & Hg).
  destruct (roster_writers cfg g) as (Hw & Hex & Hgw). rewrite Hrole in *. rewrite Hc in *.
  split_and!; [done..| | |].
  - rewrite Hex. repeat (apply elem_of_cons in Hin as [->|Hin]; [done|]). by apply elem_of_nil in Hin.
  - rewrite Hgw.
    apply elem_of_cons in Hin as [Heq|Hin]; [|apply elem_of_cons in Hin as [Heq|Hin]];
      [| |apply list_elem_of_singleton in Hin as Heq]; rewrite Heq in Hg |- *; cbn in Hg;
      [destruct Hg as (s & -> & _); by split|rewrite Hg; split; [by intros [? [=]]|by intros []]|
       destruct Hg as (s & -> & _); by split].
  - intros sel a Hsel. rewrite elem_of_roster in Hsel. unfold run_builder in Hsel.
    destruct Hsel as [?|[[_ ?]|[(Hm & Hen & a' & [= -> _] & _)|[(? & _ & ?)|?]]]]; try done.
    by apply Hrun.
Qed.
End Roster.

(** ** What the process may read *)

Section Scope.
Context `{LabelsParser}.

(** The cache of a process holds an object of a kind, in a namespace, with labels. *)
Definition caches (o : cache_options) (k : watched_kind) (ns : string) (labels : gmap string string) : Prop :=
  (∀ nss, co_namespaces o = Some nss → ns ∈ nss) ∧
  (k = WatchSecretKind → co_secret_labels o ⊆ labels).

(** C29: the cache sees no more than it was told to.  With a validated configuration it
    holds objects of the namespaces that were named, white space aside, or of all if
    none was, and of the Secrets only those labelled as CA bundles. *)
Theorem cache_scope env c cfg k ns labels :
  Validate env c = Ok cfg →
  caches (cacheOptions cfg) k ns labels ↔
  ((∀ n, n ∈ Namespaces (Watch c) → TrimSpace n = "") ∨
   (ns ≠ "" ∧ ∃ n, n ∈ Namespaces (Watch c) ∧ TrimSpace n = ns)) ∧
  (k = WatchSecretKind → labels !! CABundleLabel = Some "true").
Proof.
  intros (_ & _ & _ & Hw & _)%Validate_Ok. unfold caches, cacheOptions.
  cbn [co_namespaces co_secret_labels].
  rewrite map_singleton_subseteq_l. apply and_iff_compat_r. unfold ClusterScoped. rewrite Hw. cbn [Namespaces].
  pose proof (filter_map_nil (Namespaces (Watch c))) as Hnil.
  set (nss := filter (λ n, n ≠ "") (map TrimSpace (Namespaces (Watch c)))) in *.
  assert (ns ∈ nss ↔ ns ≠ "" ∧ ∃ n, n ∈ Namespaces (Watch c) ∧ TrimSpace n = ns) as Hin.
  { unfold nss. rewrite list_elem_of_filter, list_elem_of_fmap. naive_solver. }
  destruct (length nss =? 0)%nat eqn:E; cbn [negb].
  - apply Nat.eqb_eq, length_zero_iff_nil in E. split; [left; by apply Hnil|by intros].
  - apply Nat.eqb_neq in E. rewrite <- Hin. split.
    + intros Hall. right. specialize (Hall _ eq_refl). by apply elem_of_list_to_set in Hall.
    + intros [Hall|Hns] nss' [= <-]; [|by apply elem_of_list_to_set].
      apply Hnil in Hall. by rewrite Hall in E.
Qed.
End Scope.

(** Without leave to read Secrets no Secret is ever read: the table builder does not
    watch them, and the tables it builds do not depend on what reading one would give,
    whether it blocks, fails or answers. *)
Theorem secrets_untouched `{X509} (K1 K2 : KubeReader) cfg ctx rs cd :
  WatchSecrets (Watch cfg) = false →
  (∀ c k, @GetService K1 c k = @GetService K2 c k) → (∀ e, @IsNotFound K1 e = @IsNotFound K2 e) →
  WatchSecretKind ∉ watched (WatchSecrets (Watch cfg)) ∧
  ∃ b r, run_builder cfg = TableBuilder b r false ∧
    @Build (@client_resolver K1 _ r) ctx rs cd = @Build (@client_resolver K2 _ r) ctx rs cd.
Proof.
  intros Hw Hs Hn. split; [rewrite Hw; set_solver|]. unfold run_builder. rewrite Hw.
  eexists _, _. split; [done|]. apply build_bounded. intros c d _ _. split; [|done].
  intros ns n p. cbn. unfold client_ResolveServicePort. rewrite Hs.
  destruct (@GetService K2 _ _); [done|]. by rewrite Hn.
Qed.

(** ** Example processes *)

Section WiringWitnesses.
#[local] Existing Instance sample_schemes.
#[local] Instance willing_manager : Manager := {|
  NewManager _ _ := None;
  Add _ _ := None;
  StartManager _ := None;
  GetInformer _ := None;
  AddEventHandler _ := None;
  kind_name k := match k with
    | WatchRoutes => "*v1alpha1.PostgresRoute" | WatchServices => "*v1.Service"
    | WatchSecretKind => "*v1.Secret" end
|}.
#[local] Existing Instance sample_parser.
#[local] Existing Instance sample_unicode.
#[local] Existing Instance sample_files.
#[local] Existing Instance sample_pflag.
#[local] Instance any_pem : X509 := λ _, true.

Lemma run_spec_witness :
  match run tls_validated with
  | (err, Some comps) =>
      (is_Some err ↔ is_Some (StartManager comps)) ∧
      ∃ g, comps = roster tls_validated g ∧ ∃ s, g = Some s ∧ newGateway tls_validated NewStore = Ok s
  | (err, None) => is_Some err ∧ manager_failed tls_validated
  end.
Proof.
  pose proof (run_spec outside tls_config tls_validated) as Hs.
  specialize (Hs ltac:(reflexivity)). exact Hs.
Defined.

(** A proxy, and a process of both roles by default. *)
Lemma writers_elected_witness :
  ∃ comps, newRootCommand sample_env [("role", "manager"); ("role", "proxy")]
           = (None, ["POSTGRES_PORT is deprecated, use --proxy-bind-address";
                     "HEALTH_PORT is deprecated, use --health-bind-address";
                     "KUBERNETES_NAMESPACE is deprecated, use --watch-namespaces"], Some comps) ∧
    length comps = 3%nat ∧
    ((∃ x, x ∈ comps ∧ NeedLeaderElection x = true) ↔ RoleProxy ≠ RoleProxy).
Proof.
  eexists. split; [by vm_compute|]. split; [reflexivity|].
  eapply (writers_elected sample_env [("role", "manager"); ("role", "proxy")] None). by vm_compute.
Defined.

Lemma cache_scope_witness :
  caches (cacheOptions tls_validated) WatchSecretKind "apps" {[CABundleLabel := "true"]} ↔
  ((∀ n, n ∈ ["apps"; " "] → TrimSpace n = "") ∨
   ("apps" ≠ "" ∧ ∃ n, n ∈ ["apps"; " "] ∧ TrimSpace n = "apps")) ∧
  (WatchSecretKind = WatchSecretKind →
   ({[CABundleLabel := "true"]} : gmap string string) !! CABundleLabel = Some "true").
Proof. by apply (cache_scope outside tls_config tls_validated). Defined.

Lemma secrets_untouched_witness :
  WatchSecretKind ∉ watched (WatchSecrets (Watch Default)) ∧
  ∃ b r, run_builder Default = TableBuilder b r false ∧
    @Build (@client_resolver sample_reader _ r) no_deadline [by_hand] "cluster.local"
    = @Build (@client_resolver {| GetService := @GetService sample_reader;
                                  GetSecret _ _ := Err (ENew "forbidden");
                                  IsNotFound := @IsNotFound sample_reader |} _ r)
        no_deadline [by_hand] "cluster.local".
Proof. by apply (secrets_untouched sample_reader). Defined.
End WiringWitnesses.
