(* ===== verification/DeepCopy.v ===== *)
(** Deep copies of the API types ([api/v1alpha1/zz_generated.deepcopy.go]), over a heap:
    the values the other files compute with are what the objects of the heap read as,
    and a copy shares nothing with its original. *)

From stdpp Require Import base list gmap strings pretty.
From Stdlib Require Import ZArith Lia.
From S2P Require Import Prelude GoLib Api.

Local Open Scope go_scope.

(** ** The heap *)

Definition loc := positive.

(** The API types with their pointers and slices as locations, [None] for nil.  [M] and
    [L] stand for [metav1.ObjectMeta] and [metav1.ListMeta], [C] for what their own
    pointers lead to. *)
Record hBackend := MkHBackend {
  hb_Type : string;
  hb_Service : option loc;
  hb_Address : option loc
}.

Record hTLS := MkHTLS {
  ht_Mode : string;
  ht_CASecretRef : option loc;
  ht_ServerName : string
}.

Record hSpec := MkHSpec {
  hs_Database : string;
  hs_TargetDatabase : string;
  hs_Backend : hBackend;
  hs_TLS : option loc;
  hs_Priority : Z
}.

Record hStatus := MkHStatus {
  hst_ObservedGeneration : Z;
  hst_Database : string;
  hst_Endpoint : string;
  hst_ConflictingRoute : string;
  hst_Conditions : option loc
}.

Record hRoute (M : Type) := MkHRoute {
  hr_TypeMeta : string * string;
  hr_Meta : M;
  hr_Spec : hSpec;
  hr_Status : hStatus
}.

Record hList (L : Type) := MkHList {
  hl_TypeMeta : string * string;
  hl_Meta : L;
  hl_Items : option loc
}.

Arguments MkHRoute {M}. Arguments hr_TypeMeta {M}. Arguments hr_Meta {M}.
Arguments hr_Spec {M}. Arguments hr_Status {M}.
Arguments MkHList {L}. Arguments hl_TypeMeta {L}. Arguments hl_Meta {L}. Arguments hl_Items {L}.

Inductive obj (M L C : Type) :=
| OService (x : ServiceBackend)
| OAddress (x : AddressBackend)
| OSecretRef (x : SecretKeyReference)
| OBackend (x : hBackend)
| OTLS (x : hTLS)
| OSpec (x : hSpec)
| OConditions (x : list Condition)
| OStatus (x : hStatus)
| ORoute (x : hRoute M)
| OItems (x : list (hRoute M))
| OList (x : hList L)
| OMeta (x : C).
Arguments OService {M L C}. Arguments OAddress {M L C}. Arguments OSecretRef {M L C}.
Arguments OBackend {M L C}. Arguments OTLS {M L C}. Arguments OSpec {M L C}.
Arguments OConditions {M L C}. Arguments OStatus {M L C}. Arguments ORoute {M L C}.
Arguments OItems {M L C}. Arguments OList {M L C}. Arguments OMeta {M L C}.

Section Heap.
Context {M L C : Type}.

Abbreviation heap := (gmap loc (obj M L C)).

(** A computation on the heap; [None] is a nil or dangling dereference. *)
Definition H (A : Type) : Type := heap → option (A * heap).

#[global] Instance H_ret : MRet H := λ _ x h, Some (x, h).
#[global] Instance H_bind : MBind H := λ _ _ k m h, '(x, h') ← m h; k x h'.

(** What can be stored behind a pointer, with its zero value. *)
Class Cell (A : Type) := {
  mk : A → obj M L C;
  un : obj M L C → option A;
  un_mk : ∀ a, un (mk a) = Some a;
  zero : A
}.

(** [new], dereferencing, and assignment through a pointer. *)
Definition alloc `{Cell A} (x : A) : H loc := λ h, let l := fresh (dom h) in Some (l, <[l := mk x]> h).
Definition load `{Cell A} (l : loc) : H A := λ h, o ← h !! l; x ← un o; Some (x, h).
Definition store `{Cell A} (l : loc) (x : A) : H unit :=
  λ h, _ ← h !! l; Some (tt, <[l := mk x]> h).

(** The pattern for a pointer field and for [DeepCopy]: nil stays nil, and otherwise a
    new object is made and copied into. *)
Definition copy_ptr `{Cell A} (copy : A → H A) (p : option loc) : H (option loc) :=
  match p with
  | None => mret None
  | Some l =>
      q ← alloc zero;
      x ← load l;
      y ← copy x;
      store q y;;
      mret (Some q)
  end.

(** The pattern for a slice field: [make], then a copy into each element. *)
Fixpoint copy_each `{Cell (list A)} (copy : A → H A) (q : loc) (i : nat) (xs : list A) : H unit :=
  match xs with
  | [] => mret tt
  | x :: rest =>
      y ← copy x;
      ys ← load q;
      store q (<[i := y]> ys);;
      copy_each copy q (S i) rest
  end.

Definition copy_slice `{Cell (list A)} (z : A) (copy : A → H A) (p : option loc) : H (option loc) :=
  match p with
  | None => mret None
  | Some l =>
      xs ← load l;
      q ← alloc (replicate (length xs) z);
      copy_each copy q 0 xs;;
      mret (Some q)
  end.
End Heap.
Arguments H : clear implicits.
Arguments Cell : clear implicits.

(** ** The copies *)

(** The zero value of a library type. *)
Class Zero (A : Type) := zero_value : A.

Section Copies.
Context {M L C : Type} `{Zero M} `{Zero L}.
Abbreviation heap := (gmap loc (obj M L C)).
Abbreviation H := (H M L C).
Abbreviation Cell := (Cell M L C).

#[global] Instance cell_Service : Cell ServiceBackend :=
  {| mk := OService; un o := if o is OService x then Some x else None; un_mk _ := eq_refl;
     zero := MkServiceBackend "" "" (FromInt 0) |}.
#[global] Instance cell_Address : Cell AddressBackend :=
  {| mk := OAddress; un o := if o is OAddress x then Some x else None; un_mk _ := eq_refl; zero := MkAddressBackend "" 0 |}.
#[global] Instance cell_SecretRef : Cell SecretKeyReference :=
  {| mk := OSecretRef; un o := if o is OSecretRef x then Some x else None; un_mk _ := eq_refl;
     zero := MkSecretKeyReference "" "" |}.
#[global] Instance cell_Backend : Cell hBackend :=
  {| mk := OBackend; un o := if o is OBackend x then Some x else None; un_mk _ := eq_refl; zero := MkHBackend "" None None |}.
#[global] Instance cell_TLS : Cell hTLS :=
  {| mk := OTLS; un o := if o is OTLS x then Some x else None; un_mk _ := eq_refl; zero := MkHTLS "" None "" |}.
#[global] Instance cell_Spec : Cell hSpec :=
  {| mk := OSpec; un o := if o is OSpec x then Some x else None; un_mk _ := eq_refl;
     zero := MkHSpec "" "" (MkHBackend "" None None) None 0 |}.
#[global] Instance cell_Conditions : Cell (list Condition) :=
  {| mk := OConditions; un o := if o is OConditions x then Some x else None; un_mk _ := eq_refl; zero := [] |}.
#[global] Instance cell_Status : Cell hStatus :=
  {| mk := OStatus; un o := if o is OStatus x then Some x else None; un_mk _ := eq_refl; zero := MkHStatus 0 "" "" "" None |}.
Definition zero_route : hRoute M :=
  MkHRoute ("", "") zero_value (MkHSpec "" "" (MkHBackend "" None None) None 0) (MkHStatus 0 "" "" "" None).
#[global] Instance cell_Route : Cell (hRoute M) :=
  {| mk := ORoute; un o := if o is ORoute x then Some x else None; un_mk _ := eq_refl; zero := zero_route |}.
#[global] Instance cell_Items : Cell (list (hRoute M)) :=
  {| mk := OItems; un o := if o is OItems x then Some x else None; un_mk _ := eq_refl; zero := [] |}.
#[global] Instance cell_List : Cell (hList L) :=
  {| mk := OList; un o := if o is OList x then Some x else None; un_mk _ := eq_refl; zero := MkHList ("", "") zero_value None |}.

Definition zero_condition : Condition := MkCondition "" "" 0 0 "" "".

(** The copies the Kubernetes libraries make of their own types. *)
Variable meta_DeepCopyInto : M → H M.
Variable list_meta_DeepCopyInto : L → H L.
Variable condition_DeepCopyInto : Condition → H Condition.

Definition ServiceBackend_DeepCopyInto (i : ServiceBackend) : H ServiceBackend := mret i.
Definition AddressBackend_DeepCopyInto (i : AddressBackend) : H AddressBackend := mret i.
Definition SecretKeyReference_DeepCopyInto (i : SecretKeyReference) : H SecretKeyReference := mret i.

Definition Backend_DeepCopyInto (i : hBackend) : H hBackend :=
  service ← copy_ptr (A := ServiceBackend) mret (hb_Service i);
  address ← copy_ptr (A := AddressBackend) mret (hb_Address i);
  mret (MkHBackend (hb_Type i) service address).

Definition BackendTLS_DeepCopyInto (i : hTLS) : H hTLS :=
  ref ← copy_ptr (A := SecretKeyReference) mret (ht_CASecretRef i);
  mret (MkHTLS (ht_Mode i) ref (ht_ServerName i)).

Definition PostgresRouteSpec_DeepCopyInto (i : hSpec) : H hSpec :=
  backend ← Backend_DeepCopyInto (hs_Backend i);
  tls ← copy_ptr BackendTLS_DeepCopyInto (hs_TLS i);
  mret (MkHSpec (hs_Database i) (hs_TargetDatabase i) backend tls (hs_Priority i)).

Definition PostgresRouteStatus_DeepCopyInto (i : hStatus) : H hStatus :=
  conditions ← copy_slice zero_condition condition_DeepCopyInto (hst_Conditions i);
  mret (MkHStatus (hst_ObservedGeneration i) (hst_Database i) (hst_Endpoint i)
          (hst_ConflictingRoute i) conditions).

Definition PostgresRoute_DeepCopyInto (i : hRoute M) : H (hRoute M) :=
  meta ← meta_DeepCopyInto (hr_Meta i);
  spec ← PostgresRouteSpec_DeepCopyInto (hr_Spec i);
  status ← PostgresRouteStatus_DeepCopyInto (hr_Status i);
  mret (MkHRoute (hr_TypeMeta i) meta spec status).

Definition PostgresRouteList_DeepCopyInto (i : hList L) : H (hList L) :=
  meta ← list_meta_DeepCopyInto (hl_Meta i);
  items ← copy_slice zero_route PostgresRoute_DeepCopyInto (hl_Items i);
  mret (MkHList (hl_TypeMeta i) meta items).

Definition ServiceBackend_DeepCopy := copy_ptr ServiceBackend_DeepCopyInto.
Definition AddressBackend_DeepCopy := copy_ptr AddressBackend_DeepCopyInto.
Definition SecretKeyReference_DeepCopy := copy_ptr SecretKeyReference_DeepCopyInto.
Definition Backend_DeepCopy := copy_ptr Backend_DeepCopyInto.
Definition BackendTLS_DeepCopy := copy_ptr BackendTLS_DeepCopyInto.
Definition PostgresRouteSpec_DeepCopy := copy_ptr PostgresRouteSpec_DeepCopyInto.
Definition PostgresRouteStatus_DeepCopy := copy_ptr PostgresRouteStatus_DeepCopyInto.
Definition PostgresRoute_DeepCopy := copy_ptr PostgresRoute_DeepCopyInto.
Definition PostgresRouteList_DeepCopy := copy_ptr PostgresRouteList_DeepCopyInto.

(** [DeepCopyObject]: the interface value is nil exactly if the pointer is. *)
Definition PostgresRoute_DeepCopyObject (i : option loc) : H (option loc) :=
  c ← PostgresRoute_DeepCopy i;
  mret (if c is Some l then Some l else None).
Definition PostgresRouteList_DeepCopyObject (i : option loc) : H (option loc) :=
  c ← PostgresRouteList_DeepCopy i;
  mret (if c is Some l then Some l else None).
End Copies.

(** ** What an object reads as *)

Section Reading.
Context {M L C : Type} `{Zero M} `{Zero L}.
Abbreviation heap := (gmap loc (obj M L C)).
Abbreviation H := (H M L C).
Abbreviation Cell := (Cell M L C).

(** An object of type [A] denotes a value of type [V], following its pointers; more
    heap does not change what it denotes.  An object that denotes something has no
    dangling pointer and points only to objects of the right types. *)
Class Reads (A V : Type) := {
  rd : heap → A → option V;
  rd_mono : ∀ h h' x v, h ⊆ h' → rd h x = Some v → rd h' x = Some v
}.

Definition rd_ptr `{Cell A} `{Reads A V} (h : heap) (p : option loc) : option (option V) :=
  match p with
  | None => Some None
  | Some l => o ← h !! l; x ← un o; v ← rd h x; Some (Some v)
  end.

Definition rd_slice `{Cell (list A)} `{Reads A V} (h : heap) (p : option loc) : option (list V) :=
  match p with
  | None => Some []
  | Some l => o ← h !! l; xs ← un o; mapM (rd h) xs
  end.

Lemma rd_ptr_Some `{Cell A} `{Reads A V} h l w :
  rd_ptr h (Some l) = Some w ↔ ∃ o x v, h !! l = Some o ∧ un o = Some x ∧ rd h x = Some v ∧ w = Some v.
Proof. unfold rd_ptr. repeat setoid_rewrite bind_Some. naive_solver. Qed.

Lemma rd_slice_Some `{Cell (list A)} `{Reads A V} h l vs :
  rd_slice h (Some l) = Some vs ↔ ∃ o xs, h !! l = Some o ∧ un o = Some xs ∧ mapM (rd h) xs = Some vs.
Proof. unfold rd_slice. repeat setoid_rewrite bind_Some. naive_solver. Qed.

Lemma rd_ptr_mono `{Cell A} `{Reads A V} h h' p v :
  h ⊆ h' → rd_ptr h p = Some v → rd_ptr h' p = Some v.
Proof.
  intros Hs. destruct p as [l|]; [|done]. rewrite !rd_ptr_Some. intros (o & x & w & Ho & Hx & Hw & ->).
  eauto 10 using lookup_weaken, rd_mono.
Qed.

Lemma mapM_rd_mono `{Reads A V} h h' xs vs :
  h ⊆ h' → mapM (rd h) xs = Some vs → mapM (rd h') xs = Some vs.
Proof.
  intros Hs. rewrite !mapM_Some. intros Hall. eapply Forall2_impl; [exact Hall|].
  intros x v. by apply rd_mono.
Qed.

Lemma rd_slice_mono `{Cell (list A)} `{Reads A V} h h' p v :
  h ⊆ h' → rd_slice h p = Some v → rd_slice h' p = Some v.
Proof.
  intros Hs. destruct p as [l|]; [|done]. rewrite !rd_slice_Some. intros (o & xs & Ho & Hx & Hm).
  eauto 10 using lookup_weaken, mapM_rd_mono.
Qed.

(** Types without pointers denote themselves. *)
#[global] Instance reads_Service : Reads ServiceBackend ServiceBackend :=
  {| rd _ x := Some x; rd_mono _ _ _ _ _ e := e |}.
#[global] Instance reads_Address : Reads AddressBackend AddressBackend :=
  {| rd _ x := Some x; rd_mono _ _ _ _ _ e := e |}.
#[global] Instance reads_SecretRef : Reads SecretKeyReference SecretKeyReference :=
  {| rd _ x := Some x; rd_mono _ _ _ _ _ e := e |}.
#[global] Instance reads_Condition : Reads Condition Condition :=
  {| rd _ x := Some x; rd_mono _ _ _ _ _ e := e |}.

(** Monotonicity of the reading of a struct, from that of its fields. *)
Ltac solve_rd_mono :=
  intros h h' x v Hs; repeat setoid_rewrite bind_Some; naive_solver eauto using rd_ptr_mono, rd_slice_mono, rd_mono.

#[global] Program Instance reads_Backend : Reads hBackend Backend :=
  {| rd h b :=
       s ← rd_ptr (A := ServiceBackend) h (hb_Service b);
       a ← rd_ptr (A := AddressBackend) h (hb_Address b);
       Some (MkBackend (hb_Type b) s a) |}.
Next Obligation. solve_rd_mono. Qed.

#[global] Program Instance reads_TLS : Reads hTLS BackendTLS :=
  {| rd h t :=
       r ← rd_ptr (A := SecretKeyReference) h (ht_CASecretRef t);
       Some (MkBackendTLS (ht_Mode t) r (ht_ServerName t)) |}.
Next Obligation. solve_rd_mono. Qed.

#[global] Program Instance reads_Spec : Reads hSpec PostgresRouteSpec :=
  {| rd h s :=
       b ← rd h (hs_Backend s);
       t ← rd_ptr (A := hTLS) h (hs_TLS s);
       Some (MkSpec (hs_Database s) (hs_TargetDatabase s) b t (hs_Priority s)) |}.
Next Obligation. solve_rd_mono. Qed.

#[global] Program Instance reads_Status : Reads hStatus PostgresRouteStatus :=
  {| rd h s :=
       cs ← rd_slice (A := Condition) h (hst_Conditions s);
       Some (MkStatus (hst_ObservedGeneration s) (hst_Database s) (hst_Endpoint s)
               (hst_ConflictingRoute s) cs) |}.
Next Obligation. solve_rd_mono. Qed.

Context `{!Reads M ObjectMeta} {VL : Type} `{!Reads L VL}.

#[global] Program Instance reads_Route : Reads (hRoute M) (string * string * PostgresRoute) :=
  {| rd h r :=
       m ← rd h (hr_Meta r);
       s ← rd h (hr_Spec r);
       t ← rd h (hr_Status r);
       Some (hr_TypeMeta r, MkRoute m s t) |}.
Next Obligation. solve_rd_mono. Qed.

#[global] Program Instance reads_List : Reads (hList L) (string * string * VL * list (string * string * PostgresRoute)) :=
  {| rd h l :=
       m ← rd h (hl_Meta l);
       rs ← rd_slice (A := hRoute M) h (hl_Items l);
       Some (hl_TypeMeta l, m, rs) |}.
Next Obligation. solve_rd_mono. Qed.
End Reading.

(** ** A logic for copying *)

Section Logic.
Context {M L C : Type} `{Zero M} `{Zero L}.
Abbreviation heap := (gmap loc (obj M L C)).
Abbreviation H := (H M L C).
Abbreviation Cell := (Cell M L C).
Abbreviation Reads := (Reads (M := M) (L := L) (C := C)).

(** From the heap [h] the computation runs to its end, leaves all of [h] as it is, and
    its result satisfies [R] on the new part of the heap alone. *)
Definition yields {A} (h : heap) (m : H A) (R : heap → A → Prop) : Prop :=
  ∃ y h', m h = Some (y, h') ∧ h ⊆ h' ∧ R (h' ∖ h) y.

(** What a [DeepCopyInto] promises: whatever the original denotes, the copy denotes
    the same in the new part of the heap alone, so it shares nothing. *)
Class Copies `{Reads A V} (copy : A → H A) : Prop :=
  copies : ∀ h x v, rd h x = Some v → yields h (copy x) (λ d y, rd d y = Some v).

Lemma new_mono (h h1 h2 : heap) : h1 ⊆ h2 → h1 ∖ h ⊆ h2 ∖ h.
Proof.
  rewrite !map_subseteq_spec. setoid_rewrite lookup_difference_Some. naive_solver.
Qed.

Lemma new_anti (h h1 h2 : heap) : h ⊆ h1 → h2 ∖ h1 ⊆ h2 ∖ h.
Proof.
  rewrite !map_subseteq_spec. setoid_rewrite lookup_difference_Some. intros Hs i x [Hx Hn].
  split; [done|]. destruct (h !! i) eqn:E; [|done]. apply Hs in E. congruence.
Qed.

Lemma yields_ret {A} h (x : A) (R : heap → A → Prop) : R ∅ x → yields h (mret x) R.
Proof. intros HR. exists x, h. split_and!; [done..|]. by rewrite map_difference_diag. Qed.

Lemma yields_bind {A B} h (m : H A) (k : A → H B) (P : heap → A → Prop) (R : heap → B → Prop) :
  yields h m P →
  (∀ h1 y, h ⊆ h1 → P (h1 ∖ h) y → yields h1 (k y) (λ d z, ∀ d', h1 ∖ h ⊆ d' → d ⊆ d' → R d' z)) →
  yields h (m ≫= k) R.
Proof.
  intros (y & h1 & Hm & Hs & HP) Hk. destruct (Hk h1 y Hs HP) as (z & h2 & Hz & Hs2 & HR).
  exists z, h2. split_and!; [|by etrans|].
  - unfold mbind, H_bind. rewrite Hm. done.
  - apply HR; [by apply new_mono|by apply new_anti].
Qed.

Lemma yields_weaken {A} h (m : H A) (P R : heap → A → Prop) :
  yields h m P → (∀ d y, P d y → R d y) → yields h m R.
Proof. intros (y & h' & Hm & Hs & HP) HR. exists y, h'. eauto. Qed.

(** A type without pointers. *)
Lemma copies_plain `{Reads A A} : (∀ h x, rd h x = Some x) → Copies (mret : A → H A).
Proof. intros Hid h x v Hv. apply yields_ret. rewrite Hid in *. done. Qed.

Lemma fresh_not_in (h : heap) : h !! fresh (dom h) = None.
Proof. apply not_elem_of_dom, is_fresh. Qed.

(** A pointer. *)
Lemma copy_ptr_yields `{Cell A} `{Reads A V} (copy : A → H A) `{!Copies copy} h p w :
  rd_ptr h p = Some w → yields h (copy_ptr copy p) (λ d q, rd_ptr d q = Some w).
Proof.
  destruct p as [l|]; [|by intros [= <-]; apply yields_ret].
  rewrite rd_ptr_Some. intros (o & x & v & Ho & Hx & Hv & ->).
  set (q := fresh (dom h)). pose proof (fresh_not_in h) as Hq. fold q in Hq.
  set (h1 := <[q := mk zero]> h). assert (h ⊆ h1) as Hs1 by by apply insert_subseteq.
  destruct (copies h1 x v) as (y & h2 & Hy & Hs2 & Hrd); [by eapply rd_mono|].
  exists (Some q), (<[q := mk y]> h2).
  assert (h2 !! q = Some (mk zero)) as Hq2.
  { eapply lookup_weaken; [|exact Hs2]. apply lookup_insert_eq. }
  assert (h2 ∖ h1 ⊆ <[q := mk y]> h2 ∖ h) as Hnew.
  { apply map_subseteq_spec. intros i a. rewrite !lookup_difference_Some. unfold h1.
    intros [Hi [Hn1 Hn2]%lookup_insert_None]. by rewrite lookup_insert_ne. }
  split_and!.
  - unfold copy_ptr, mbind, H_bind, mret, H_ret, alloc, load, store. fold q h1. cbn.
    rewrite (lookup_weaken h h1 l o) by done. cbn. rewrite Hx. cbn. rewrite Hy. cbn. by rewrite Hq2.
  - apply insert_subseteq_r; [done|by etrans].
  - rewrite rd_ptr_Some. exists (mk y), y, v. split_and!; [|apply un_mk|by eapply rd_mono|done].
    apply lookup_difference_Some. by rewrite lookup_insert_eq.
Qed.

Lemma copy_each_cons `{Cell (list A)} (copy : A → H A) q x xs h h1 y ys z zs :
  copy x h = Some (y, h1) → h1 !! q = Some (mk (ys ++ z :: zs)) →
  copy_each copy q (length ys) (x :: xs) h
  = copy_each copy q (S (length ys)) xs (<[q := mk (ys ++ y :: zs)]> h1).
Proof.
  intros Hy Hq. cbn [copy_each]. unfold mbind, H_bind. rewrite Hy. cbn. unfold load, store.
  rewrite Hq. cbn. rewrite un_mk. cbn. rewrite Hq. cbn. by rewrite insert_app_r_alt, Nat.sub_diag.
Qed.

(** A slice: the loop has done the first elements, the rest of the new array is still
    as [make] left it. *)
Lemma copy_each_run `{Cell (list A)} `{Reads A V} (copy : A → H A) `{!Copies copy} h0 q xs vs :
  h0 !! q = None → mapM (rd h0) xs = Some vs →
  ∀ h ys zs ws, h0 ⊆ delete q h → h !! q = Some (mk (ys ++ zs)) → length zs = length xs →
    mapM (rd (delete q h ∖ h0)) ys = Some ws →
    ∃ h' ys', copy_each copy q (length ys) xs h = Some (tt, h') ∧ h0 ⊆ delete q h' ∧
      h' !! q = Some (mk ys') ∧ mapM (rd (delete q h' ∖ h0)) ys' = Some (ws ++ vs).
Proof.
  intros Hq0. revert vs. induction xs as [|x xs IH]; intros vs.
  { intros [= <-] h ys zs ws Hs Hq Hlen Hw. apply nil_length_inv in Hlen as ->. rewrite app_nil_r in Hq |- *.
    exists h, ys. done. }
  cbn [mapM]. rewrite bind_Some. intros (v & Hv & (vs' & Hvs & [= <-])%bind_Some).
  intros h ys [|z zs] ws Hs Hq Hlen Hw; [done|]. injection Hlen as Hlen.
  destruct (copies h x v) as (y & h1 & Hy & Hs1 & Hrd).
  { eapply rd_mono; [|exact Hv]. etrans; [exact Hs|apply delete_subseteq]. }
  assert (h1 !! q = Some (mk (ys ++ z :: zs))) as Hq1 by by eapply lookup_weaken.
  set (h2 := <[q := mk (ys ++ y :: zs)]> h1).
  assert (delete q h2 = delete q h1) as Hd2 by (unfold h2; by rewrite delete_insert_eq).
  assert (delete q h ⊆ delete q h1) as Hsub by by apply delete_mono.
  destruct (IH vs' Hvs h2 (ys ++ [y]) zs (ws ++ [v])) as (h' & ys' & Hrun & Hs' & Hq' & Hm).
  - rewrite Hd2. by etrans.
  - unfold h2. rewrite lookup_insert_eq. by rewrite <- app_assoc.
  - done.
  - rewrite Hd2. apply mapM_Some, Forall2_app; [|apply Forall2_cons; split; [|constructor]].
    + apply mapM_Some. eapply mapM_rd_mono; [|exact Hw]. by apply new_mono.
    + eapply rd_mono; [|exact Hrd]. apply map_subseteq_spec. intros i a.
      rewrite !lookup_difference_Some. intros [Hi Hn]. split.
      * rewrite lookup_delete_ne; [done|]. intros <-. congruence.
      * destruct (h0 !! i) as [b|] eqn:E; [|done]. 
        pose proof (lookup_weaken _ _ _ _ E Hs) as Hb. apply lookup_delete_Some in Hb as [_ Hb]. congruence.
  - exists h', ys'. split_and!; [|done|done|by rewrite <- app_assoc in Hm].
    by rewrite (copy_each_cons copy q x xs h h1 y ys z zs), <- Hrun, length_app, Nat.add_1_r.
Qed.

Lemma copy_slice_yields `{Cell (list A)} `{Reads A V} (copy : A → H A) `{!Copies copy} z h p vs :
  rd_slice h p = Some vs → yields h (copy_slice z copy p) (λ d q, rd_slice d q = Some vs).
Proof.
  destruct p as [l|]; [|by intros [= <-]; apply yields_ret].
  rewrite rd_slice_Some. intros (o & xs & Ho & Hx & Hm).
  set (q := fresh (dom h)). pose proof (fresh_not_in h) as Hq. fold q in Hq.
  set (h1 := <[q := mk (replicate (length xs) z)]> h).
  assert (delete q h1 = h) as Hd by by apply delete_insert_id.
  destruct (copy_each_run copy h q xs vs Hq Hm h1 [] (replicate (length xs) z) [])
    as (h' & ys & Hrun & Hs & Hq' & Hys); [by rewrite Hd|apply lookup_insert_eq|apply length_replicate|done|].
  exists (Some q), h'. split_and!.
  - unfold copy_slice, mbind, H_bind, mret, H_ret, alloc, load. cbn. rewrite Ho. cbn. rewrite Hx. cbn.
    fold q h1. cbn in Hrun. by rewrite Hrun.
  - etrans; [exact Hs|apply delete_subseteq].
  - rewrite rd_slice_Some. exists (mk ys), ys. split_and!; [|apply un_mk|].
    + by apply lookup_difference_Some.
    + eapply mapM_rd_mono; [|exact Hys]. apply new_mono, delete_subseteq.
Qed.

(** *** The API types *)

#[global] Instance copies_Service : Copies ServiceBackend_DeepCopyInto.
Proof. by apply copies_plain. Qed.
#[global] Instance copies_Address : Copies AddressBackend_DeepCopyInto.
Proof. by apply copies_plain. Qed.
#[global] Instance copies_SecretRef : Copies SecretKeyReference_DeepCopyInto.
Proof. by apply copies_plain. Qed.

(** The step for a field: it still denotes what it did, its copy is made, and at the
    end the copies are read back from the new part of the heap. *)
Ltac grown := first [eassumption|etrans; [eassumption|grown]].
Ltac denotes := first [eapply rd_ptr_mono|eapply rd_slice_mono|eapply rd_mono]; [|eassumption]; grown.
Ltac copy_field lem := eapply yields_bind; [eapply lem; first [eassumption|denotes]|cbn beta; intros ? ? ? ?].
Ltac read_back :=
  apply yields_ret; intros;
  repeat (apply bind_Some; eexists; split; [denotes|]); done.

#[global] Instance copies_Backend : Copies Backend_DeepCopyInto.
Proof.
  intros h i v. cbn [rd reads_Backend]. rewrite bind_Some. intros (s & Hs & (a & Ha & [= <-])%bind_Some).
  copy_field (copy_ptr_yields ServiceBackend_DeepCopyInto).
  copy_field (copy_ptr_yields AddressBackend_DeepCopyInto). read_back.
Qed.

#[global] Instance copies_TLS : Copies BackendTLS_DeepCopyInto.
Proof.
  intros h i v. cbn [rd reads_TLS]. rewrite bind_Some. intros (r & Hr & [= <-]).
  copy_field (copy_ptr_yields SecretKeyReference_DeepCopyInto). read_back.
Qed.

#[global] Instance copies_Spec : Copies PostgresRouteSpec_DeepCopyInto.
Proof.
  intros h i v. cbn [rd reads_Spec]. rewrite bind_Some. intros (b & Hb & (t & Ht & [= <-])%bind_Some).
  copy_field (copies (copy := Backend_DeepCopyInto)).
  copy_field (copy_ptr_yields BackendTLS_DeepCopyInto). read_back.
Qed.

Context `{!Reads M ObjectMeta} {VL : Type} `{!Reads L VL}.
Variable meta_DeepCopyInto : M → H M.
Variable list_meta_DeepCopyInto : L → H L.
Variable condition_DeepCopyInto : Condition → H Condition.
Context `{!Copies meta_DeepCopyInto} `{!Copies list_meta_DeepCopyInto} `{!Copies condition_DeepCopyInto}.

#[global] Instance copies_Status : Copies (PostgresRouteStatus_DeepCopyInto condition_DeepCopyInto).
Proof.
  intros h i v. cbn [rd reads_Status]. rewrite bind_Some. intros (cs & Hc & [= <-]).
  copy_field (copy_slice_yields condition_DeepCopyInto). read_back.
Qed.

#[global] Instance copies_Route :
  Copies (PostgresRoute_DeepCopyInto meta_DeepCopyInto condition_DeepCopyInto).
Proof.
  intros h i v. cbn [rd reads_Route]. rewrite bind_Some.
  intros (m & Hm & (s & Hs & (t & Ht & [= <-])%bind_Some)%bind_Some).
  copy_field (copies (copy := meta_DeepCopyInto)).
  copy_field (copies (copy := PostgresRouteSpec_DeepCopyInto)).
  copy_field (copies (copy := PostgresRouteStatus_DeepCopyInto condition_DeepCopyInto)). read_back.
Qed.

#[global] Instance copies_List :
  Copies (PostgresRouteList_DeepCopyInto meta_DeepCopyInto list_meta_DeepCopyInto condition_DeepCopyInto).
Proof.
  intros h i v. cbn [rd reads_List]. rewrite bind_Some. intros (m & Hm & (rs & Hr & [= <-])%bind_Some).
  copy_field (copies (copy := list_meta_DeepCopyInto)).
  copy_field (copy_slice_yields (PostgresRoute_DeepCopyInto meta_DeepCopyInto condition_DeepCopyInto)).
  read_back.
Qed.

(** *** Copies behind a pointer *)

(** Copying through [copy] what [p] denotes: it succeeds; nil stays nil; the original and
    the copy denote the same; and whatever is then written to objects that are new does
    not show in the original, nor what is written to objects that were there before in
    the copy. *)
Definition isolates {W} (rdp : heap → option loc → option W) (copy : option loc → H (option loc)) : Prop :=
  ∀ h p v, rdp h p = Some v →
  ∃ q h', copy p h = Some (q, h') ∧ (q = None ↔ p = None) ∧ rdp h' p = Some v ∧ rdp h' q = Some v ∧
    (∀ g, (∀ l, l ∈ dom h → g !! l = h !! l) → rdp g p = Some v) ∧
    (∀ g, (∀ l, l ∉ dom h → g !! l = h' !! l) → rdp g q = Some v).

Lemma rd_ptr_nil `{Cell A} `{Reads A V} h p v : rd_ptr h p = Some v → v = None ↔ p = None.
Proof.
  destruct p as [l|]; [|by intros [= <-]]. rewrite rd_ptr_Some. by intros (o & x & w & _ & _ & _ & ->).
Qed.

Lemma copy_ptr_isolates `{Cell A} `{Reads A V} (copy : A → H A) `{!Copies copy} :
  isolates (rd_ptr (A := A)) (copy_ptr copy).
Proof.
  intros h p v Hv. destruct (copy_ptr_yields copy h p v Hv) as (q & h' & Hrun & Hs & Hq).
  exists q, h'. split_and!; [done| |by eapply rd_ptr_mono| | |].
  - rewrite <- (rd_ptr_nil _ _ _ Hq). by apply rd_ptr_nil in Hv.
  - eapply rd_ptr_mono; [|exact Hq]. apply map_subseteq_difference_l. done.
  - intros g Hg. eapply rd_ptr_mono; [|exact Hv]. apply map_subseteq_spec. intros l o Hl.
    rewrite Hg; [done|]. by eapply elem_of_dom_2.
  - intros g Hg. eapply rd_ptr_mono; [|exact Hq]. apply map_subseteq_spec.
    intros l o [Hl Hn]%lookup_difference_Some. rewrite Hg; [done|]. by apply not_elem_of_dom.
Qed.

(** [DeepCopyObject] is [DeepCopy] behind an interface. *)
Lemma object_isolates {W} (rdp : heap → option loc → option W) copy :
  isolates rdp copy →
  isolates rdp (λ i, c ← copy i; mret (if c is Some l then Some l else None)).
Proof.
  intros Hi h p v Hv. destruct (Hi h p v Hv) as (q & h' & Hrun & Hrest). exists q, h'. split; [|done].
  unfold mbind, H_bind. rewrite Hrun. by destruct q.
Qed.

(** C37: a deep copy of an API object shares nothing with its original.  For a route, a
    list of routes, a specification and a status: copying one that has no dangling or
    ill-typed pointer dereferences none and gives such an object again, which denotes
    the same value; from then on each of the two can be changed, conditions and nested
    backends and TLS settings included, without the change showing in the other. *)
Theorem deep_copy_isolated :
  isolates (rd_ptr (A := hRoute M)) (PostgresRoute_DeepCopyObject meta_DeepCopyInto condition_DeepCopyInto) ∧
  isolates (rd_ptr (A := hList L))
    (PostgresRouteList_DeepCopyObject meta_DeepCopyInto list_meta_DeepCopyInto condition_DeepCopyInto) ∧
  isolates (rd_ptr (A := hSpec)) PostgresRouteSpec_DeepCopy ∧
  isolates (rd_ptr (A := hStatus)) (PostgresRouteStatus_DeepCopy condition_DeepCopyInto).
Proof.
  split_and!.
  - apply object_isolates, copy_ptr_isolates. apply _.
  - apply object_isolates, copy_ptr_isolates. apply _.
  - apply copy_ptr_isolates. apply _.
  - apply copy_ptr_isolates. apply _.
Qed.
End Logic.

(** ** A library that keeps labels behind a pointer *)

Section DeepCopyWitness.

(** An [ObjectMeta] whose labels are a map of the heap; a [ListMeta] that is a text. *)
Record labelled_meta := MkLabelled { lm_meta : ObjectMeta; lm_Labels : option loc }.

#[local] Instance zero_labelled : Zero labelled_meta :=
  MkLabelled (MkMeta "" "" "" 0 0 None ∅ ∅ []) None.
#[local] Instance zero_text : Zero string := "".

#[local] Instance cell_labels : Cell labelled_meta string (gmap string string) (gmap string string) :=
  {| mk := OMeta; un o := if o is OMeta x then Some x else None; un_mk _ := eq_refl; zero := ∅ |}.
#[local] Instance reads_labels :
  Reads (M := labelled_meta) (L := string) (C := gmap string string) (gmap string string) (gmap string string) :=
  {| rd _ x := Some x; rd_mono _ _ _ _ _ e := e |}.

Definition with_read_labels (m : ObjectMeta) (labels : option (gmap string string)) : ObjectMeta :=
  MkMeta (Namespace m) (Name m) (UID m) (Generation m) (CreationTimestamp m) (DeletionTimestamp m)
    (default ∅ labels) (Annotations m) (OwnerReferences m).

#[local] Program Instance reads_labelled :
  Reads (M := labelled_meta) (L := string) (C := gmap string string) labelled_meta ObjectMeta :=
  {| rd h m := labels ← rd_ptr (A := gmap string string) h (lm_Labels m);
               Some (with_read_labels (lm_meta m) labels) |}.
Next Obligation.
  intros h h' x v Hs. rewrite !bind_Some. naive_solver eauto using rd_ptr_mono.
Qed.
#[local] Instance reads_text :
  Reads (M := labelled_meta) (L := string) (C := gmap string string) string string :=
  {| rd _ x := Some x; rd_mono _ _ _ _ _ e := e |}.

Definition labelled_DeepCopyInto (m : labelled_meta) :
  H labelled_meta string (gmap string string) labelled_meta :=
  labels ← copy_ptr (A := gmap string string) mret (lm_Labels m);
  mret (MkLabelled (lm_meta m) labels).

#[local] Instance copies_labels :
  Copies (mret : gmap string string → H labelled_meta string (gmap string string) (gmap string string)).
Proof. by apply copies_plain. Qed.

#[local] Instance copies_labelled : Copies labelled_DeepCopyInto.
Proof.
  intros h i v. cbn [rd reads_labelled]. rewrite bind_Some. intros (ls & Hl & [= <-]).
  eapply yields_bind; [eapply (copy_ptr_yields (A := gmap string string) mret), Hl|].
  cbn beta. intros h1 ls' Hs Hl'. apply yields_ret. intros d Hd _. cbn [lm_Labels lm_meta].
  apply bind_Some. eexists. split; [|done]. by eapply rd_ptr_mono.
Qed.

Abbreviation iso := (isolates (M := labelled_meta) (L := string) (C := gmap string string)).

Lemma deep_copy_isolated_witness :
  iso (rd_ptr (A := hRoute labelled_meta)) (PostgresRoute_DeepCopyObject labelled_DeepCopyInto mret) ∧
  iso (rd_ptr (A := hList string)) (PostgresRouteList_DeepCopyObject labelled_DeepCopyInto mret mret) ∧
  iso (rd_ptr (A := hSpec)) PostgresRouteSpec_DeepCopy ∧
  iso (rd_ptr (A := hStatus)) (PostgresRouteStatus_DeepCopy mret).
Proof.
  apply deep_copy_isolated; [apply _|by apply copies_plain|by apply copies_plain].
Defined.

(** A status with a condition, copied; then the condition of the original is changed. *)
Definition sample_condition (status : string) : Condition := MkCondition "Accepted" status 1 0 "Accepted" "".
Definition sample_heap : gmap loc (obj labelled_meta string (gmap string string)) :=
  <[1%positive := OStatus (MkHStatus 1 "db" "" "" (Some 2%positive))]>
  {[2%positive := OConditions [sample_condition "True"]]}.

Example sample_status_copy :
  match PostgresRouteStatus_DeepCopy mret (Some 1%positive) sample_heap with
  | Some (q, h') =>
      let g := <[2%positive := OConditions [sample_condition "False"]]> h' in
      rd_ptr (A := hStatus) g q = Some (Some (MkStatus 1 "db" "" "" [sample_condition "True"])) ∧
      rd_ptr (A := hStatus) g (Some 1%positive)
      = Some (Some (MkStatus 1 "db" "" "" [sample_condition "False"]))
  | None => False
  end.
Proof. by vm_compute. Qed.
End DeepCopyWitness.
