(* ===== verification/Metrics.v ===== *)
(** The metrics of the data plane ([internal/proxy/metrics.go]) as state, what the
    connections of [internal/proxy/session.go] do to it, and that no client can make it
    grow. *)

From stdpp Require Import base list gmap strings pretty.
From Stdlib Require Import ZArith Lia.
From S2P Require Import Prelude GoLib Wire Api Registry Net Cancel Backend Relay Session.

Local Open Scope go_scope.

(** ** The series *)

(** The vectors by their label values; a histogram by its number of observations. *)
Record metrics := MkMetrics {
  connectionsTotal : gmap (string * string) Z;
  activeConnections : gmap string Z;
  bytesTotal : gmap (string * string) Z;
  backendDialDuration : gmap string Z;
  sessionDuration : gmap string Z;
  m_routesGauge : Z;
  cancelRequestsTotal : gmap string Z
}.

Definition no_metrics : metrics := MkMetrics ∅ ∅ ∅ ∅ ∅ 0 ∅.

(** [WithLabelValues(l).Add(x)]: the series appears if it was not there. *)
Definition add_to `{Countable K} (k : K) (x : Z) (m : gmap K Z) : gmap K Z :=
  partial_alter (λ v, Some (default 0 v + x)) k m.

(** The update an event of the trace stands for. *)
Definition observe (m : metrics) (e : event) : metrics :=
  let '(MkMetrics co ac by_ di se ro ca) := m in
  match e with
  | EvConnection d o => MkMetrics (add_to (d, o) 1 co) ac by_ di se ro ca
  | EvActive d x => MkMetrics co (add_to d x ac) by_ di se ro ca
  | EvBytes d dir n => MkMetrics co ac (add_to (d, dir) n by_) di se ro ca
  | EvDialDuration d => MkMetrics co ac by_ (add_to d 1 di) se ro ca
  | EvSessionDuration d => MkMetrics co ac by_ di (add_to d 1 se) ro ca
  | EvCancel o => MkMetrics co ac by_ di se ro (add_to o 1 ca)
  | EvDial _ => m
  end.

(** [SetRouteCount]. *)
Definition SetRouteCount (n : Z) (m : metrics) : metrics :=
  MkMetrics (connectionsTotal m) (activeConnections m) (bytesTotal m) (backendDialDuration m)
    (sessionDuration m) n (cancelRequestsTotal m).

(** The database labels that occur. *)
Definition database_labels (m : metrics) : gset string :=
  set_map fst (dom (connectionsTotal m)) ∪ dom (activeConnections m) ∪
  set_map fst (dom (bytesTotal m)) ∪ dom (backendDialDuration m) ∪ dom (sessionDuration m).

(** The database label of an event. *)
Definition label_of (e : event) : option string :=
  match e with
  | EvConnection d _ | EvActive d _ | EvBytes d _ _ | EvDialDuration d | EvSessionDuration d => Some d
  | EvCancel _ | EvDial _ => None
  end.

Lemma dom_add_to `{Countable K} (k : K) x (m : gmap K Z) : dom (add_to k x m) = {[k]} ∪ dom m.
Proof.
  unfold add_to. apply set_eq. intros i. rewrite elem_of_union, elem_of_singleton, !elem_of_dom.
  destruct (decide (i = k)) as [->|Hne].
  - rewrite lookup_partial_alter_eq. naive_solver.
  - rewrite lookup_partial_alter_ne by done. naive_solver.
Qed.

(** An event adds at most its own label. *)
Lemma observe_labels m e l :
  l ∈ database_labels (observe m e) ↔ l ∈ database_labels m ∨ label_of e = Some l.
Proof.
  destruct m as [co ac by_ di se ro ca]. unfold database_labels.
  destruct e; cbn [observe label_of connectionsTotal activeConnections bytesTotal backendDialDuration
    sessionDuration]; rewrite ?dom_add_to, ?set_map_union_L, ?set_map_singleton_L;
    rewrite ?elem_of_union, ?elem_of_singleton; naive_solver.
Qed.

Lemma observed_labels m ev l :
  l ∈ database_labels (fold_left observe ev m) ↔
  l ∈ database_labels m ∨ ∃ e, e ∈ ev ∧ label_of e = Some l.
Proof.
  revert m. induction ev as [|e ev IH]; intros m; cbn [fold_left]; [set_solver|].
  rewrite IH, observe_labels. set_solver.
Qed.

(** The gauge of a database moves by what the trace says. *)
Lemma observed_active m ev d :
  default 0 (activeConnections (fold_left observe ev m) !! d)
  = default 0 (activeConnections m !! d) + active d ev.
Proof.
  revert m. induction ev as [|e ev IH]; intros m; cbn [fold_left]; [cbn; lia|].
  rewrite IH. destruct m as [co ac by_ di se ro ca], e as [| d' x| | | | |]; cbn -[add_to]; try lia.
  unfold add_to. case_bool_decide as Hd.
  - subst. rewrite lookup_partial_alter_eq. cbn. lia.
  - rewrite lookup_partial_alter_ne by done. lia.
Qed.

(** ** What a handler adds to the trace *)

Definition is_connection (e : event) : bool := match e with EvConnection _ _ => true | _ => false end.

Fixpoint connections (ev : list event) : nat :=
  match ev with
  | [] => 0
  | e :: rest => (if is_connection e then 1 else 0) + connections rest
  end.

Lemma connections_app a b : connections (a ++ b) = (connections a + connections b)%nat.
Proof. induction a as [|e a IH]; cbn; [done|]. rewrite IH. lia. Qed.

Section Emission.
Variable ok : string → Prop.

(** The event has no database label, or one that is [ok]. *)
Definition labelled (e : event) : Prop := ∀ l, label_of e = Some l → ok l.

(** [f] only adds to the trace: events whose labels are [ok], at most [n] of them for
    connections. *)
Class Adds (n : nat) {X} (f : gw X) : Prop :=
  adds : ∀ w x w', f w = Some (x, w') →
    ∃ ev, w_trace w' = w_trace w ++ ev ∧ Forall labelled ev ∧ (connections ev <= n)%nat.

Lemma adds_nothing {X} n (f : gw X) :
  (∀ w x w', f w = Some (x, w') → w_trace w' = w_trace w) → Adds n f.
Proof.
  intros Hf w x w' Hr. exists []. rewrite app_nil_r. split_and!; [by eapply Hf|done|cbn; lia].
Qed.

Lemma adds_bind {X Y} n m k (f : gw X) (g : X → gw Y) :
  Adds n f → (∀ x, Adds m (g x)) → (n + m <= k)%nat → Adds k (f ≫= g).
Proof.
  intros Hf Hg Hk w y w' (x & w1 & Hx & Hy)%bind_some.
  destruct (Hf _ _ _ Hx) as (ev1 & Ht1 & Hl1 & Hc1). destruct (Hg _ _ _ _ Hy) as (ev2 & Ht2 & Hl2 & Hc2).
  exists (ev1 ++ ev2). rewrite Ht2, Ht1, connections_app, app_assoc. split_and!; [done|by apply Forall_app|lia].
Qed.

Lemma adds_emit n e : labelled e → (connections [e] <= n)%nat → Adds n (emit e).
Proof. intros Hl Hn w x w' [= <- <-]. exists [e]. split_and!; [done|by repeat constructor|done]. Qed.

#[global] Instance adds_ret {X} n (x : X) : Adds n (mret x).
Proof. apply adds_nothing. by intros w y w' [= _ <-]. Qed.
#[global] Instance adds_panic {X} n : Adds n (@panic X).
Proof. by intros w x w'. Qed.
#[global] Instance adds_world n : Adds n get_world.
Proof. apply adds_nothing. by intros w x w' [= _ <-]. Qed.
#[global] Instance adds_client {X} n (f : Conn → X * Conn) : Adds n (with_client f).
Proof. apply adds_nothing. intros w x w'. unfold with_client. destruct (f _). by intros [= _ <-]. Qed.
#[global] Instance adds_backend {X} n (f : Conn → X * Conn) : Adds n (with_backend f).
Proof.
  apply adds_nothing. intros w x w'. unfold with_backend. destruct (w_backend w); [|done].
  destruct (f _). by intros [= _ <-].
Qed.
#[global] Instance adds_set_backend n c : Adds n (set_backend c).
Proof. apply adds_nothing. by intros w x w' [= _ <-]. Qed.
#[global] Instance adds_set_cancels n c : Adds n (set_cancels c).
Proof. apply adds_nothing. by intros w x w' [= _ <-]. Qed.
#[global] Instance adds_set_rand n c : Adds n (set_rand c).
Proof. apply adds_nothing. by intros w x w' [= _ <-]. Qed.

(** Following the code: case distinctions, events, and sequences in which nothing or
    only one step counts a connection. *)
Ltac adds_step :=
  first
    [ progress intros
    | solve [apply _]
    | match goal with |- Adds _ (match ?x with _ => _ end) => destruct x end
    | apply adds_emit; [by intros ? [= <-]|cbn; lia] ].
Ltac adds_none := repeat first [adds_step|eapply (adds_bind 0 0 0); [| |lia]].
Ltac adds_one :=
  repeat first
    [ adds_step
    | match goal with |- Adds 1 (emit (EvConnection _ _) ≫= _) =>
        eapply (adds_bind 1 0 1); [adds_step|adds_none|lia] end
    | eapply (adds_bind 0 1 1); [| |lia] ].

#[global] Instance adds_writeFatal n s m d : Adds n (writeFatal s m d).
Proof. eapply (adds_bind 0 0); [apply adds_client|apply _|lia]. Qed.
#[global] Instance adds_issue_key n e : Adds n (issue_key e).
Proof.
  unfold issue_key. eapply (adds_bind 0 0); [apply _| |lia]. adds_none.
Qed.
#[global] Instance adds_release_key n k : Adds n (release_key k).
Proof. unfold release_key. eapply (adds_bind 0 0); [apply _|apply _|lia]. Qed.

Section Session.
Context `{Network} `{UnicodeTables}.
Variable label : string.
Hypothesis Hlabel : ok label.

Lemma adds_relay route : Adds 0 (relay route label).
Proof.
  assert (Adds 0 (spliceToClient label)) as Hsplice.
  { unfold spliceToClient, copy_to_client. adds_none. }
  assert (∀ st, Adds 0 (frame_message route label st)) as Hframe.
  { intros st. unfold frame_message, next_message, rewrite_message, write_client. adds_none. }
  assert (∀ st, Adds 0 (relay_message route label st)) as Hmsg.
  { intros st. unfold relay_message. adds_none. }
  assert (∀ fuel st, Adds 0 (relay_loop fuel route label st)) as Hloop.
  { induction fuel as [|fuel IH]; intros st; [apply _|]. cbn [relay_loop]. adds_none. }
  unfold relay, relayFromBackend, relayUpstream. adds_none.
Qed.

#[global] Instance adds_forwardCancel timeout request : Adds 0 (forwardCancel timeout request).
Proof. unfold forwardCancel, deadline_backend, write_backend. adds_none. Qed.

Lemma adds_dial timeout route : ok (r_Database route) → Adds 0 (dialBackend timeout route).
Proof. intros Hr. unfold dialBackend, deadline_backend. adds_none. Qed.

Lemma adds_proxy route database startup :
  databaseLabel database true = label → Adds 1 (proxy_session route database startup).
Proof.
  intros Hl. unfold proxy_session. rewrite Hl. pose proof (adds_relay route) as Hrelay.
  unfold write_backend, deadline_client, deadline_backend. adds_one.
Qed.
End Session.

Section Handle.
Context `{Network} `{UnicodeTables}.
Variable cfg : Config.
Hypothesis Hunrouted : ok unrouted.

(** The names the routing table serves, and the names its entries carry. *)
Hypothesis Htable : ∀ store table database route,
  cfg_Routes cfg = Some store → Routes store = Some table → Lookup table database = Some route →
  ok database ∧ ok (r_Database route).

#[global] Instance adds_negotiate n encrypted : Adds 0 (negotiate_loop cfg n encrypted).
Proof.
  revert encrypted. induction n as [|n IH]; intros encrypted; cbn [negotiate_loop]; [apply _|].
  unfold read_startup, accept_tls, write_client. adds_none.
Qed.

Lemma adds_startup startup : Adds 1 (handle_startup cfg startup).
Proof.
  unfold handle_startup. destruct (requested_database startup) as [database []]; cbn [negb orb].
  2: adds_one.
  destruct (bool_decide (database = "")); [adds_one|].
  destruct (cfg_Routes cfg) as [store|] eqn:Es; [|apply _].
  destruct (Routes store) as [table|] eqn:Et; [|apply _].
  destruct (Lookup table database) as [route|] eqn:El; [|adds_one].
  destruct (Htable _ _ _ _ eq_refl Et El) as [Hdb Hr]. cbn [databaseLabel negb].
  pose proof (adds_dial (DialTimeout cfg) route Hr) as Hdial.
  pose proof (adds_proxy database Hdb route database startup eq_refl) as Hproxy.
  eapply (adds_bind 0 1 1); [exact Hdial| |lia]. intros [err|]; [adds_one|].
  eapply (adds_bind 1 0 1); [exact Hproxy|adds_none|lia].
Qed.

#[global] Instance adds_handle : Adds 1 (handle cfg).
Proof.
  unfold handle, deadline_client, negotiate. pose proof adds_startup as Hs.
  eapply (adds_bind 0 1 1); [apply _| |lia]. intros [err|]; [adds_one|].
  eapply (adds_bind 0 1 1); [apply _| |lia]. intros [startup|err].
  - destruct (IsCancelRequest startup); [adds_one|apply Hs].
  - eapply (adds_bind 1 0 1); [destruct (isBenignClose err); adds_one|adds_none|lia].
Qed.

Lemma adds_serve conn g : Adds 1 (serve cfg conn g).
Proof.
  unfold serve. destruct (acquireSlot _) as [[] g2]; cbn [negb]; [|adds_one].
  eapply (adds_bind 1 0 1); [apply _|adds_none|lia].
Qed.
End Handle.
End Emission.

(** ** Bounded metrics *)

(** Updates commute, so only which updates were made matters, not their order. *)
Lemma add_to_comm `{Countable K} (k k' : K) x x' (m : gmap K Z) :
  add_to k x (add_to k' x' m) = add_to k' x' (add_to k x m).
Proof.
  unfold add_to. destruct (decide (k = k')) as [->|Hne];
    [|by apply partial_alter_partial_alter_ne].
  rewrite !partial_alter_partial_alter_eq. apply partial_alter_ext. intros v _. cbn. f_equal. lia.
Qed.

Lemma observe_comm m a b : observe (observe m a) b = observe (observe m b) a.
Proof.
  destruct m as [co ac by_ di se ro ca], a, b; cbn -[add_to]; try done; f_equal; apply add_to_comm.
Qed.

Lemma observe_perm ev ev' m : ev ≡ₚ ev' → fold_left observe ev m = fold_left observe ev' m.
Proof.
  intros Hp. revert m. induction Hp as [|e l l' _ IH|a b l|l1 l2 l3 _ IH1 _ IH2]; intros m; cbn.
  - done.
  - apply IH.
  - by rewrite observe_comm.
  - by rewrite IH1.
Qed.

Section Traffic.
Context `{Network} `{UnicodeTables} `{Resolver}.

(** [n] connections served, each by a table built from routes whose database names are
    among [known], and the trace they leave altogether. *)
Inductive traffic (known : gset string) : nat → list event → Prop :=
| traffic_none : traffic known 0 []
| traffic_one n t ctx rs cd cfg store conn g w g' w' :
    traffic known n t → w_trace w = t → c_tls (w_client w) = false →
    unique_names rs → (∀ r, r ∈ rs → EffectiveDatabase r ∈ known) →
    cfg_Routes cfg = Some store → Routes store = sn_Table (Build ctx rs cd) →
    serve cfg conn g w = Some (g', w') →
    traffic known (S n) (w_trace w').

Lemma Build_names ctx rs cd table database route :
  unique_names rs → sn_Table (Build ctx rs cd) = Some table → Lookup table database = Some route →
  (∃ r, r ∈ rs ∧ EffectiveDatabase r = database) ∧ r_Database route = database.
Proof.
  intros Hu Ht Hl.
  assert ((t ← sn_Table (Build ctx rs cd); Lookup t database) = Some route) as Hb by by rewrite Ht.
  apply build_table_spec_aux in Hb as (r & [Hr _] & Hd & Hres); [|done].
  apply resolve_ok in Hres as (h & p & tls & _ & _ & ->). eauto.
Qed.

Lemma serve_active cfg conn g w g' w' d :
  c_tls (w_client w) = false → serve cfg conn g w = Some (g', w') →
  active d (w_trace w') = active d (w_trace w).
Proof.
  intros Htls. unfold serve. destruct (acquireSlot _) as [[] g2]; cbn [negb].
  - intros (r & w1 & Hh & Hrest)%bind_some. apply handle_run in Hh as [(_ & Ha & _) _]; [|done].
    rewrite <- Ha. destruct (releaseSlot g2); [|done]. revert Hrest. run. by intros [= _ <-].
  - intros (? & w1 & [= _ <-] & Hrest)%bind_some. apply bind_some in Hrest as (? & w2 & Hf & Hrest).
    revert Hf. match goal with |- writeFatal ?s ?m ?dt ?v = _ → _ =>
      destruct (writeFatal_run s m dt v) as (c' & k & -> & _) end. intros [= _ <-].
    revert Hrest. run. intros [= _ <-]. cbn. rewrite active_app. cbn. lia.
Qed.

Lemma traffic_inv known n t :
  traffic known n t →
  Forall (labelled (λ l, l ∈ {[unrouted]} ∪ known)) t ∧ (connections t <= n)%nat ∧ ∀ d, active d t = 0.
Proof.
  induction 1 as [|n t ctx rs cd cfg store conn g w g' w' _ (Hl & Hc & Ha) Hw Htls Hu Hk Hst Ht Hserve].
  { split_and!; [constructor|cbn; lia|done]. }
  destruct (adds_serve (λ l, l ∈ {[unrouted]} ∪ known) cfg) with (conn := conn) (g := g) (w := w) (x := g') (w' := w')
    as (ev & Htr & Hev & Hn); [set_solver| |done|].
  - intros store' table db route Hs' Ht' Hlk. assert (store' = store) as -> by congruence.
    rewrite Ht in Ht'. destruct (Build_names _ _ _ _ _ _ Hu Ht' Hlk) as [(r & Hr & <-) ->].
    split; apply elem_of_union_r, Hk, Hr.
  - split_and!.
    + rewrite Htr, Hw. by apply Forall_app.
    + rewrite Htr, connections_app, Hw. lia.
    + intros d. rewrite (serve_active _ _ _ _ _ _ d Htls Hserve), Hw. apply Ha.
Qed.

Lemma connections_perm ev ev' : ev ≡ₚ ev' → connections ev = connections ev'.
Proof. induction 1; cbn; lia. Qed.

(** C34: no client can make the metrics grow.  However many connections have been
    served, whatever they sent, and in whatever order their updates were made: every
    database label is a name of a known route or the one label for everything else, so
    there are at most one more of them than known names; each connection is counted at
    most once; and with every connection over, every gauge of active connections is
    back at zero. *)
Theorem metrics_bounded known n t ev :
  traffic known n t → ev ≡ₚ t →
  let m := fold_left observe ev no_metrics in
  database_labels m ⊆ {[unrouted]} ∪ known ∧ (size (database_labels m) <= S (size known))%nat ∧
  (connections ev <= n)%nat ∧ ∀ d, default 0 (activeConnections m !! d) = 0.
Proof.
  intros (Hl & Hc & Ha)%traffic_inv Hp. rewrite (observe_perm ev t _ Hp), (connections_perm _ _ Hp).
  cbn zeta. assert (database_labels (fold_left observe t no_metrics) ⊆ {[unrouted]} ∪ known) as Hsub.
  { intros l [Hno|(e & He & Hle)]%observed_labels; [by vm_compute in Hno|].
    rewrite Forall_forall in Hl. by apply (Hl e). }
  split_and!; [done| |done|].
  - apply subseteq_size in Hsub. rewrite size_union_alt, size_singleton in Hsub.
    pose proof (subseteq_size (known ∖ {[unrouted]}) known). set_solver by lia.
  - intros d. by rewrite observed_active, Ha.
Qed.
End Traffic.

(** ** Two connections *)

Section MetricsWitness.
#[local] Existing Instance sample_backends.
#[local] Existing Instance ascii_tables.
#[local] Existing Instance sample_resolver.

Definition served_config (rs : list PostgresRoute) : Config :=
  MkConfig ":5432" (Some (MkStore (Build no_deadline rs "cluster.local"))) None 0 30 5 30 30.

(** The client of [sample_client], after [t]. *)
Definition client_after (t : list event) : world :=
  World (w_client sample_client) None ∅ sample_draws None t.

Definition trace_of (r : option (gate * world)) : list event :=
  match r with Some (_, w) => w_trace w | None => [] end.

(** The database is served the first time, and its route gone the second. *)
Definition first_trace : list event :=
  trace_of (serve (served_config [by_hand]) 1 (MkGate None ∅) (client_after [])).
Definition second_trace : list event :=
  trace_of (serve (served_config []) 2 (MkGate None ∅) (client_after first_trace)).

Lemma traffic_served known n t rs conn g w g' w' :
  traffic known n t → w_trace w = t → c_tls (w_client w) = false → unique_names rs →
  (∀ r, r ∈ rs → EffectiveDatabase r ∈ known) →
  serve (served_config rs) conn g w = Some (g', w') → traffic known (S n) (w_trace w').
Proof. intros. by eapply (traffic_one known n t no_deadline rs "cluster.local" (served_config rs)). Qed.

Lemma two_connections : traffic {["billing"]} 2 second_trace.
Proof.
  assert (traffic {["billing"]} 1 first_trace) as H1.
  { unfold first_trace. destruct (serve (served_config [by_hand]) 1 _ _) as [[g1 w1]|] eqn:E1;
      [|by vm_compute in E1].
    eapply (traffic_served _ 0 [] [by_hand]); [constructor|..|exact E1]; [done|done| |].
    - apply NoDup_singleton.
    - intros r ->%list_elem_of_singleton. by vm_compute. }
  unfold second_trace. revert H1. generalize first_trace. intros t Ht.
  destruct (serve (served_config []) 2 _ (client_after t)) as [[g2 w2]|] eqn:E2; [|by vm_compute in E2].
  eapply (traffic_served _ 1 t []); [exact Ht|..|exact E2]; [done|done|constructor|set_solver].
Qed.

Lemma metrics_bounded_witness :
  let m := fold_left observe (reverse second_trace) no_metrics in
  connectionsTotal m !! ("billing", outcomeProxied) = Some 1 ∧
  connectionsTotal m !! (unrouted, outcomeNoRoute) = Some 1 ∧
  (size (database_labels m) <= 2)%nat ∧ (connections (reverse second_trace) <= 2)%nat ∧
  default 0 (activeConnections m !! "billing") = 0.
Proof.
  cbn zeta. split; [by vm_compute|]. split; [by vm_compute|].
  destruct (metrics_bounded {["billing"]} 2 second_trace (reverse second_trace) two_connections
              (reverse_Permutation _)) as (_ & Hs & Hc & Ha).
  split; [exact Hs|]. split; [exact Hc|]. apply Ha.
Defined.
End MetricsWitness.
