(* ===== verification/EndToEnd.v ===== *)
(** From the objects of the cluster to the bytes of a connection: the table that the
    rebuild loop has published ([RouteTable]) is the one the sessions route by
    ([Session]), and the routes it is made of may be those that discovery has
    generated for labelled Services ([Discovery]). *)

From stdpp Require Import base list gmap strings pretty relations.
From Stdlib Require Import ZArith Lia.
From Stdlib Require Import Init.Byte.
From S2P Require Import Prelude GoLib Wire Api Registry Resolver Net Cancel Backend Relay Session.
From S2P Require Import RouteTable Staleness RouteStatus Discovery ControlPlane.

Local Open Scope go_scope.

(** ** From the routes to a session *)

Section Serving.
Context `{Network} `{UnicodeTables}.
Variable ctx : context.
Variable cfg : Session.Config.

Lemma unserved_iff `{Resolver} rs cd table db :
  unique_names rs → sn_Table (Build ctx rs cd) = Some table →
  (∀ r rt, owns rs r → EffectiveDatabase r = db → resolveBounded ctx r cd ≠ Ok rt) →
  Lookup table db = None.
Proof.
  intros Hu Ht Hno. destruct (Lookup table db) as [rt|] eqn:El; [|done]. exfalso.
  pose proof (build_table_spec_aux ctx cd rs db rt Hu) as [(r & Ho & Hd & Hr) _].
  { by rewrite Ht. }
  by eapply Hno.
Qed.

Lemma served_iff `{Resolver} rs cd table db r rt :
  unique_names rs → sn_Table (Build ctx rs cd) = Some table →
  owns rs r → EffectiveDatabase r = db → resolveBounded ctx r cd = Ok rt →
  Lookup table db = Some rt.
Proof.
  intros Hu Ht Ho Hd Hr.
  pose proof (build_table_spec_aux ctx cd rs db rt Hu) as [_ Hb]. rewrite Ht in Hb.
  apply Hb. eauto.
Qed.

(** In the cluster [cl], the owner of the database resolves to [rt]. *)
Definition owner_in (cl : cluster) (cd : string) (db : string) (rt : Route) : Prop :=
  ∃ r, owns (cl_routes cl) r ∧ EffectiveDatabase r = db ∧
    @resolveBounded (cl_resolver cl) ctx r cd = Ok rt.

(** In the cluster as it is now. *)
Definition owner_resolves (s : system) (db : string) (rt : Route) : Prop :=
  owner_in (sy_cluster s) (ClusterDomain (sy_builder s)) db rt.

(** A client gets what the cluster says from whose routes the table in force was built. *)
Lemma built_serves cl cd store o p rest e w db :
  Load store = @Build (cl_resolver cl) ctx (cl_routes cl) cd → unique_names (cl_routes cl) →
  cfg_Routes cfg = Some store → asking cfg o p rest e w db →
  (∀ rt c0 ms z tail be, owner_in cl cd db rt →
     willing rt c0 ms z tail be → orderly rest e w ms z tail →
     session_of cfg o p rest e w db rt c0 ms z tail) ∧
  ((∀ rt, ¬ owner_in cl cd db rt) → refusal_of cfg o w db).
Proof.
  intros Hload Hu Hcfg Hask. set (rs := cl_routes _) in *. set (R := cl_resolver _) in *.
  assert (∃ table, Routes store = Some table ∧
            sn_Table (@Build R ctx rs cd) = Some table) as (table & Htab & Hsn).
  { unfold Routes. unfold Load in Hload. rewrite Hload. by eexists. }
  split.
  - intros rt c0 ms z tail be (r & Ho & Hd & Hr) Hw Hord.
    eapply session_run; [done..| |done|done]. by eapply served_iff.
  - intros Hno. eapply refusal_run; [done..|]. eapply unserved_iff; [done..|].
    intros r rt Ho Hd Hr. apply (Hno rt). by exists r.
Qed.

(** C4: what a client gets is what the routes of the cluster say.  Whatever changes of the
    cluster, deliveries and rebuilds came before: once the rebuild loop is at rest and
    its last listing succeeded, a client that asks the gateway for a database gets a
    session with the backend of the route that owns the name, under that route's TLS
    settings and target database, if that route resolves and its backend is willing;
    and if nobody owns the name, or its owner does not resolve, it is told that there
    is no such database, and nobody is dialled. *)
Theorem cluster_serves_client cl n b now list_err s o p rest e w db :
  rtc (sstep ctx) (started ctx cl n b now list_err) s → quiescent s → sy_failed s = false →
  unique_names (cl_routes (sy_cluster s)) →
  cfg_Routes cfg = Some (rt_Store (sy_builder s)) →
  asking cfg o p rest e w db →
  (∀ rt c0 ms z tail be, owner_resolves s db rt →
     willing rt c0 ms z tail be → orderly rest e w ms z tail →
     session_of cfg o p rest e w db rt c0 ms z tail) ∧
  ((∀ rt, ¬ owner_resolves s db rt) → refusal_of cfg o w db).
Proof.
  intros Hrun Hq Hf Hu Hcfg Hask.
  pose proof (converged_run ctx cl n b now list_err s Hrun Hq Hf) as Hload.
  exact (built_serves (sy_cluster s) _ _ o p rest e w db Hload Hu Hcfg Hask).
Qed.

(** C10: and what a client gets is never out of date by more than the debounce and three
    latencies.  At every moment of the rebuild loop on its clock, while routes, Services
    and Secrets come and go and rebuilds are under way, if the last listing succeeded:
    there is a cluster, that of now or that of before a change no older than that, by
    whose routes a client asking for a database is served, with a session at the backend
    of the owner of the name or with the answer that there is no such database. *)
Theorem recent_cluster_serves_client latency cl es b now list_err k o p rest e w db :
  0 <= latency → 0 <= Debounce b → trigger b = false → timer b = None →
  Forall (λ e, now <= e + latency) es →
  rtc (kstep ctx latency) (clock_start ctx cl es b now list_err) k → sy_failed (ck_sys k) = false →
  (∀ cl', recent latency (Debounce b) k cl' → unique_names (cl_routes cl')) →
  cfg_Routes cfg = Some (rt_Store (sy_builder (ck_sys k))) →
  asking cfg o p rest e w db →
  ∃ cl', recent latency (Debounce b) k cl' ∧
    (∀ rt c0 ms z tail be, owner_in cl' (ClusterDomain (sy_builder (ck_sys k))) db rt →
       willing rt c0 ms z tail be → orderly rest e w ms z tail →
       session_of cfg o p rest e w db rt c0 ms z tail) ∧
    ((∀ rt, ¬ owner_in cl' (ClusterDomain (sy_builder (ck_sys k))) db rt) → refusal_of cfg o w db).
Proof.
  intros Hlat HD Htr Ht He Hr Hf Hu Hcfg Hask.
  destruct (staleness_run ctx latency cl es b now list_err k Hlat HD Htr Ht He Hr Hf) as (cl' & Hrec & Hp).
  exists cl'. split; [done|]. eapply built_serves; [exact Hp|by apply Hu|done|done].
Qed.
End Serving.

(** ** From a Service to a session *)

Section Discovered.
Context `{Network} `{UnicodeTables} `{KubeReader} `{KubeMeta} `{ControllerRuntime} `{!ControllerRuntimeOk}.
Context `{X509}.
Variable DatabaseAnnotation : string.
Variable cr : ClientResolver.
Variable ctx : context.
Variable cfg : Session.Config.

Lemma mutate_key svc r r' : mutate DatabaseAnnotation svc r = Ok r' → route_key r' = route_key r.
Proof.
  unfold mutate. destruct (_ && _); [done|]. intros Hs. by apply set_controller in Hs as (_ & _ & _ & -> & _).
Qed.

(** A route as discovery leaves it: labelled, in the clear, and for the database of the
    same name. *)
Definition as_generated (r : PostgresRoute) : Prop :=
  map_get (Labels (Meta r)) ManagedByLabel = ManagedByServiceDiscovery ∧
  TargetDatabase (Spec r) = "" ∧ TLS (Spec r) = None.

(** A reconcile that succeeds publishes the Service, for the first time or again. *)
Lemma Reconcile_published req svc get_route a a' res :
  (∀ k r, a !! k = Some r → route_key r = k) → out_of_scope svc = false →
  (∀ old, a !! generated_key svc = Some old → as_generated old) →
  Discovery.Reconcile DatabaseAnnotation req (Ok svc) get_route a = (a', res, None) → Requeue res = false →
  ∃ g, a' = <[generated_key svc := g]> a ∧ route_key g = generated_key svc ∧
    publishes DatabaseAnnotation svc g ∧ TargetDatabase (Spec g) = "" ∧ TLS (Spec g) = None.
Proof.
  intros Hkeys Hs Hold Hrun Hreq.
  destruct (publish_run _ _ _ _ _ _ _ _ Hs Hrun) as [[_ [[? ?]|?]]|(_ & _ & g & -> & Em)]; [congruence..|].
  exists g. pose proof Em as (Hp & _ & Ht & Htls & _)%mutate_ok. rewrite Ht, Htls, (mutate_key _ _ _ Em).
  destruct (a !! generated_key svc) as [old|] eqn:Eo; cbn [default from_option id].
  - destruct (Hold old eq_refl) as (_ & -> & ->). by rewrite (Hkeys _ _ Eo).
  - by rewrite route_key_empty.
Qed.

(** The route that serves a published Service: its cluster-internal name, and a port it
    declares, in the clear. *)
Definition service_route (svc : Service) (cd : string) (q : Z) : Route :=
  let db := databaseName DatabaseAnnotation svc in
  MkResolved (generated_key svc) db db
    (Name (svc_Meta svc) +:+ "." +:+ Namespace (svc_Meta svc) +:+ ".svc." +:+ cd) q
    (MkTLSConfig BackendTLSDisable None "").

Lemma publishes_database svc g :
  publishes DatabaseAnnotation svc g → databaseName DatabaseAnnotation svc ≠ "" →
  EffectiveDatabase g = databaseName DatabaseAnnotation svc.
Proof.
  intros (_ & _ & Hd & _) Hne. unfold EffectiveDatabase. rewrite Hd. by rewrite bool_decide_eq_false_2.
Qed.

Lemma service_resolves svc g cd q :
  publishes DatabaseAnnotation svc g → databaseName DatabaseAnnotation svc ≠ "" →
  route_key g = generated_key svc → TargetDatabase (Spec g) = "" → TLS (Spec g) = None →
  Namespace (svc_Meta svc) ≠ "" →
  GetService (WithTimeout ctx ResolveTimeout) (MkName (Namespace (svc_Meta svc)) (Name (svc_Meta svc))) = Ok svc →
  denotes svc (port svc) q →
  @resolveBounded (client_resolver cr) ctx g cd = Ok (service_route svc cd q).
Proof.
  intros Hp Hne Hk Ht Htls Hns Hget Hden. pose proof (publishes_database svc g Hp Hne) as Hdb.
  destruct Hp as (_ & _ & _ & _ & Hb). unfold resolveBounded, resolve, resolveBackend, resolveTLS.
  rewrite Hb, Htls. cbn [b_Type b_Service sb_Namespace sb_Name sb_Port ResolveServicePort client_resolver].
  rewrite bool_decide_eq_true_2, bool_decide_eq_false_2 by done.
  assert (client_ResolveServicePort (WithTimeout ctx ResolveTimeout) (Namespace (svc_Meta svc))
            (Name (svc_Meta svc)) (port svc) = Ok q) as ->.
  { apply service_port_spec. exists svc. split_and!; [done..|]. by eapply denotes_declared. }
  cbn [fst snd]. unfold service_route, EffectiveTargetDatabase. by rewrite Ht, Hk, Hdb.
Qed.

Lemma service_unresolved svc g cd rt :
  publishes DatabaseAnnotation svc g → Namespace (svc_Meta svc) ≠ "" →
  GetService (WithTimeout ctx ResolveTimeout) (MkName (Namespace (svc_Meta svc)) (Name (svc_Meta svc))) = Ok svc →
  (∀ q, ¬ denotes svc (port svc) q) → @resolveBounded (client_resolver cr) ctx g cd ≠ Ok rt.
Proof.
  intros (_ & _ & _ & _ & Hb) Hns Hget Hno (h & q & t & Hr & _)%resolve_ok. revert Hr.
  unfold resolveBackend. rewrite Hb. cbn [b_Type b_Service sb_Namespace sb_Name sb_Port].
  rewrite bool_decide_eq_true_2, bool_decide_eq_false_2 by done. cbn [ResolveServicePort client_resolver].
  destruct (client_ResolveServicePort _ _ _ _) as [q'|] eqn:Ep; [|done].
  apply service_port_spec in Ep as (svc' & Hsvc' & Hden & _). rewrite Hget in Hsvc'.
  injection Hsvc' as <-. by destruct (Hno q').
Qed.

(** A generated route that another one outranks does not serve. *)
Lemma generated_shadowed g hand rs cd db rt :
  unique_names rs → g ∈ rs → hand ∈ rs → hand ≠ g →
  EffectiveDatabase g = db → EffectiveDatabase hand = db → Priority (Spec g) < Priority (Spec hand) →
  (t ← sn_Table (@Build (client_resolver cr) ctx rs cd); Lookup t db) = Some rt →
  Source rt ≠ route_key g.
Proof.
  intros Hu Hg Hin Hne Hdg Hdh Hlow Hlk Hsrc.
  apply build_table_spec_aux in Hlk as (r & Ho & _ & Hr); [|done].
  apply resolveBounded_source in Hr. rewrite Hsrc in Hr.
  assert (r = g) as -> by (apply (unique_names_inj _ _ _ Hu); [apply Ho|done..]).
  destruct Ho as [_ Ho]. assert (precedes g hand) as Hlt by (apply Ho; congruence). unfold precedes in Hlt. lia.
Qed.

(** C16: discovery brings a Service to its clients.  When discovery reconciles a Service
    in scope and reports success, where the generated name is free or that of a route
    discovery has made before, and a table is then built from the routes there are: if
    every route of another name that claims the Service's database has a lower priority,
    a client that asks for the database is connected, in the clear, to the Service's
    cluster-internal name at the port its annotation or its ports determine, if the
    Service declares that port, and is refused if it does not; and if a route of another
    name claims the database with a higher priority, or with one above -100 where the
    Service does not ask for a priority, the generated route does not serve it. *)
Theorem discovered_service_served req svc get_route a a' res cd store o p rest e w :
  (∀ k r, a !! k = Some r → route_key r = k) →
  out_of_scope svc = false → (∀ old, a !! generated_key svc = Some old → as_generated old) →
  Namespace (svc_Meta svc) ≠ "" →
  Discovery.Reconcile DatabaseAnnotation req (Ok svc) get_route a = (a', res, None) → Requeue res = false →
  GetService (WithTimeout ctx ResolveTimeout) (MkName (Namespace (svc_Meta svc)) (Name (svc_Meta svc))) = Ok svc →
  cfg_Routes cfg = Some store → Load store = @Build (client_resolver cr) ctx (values a') cd →
  asking cfg o p rest e w (databaseName DatabaseAnnotation svc) →
  ((∀ k r, a !! k = Some r → k ≠ generated_key svc →
      EffectiveDatabase r = databaseName DatabaseAnnotation svc → Priority (Spec r) < priority svc) →
   (∀ q c0 ms z tail be, denotes svc (port svc) q →
      willing (service_route svc cd q) c0 ms z tail be → orderly rest e w ms z tail →
      session_of cfg o p rest e w (databaseName DatabaseAnnotation svc) (service_route svc cd q)
        c0 ms z tail) ∧
   ((∀ q, ¬ denotes svc (port svc) q) → refusal_of cfg o w (databaseName DatabaseAnnotation svc))) ∧
  (∀ k hand table rt, a !! k = Some hand → k ≠ generated_key svc →
     EffectiveDatabase hand = databaseName DatabaseAnnotation svc →
     priority svc < Priority (Spec hand) ∨
       (Annotations (svc_Meta svc) !! PriorityAnnotation = None ∧ -100 < Priority (Spec hand)) →
     Routes store = Some table → Lookup table (databaseName DatabaseAnnotation svc) = Some rt →
     Source rt ≠ generated_key svc).
Proof.
  intros Hkeys Hs Hold Hns Hrec Hreq Hget Hcfg Hload Hask.
  assert (databaseName DatabaseAnnotation svc ≠ "") as Hne by apply Hask.
  destruct (Reconcile_published req svc get_route a a' res Hkeys Hs Hold Hrec Hreq)
    as (g & -> & Hk & Hp & Ht & Htls).
  pose proof (publishes_database svc g Hp Hne) as Hdb.
  assert (Priority (Spec g) = priority svc) as Hprio by apply Hp.
  set (a1 := <[generated_key svc := g]> a) in *.
  assert (unique_names (values a1)) as Hu.
  { apply values_unique. intros k r [[<- <-]|[_ Hr]]%lookup_insert_Some; [done|by apply Hkeys]. }
  assert (Routes store = sn_Table (@Build (client_resolver cr) ctx (values a1) cd)) as Htab
    by by rewrite <- Hload.
  assert (g ∈ values a1) as Hg.
  { apply elem_of_values. exists (generated_key svc). apply lookup_insert_eq. }
  split.
  - intros Hlower.
    assert (owns (values a1) g) as Ho.
    { split; [done|]. intros r (k & [[_ <-]|[Hkn Hr]]%lookup_insert_Some)%elem_of_values Hd Hng; [done|].
      left. rewrite Hprio. eapply Hlower; [done|congruence|congruence]. }
    destruct (sn_Table (@Build _ ctx _ cd)) as [table|] eqn:Esn; [|done]. split.
    + intros q c0 ms z tail be Hden Hw Hord. eapply session_run; [done..| |done|done].
      eapply served_iff; [done..|]. by apply service_resolves.
    + intros Hno. eapply refusal_run; [done..|]. eapply unserved_iff; [done..|].
      intros r rt Hor Hdr. assert (r = g) as -> by (eapply owns_unique; [done..|congruence]).
      by eapply service_unresolved.
  - intros k hand table rt Hhand Hkn Hdh Hhigh Htable Hlk. rewrite <- Hk.
    eapply (generated_shadowed g hand (values a1)); [done|done| | |done|done| |].
    + apply elem_of_values. exists k. by apply lookup_insert_Some; right.
    + intros ->. apply Hkn. rewrite <- Hk. symmetry. by apply Hkeys.
    + rewrite Hprio. destruct Hhigh as [Hhigh|[Hno Hhigh]]; [done|].
      unfold priority. by rewrite Hno.
    + rewrite Htab in Htable. by rewrite Htable.
Qed.
End Discovered.

(** ** Samples *)

#[local] Existing Instance sample_backends.
#[local] Existing Instance ascii_tables.
#[local] Existing Instance sample_kube_meta.
#[local] Existing Instance sample_runtime.
#[local] Existing Instance sample_runtime_ok.

(** The gateway has built its first table and is at rest. *)
Definition sample_cluster : cluster := MkCluster [discovered; by_hand; broken] sample_resolver.
Definition sample_builder : RouteTableBuilder :=
  MkBuilder "cluster.local" DefaultDebounce false None NewStore 0 (Some (1024%nat, [])).
Definition sample_started : system := started no_deadline sample_cluster 0 sample_builder 0 None.
Definition gateway_config (store : Store) : Session.Config :=
  Session.MkConfig ":5432" (Some store) None 1 30 5 30 30.

Lemma sample_asks cfg :
  cfg_TLS cfg = None → asking cfg Declined sample_startup [x51] (ESentinel io_EOF) sample_client "billing".
Proof.
  intros Ht. split_and!; [done..|exact wf_sample_startup|by vm_compute|by split|done|done].
Qed.

Lemma sample_orderly : orderly [x51] (ESentinel io_EOF) sample_client startup_messages ready_idle [x44].
Proof. split; [done|]. split; [apply sample_draws_distinct|]. vm_compute. lia. Qed.

Lemma sample_willing route :
  Mode (r_TLS route) = BackendTLSDisable →
  willing route (sample_conn (session_data startup_messages ready_idle [x44])) startup_messages
    ready_idle [x44] (ESentinel io_EOF).
Proof.
  intros Hm. split_and!; [done| |repeat constructor; by vm_compute|by split|done].
  unfold backend_ready, Enabled. rewrite Hm. by split_and!.
Qed.

Lemma cluster_serves_client_witness :
  session_of (gateway_config (rt_Store (sy_builder sample_started))) Declined sample_startup [x51]
    (ESentinel io_EOF) sample_client "billing" served_by_hand
    (sample_conn (session_data startup_messages ready_idle [x44])) startup_messages ready_idle [x44].
Proof.
  eapply (cluster_serves_client no_deadline (gateway_config (rt_Store (sy_builder sample_started)))
            sample_cluster 0 sample_builder 0 None sample_started Declined sample_startup [x51]
            (ESentinel io_EOF) sample_client "billing").
  - done.
  - done.
  - done.
  - exact sample_unique.
  - done.
  - by apply sample_asks.
  - exists by_hand. split; [exact by_hand_owns|]. split; by vm_compute.
  - by apply sample_willing.
  - exact sample_orderly.
Defined.

(** The route has been removed, and the rebuild that will see it is due. *)
Definition sample_due : clocked :=
  MkClocked
    (MkSystem (MkCluster [] sample_resolver) 0
       (on_trigger 0 (schedule (sy_builder sample_started))) DefaultDebounce false)
    [] None (Some (0, sample_cluster)).

Lemma sample_due_reachable :
  rtc (kstep no_deadline 3) (clock_start no_deadline sample_cluster [] sample_builder 0 None) sample_due.
Proof.
  eapply rtc_l; [apply (k_change _ _ _ (MkCluster [] sample_resolver))|].
  eapply rtc_l; [apply (k_deliver _ _ _ _ _ _ [] 0 [])|].
  eapply rtc_l; [by apply k_trigger|].
  eapply rtc_l; [apply (k_tick _ _ _ _ _ _ DefaultDebounce); [done|]|].
  { split_and!; [done|done|]. intros d [= <-]. cbn. lia. }
  done.
Qed.

Lemma recent_cluster_serves_client_witness :
  let cfg := gateway_config (rt_Store (sy_builder (ck_sys sample_due))) in
  ∃ cl', recent 3 DefaultDebounce sample_due cl' ∧
    (∀ rt c0 ms z tail be, owner_in no_deadline cl' "cluster.local" "billing" rt →
       willing rt c0 ms z tail be → orderly [x51] (ESentinel io_EOF) sample_client ms z tail →
       session_of cfg Declined sample_startup [x51] (ESentinel io_EOF) sample_client "billing" rt c0 ms z tail) ∧
    ((∀ rt, ¬ owner_in no_deadline cl' "cluster.local" "billing" rt) →
       refusal_of cfg Declined sample_client "billing").
Proof.
  intros cfg.
  apply (recent_cluster_serves_client no_deadline cfg 3 sample_cluster [] sample_builder 0 None sample_due
           Declined sample_startup [x51] (ESentinel io_EOF) sample_client "billing");
    try reflexivity; try done.
  - exact sample_due_reachable.
  - intros cl' [-> _]. exact sample_unique.
  - by apply sample_asks.
Defined.

(** A labelled Service that asks to be published as "billing". *)
Definition annotated_service : Service :=
  MkService (MkMeta "apps" "pg" "uid-1" 1 1 None {["postgres" := "true"]}
               {[DefaultDatabaseAnnotation := "billing"]} [])
    [MkServicePort "metrics" 9187; MkServicePort "postgres" 5433].

#[local] Instance sample_x509 : X509 := λ _, true.

#[local] Instance annotated_reader : KubeReader := {|
  GetService _ _ := Ok annotated_service;
  GetSecret _ _ := Err (EExt (ExtError "not found" [] false (Some "NotFound")));
  IsNotFound e := carries_reason e "NotFound"
|}.

(** It has been published before, and an older route of low priority has the name too. *)
Definition published_before : PostgresRoute :=
  match mutate DefaultDatabaseAnnotation annotated_service (empty_route (generated_key annotated_service)) with
  | Ok r => r | Err _ => by_hand
  end.
Definition legacy : PostgresRoute := Registry.sample_route "apps" "legacy" "billing" "billing-rw" (-200) 5.
Definition before_run : api :=
  <[generated_key annotated_service := published_before]> {[route_key legacy := legacy]}.

Definition discovery_run : api * Result * option error :=
  Discovery.Reconcile DefaultDatabaseAnnotation (MkName "apps" "pg") (Ok annotated_service)
    (Ok published_before) before_run.

Definition discovered_store : Store :=
  MkStore (@Build (client_resolver NewClientResolver) no_deadline (values discovery_run.1.1) "cluster.local").

Lemma discovery_run_ok : discovery_run = (discovery_run.1.1, zero_result, None).
Proof.
  assert (discovery_run.2 = None ∧ discovery_run.1.2 = zero_result) as [H1 H2] by by vm_compute.
  destruct discovery_run as [[a res] err]. cbn in *. by subst.
Qed.

Lemma discovered_service_served_witness :
  session_of (gateway_config discovered_store) Declined sample_startup [x51] (ESentinel io_EOF) sample_client
    "billing" (service_route DefaultDatabaseAnnotation annotated_service "cluster.local" 5433)
    (sample_conn (session_data startup_messages ready_idle [x44])) startup_messages ready_idle [x44].
Proof.
  eapply (discovered_service_served DefaultDatabaseAnnotation NewClientResolver no_deadline
            (gateway_config discovered_store) (MkName "apps" "pg") annotated_service (Ok published_before)
            before_run discovery_run.1.1 zero_result "cluster.local" discovered_store Declined sample_startup
            [x51] (ESentinel io_EOF) sample_client).
  - unfold before_run. intros k r [[<- <-]|[_ [<- <-]%lookup_singleton_Some]]%lookup_insert_Some; by vm_compute.
  - by vm_compute.
  - intros old. unfold before_run. rewrite lookup_insert_eq. intros [= <-]. by split_and!; vm_compute.
  - done.
  - exact discovery_run_ok.
  - done.
  - done.
  - done.
  - done.
  - by apply sample_asks.
  - unfold before_run. intros k r [[<- _]|[_ [_ <-]%lookup_singleton_Some]]%lookup_insert_Some Hne; [done|]. intros _. by vm_compute.
  - split; [done|]. by right; left.
  - by apply sample_willing.
  - exact sample_orderly.
Defined.
