(* ===== verification/System.v ===== *)
(** The whole process: the control plane ([ControlPlane]) publishing tables while any
    number of connections negotiate, are routed, dial, relay and cancel, in any order.
    The steps of a connection are the pieces of [handle] ([internal/proxy/session.go])
    between which something shared is read: the table, and the keys. *)

From stdpp Require Import base list gmap strings pretty relations.
From Stdlib Require Import ZArith Lia.
From Stdlib Require Import Init.Byte.
From S2P Require Import Prelude GoLib Wire Api Registry Resolver Net Cancel Backend Relay Interleave.
From S2P Require Import Sessions Session RouteTable RouteStatus ControlPlane.

Local Open Scope go_scope.

(** ** [handle] in pieces *)

Section Pieces.
Context `{Network} `{UnicodeTables}.
Variable cfg : Session.Config.

(** The configuration with what the store holds now. *)
Definition at_store (store : Store) : Session.Config :=
  Session.MkConfig (Session.ListenAddress cfg) (Some store) (cfg_TLS cfg) (MaxConnections cfg)
    (StartupTimeout cfg) (DialTimeout cfg) (Session.ShutdownGracePeriod cfg) (KeepAlivePeriod cfg).

(** Up to the startup packet; [inl] is the end of the connection. *)
Definition greet : gw (option error + StartupPacket) :=
  derr ← deadline_client (Some (StartupTimeout cfg));
  match derr with
  | Some err => mret (inl (Some (Errorf [Lit "setting handshake deadline: "; PW err])))
  | None =>
      res ← negotiate cfg;
      match res with
      | Err err =>
          _ ← (if negb (isBenignClose err)
               then emit (EvConnection unrouted outcomeHandshake) else mret tt);
          mret (inl (Some err))
      | Ok startup => mret (inr startup)
      end
  end.

(** From the startup packet to the connected backend. *)
Definition reach (store : Store) (startup : StartupPacket)
  : gw (option error + Route * string) :=
  let '(database, ok) := requested_database startup in
  if negb ok || bool_decide (database = "") then
    _ ← emit (EvConnection unrouted outcomeHandshake);
    _ ← writeFatal SQLStateProtocolViolation
          "startup message carried neither a database nor a user parameter" "";
    mret (inl (Some (ENew "startup message carried neither a database nor a user parameter")))
  else
    match Routes store with
    | None => panic
    | Some table =>
        match Lookup table database with
        | None =>
            _ ← emit (EvConnection unrouted outcomeNoRoute);
            _ ← writeFatal SQLStateUndefinedDatabase
                  (Sprintf [Lit "database "; PQ database; Lit " does not exist"])
                  "No PostgresRoute in this cluster claims that database name.";
            mret (inl None)
        | Some route =>
            derr ← dialBackend (DialTimeout cfg) route;
            match derr with
            | Some _ =>
                _ ← emit (EvConnection (databaseLabel database true) outcomeBackendFailed);
                _ ← writeFatal SQLStateConnectionFailure
                      (Sprintf [Lit "the gateway could not reach the backend for database ";
                                PQ database])
                      "Check the status of the PostgresRoute and of the backend Service.";
                mret (inl None)
            | None => mret (inr (route, database))
            end
        end
    end.

(** From there to the relay. *)
Definition introduce (route : Route) (database : string) (startup : StartupPacket)
  : gw (option error + unit) :=
  let label := databaseLabel database true in
  '(_, werr) ← write_backend (Encode (startup_for route database startup));
  match werr with
  | Some err =>
      _ ← emit (EvConnection label outcomeBackendFailed);
      mret (inl (Some (Errorf [Lit "forwarding startup packet to backend: "; PW err])))
  | None =>
      cerr ← deadline_client None;
      match cerr with
      | Some err => mret (inl (Some (Errorf [Lit "clearing handshake deadline: "; PW err])))
      | None =>
          berr ← deadline_backend None;
          match berr with
          | Some err => mret (inl (Some (Errorf [Lit "clearing backend deadline: "; PW err])))
          | None =>
              _ ← emit (EvConnection label outcomeProxied);
              _ ← emit (EvActive label 1);
              mret (inr tt)
          end
      end
  end.

(** The deferred calls of a relayed session, and the close of its backend. *)
Definition hang_up : gw unit := with_backend (λ c, (tt, Close c)).
Definition part (label : string) : gw unit :=
  _ ← emit (EvActive label (-1));
  _ ← emit (EvSessionDuration label);
  hang_up.

(** The pieces one after the other. *)
Definition pieces (store : Store) : gw (option error) :=
  r ← greet;
  match r with
  | inl err => mret err
  | inr startup =>
      if IsCancelRequest startup then _ ← forwardCancel (DialTimeout cfg) (Cancel startup); mret None
      else
        r ← reach store startup;
        match r with
        | inl err => mret err
        | inr (route, database) =>
            r ← introduce route database startup;
            match r with
            | inl err => _ ← hang_up; mret err
            | inr _ =>
                err ← relay route (databaseLabel database true);
                _ ← part (databaseLabel database true);
                mret err
            end
        end
  end.

(** [handle] is its pieces, when nothing comes in between. *)
Lemma handle_pieces store w : handle (at_store store) w = pieces store w.
Proof.
  unfold handle, pieces, greet, mbind, gw_bind. destruct (deadline_client _ w) as [[[e|] w1]|]; [done| |done].
  change (negotiate (at_store store)) with (negotiate cfg).
  destruct (negotiate cfg w1) as [[[p|e] w2]|]; [|by destruct (negb (isBenignClose e))|done].
  cbn beta iota. unfold mret, gw_ret. destruct (IsCancelRequest p); [done|].
  unfold handle_startup, reach. destruct (requested_database p) as [db ok].
  cbn [cfg_Routes at_store]. destruct (negb ok || bool_decide (db = "")).
  { unfold mbind, gw_bind, emit. by destruct (writeFatal _ _ _ _) as [[? ?]|]. }
  destruct (Routes store) as [table|]; [|done]. destruct (Lookup table db) as [route|].
  2:{ unfold mbind, gw_bind, emit. by destruct (writeFatal _ _ _ _) as [[? ?]|]. }
  unfold mbind, gw_bind. destruct (dialBackend _ route w2) as [[[e|] w3]|]; [| |done].
  { unfold emit. by destruct (writeFatal _ _ _ _) as [[? ?]|]. }
  unfold proxy_session, introduce, part, hang_up, mbind, gw_bind, mret, gw_ret.
  destruct (write_backend _ w3) as [[[? [e|]] w4]|]; [done| |done].
  destruct (deadline_client _ w4) as [[[e|] w5]|]; [done| |done].
  destruct (deadline_backend _ w5) as [[[e|] w6]|]; [done| |done]. unfold emit.
  by destruct (relay _ _ _) as [[e w7]|].
Qed.
End Pieces.

(** ** What the pieces do to the rest of the world *)

Section PieceLemmas.
Context `{Network} `{UnicodeTables}.
Variable cfg : Session.Config.

(** Nobody was dialled, and the backend is the one there was. *)
Definition local (w w' : world) : Prop :=
  dials (w_trace w') = dials (w_trace w) ∧ w_backend w' = w_backend w.

Lemma answered_local w w' : answered w w' → local w w'.
Proof. by intros (? & _ & ? & _). Qed.

Lemma deadline_client_local t w x w' :
  deadline_client t w = Some (x, w') → local w w' ∧ c_tls (w_client w') = c_tls (w_client w).
Proof.
  unfold deadline_client, with_client. destruct (SetDeadline _ _) as [o c] eqn:E.
  apply SetDeadline_out in E as (_ & Ht & _). by intros [= <- <-].
Qed.

Lemma greet_run w r w' :
  c_tls (w_client w) = false → greet cfg w = Some (r, w') → local w w'.
Proof.
  intros Ht. unfold greet. intros (derr & w0 & Hd & Hrest)%bind_some.
  apply deadline_client_local in Hd as [[Hd0 Hb0] Ht0]. rewrite Ht in Ht0.
  destruct derr as [e|]; [by injection Hrest as <- <-|].
  apply bind_some in Hrest as (res & w1 & Hn & Hrest).
  destruct (negotiate_loop_run cfg maxNegotiationRounds w0 false (eq_sym Ht0)) as (res' & w1' & Hn' & Hneg).
  unfold negotiate in Hn. rewrite Hn' in Hn. injection Hn as -> ->.
  destruct Hneg as ((Hb1 & _ & _ & _ & Ht1) & _).
  assert (local w w1) as [Hdl Hb] by (split; congruence).
  destruct res as [p|e]; [by injection Hrest as <- <-|].
  revert Hrest. unfold mbind, gw_bind. destruct (isBenignClose e); cbn; intros [= <- <-]; [done|].
  split; cbn; [|done]. by rewrite dials_app, app_nil_r.
Qed.

(** The database a packet asks for is served by [route] from [store]. *)
Definition looked_up (store : Store) (startup : StartupPacket) (route : Route) (database : string) : Prop :=
  requested_database startup = (database, true) ∧
  ∃ table, Routes store = Some table ∧ Lookup table database = Some route.

Lemma refuse_local db oc s m d (x : option error + Route * string) w r w' :
  (_ ← emit (EvConnection db oc); _ ← writeFatal s m d; mret x) w = Some (r, w') → r = x ∧ local w w'.
Proof.
  unfold mbind, gw_bind, emit. match goal with |- context [writeFatal s m d ?v] =>
    destruct (writeFatal_run s m d v) as (c' & n & -> & _) end.
  intros [= <- <-]. split; [done|]. apply answered_local, answered_outcome.
Qed.

Lemma reach_run store startup w r w' :
  reach cfg store startup w = Some (r, w') →
  match r with
  | inl _ => dials (w_trace w') = dials (w_trace w) ∨
      ∃ route db, looked_up store startup route db ∧ dials (w_trace w') = dials (w_trace w) ++ [Address route]
  | inr (route, db) => looked_up store startup route db ∧
      dials (w_trace w') = dials (w_trace w) ++ [Address route]
  end.
Proof.
  unfold reach. destruct (requested_database startup) as [db ok] eqn:Ereq.
  destruct (negb ok || bool_decide (db = "")) eqn:Ebad.
  { intros [-> [Hd _]]%refuse_local. by left. }
  apply orb_false_iff in Ebad as [Hok%negb_false_iff _]. subst ok.
  destruct (Routes store) as [table|] eqn:Etab; [|done].
  destruct (Lookup table db) as [route|] eqn:El.
  2:{ intros [-> [Hd _]]%refuse_local. by left. }
  assert (looked_up store startup route db) as Hl by (split; [done|eauto]).
  intros (derr & w1 & Hd & Hrest)%bind_some.
  apply dialBackend_settles in Hd as (_ & _ & _ & _ & Hdl & _).
  destruct derr as [e|]; [|by injection Hrest as <- <-].
  apply refuse_local in Hrest as [-> [Hd2 _]]. right. exists route, db. by rewrite Hd2.
Qed.

Lemma introduce_run route db startup w r w' :
  introduce route db startup w = Some (r, w') →
  dials (w_trace w') = dials (w_trace w) ∧ is_Some (w_backend w').
Proof.
  unfold introduce, write_backend, deadline_backend, with_backend, mbind, gw_bind, mret, gw_ret.
  destruct (w_backend w) as [b|] eqn:Eb; [|done].
  destruct (Write b _) as [[n [e|]] b']; cbn.
  { intros [= <- <-]. cbn. rewrite dials_app, app_nil_r. eauto. }
  unfold deadline_client, with_client. destruct (SetDeadline _ _) as [[e|] c]; cbn; [by intros [= <- <-]; eauto|].
  destruct (SetDeadline _ _) as [[e|] b2]; cbn; intros [= <- <-]; cbn;
    rewrite ?dials_app, ?app_nil_r; eauto.
Qed.

Lemma part_run label w w' : part label w = Some (tt, w') → dials (w_trace w') = dials (w_trace w).
Proof.
  unfold part, hang_up, with_backend, mbind, gw_bind, emit. cbn. destruct (w_backend w); [|done].
  intros [= <-]. cbn. by rewrite !dials_app, !app_nil_r.
Qed.

Lemma hang_up_run w w' : hang_up w = Some (tt, w') → dials (w_trace w') = dials (w_trace w).
Proof. unfold hang_up, with_backend. destruct (w_backend w); [|done]. by intros [= <-]. Qed.

(** The relay dials nobody. *)
Lemma frame_dials route label st w r w' :
  frame_message route label st w = Some (r, w') → dials (w_trace w') = dials (w_trace w).
Proof.
  unfold frame_message, next_message, with_backend, write_client, with_client. run.
  destruct (w_backend w) as [b|]; [|done].
  destruct (Next _) as [[msg|e] mr]; run.
  2:{ destruct (isBenignClose e); intros [= <- <-]; cbn; by rewrite dials_app, app_nil_r. }
  destruct (rewrite_message _ _ _ _) as [[[[out i]|e] w2]|] eqn:ER; [| |done];
    apply rewrite_message_run in ER; [|subst w2; by intros [= <- <-]].
  assert (dials (w_trace w2) = dials (w_trace w)) as <-.
  { by destruct ER as [(_ & _ & _ & ->)|(bk & k & rest & _ & _ & _ & _ & _ & _ & _ & ->)]. }
  destruct (Write _ _) as [[n [e|]] c']; run.
  - destruct (isBenignClose e); intros [= <- <-]; cbn; by rewrite dials_app, app_nil_r.
  - case_bool_decide; intros [= <- <-]; cbn; by rewrite ?dials_app, ?app_nil_r.
Qed.

Lemma istep_dials route label s s' :
  istep route label s s' → dials (w_trace (ss_world s')) = dials (w_trace (ss_world s)).
Proof.
  intros [w u w' u' d Hs|w u w' d d' Hs]; cbn; destruct Hs; cbn; try done;
    rewrite ?dials_app, ?app_nil_r; try done; by eapply frame_dials.
Qed.
End PieceLemmas.

(** ** The process *)

(** Where a connection is: accepted; with its startup packet or cancel request; with
    its backend connected; relaying, as a flight of the gateway; and over, the client
    about to be closed. *)
Inductive place :=
| Greeting (w : world)
| Asking (startup : StartupPacket) (w : world)
| Connected (route : Route) (database : string) (startup : StartupPacket) (w : world)
| Relaying (route : Route) (database : string)
| Over (err : option error) (w : world).

Record whole := MkWhole {
  wh_plane : plane;
  wh_gateway : gateway;
  wh_conns : gmap nat place
}.

(** A connection whose client is closed under it; a relaying one has its client in its
    flight. *)
Definition cut_place (pl : place) : place :=
  match pl with
  | Greeting w => Greeting (cut_world w)
  | Asking s w => Asking s (cut_world w)
  | Connected route database s w => Connected route database s (cut_world w)
  | Relaying route database => Relaying route database
  | Over err w => Over err (cut_world w)
  end.

(** The table the sessions look names up in. *)
Definition wh_store (p : plane) : Store := rt_Store (cp_builder p).

Section Whole.
Context `{Network} `{UnicodeTables} `{KubeReader} `{KubeMeta} `{!KubeMetaOk}.
Variable ctx : context.
Variable cfg : Session.Config.

(** One step of one connection that is being handled. *)
Inductive mstep : whole → whole → Prop :=
| ms_greet p g cs i w r w' :
    cs !! i = Some (Greeting w) → greet cfg w = Some (r, w') →
    mstep (MkWhole p g cs)
      (MkWhole p g (<[i := match r with inl err => Over err w' | inr s => Asking s w' end]> cs))
| ms_cancel p g cs i s w w' :
    cs !! i = Some (Asking s w) → IsCancelRequest s = true →
    forwardCancel (DialTimeout cfg) (Cancel s) (put_cancels (gt_table g) w) = Some (tt, w') →
    mstep (MkWhole p g cs) (MkWhole p g (<[i := Over None w']> cs))
| ms_reach p g cs i s w r w' :
    cs !! i = Some (Asking s w) → IsCancelRequest s = false →
    reach cfg (wh_store p) s w = Some (r, w') →
    mstep (MkWhole p g cs)
      (MkWhole p g (<[i := match r with
                           | inl err => Over err w'
                           | inr (route, database) => Connected route database s w'
                           end]> cs))
| ms_refused p g cs i route database s w err w1 w2 :
    cs !! i = Some (Connected route database s w) →
    introduce route database s w = Some (inl err, w1) → hang_up w1 = Some (tt, w2) →
    mstep (MkWhole p g cs) (MkWhole p g (<[i := Over err w2]> cs))
| ms_relay p g cs i route database s w w' :
    cs !! i = Some (Connected route database s w) →
    introduce route database s w = Some (inr tt, w') →
    mstep (MkWhole p g cs)
      (MkWhole p (MkGateway (gt_table g) (gt_rand g)
                    (<[i := MkFlight route (databaseLabel database true) (unframed w') (begin w')]> (gt_flights g)))
         (<[i := Relaying route database]> cs))
| ms_flight p g cs i f s' :
    gt_flights g !! i = Some f →
    istep (fl_route f) (fl_label f) (enter g (fl_session f)) s' →
    mstep (MkWhole p g cs)
      (MkWhole p (MkGateway (w_cancels (ss_world s')) (w_rand (ss_world s'))
                    (<[i := MkFlight (fl_route f) (fl_label f) (fl_said f) s']> (gt_flights g))) cs)
| ms_end p g cs i f err w' :
    gt_flights g !! i = Some f → finished (fl_session f) = Some err →
    part (fl_label f) (ss_world (fl_session f)) = Some (tt, w') →
    mstep (MkWhole p g cs)
      (MkWhole p (MkGateway (gt_table g) (gt_rand g) (delete i (gt_flights g)))
         (<[i := Over err w']> cs)).

(** A step of the process: of the control plane, of a connection; a connection begins to
    be handled, is done with; the clients in [A] are closed by [drain]. *)
Inductive wstep : whole → whole → Prop :=
| ws_plane p p' g cs : cstep ctx p p' → wstep (MkWhole p g cs) (MkWhole p' g cs)
| ws_accept p g cs i w :
    cs !! i = None → c_tls (w_client w) = false → w_backend w = None → w_trace w = [] →
    wstep (MkWhole p g cs) (MkWhole p g (<[i := Greeting w]> cs))
| ws_moves W W' : mstep W W' → wstep W W'
| ws_leave p g cs i err w :
    cs !! i = Some (Over err w) →
    wstep (MkWhole p g cs) (MkWhole p g (delete i cs))
| ws_cut p g cs A :
    wstep (MkWhole p g cs)
      (MkWhole p (MkGateway (gt_table g) (gt_rand g) (change_at A cut_flight (gt_flights g)))
         (change_at A cut_place cs)).

(** A process that has just started. *)
Definition launch (api : gmap NamespacedName PostgresRoute) (domain : string) (capacity : nat)
  (rand : list bytes) : whole :=
  MkWhole (boot api domain capacity) (idle rand) ∅.

(** ** The invariant *)

(** The rebuild that takes the control plane from [q] to [q'] has published what
    [Build] makes of the cache, with the resolver [R] as the cluster answered it then. *)
Definition published (q q' : plane) (R : Resolver) : Prop :=
  cstep ctx q q' ∧
  Load (wh_store q') = @Build R ctx (values (cp_cache q)) (ClusterDomain (cp_builder q)).

(** At some moment of the run a table was published in which, of the routes then in the
    cache, [route] is what the owner of the database resolved to in that very rebuild. *)
Definition owned_at (p0 p : plane) (route : Route) (database : string) : Prop :=
  ∃ q q' R r, rtc (cstep ctx) p0 q ∧ published q q' R ∧ rtc (cstep ctx) q' p ∧
    owns (values (cp_cache q)) r ∧ EffectiveDatabase r = database ∧
    @resolveBounded R ctx r (ClusterDomain (cp_builder q)) = Ok route.

(** Where the connection [i] is, and whom it has dialled, [S] saying which routes may
    serve which databases. *)
Definition place_ok (S : Route → string → Prop) (flights : gmap nat flight) (i : nat) (pl : place) : Prop :=
  match pl with
  | Greeting w => c_tls (w_client w) = false ∧ dials (w_trace w) = []
  | Asking s w => dials (w_trace w) = []
  | Connected route database s w =>
      S route database ∧ requested_database s = (database, true) ∧ dials (w_trace w) = [Address route]
  | Relaying route database =>
      S route database ∧ ∃ f, flights !! i = Some f ∧ fl_route f = route ∧
        dials (w_trace (ss_world (fl_session f))) = [Address route]
  | Over _ w => ∀ a, a ∈ dials (w_trace w) → ∃ route database, S route database ∧ a = Address route
  end.

Record whole_inv (p0 : plane) (rand : list bytes) (W : whole) : Prop := {
  wi_run : rtc (cstep ctx) p0 (wh_plane W);
  wi_plane : plane_inv (wh_plane W);
  wi_store : ∀ table database route, Routes (wh_store (wh_plane W)) = Some table →
    Lookup table database = Some route → owned_at p0 (wh_plane W) route database;
  wi_gateway : rtc gstep (idle rand) (wh_gateway W);
  wi_keys : ∀ k entry, gt_table (wh_gateway W) !! k = Some entry →
    ∃ route database bk, owned_at p0 (wh_plane W) route database ∧ entry = session_entry route bk;
  wi_flights : ∀ i f, gt_flights (wh_gateway W) !! i = Some f →
    ∃ database, wh_conns W !! i = Some (Relaying (fl_route f) database);
  wi_places : ∀ i pl, wh_conns W !! i = Some pl →
    place_ok (owned_at p0 (wh_plane W)) (gt_flights (wh_gateway W)) i pl
}.

Lemma owned_at_later p0 p p' route database :
  cstep ctx p p' → owned_at p0 p route database → owned_at p0 p' route database.
Proof.
  intros Hs (q & q' & R & r & Hq & Hb & Hp & Hr). exists q, q', R, r.
  split; [done|]. split; [done|]. split; [by eapply rtc_r|done].
Qed.

Lemma place_ok_mono (S S' : Route → string → Prop) flights i pl :
  (∀ route database, S route database → S' route database) →
  place_ok S flights i pl → place_ok S' flights i pl.
Proof. intros Hi. destruct pl; cbn; naive_solver. Qed.

(** The flights of other connections do not matter. *)
Lemma place_ok_flights S flights flights' i pl :
  flights' !! i = flights !! i → place_ok S flights i pl → place_ok S flights' i pl.
Proof. intros Hi. destruct pl; cbn; try done. by rewrite Hi. Qed.

(** A step of the control plane publishes nothing but what [Build] makes of the cache. *)
Lemma cstep_store p p' :
  cstep ctx p p' →
  wh_store p' = wh_store p ∨
  ∃ R, Load (wh_store p') = @Build R ctx (values (cp_cache p)) (ClusterDomain (cp_builder p)).
Proof. destruct 1; try (by left). right. exists R. unfold wh_store. cbn [cp_builder]. by rewrite rebuild_ok. Qed.

Lemma cstep_served p0 p p' :
  rtc (cstep ctx) p0 p → plane_inv p → cstep ctx p p' →
  (∀ table database route, Routes (wh_store p) = Some table → Lookup table database = Some route →
     owned_at p0 p route database) →
  ∀ table database route, Routes (wh_store p') = Some table → Lookup table database = Some route →
    owned_at p0 p' route database.
Proof.
  intros Hrun Hinv Hs Hold table db route Ht Hl. destruct (cstep_store p p' Hs) as [Heq|[R Heq]].
  - rewrite Heq in Ht. eapply owned_at_later; [done|]. by eapply Hold.
  - unfold Load in Heq. unfold Routes in Ht. rewrite Heq in Ht.
    pose proof (@build_table_spec_aux R ctx (ClusterDomain (cp_builder p)) (values (cp_cache p)) db route
      (values_unique _ (inv_cache _ Hinv))) as [(r & Ho & Hd & Hr) _]; [by rewrite Ht|].
    by exists p, p', R, r.
Qed.

(** A connection that is not relaying has no flight. *)
Lemma no_flight p0 rand p g cs i pl :
  whole_inv p0 rand (MkWhole p g cs) → cs !! i = Some pl →
  (∀ route database, pl ≠ Relaying route database) → gt_flights g !! i = None.
Proof.
  intros Hinv Hi Hpl. destruct (gt_flights g !! i) as [f|] eqn:E; [|done].
  destruct (wi_flights _ _ _ Hinv i f E) as [db Hr]. cbn in Hr. destruct (Hpl (fl_route f) db). congruence.
Qed.

(** A step of one connection that no other shares anything with. *)
Lemma whole_inv_place p0 rand p g cs i pl :
  whole_inv p0 rand (MkWhole p g cs) → gt_flights g !! i = None →
  place_ok (owned_at p0 p) (gt_flights g) i pl → whole_inv p0 rand (MkWhole p g (<[i := pl]> cs)).
Proof.
  intros [Hrun Hplane Hst Hg Hk Hf Hp] Hi Hpl. split; try done; cbn in *.
  - intros j f Hj. rewrite lookup_insert_ne; [by apply Hf|]. intros ->. congruence.
  - intros j pl' [[<- <-]|[_ Hj]]%lookup_insert_Some; [done|by apply Hp].
Qed.

(** What a step of a relay does to the keys. *)
Lemma move_keys (S : Route → string → Prop) route label g s s' database :
  S route database →
  (∀ k entry, gt_table g !! k = Some entry →
     ∃ route database bk, S route database ∧ entry = session_entry route bk) →
  istep route label (enter g s) s' →
  ∀ k entry, w_cancels (ss_world s') !! k = Some entry →
    ∃ route database bk, S route database ∧ entry = session_entry route bk.
Proof.
  intros Hroute Hold Hs k entry. apply istep_keys in Hs as (ms & rest & _ & _ & _ & Hs).
  destruct Hs as [[-> _]|[(k' & bk & _ & -> & _)|[-> _]]]; [by apply Hold| |].
  - intros [[_ <-]|[_ Hk]]%lookup_insert_Some; [by exists route, database, bk|by eapply Hold].
  - cbn. unfold after_release. destruct (held _) as [k'|]; [|by apply Hold].
    unfold release. intros [_ Hk]%lookup_delete_Some. by eapply Hold.
Qed.

Lemma whole_inv_move p0 rand p g cs i f s' :
  whole_inv p0 rand (MkWhole p g cs) → gt_flights g !! i = Some f →
  istep (fl_route f) (fl_label f) (enter g (fl_session f)) s' →
  whole_inv p0 rand
    (MkWhole p (MkGateway (w_cancels (ss_world s')) (w_rand (ss_world s'))
                  (<[i := MkFlight (fl_route f) (fl_label f) (fl_said f) s']> (gt_flights g))) cs).
Proof.
  intros [Hrun Hplane Hst Hg Hk Hf Hp] Hi Hs. cbn in *.
  destruct (Hf i f Hi) as [db Hrel]. destruct (Hp i _ Hrel) as (Hown & f0 & Hi0 & _ & Hd).
  rewrite Hi in Hi0. injection Hi0 as <-.
  split; try done; cbn.
  - eapply rtc_r; [done|]. by apply g_move.
  - by eapply move_keys.
  - intros j f' [[<- <-]|[_ Hj]]%lookup_insert_Some; [by exists db|by apply Hf].
  - intros j pl Hj. destruct (decide (j = i)) as [->|Hne].
    + rewrite Hrel in Hj. injection Hj as <-. split; [done|]. eexists. rewrite lookup_insert_eq.
      split_and!; [done..|]. cbn. rewrite (istep_dials _ _ _ _ Hs). done.
    + eapply place_ok_flights; [|by apply Hp]. by rewrite lookup_insert_ne.
Qed.

Lemma whole_inv_relay p0 rand p g cs i route database s w w' :
  whole_inv p0 rand (MkWhole p g cs) → cs !! i = Some (Connected route database s w) →
  introduce route database s w = Some (inr tt, w') →
  whole_inv p0 rand
    (MkWhole p (MkGateway (gt_table g) (gt_rand g)
                  (<[i := MkFlight route (databaseLabel database true) (unframed w') (begin w')]> (gt_flights g)))
       (<[i := Relaying route database]> cs)).
Proof.
  intros Hinv Hi Hs. pose proof (no_flight _ _ _ _ _ _ _ Hinv Hi ltac:(done)) as Hno.
  destruct Hinv as [Hrun Hplane Hst Hg Hk Hf Hp]. cbn in *.
  destruct (Hp i _ Hi) as (Hown & _ & Hd). apply introduce_run in Hs as [Hd' [b Hb]].
  split; try done; cbn.
  - eapply rtc_r; [done|]. unfold unframed. rewrite Hb. by apply g_begin.
  - intros j f [[<- <-]|[Hne Hj]]%lookup_insert_Some; [exists database; by rewrite lookup_insert_eq|].
    rewrite lookup_insert_ne by done. by apply Hf.
  - intros j pl [[<- <-]|[Hne Hj]]%lookup_insert_Some.
    + split; [done|]. eexists. rewrite lookup_insert_eq. split_and!; [done..|]. cbn. congruence.
    + eapply place_ok_flights; [|by apply Hp]. by rewrite lookup_insert_ne.
Qed.

Lemma whole_inv_end p0 rand p g cs i f err w' :
  whole_inv p0 rand (MkWhole p g cs) → gt_flights g !! i = Some f →
  finished (fl_session f) = Some err → part (fl_label f) (ss_world (fl_session f)) = Some (tt, w') →
  whole_inv p0 rand
    (MkWhole p (MkGateway (gt_table g) (gt_rand g) (delete i (gt_flights g))) (<[i := Over err w']> cs)).
Proof.
  intros [Hrun Hplane Hst Hg Hk Hf Hp] Hi Hfin Hpart. cbn in *.
  destruct (Hf i f Hi) as [db Hrel]. destruct (Hp i _ Hrel) as (Hown & f0 & Hi0 & _ & Hd).
  rewrite Hi in Hi0. injection Hi0 as <-. apply part_run in Hpart.
  split; try done; cbn.
  - eapply rtc_r; [done|]. eapply g_end; eauto.
  - intros j f' [Hne Hj]%lookup_delete_Some. rewrite lookup_insert_ne by done. by apply Hf.
  - intros j pl [[<- <-]|[Hne Hj]]%lookup_insert_Some.
    + intros a. rewrite Hpart, Hd. intros ->%list_elem_of_singleton. by exists (fl_route f), db.
    + eapply place_ok_flights; [|by apply Hp]. by rewrite lookup_delete_ne.
Qed.

Lemma whole_inv_plane p0 rand p p' g cs :
  whole_inv p0 rand (MkWhole p g cs) → cstep ctx p p' → whole_inv p0 rand (MkWhole p' g cs).
Proof.
  intros [Hrun Hplane Hst Hg Hk Hf Hp] Hs. cbn in *. split; try done; cbn.
  - by eapply rtc_r.
  - by eapply plane_inv_step.
  - by eapply cstep_served.
  - intros k entry (route & db & bk & Ho & He)%Hk. exists route, db, bk. split; [|done].
    by eapply owned_at_later.
  - intros i pl Hi%Hp. eapply place_ok_mono; [|exact Hi]. intros ? ?. by apply owned_at_later.
Qed.

Lemma cut_place_ok S A flights i pl :
  place_ok S flights i pl →
  place_ok S (change_at A cut_flight flights) i (if bool_decide (i ∈ A) then cut_place pl else pl).
Proof.
  intros Hp. destruct pl; try (by case_bool_decide).
  assert (place_ok S (change_at A cut_flight flights) i (Relaying route database)) as Hr;
    [|by case_bool_decide].
  destruct Hp as (Hs & f & Hf & Hroute & Hd). split; [done|]. rewrite lookup_change_at, Hf. cbn.
  eexists. split; [done|]. by case_bool_decide.
Qed.

Lemma whole_inv_cut p0 rand p g cs A :
  whole_inv p0 rand (MkWhole p g cs) →
  whole_inv p0 rand
    (MkWhole p (MkGateway (gt_table g) (gt_rand g) (change_at A cut_flight (gt_flights g)))
       (change_at A cut_place cs)).
Proof.
  intros [Hrun Hplane Hst Hg Hk Hf Hp]. split; try done; cbn in *.
  - eapply rtc_r; [done|]. apply g_cut.
  - intros i f (f0 & Hi & -> & _)%cut_keys. apply Hf in Hi as [db Hi]. exists db.
    rewrite lookup_change_at, Hi. cbn. by case_bool_decide.
  - intros i pl. rewrite lookup_change_at. destruct (cs !! i) as [pl0|] eqn:E; [|done]. cbn.
    intros [= <-]. by apply cut_place_ok, Hp.
Qed.

(** A cancel request dials the backend of the session whose key it carries. *)
Lemma cancel_dials timeout request w w' :
  forwardCancel timeout request w = Some (tt, w') → dials (w_trace w) = [] →
  ∀ a, a ∈ dials (w_trace w') → ∃ entry, w_cancels w !! request = Some entry ∧ a = backendAddr entry.
Proof.
  intros Hf Hno a. destruct (forwardCancel_run timeout request w) as (w1 & Hf' & _ & _ & Hcase).
  rewrite Hf in Hf'. injection Hf' as <-. unfold lookup_cancel in Hcase.
  destruct (w_cancels w !! request) as [entry|].
  - destruct Hcase as (outcome & -> & _). rewrite dials_app, Hno. cbn.
    intros ->%list_elem_of_singleton. by exists entry.
  - destruct Hcase as [_ ->]. rewrite dials_app, Hno. cbn. by intros ?%elem_of_nil.
Qed.

Lemma whole_inv_mstep p0 rand W W' : whole_inv p0 rand W → mstep W W' → whole_inv p0 rand W'.
Proof.
  intros Hinv Hs. destruct Hs as [p g cs i w r w' Hi Hr
    |p g cs i s w w' Hi Hc Hr|p g cs i s w r w' Hi Hc Hr|p g cs i route db s w err w1 w2 Hi Hr Hh
    |p g cs i route db s w w' Hi Hr|p g cs i f s' Hi Hr|p g cs i f err w' Hi Hfin Hr];
    try (pose proof (no_flight _ _ _ _ _ _ _ Hinv Hi ltac:(done)) as Hno);
    try (pose proof (wi_places _ _ _ Hinv i _ Hi) as Hp; cbn [place_ok] in Hp).
  - destruct Hp as [Ht Hd]. apply greet_run in Hr as [Hd' _]; [|done].
    apply whole_inv_place; [done..|]. destruct r as [err|s]; cbn; rewrite Hd', Hd; [|done].
    by intros a ?%elem_of_nil.
  - apply whole_inv_place; [done..|]. intros a Ha.
    destruct (cancel_dials _ _ _ _ Hr Hp a Ha) as (entry & Hk & ->).
    destruct (wi_keys _ _ _ Hinv _ _ Hk) as (route & db & bk & Ho & ->). by exists route, db.
  - apply reach_run in Hr. apply whole_inv_place; [done..|].
    assert (∀ route db, looked_up (wh_store p) s route db → owned_at p0 p route db) as Hown.
    { intros route db (_ & table & Ht & Hl). by eapply (wi_store _ _ _ Hinv). }
    destruct r as [err|[route db]]; cbn.
    + destruct Hr as [->|(route & db & Hl & ->)]; rewrite Hp; cbn; [by intros a ?%elem_of_nil|].
      intros a ->%list_elem_of_singleton. exists route, db. split; [by apply Hown|done].
    + destruct Hr as [Hl ->]. rewrite Hp. split_and!; [by apply Hown|by destruct Hl|done].
  - destruct Hp as (Ho & _ & Hd). apply introduce_run in Hr as [Hd1 _]. apply hang_up_run in Hh.
    apply whole_inv_place; [done..|]. intros a. cbn. rewrite Hh, Hd1, Hd.
    intros ->%list_elem_of_singleton. by exists route, db.
  - by eapply whole_inv_relay.
  - by eapply whole_inv_move.
  - by eapply whole_inv_end.
Qed.

Lemma whole_inv_step p0 rand W W' : whole_inv p0 rand W → wstep W W' → whole_inv p0 rand W'.
Proof.
  intros Hinv Hs. destruct Hs as [p p' g cs Hs|p g cs i w Hi Ht Hb Htr|W W' Hs|p g cs i err w Hi|p g cs A].
  - by eapply whole_inv_plane.
  - apply whole_inv_place; [done| |by cbn; rewrite Htr].
    destruct (gt_flights g !! i) as [f|] eqn:E; [|done].
    destruct (wi_flights _ _ _ Hinv i f E) as [db Hr]. cbn in Hr. congruence.
  - by eapply whole_inv_mstep.
  - destruct Hinv as [Hrun Hplane Hst Hg Hk Hf Hpl]. split; try done; cbn in *.
    + intros j f Hj. rewrite lookup_delete_ne; [by apply Hf|]. intros ->.
      destruct (Hf _ _ Hj) as [db Hr]. congruence.
    + intros j pl [_ Hj]%lookup_delete_Some. by apply Hpl.
  - by apply whole_inv_cut.
Qed.

Lemma whole_inv_launch api domain capacity rand :
  (∀ k r, api !! k = Some r → route_key r = k) →
  whole_inv (boot api domain capacity) rand (launch api domain capacity rand).
Proof.
  intros Hk. split; cbn; try done; [by apply plane_inv_boot|].
  intros table db route [= <-] Hl. unfold Lookup, NewTable in Hl. cbn in Hl. by rewrite lookup_empty in Hl.
Qed.

Lemma whole_inv_reachable api domain capacity rand W :
  (∀ k r, api !! k = Some r → route_key r = k) →
  rtc wstep (launch api domain capacity rand) W → whole_inv (boot api domain capacity) rand W.
Proof.
  intros Hk. apply (rtc_ind_r (whole_inv (boot api domain capacity) rand)); [by apply whole_inv_launch|].
  intros W1 W2 _ Hs Hi. by eapply whole_inv_step.
Qed.

(** C3: the gateway connects nobody to a place the routes do not name.  Whatever the
    users write, however the control plane and any number of connections interleave,
    and whatever the clients send: every address dialled for a connection, for its own
    session or for a cancel request, is that of a route to which the owner of some
    database resolved, among the routes the cache held at some moment of the run; and a
    connection that relays is connected to the backend that the owner of the database
    it asked for resolved to, and has dialled nothing else. *)
Theorem dials_follow_routes api domain capacity rand W i pl :
  (∀ k r, api !! k = Some r → route_key r = k) →
  rtc wstep (launch api domain capacity rand) W → wh_conns W !! i = Some pl →
  match pl with
  | Greeting w | Asking _ w => dials (w_trace w) = []
  | Connected route database s w =>
      requested_database s = (database, true) ∧ dials (w_trace w) = [Address route] ∧
      owned_at (boot api domain capacity) (wh_plane W) route database
  | Relaying route database =>
      ∃ f, gt_flights (wh_gateway W) !! i = Some f ∧ fl_route f = route ∧
        dials (w_trace (ss_world (fl_session f))) = [Address route] ∧
        owned_at (boot api domain capacity) (wh_plane W) route database
  | Over _ w => ∀ a, a ∈ dials (w_trace w) → ∃ route database,
      owned_at (boot api domain capacity) (wh_plane W) route database ∧ a = Address route
  end.
Proof.
  intros Hk Hr Hi. pose proof (wi_places _ _ _ (whole_inv_reachable _ _ _ _ _ Hk Hr) i pl Hi) as Hp.
  destruct pl; cbn in Hp; naive_solver.
Qed.

(** C13: cancellation reaches the right session in the whole process too: a connection
    whose cancel request carries the key that a relaying connection's client holds
    ends having dialled the backend of that connection, and nobody else, whatever
    happened before and whatever is under way. *)
Theorem cancel_reaches_session api domain capacity rand W i f k j s w :
  (∀ k r, api !! k = Some r → route_key r = k) →
  rtc wstep (launch api domain capacity rand) W →
  gt_flights (wh_gateway W) !! i = Some f → held (fl_session f) = Some k →
  wh_conns W !! j = Some (Asking s w) → IsCancelRequest s = true → Cancel s = k →
  (∃ w', wstep W (MkWhole (wh_plane W) (wh_gateway W) (<[j := Over None w']> (wh_conns W)))) ∧
  (∀ W' err w', wstep W W' → wh_conns W' !! j = Some (Over err w') →
     dials (w_trace w') = [Address (fl_route f)] ∧ wh_gateway W' = wh_gateway W).
Proof.
  intros Hk Hr Hi Hh Hj Hc Hs. destruct (whole_inv_reachable _ _ _ _ _ Hk Hr) as [_ _ _ Hg _ Hf Hp].
  assert (∃ w1, forwardCancel (DialTimeout cfg) k (put_cancels (gt_table (wh_gateway W)) w) = Some (tt, w1) ∧
            dials (w_trace w1) = [Address (fl_route f)]) as (w1 & Hrun & Hd).
  { destruct (gateway_keys_ok _ _ Hg) as [Hown _]. destruct (Hown _ _ Hi) as (ms & _ & Hkey).
    destruct (Hkey k Hh) as (bk & _ & Hbk).
    destruct (forwardCancel_run (DialTimeout cfg) k (put_cancels (gt_table (wh_gateway W)) w)) as (w1 & Hrun & _ & _ & Hcase).
    exists w1. split; [done|]. cbn [w_cancels put_cancels] in Hcase. rewrite Hbk in Hcase.
    destruct Hcase as (outcome & Htr & _). rewrite Htr, dials_app.
    change (w_trace (put_cancels _ w)) with (w_trace w). pose proof (Hp j _ Hj) as Hd.
    cbn [place_ok] in Hd. by rewrite Hd. }
  split.
  - exists w1. destruct W as [p g cs]. cbn in *. eapply ws_moves, ms_cancel; [done..|]. by rewrite Hs.
  - intros W' err w' Hstep Hover. destruct W as [p g cs]. cbn in *.
    inversion Hstep; subst; try match goal with Hm : mstep _ _ |- _ => inversion Hm; subst end;
      cbn in *; try (rewrite Hj in Hover; congruence);
      match goal with
      | Hl : <[?x := _]> _ !! j = Some _ |- _ =>
          destruct (decide (x = j)) as [->|Hne];
            [rewrite lookup_insert_eq in Hl|rewrite lookup_insert_ne in Hl by done; congruence]
      | Hl : delete ?x _ !! j = Some _ |- _ => apply lookup_delete_Some in Hl as [? ?]; congruence
      | Hl : change_at _ _ _ !! j = Some _ |- _ =>
          rewrite lookup_change_at, Hj in Hl; by case_bool_decide
      end; try congruence.
    + injection Hover as <- <-. split; [|done].
      assert (s0 = s ∧ w0 = w) as [-> ->] by (split; congruence). congruence.
    + destruct (Hf j _ ltac:(eassumption)) as [db Hrel]. congruence.
Qed.
End Whole.

(** ** A sample run *)

#[local] Existing Instance sample_backends.
#[local] Existing Instance ascii_tables.
#[local] Existing Instance sample_reader.
#[local] Existing Instance sample_kube_meta.
#[local] Existing Instance sample_kube_meta_ok.

Definition run_api : gmap NamespacedName PostgresRoute := {[route_key by_hand := by_hand]}.

(** The control plane once it has seen the one route and built the table. *)
Definition run_plane : plane :=
  MkPlane run_api ∅ run_api
    (rebuild no_deadline (Ok [by_hand]) sample_resolver
       (MkBuilder "cluster.local" DefaultDebounce false None NewStore 0 (Some (1024%nat, [])))).2
    {[route_key by_hand]} false.

Lemma run_plane_reachable : rtc (cstep no_deadline) (boot run_api "cluster.local" 1024) run_plane.
Proof.
  eapply rtc_l; [apply (cp_deliver _ _ _ _ _ _ _ (route_key by_hand))|].
  eapply rtc_l; [apply (cp_rebuild no_deadline sample_resolver)|].
  match goal with |- rtc _ ?p _ => replace p with run_plane; [done|] end. by vm_compute.
Qed.

Definition after {X} (m : gw X) (w : world) : world :=
  match m w with Some (_, w') => w' | None => w end.

(** A client greets the gateway, is routed, and is introduced to its backend. *)
Definition run_greeted : world := after (greet (sample_config ∅)) sample_client.
Definition run_reached : world := after (reach (sample_config ∅) (wh_store run_plane) sample_startup) run_greeted.
Definition run_introduced : world :=
  after (introduce served_by_hand "billing" sample_startup) run_reached.

Definition run_relaying : whole :=
  MkWhole run_plane
    (MkGateway newCancelRegistry sample_draws
       (<[1%nat := MkFlight served_by_hand "billing" (unframed run_introduced) (begin run_introduced)]> ∅))
    (<[1%nat := Relaying served_by_hand "billing"]>
       (<[1%nat := Connected served_by_hand "billing" sample_startup run_reached]>
          (<[1%nat := Asking sample_startup run_greeted]>
             (<[1%nat := Greeting sample_client]> ∅)))).

Lemma run_relaying_reachable :
  rtc (wstep no_deadline (sample_config ∅)) (launch run_api "cluster.local" 1024 sample_draws) run_relaying.
Proof.
  transitivity (MkWhole run_plane (idle sample_draws) ∅).
  { pose proof run_plane_reachable as Hr. unfold launch. induction Hr as [|p1 p2 p3 Hs _ IH]; [done|].
    eapply rtc_l; [by apply ws_plane|exact IH]. }
  eapply rtc_l; [by apply (ws_accept _ _ _ _ _ 1 sample_client)|].
  eapply rtc_l.
  { apply ws_moves, (ms_greet _ _ _ _ 1 sample_client (inr sample_startup) run_greeted); [done|]. by vm_compute. }
  eapply rtc_l.
  { apply ws_moves, (ms_reach _ _ _ _ 1 sample_startup run_greeted (inr (served_by_hand, "billing")) run_reached);
      [done|done|by vm_compute]. }
  eapply rtc_l.
  { apply ws_moves, (ms_relay _ _ _ _ 1 served_by_hand "billing" sample_startup run_reached run_introduced);
      [done|by vm_compute]. }
  done.
Qed.

Lemma run_api_keys k r : run_api !! k = Some r → route_key r = k.
Proof. unfold run_api. by intros [<- <-]%lookup_singleton_Some. Qed.

Lemma dials_follow_routes_witness :
  ∃ f, gt_flights (wh_gateway run_relaying) !! 1%nat = Some f ∧ fl_route f = served_by_hand ∧
    dials (w_trace (ss_world (fl_session f))) = [Address served_by_hand] ∧
    owned_at no_deadline (boot run_api "cluster.local" 1024) (wh_plane run_relaying) served_by_hand "billing".
Proof.
  apply (dials_follow_routes no_deadline (sample_config ∅) run_api "cluster.local" 1024 sample_draws
           run_relaying 1 (Relaying served_by_hand "billing")).
  - exact run_api_keys.
  - exact run_relaying_reachable.
  - done.
Defined.

Lemma run_moves turns p g g' cs :
  run_gateway turns g = Some g' → rtc (wstep no_deadline (sample_config ∅)) (MkWhole p g cs) (MkWhole p g' cs).
Proof. apply (run_gateway_rtc _ (λ g, MkWhole p g cs)). intros. by apply ws_moves, ms_flight. Qed.

(** The session has come to its key, and another client presents it. *)
Definition run_keyed : gateway :=
  default (wh_gateway run_relaying)
    (run_gateway [(1, false, 0); (1, false, 0)]%nat (wh_gateway run_relaying)).
Definition run_flight : flight :=
  default (MkFlight served_by_hand "billing" (unframed run_introduced) (begin run_introduced)) (gt_flights run_keyed !! 1%nat).
Definition run_key : CancelRequest := default (MkCancelRequest 0 0) (held (fl_session run_flight)).
Definition canceller : world :=
  World (sample_conn (EncodeCancelRequest run_key)) None ∅ sample_draws None [].
Definition run_asked : world := after (greet (sample_config ∅)) canceller.
Definition run_packet : StartupPacket := MkStartupPacket CancelRequestCode [] run_key.

Definition run_cancelling : whole :=
  MkWhole run_plane run_keyed
    (<[2%nat := Asking run_packet run_asked]> (<[2%nat := Greeting canceller]> (wh_conns run_relaying))).

Lemma run_cancelling_reachable :
  rtc (wstep no_deadline (sample_config ∅)) (launch run_api "cluster.local" 1024 sample_draws) run_cancelling.
Proof.
  etrans; [exact run_relaying_reachable|].
  etrans; [apply (run_moves [(1, false, 0); (1, false, 0)]%nat _ _ run_keyed); by vm_compute|].
  eapply rtc_l; [by apply (ws_accept _ _ _ _ _ 2 canceller)|].
  eapply rtc_l.
  { apply ws_moves, (ms_greet _ _ _ _ 2 canceller (inr run_packet) run_asked); [done|]. by vm_compute. }
  done.
Qed.

Lemma cancel_reaches_session_witness :
  (∃ w', wstep no_deadline (sample_config ∅) run_cancelling
     (MkWhole run_plane run_keyed (<[2%nat := Over None w']> (wh_conns run_cancelling)))) ∧
  (∀ W' err w', wstep no_deadline (sample_config ∅) run_cancelling W' →
     wh_conns W' !! 2%nat = Some (Over err w') →
     dials (w_trace w') = [Address (fl_route run_flight)] ∧ wh_gateway W' = run_keyed).
Proof.
  apply (cancel_reaches_session no_deadline (sample_config ∅) run_api "cluster.local" 1024 sample_draws
           run_cancelling 1 run_flight run_key 2 run_packet run_asked).
  - exact run_api_keys.
  - exact run_cancelling_reachable.
  - by vm_compute.
  - by vm_compute.
  - done.
  - by vm_compute.
  - done.
Defined.
