(* ===== verification/Process.v ===== *)
(** The server's bookkeeping and the sessions it is about, as one system: [pstep]
    (the accept loop, slots, tracking and drain of [internal/proxy/server.go]) and
    [wstep] (the control plane and the handled connections) with the steps they take
    together: a connection is handled while it holds its slot, and the end of the grace
    period closes the clients of the sessions that are left. *)

From stdpp Require Import base list gmap strings pretty relations.
From Stdlib Require Import ZArith Lia.
From Stdlib Require Import Init.Byte.
From S2P Require Import Prelude GoLib Wire Api Registry Resolver Net Cancel Backend Relay Interleave.
From S2P Require Import Sessions Session Server RouteTable RouteStatus ControlPlane System.

Local Open Scope go_scope.

Record process := MkProcess {
  po_server : proc;
  po_whole : whole
}.

(** The connections in [handle]. *)
Definition handled (p : proc) : gset nat := dom (filter (λ kv, kv.2 = Handling) (pr_phases p)).

Section Process.
Context `{Network} `{UnicodeTables} `{KubeReader} `{KubeMeta} `{!KubeMetaOk}.
Variable ctx : context.
Variable cfg : Session.Config.

(** A step of a goroutine of the gateway: of the server, when no connection enters or
    leaves [handle] and none is closed; a connection gets its slot and is handed to
    [handle] (a client that [drain] has closed before is closed then too); a connection
    that [handle] is done with gives its slot back; the grace period ends, and the
    tracked clients are closed; [handle] moves. *)
Inductive dstep : process → process → Prop :=
| jt_server p p' W :
    pstep p p' → handled p' = handled p → pr_closed p' = pr_closed p →
    dstep (MkProcess p W) (MkProcess p' W)
| jt_begin st c g g' ps n cl pl gw cs w :
    ps !! c = Some Tracked → acquireSlot g = (true, g') →
    c_tls (w_client w) = false → w_backend w = None → w_trace w = [] →
    (c ∈ cl → ∃ c0, w_client w = cut_off c0) →
    dstep (MkProcess (MkProc st g ps n cl) (MkWhole pl gw cs))
          (MkProcess (MkProc st g' (<[c := Handling]> ps) n cl)
             (MkWhole pl gw (<[c := Greeting w]> cs)))
| jt_end st c g g' ps n cl pl gw cs err w :
    ps !! c = Some Handling → cs !! c = Some (Over err w) → releaseSlot g = Some g' →
    dstep (MkProcess (MkProc st g ps n cl) (MkWhole pl gw cs))
          (MkProcess (MkProc st g' (<[c := Leaving]> ps) n cl) (MkWhole pl gw (delete c cs)))
| jt_grace g ps n cl pl gw cs :
    dstep (MkProcess (MkProc Draining g ps n cl) (MkWhole pl gw cs))
          (MkProcess (MkProc Forced g ps n (activeConn g ∪ cl))
             (MkWhole pl (MkGateway (gt_table gw) (gt_rand gw)
                            (change_at (activeConn g) cut_flight (gt_flights gw)))
                (change_at (activeConn g) cut_place cs)))
| jt_session p W W' : mstep cfg W W' → dstep (MkProcess p W) (MkProcess p W').

(** A step of the process: of the gateway, or of the control plane. *)
Inductive jstep : process → process → Prop :=
| jt_data P P' : dstep P P' → jstep P P'
| jt_plane p pl pl' g cs :
    cstep ctx pl pl' → jstep (MkProcess p (MkWhole pl g cs)) (MkProcess p (MkWhole pl' g cs)).

(** A process that has just started, with at most [limit] connections. *)
Definition power_up (limit : option nat) (api : gmap NamespacedName PostgresRoute) (domain : string)
  (capacity : nat) (rand : list bytes) : process :=
  MkProcess (start (fresh_gate limit)) (launch api domain capacity rand).

(** ** Clients that are closed *)

(** A connection that gives no byte and takes none. *)
Definition dead (c : Conn) : Prop :=
  st_data (c_in c) = [] ∧ (∃ e, c_limit c = Some (0%nat, e)) ∧ c_closed c = true.

(** One on which setting a deadline fails too. *)
Definition refuses (c : Conn) : Prop := dead c ∧ ∃ e rest, c_deadlines c = Refused e :: rest.

Lemma cut_off_refuses c : refuses (cut_off c).
Proof. split; [split_and!; [done|by eexists|done]|by eexists _, _]. Qed.

Lemma Write_dead c b n e c' : Write c b = (n, e, c') → dead c → dead c' ∧ c_deadlines c' = c_deadlines c.
Proof.
  unfold Write. intros HW (Hi & [er Hl] & Hc). rewrite Hl in HW.
  destruct (length b <=? 0)%nat; injection HW as <- <- <-; (split; [split_and!; [done|by eexists|done]|done]).
Qed.

(** The client of a connection, wherever it is. *)
Definition client_of (W : whole) (i : nat) : option Conn :=
  match wh_conns W !! i with
  | Some (Greeting w) | Some (Asking _ w) | Some (Connected _ _ _ w) | Some (Over _ w) => Some (w_client w)
  | Some (Relaying _ _) => (λ f, w_client (ss_world (fl_session f))) <$> gt_flights (wh_gateway W) !! i
  | None => None
  end.

(** The connection [i] has lost its client. *)
Definition severed_at (flights : gmap nat flight) (i : nat) (pl : place) : Prop :=
  match pl with
  | Greeting w | Asking _ w | Connected _ _ _ w => refuses (w_client w)
  | Over _ w => dead (w_client w)
  | Relaying _ _ => ∀ f, flights !! i = Some f → dead (w_client (ss_world (fl_session f)))
  end.
Definition severed (W : whole) (i : nat) : Prop :=
  ∀ pl, wh_conns W !! i = Some pl → severed_at (gt_flights (wh_gateway W)) i pl.

Lemma deadline_refused t w x w' :
  refuses (w_client w) → deadline_client t w = Some (x, w') → is_Some x ∧ dead (w_client w').
Proof.
  intros [Hd (e & rest & Hl)]. unfold deadline_client, with_client, SetDeadline. rewrite Hl.
  intros [= <- <-]. split; [by eexists|]. destruct Hd as (? & ? & ?). by split_and!.
Qed.

Lemma writeFatal_refuses s m d w w' :
  writeFatal s m d w = Some (tt, w') → refuses (w_client w) → refuses (w_client w').
Proof.
  unfold writeFatal, write_client, with_client, mbind, gw_bind.
  destruct (Write (w_client w) _) as [[n e] c'] eqn:EW. intros [= <-] [Hd Hl]. cbn.
  destruct (Write_dead _ _ _ _ _ EW Hd) as [Hd' Hl']. split; [done|]. by rewrite Hl'.
Qed.

Lemma refuse_refuses db oc s m d (x : option error + Route * string) w r w' :
  (_ ← emit (EvConnection db oc); _ ← writeFatal s m d; mret x) w = Some (r, w') →
  refuses (w_client w) → refuses (w_client w').
Proof.
  intros ([] & w1 & [= <-] & Hrest)%bind_some. apply bind_some in Hrest as ([] & w2 & Hw & [= <- <-]).
  intros Hr. by eapply writeFatal_refuses.
Qed.

Lemma reach_refuses store s w r w' :
  reach cfg store s w = Some (r, w') → refuses (w_client w) → refuses (w_client w').
Proof.
  unfold reach. destruct (requested_database s) as [d ok].
  destruct (negb ok || bool_decide (d = "")); [by apply refuse_refuses|].
  destruct (Routes store) as [table|]; [|done]. destruct (Lookup table d) as [rt|]; [|by apply refuse_refuses].
  intros (derr & w1 & Hd & Hrest)%bind_some. apply dialBackend_settles in Hd as (Hcl & _).
  intros Hr. rewrite <- Hcl in Hr. destruct derr; [by eapply refuse_refuses|]. by injection Hrest as <- <-.
Qed.

Lemma introduce_refuses route db s w r w' :
  introduce route db s w = Some (r, w') → refuses (w_client w) →
  dead (w_client w') ∧ ∃ err, r = inl err.
Proof.
  unfold introduce. intros ([n werr] & w1 & Hw & Hrest)%bind_some Hr.
  assert (w_client w1 = w_client w) as Hc.
  { revert Hw. unfold write_backend, with_backend. destruct (w_backend w) as [b|]; [|done].
    destruct (Write b _) as [[? ?] ?]. by intros [= <- <- <-]. }
  rewrite <- Hc in Hr. destruct werr as [e|].
  { injection Hrest as <- <-. split; [by destruct Hr|by eexists]. }
  apply bind_some in Hrest as (cerr & w2 & Hd & Hrest).
  apply deadline_refused in Hd as [[e ->] Hdead]; [|done]. injection Hrest as <- <-. split; [done|by eexists].
Qed.

Lemma frame_dead route label st w r w' :
  frame_message route label st w = Some (r, w') → dead (w_client w) → dead (w_client w').
Proof.
  unfold frame_message, next_message, with_backend, write_client, with_client. run.
  destruct (w_backend w) as [b|]; [|done]. intros Hf Hd. revert Hf.
  destruct (Next _) as [[msg|e] mr]; run.
  2:{ destruct (isBenignClose e); by intros [= <- <-]. }
  destruct (rewrite_message _ _ _ _) as [[[[out i]|e] w2]|] eqn:ER; [| |done];
    apply rewrite_message_run in ER; [|subst w2; by intros [= <- <-]].
  assert (w_client w2 = w_client w) as Hc.
  { by destruct ER as [(_ & _ & _ & ->)|(bk & k & rest & _ & _ & _ & _ & _ & _ & _ & ->)]. }
  rewrite Hc. destruct (Write _ _) as [[n e] c'] eqn:EW. apply Write_dead in EW as [Hd' _]; [|done].
  destruct e as [e|]; run; [destruct (isBenignClose e); by intros [= <- <-]|].
  case_bool_decide; by intros [= <- <-].
Qed.

Lemma istep_dead route label s s' :
  istep route label s s' → dead (w_client (ss_world s)) → dead (w_client (ss_world s')).
Proof.
  intros Hs Hd. destruct Hs as [w u w' u' d Hs|w u w' d d' Hs]; cbn in *.
  - destruct Hs; cbn in *; try done. destruct Hd as (_ & _ & ?). congruence.
  - destruct Hs; cbn in *; try done; try (by eapply frame_dead);
      try (by eapply Write_dead in Hd as [? _]); by destruct Hd as (? & ? & ?); split_and!.
Qed.

Lemma greet_refuses w r w' :
  greet cfg w = Some (r, w') → refuses (w_client w) → dead (w_client w') ∧ ∃ err, r = inl err.
Proof.
  unfold greet. intros (derr & w1 & Hd & Hrest)%bind_some Hr.
  apply deadline_refused in Hd as [[e ->] Hdead]; [|done]. injection Hrest as <- <-. split; [done|by eexists].
Qed.

(** Nothing changes for a connection whose place and relay stay. *)
Lemma severed_same W W' i :
  wh_conns W' !! i = wh_conns W !! i → gt_flights (wh_gateway W') !! i = gt_flights (wh_gateway W) !! i →
  severed W i → severed W' i.
Proof.
  intros Hc Hf Hs pl Hpl. rewrite Hc in Hpl. specialize (Hs pl Hpl). destruct pl; cbn in *; try done. by rewrite Hf.
Qed.

Lemma mstep_severed p0 rand W W' i :
  whole_inv ctx p0 rand W → mstep cfg W W' → severed W i → severed W' i.
Proof.
  intros Hwi Hs Hsev. destruct Hs as [p g cs j w r w' Hj Hr
    |p g cs j s w w' Hj Hc Hr|p g cs j s w r w' Hj Hc Hr|p g cs j route db s w err w1 w2 Hj Hr Hh
    |p g cs j route db s w w' Hj Hr|p g cs j f s' Hj Hr|p g cs j f err w' Hj Hfin Hr];
    (destruct (decide (i = j)) as [->|Hne];
      [|eapply severed_same; [..|exact Hsev]; cbn;
        by rewrite ?lookup_insert_ne, ?lookup_delete_ne by done]);
    intros pl; cbn; rewrite ?lookup_insert_eq; try (specialize (Hsev _ Hj); cbn in Hsev).
  - intros [= <-]. destruct (greet_refuses _ _ _ Hr Hsev) as [Hd [err ->]]. done.
  - intros [= <-]. destruct (forwardCancel_run (DialTimeout cfg) (Cancel s) (put_cancels (gt_table g) w)) as (w1 & Hf & Hcl & _).
    rewrite Hr in Hf. injection Hf as <-. cbn. rewrite Hcl. apply Hsev.
  - intros [= <-]. pose proof (reach_refuses _ _ _ _ _ Hr Hsev) as Hd.
    destruct r as [err|[route db]]; cbn; [apply Hd|done].
  - intros [= <-]. destruct (introduce_refuses _ _ _ _ _ _ Hr Hsev) as [Hd _]. cbn. revert Hh.
    unfold hang_up, with_backend. destruct (w_backend w1); [|done]. by intros [= <-].
  - destruct (introduce_refuses _ _ _ _ _ _ Hr Hsev) as [_ [err ?]]. done.
  - destruct (wi_flights _ _ _ _ Hwi j f Hj) as [db Hrel]. cbn in Hrel. rewrite Hrel.
    intros [= <-]. specialize (Hsev _ Hrel f Hj). cbn. intros f'. rewrite lookup_insert_eq. intros [= <-]. cbn.
    by eapply istep_dead.
  - intros [= <-]. destruct (wi_flights _ _ _ _ Hwi j f Hj) as [db Hrel]. specialize (Hsev _ Hrel f Hj).
    cbn. revert Hr. unfold part, hang_up, with_backend, mbind, gw_bind, emit. cbn.
    destruct (w_backend _); [|done]. by intros [= <-].
Qed.

Lemma severed_client W i conn : severed W i → client_of W i = Some conn → dead conn.
Proof.
  intros Hs. unfold client_of. destruct (wh_conns W !! i) as [pl|] eqn:Ei; [|done].
  specialize (Hs pl Ei). destruct pl; cbn in Hs; try (intros [= <-]; apply Hs).
  intros (f & Hf & ->)%fmap_Some. by apply Hs.
Qed.

(** The end of the grace period severs the tracked connections, and no other is healed. *)
Lemma cut_severed p g cs A B i :
  (i ∈ B → severed (MkWhole p g cs) i) → i ∈ A ∪ B →
  severed (MkWhole p (MkGateway (gt_table g) (gt_rand g) (change_at A cut_flight (gt_flights g)))
             (change_at A cut_place cs)) i.
Proof.
  intros Hold Hi pl. cbn. rewrite lookup_change_at. destruct (cs !! i) as [q|] eqn:Eq; [|done]. cbn.
  intros [= <-]. case_bool_decide as HA.
  - destruct q; cbn; try apply cut_off_refuses. intros f. rewrite lookup_change_at.
    destruct (gt_flights g !! i); [|done]. cbn. rewrite bool_decide_eq_true_2 by done. intros [= <-]. cbn.
    apply cut_off_refuses.
  - specialize (Hold ltac:(set_solver) q Eq). destruct q; cbn in *; try done.
    intros f. rewrite lookup_change_at. destruct (gt_flights g !! i) as [f0|]; [|done]. cbn.
    rewrite bool_decide_eq_false_2 by done. intros [= <-]. by apply Hold.
Qed.

(** ** Both systems at once *)

(** Exactly the connections that hold their slot are being handled. *)
Definition coupled (P : process) : Prop :=
  ∀ c, pr_phases (po_server P) !! c = Some Handling ↔ is_Some (wh_conns (po_whole P) !! c).

Lemma elem_of_handled p c : c ∈ handled p ↔ pr_phases p !! c = Some Handling.
Proof.
  unfold handled. rewrite elem_of_dom. split.
  - intros [ph [Hc Hp]%map_lookup_filter_Some]. cbn in Hp. by subst.
  - intros Hc. exists Handling. by apply map_lookup_filter_Some.
Qed.

Lemma size_handled p : size (handled p) = holding (pr_phases p).
Proof. unfold handled, holding. apply size_dom. Qed.

(** A connection's step leaves the others where they are and its own place taken. *)
Lemma mstep_dom W W' : mstep cfg W W' →
  (∀ i, is_Some (gt_flights (wh_gateway W) !! i) → is_Some (wh_conns W !! i)) →
  dom (wh_conns W') = dom (wh_conns W).
Proof.
  intros Hs Hf. destruct Hs; cbn in *; try done; rewrite dom_insert_L;
    apply subseteq_union_1_L, singleton_subseteq_l, elem_of_dom; eauto.
Qed.

(** What holds in every state of a run. *)
Record process_inv (limit : option nat) (api : gmap NamespacedName PostgresRoute) (domain : string)
  (capacity : nat) (rand : list bytes) (P : process) : Prop := {
  pv_server : rtc pstep (start (fresh_gate limit)) (po_server P);
  pv_whole : rtc (wstep ctx cfg) (launch api domain capacity rand) (po_whole P);
  pv_coupled : coupled P;
  pv_severed : ∀ c, c ∈ pr_closed (po_server P) → severed (po_whole P) c
}.

Section Run.
Variable limit : option nat.
Variable api : gmap NamespacedName PostgresRoute.
Variable domain : string.
Variable capacity : nat.
Variable rand : list bytes.
Hypothesis keyed : ∀ k r, api !! k = Some r → route_key r = k.

Abbreviation inv := (process_inv limit api domain capacity rand).

Lemma process_whole_inv P : inv P → whole_inv ctx (boot api domain capacity) rand (po_whole P).
Proof. intros [_ Hw _ _]. by eapply whole_inv_reachable. Qed.

Lemma coupled_phases p p' W :
  handled p' = handled p → coupled (MkProcess p W) → coupled (MkProcess p' W).
Proof.
  intros Hh Hc c. cbn. rewrite <- (Hc c). cbn. by rewrite <- !elem_of_handled, Hh.
Qed.

Lemma coupled_dom p W W' :
  dom (wh_conns W') = dom (wh_conns W) → coupled (MkProcess p W) → coupled (MkProcess p W').
Proof. intros Hd Hc c. cbn. rewrite (Hc c). cbn. by rewrite <- !elem_of_dom, Hd. Qed.

Lemma dstep_inv P P' : inv P → dstep P P' → inv P'.
Proof.
  intros Hinv Hs. pose proof (process_whole_inv P Hinv) as Hwi. destruct Hinv as [Hp Hw Hc Hsev].
  destruct Hs as [p p' W Hs Hh Hcl|st c g g' ps n cl pl gw cs w Hps Ha Ht Hb Htr Hcut|st c g g' ps n cl pl gw cs err w Hps Hcs Hr
    |g ps n cl pl gw cs|p W W' Hs]; cbn in *.
  - split; cbn; [by eapply rtc_r|done|by eapply coupled_phases|by rewrite Hcl].
  - assert (cs !! c = None) as Hnone.
    { apply eq_None_not_Some. intros Hsome. apply (Hc c) in Hsome. cbn in Hsome. congruence. }
    split; cbn; [eapply rtc_r; [done|by eapply step_acquire]|eapply rtc_r; [done|by apply ws_accept]|..].
    + intros x. cbn. destruct (decide (x = c)) as [->|Hne]; [by rewrite !lookup_insert_eq; eauto|].
      rewrite !lookup_insert_ne by done. apply (Hc x).
    + intros x Hx. destruct (decide (x = c)) as [->|Hne].
      * intros q. cbn. rewrite lookup_insert_eq. intros [= <-]. destruct (Hcut Hx) as [c0 Hc0]. cbn.
        rewrite Hc0. apply cut_off_refuses.
      * eapply severed_same; [..|by apply Hsev]; cbn; [by rewrite lookup_insert_ne|done].
  - split; cbn; [eapply rtc_r; [done|by eapply step_release]|eapply rtc_r; [done|by eapply ws_leave]|..].
    { intros x. cbn. destruct (decide (x = c)) as [->|Hne].
      + rewrite lookup_insert_eq, lookup_delete_eq. split; [done|by intros [? ?]].
      + rewrite lookup_insert_ne, lookup_delete_ne by done. apply (Hc x). }
    intros x Hx q. cbn. intros [_ Hq]%lookup_delete_Some. by apply (Hsev x Hx).
  - split; cbn; [eapply rtc_r; [done|by apply step_grace_over]|eapply rtc_r; [done|by apply ws_cut]|..].
    + intros x. cbn. rewrite (Hc x). cbn. by rewrite lookup_change_at, fmap_is_Some.
    + intros x Hx. apply (cut_severed _ _ _ _ cl); [apply Hsev|done].
  - split; cbn; [done|eapply rtc_r; [done|by apply ws_moves]|..].
    + eapply coupled_dom; [|done]. eapply mstep_dom; [done|]. intros i [f Hf].
      destruct (wi_flights _ _ _ _ Hwi i f Hf) as [db Hr]. by eexists.
    + intros c Hx. by eapply mstep_severed; [| |apply Hsev].
Qed.

Lemma jstep_inv P P' : inv P → jstep P P' → inv P'.
Proof.
  intros Hinv Hs. destruct Hs as [P P' Hs|p pl pl' g cs Hs]; [by eapply dstep_inv|].
  destruct Hinv as [Hp Hw Hc Hsev]. split; cbn in *; [done|eapply rtc_r; [done|by apply ws_plane]|done|done].
Qed.

Lemma process_inv_reachable P : rtc jstep (power_up limit api domain capacity rand) P → inv P.
Proof.
  apply (rtc_ind_r inv).
  - split; cbn; [done|done| |by intros c ?%elem_of_empty].
    intros c. cbn. rewrite lookup_empty. split; [done|by intros [? ?]].
  - intros P1 P2 _ Hs Hi. by eapply jstep_inv.
Qed.

(** The connections [handle] has in hand, and the relays among them. *)
Lemma conns_handled P : coupled P → dom (wh_conns (po_whole P)) = handled (po_server P).
Proof. intros Hc. apply set_eq. intros c. by rewrite elem_of_dom, elem_of_handled, <- (Hc c). Qed.

(** C11: the limit holds for the process as a whole.  Whatever the clients, the users and
    the control plane do, and however accepts, sessions, rebuilds and shutdown
    interleave: the connections that negotiate, dial, are connected or relay are exactly
    those that hold a slot, so there are never more of them, nor more relays or
    connected backends among them, than the configured limit; each of them is in the
    set that a forced shutdown closes; one whose client that shutdown has closed takes no
    byte from it and gives it none, wherever it is; and once [Start] has returned there
    is no connection and no relay and every slot is free.  The process is a run of the
    server and of the sessions at once, so what holds of either holds of it. *)
Theorem process_bounded P :
  rtc jstep (power_up limit api domain capacity rand) P →
  rtc pstep (start (fresh_gate limit)) (po_server P) ∧
  rtc (wstep ctx cfg) (launch api domain capacity rand) (po_whole P) ∧
  dom (gt_flights (wh_gateway (po_whole P))) ⊆ dom (wh_conns (po_whole P)) ∧
  dom (wh_conns (po_whole P)) = handled (po_server P) ∧
  handled (po_server P) ⊆ activeConn (pr_gate (po_server P)) ∧
  (∀ n, limit = Some n → size (wh_conns (po_whole P)) ≤ n)%nat ∧
  (∀ c conn, c ∈ pr_closed (po_server P) → client_of (po_whole P) c = Some conn → dead conn) ∧
  (pr_stage (po_server P) = Stopped →
     wh_conns (po_whole P) = ∅ ∧ gt_flights (wh_gateway (po_whole P)) = ∅ ∧
     pr_gate (po_server P) = fresh_gate limit).
Proof.
  intros Hi%process_inv_reachable. pose proof (process_whole_inv P Hi) as Hwi. destruct Hi as [Hp Hw Hc Hsev].
  assert (dom (gt_flights (wh_gateway (po_whole P))) ⊆ dom (wh_conns (po_whole P))) as Hfl.
  { intros i [f Hf]%elem_of_dom. apply elem_of_dom.
    destruct (wi_flights _ _ _ _ Hwi i f Hf) as [db Hr]. by eexists. }
  pose proof (conns_handled P Hc) as Hd. pose proof (server_inv_reachable _ _ Hp) as (_ & Hl & Ht & _).
  split_and!; try done.
  - intros c Hh%elem_of_handled. apply Ht. by exists Handling.
  - intros n Hn. rewrite <- size_dom, Hd, size_handled. by apply Hl.
  - intros c conn Hx. by apply severed_client, Hsev.
  - intros Hstop. destruct (server_stopped _ _ Hp Hstop) as [Hnone Hgate].
    assert (dom (wh_conns (po_whole P)) = ∅) as Hempty.
    { rewrite Hd. unfold handled. by rewrite Hnone, map_filter_empty, dom_empty_L. }
    split_and!; [by apply dom_empty_inv_L| |done]. apply dom_empty_inv_L. set_solver.
Qed.

(** ** Shutdown *)

(** A connection that is past its dial has a backend. *)
Definition backed_place (pl : place) : Prop :=
  match pl with Connected _ _ _ w => is_Some (w_backend w) | _ => True end.

(** Every connection can go on: there is a table to look names up in, and a backend
    where one is used; and a relay has closed what it is done with. *)
Record backed (W : whole) : Prop := {
  bk_table : is_Some (Routes (wh_store (wh_plane W)));
  bk_places : ∀ i pl, wh_conns W !! i = Some pl → backed_place pl;
  bk_flights : ∀ i f, gt_flights (wh_gateway W) !! i = Some f → is_Some (w_backend (ss_world (fl_session f)));
  bk_closes : ∀ i f, gt_flights (wh_gateway W) !! i = Some f → closes (fl_session f)
}.

Lemma reach_backend store startup w route db w' :
  reach cfg store startup w = Some (inr (route, db), w') → is_Some (w_backend w').
Proof.
  unfold reach. destruct (requested_database startup) as [d ok].
  destruct (negb ok || bool_decide (d = "")); [by intros [? _]%refuse_local|].
  destruct (Routes store) as [table|]; [|done]. destruct (Lookup table d) as [r|];
    [|by intros [? _]%refuse_local].
  intros (derr & w1 & Hd & Hrest)%bind_some.
  apply dialBackend_settles in Hd as (_ & _ & _ & _ & _ & _ & Hb).
  destruct derr as [e|]; [by apply refuse_local in Hrest as [? _]|]. injection Hrest as <- <- <-.
  destruct Hb as [b Hb]. by eexists.
Qed.

(** The pieces of [handle] return. *)
Lemma greet_total w : c_tls (w_client w) = false → is_Some (greet cfg w).
Proof.
  intros Ht. unfold greet, mbind, gw_bind. destruct (deadline_client _ w) as [[derr w0]|] eqn:ED.
  2:{ revert ED. unfold deadline_client, with_client. by destruct (SetDeadline _ _). }
  apply deadline_client_local in ED as [_ Ht0]. destruct derr; [by eexists|].
  destruct (negotiate_loop_run cfg maxNegotiationRounds w0 false) as (res & w1 & Hn & _); [congruence|].
  unfold negotiate. rewrite Hn. destruct res as [s|e]; [by eexists|].
  by destruct (isBenignClose e); eexists.
Qed.

Lemma refuse_total db oc s m d (x : option error + Route * string) w :
  is_Some ((_ ← emit (EvConnection db oc); _ ← writeFatal s m d; mret x) w).
Proof.
  unfold mbind, gw_bind, emit. match goal with |- context [writeFatal s m d ?v] =>
    destruct (writeFatal_run s m d v) as (c' & n & -> & _) end. by eexists.
Qed.

Lemma reach_total store s w : is_Some (Routes store) → is_Some (reach cfg store s w).
Proof.
  intros [table Ht]. unfold reach. destruct (requested_database s) as [d ok].
  destruct (negb ok || bool_decide (d = "")); [apply refuse_total|]. rewrite Ht.
  destruct (Lookup table d) as [r|]; [|apply refuse_total].
  destruct (dialBackend_run (DialTimeout cfg) r w) as (err & w1 & Hd & _). unfold mbind at 1, gw_bind at 1. rewrite Hd.
  destruct err; [apply refuse_total|by eexists].
Qed.

Lemma introduce_total route db s w : is_Some (w_backend w) → is_Some (introduce route db s w).
Proof.
  intros [b Hb]. unfold introduce, write_backend, deadline_client, deadline_backend, with_backend, with_client,
    mbind, gw_bind. rewrite Hb. destruct (Write b _) as [[n [e|]] b1]; cbn; [by eexists|].
  destruct (SetDeadline None (w_client w)) as [[e|] c1]; cbn; [by eexists|].
  by destruct (SetDeadline None b1) as [[e|] b2]; eexists.
Qed.

(** Connections, relays and tables that change at one place. *)
Lemma backed_place_at p g cs i pl :
  backed (MkWhole p g cs) → backed_place pl → backed (MkWhole p g (<[i := pl]> cs)).
Proof.
  intros [Ht Hp Hf Hcl] Hpl. split; cbn in *; [done| |done|done].
  intros j q [[<- <-]|[_ Hj]]%lookup_insert_Some; [done|by eapply Hp].
Qed.

Lemma backed_mstep W W' : backed W → mstep cfg W W' → backed W'.
Proof.
  intros Hb Hs. destruct Hs as [p g cs i w r w' Hi Hr
    |p g cs i s w w' Hi Hc Hr|p g cs i s w r w' Hi Hc Hr|p g cs i route db s w err w1 w2 Hi Hr Hh
    |p g cs i route db s w w' Hi Hr|p g cs i f s' Hi Hr|p g cs i f err w' Hi Hfin Hr].
  - apply backed_place_at; [done|by destruct r].
  - by apply backed_place_at.
  - apply backed_place_at; [done|]. destruct r as [err|[route db]]; [done|]. by eapply reach_backend.
  - by apply backed_place_at.
  - apply (backed_place_at _ _ _ i (Relaying route db)) in Hb; [|done]. destruct Hb as [Ht Hp Hf Hcl].
    split; [done..| |]; cbn in *; (intros j f [[<- <-]|[_ Hj]]%lookup_insert_Some; [|by eauto]); cbn.
    + by eapply introduce_run.
    + apply begin_closes.
  - destruct Hb as [Ht Hp Hf Hcl]. destruct (Hf i f Hi) as [b Hbk].
    split; [done..| |]; cbn in *; (intros j f' [[<- <-]|[_ Hj]]%lookup_insert_Some; [|by eauto]); cbn.
    + apply (istep_shrinks _ _ _ _ Hr). by apply (Hf i).
    + apply (istep_flags _ _ _ _ b Hr Hbk). by apply (Hcl i).
  - apply (backed_place_at _ _ _ i (Over err w')) in Hb; [|done]. destruct Hb as [Ht Hp Hf Hcl].
    split; [done..| |]; cbn in *; intros j f' [_ Hj]%lookup_delete_Some; by eauto.
Qed.

Lemma backed_wstep W W' : backed W → wstep ctx cfg W W' → backed W'.
Proof.
  intros Hb Hs. destruct Hs as [p p' g cs Hs|p g cs i w Hi Ht Hbk Htr|W W' Hs|p g cs i err w Hi|p g cs A].
  - destruct Hb as [Ht Hp Hf Hcl]. split; [|done..]. cbn in *.
    destruct (cstep_store ctx p p' Hs) as [->|[R Heq]]; [done|]. unfold Routes, Load in *. by rewrite Heq.
  - by apply backed_place_at.
  - by eapply backed_mstep.
  - destruct Hb as [Ht Hp Hf Hcl]. split; [done| |done|done]. cbn in *. intros j pl [_ Hj]%lookup_delete_Some.
    by eapply Hp.
  - destruct Hb as [Ht Hp Hf Hcl]. split; [done|..]; cbn in *; intros i pl; rewrite lookup_change_at.
    + destruct (cs !! i) as [pl0|] eqn:E; [|done]. cbn.
      intros [= <-]. specialize (Hp _ _ E). by case_bool_decide; [destruct pl0|].
    + destruct (gt_flights g !! i) as [f0|] eqn:E; [|done]. cbn.
      intros [= <-]. specialize (Hf _ _ E). by case_bool_decide.
    + destruct (gt_flights g !! i) as [f0|] eqn:E; [|done]. cbn.
      intros [= <-]. specialize (Hcl _ _ E) as [Hd Hu]. case_bool_decide; [|by split].
      split; cbn; [done|]. by intros err b He Hb; eapply Hu.
Qed.

Lemma backed_reachable W : rtc (wstep ctx cfg) (launch api domain capacity rand) W → backed W.
Proof.
  apply (rtc_ind_r backed).
  - split; cbn; [by eexists|by intros i pl Hi|by intros i f Hi..].
  - intros W1 W2 _ Hs Hb. by eapply backed_wstep.
Qed.

(** How far a connection is from its end, and the process from its stop: first by the
    moves of goroutines and places, and then by what the relays still have to copy. *)
Definition place_rank (pl : place) : nat :=
  match pl with
  | Greeting _ => 4 | Asking _ _ => 3 | Connected _ _ _ _ => 2 | Relaying _ _ => 1 | Over _ _ => 0
  end.

Definition moves_left (P : process) : nat :=
  (5 * left_to_do (po_server P) + map_sum place_rank (wh_conns (po_whole P)))%nat.
Definition copies_left (P : process) : nat :=
  map_sum (λ f, left_over (fl_session f)) (gt_flights (wh_gateway (po_whole P))).

Definition nearer (P' P : process) : Prop :=
  (moves_left P' < moves_left P)%nat ∨
  (moves_left P' = moves_left P ∧ copies_left P' < copies_left P)%nat.

Lemma mstep_nearer p W W' :
  whole_inv ctx (boot api domain capacity) rand W → backed W → mstep cfg W W' →
  nearer (MkProcess p W') (MkProcess p W).
Proof.
  intros Hwi Hb Hs. unfold nearer, moves_left, copies_left. cbn [po_server po_whole].
  destruct Hs as [pl g cs i w r w' Hi Hr
    |pl g cs i s w w' Hi Hc Hr|pl g cs i s w r w' Hi Hc Hr|pl g cs i route db s w err w1 w2 Hi Hr Hh
    |pl g cs i route db s w w' Hi Hr|pl g cs i f s' Hi Hr|pl g cs i f err w' Hi Hfin Hr];
    cbn [wh_conns wh_gateway gt_flights];
    try (left; match goal with |- context [<[i := ?q]> cs] =>
      pose proof (map_sum_update place_rank cs i _ q Hi) as Hsum; cbn [place_rank] in Hsum end).
  - destruct r; cbn [place_rank] in Hsum; lia.
  - lia.
  - destruct r as [err|[route db]]; cbn [place_rank] in Hsum; lia.
  - lia.
  - lia.
  - right. split; [done|]. destruct (istep_shrinks _ _ _ _ Hr) as [Hlt _]; [by eapply (bk_flights _ Hb)|].
    pose proof (map_sum_update (λ f, left_over (fl_session f)) (gt_flights g) i f
      (MkFlight (fl_route f) (fl_label f) (fl_said f) s') Hi) as Hsum. cbn [fl_session] in Hsum.
    change (left_over (enter g (fl_session f))) with (left_over (fl_session f)) in Hlt. lia.
  - left. destruct (wi_flights _ _ _ _ Hwi i f Hi) as [db Hrel]. cbn in Hrel.
    pose proof (map_sum_update place_rank cs i _ (Over err w') Hrel) as Hsum. cbn [place_rank] in Hsum. lia.
Qed.

Lemma dstep_nearer P P' :
  inv P → pr_stage (po_server P) ≠ Accepting → dstep P P' → nearer P' P.
Proof.
  intros Hinv Hst Hs. pose proof (process_whole_inv P Hinv) as Hwi. destruct Hinv as [Hp Hw Hc _].
  pose proof (backed_reachable _ Hw) as Hb.
  destruct Hs as [p p' W Hs _ _|st c g g' ps n cl pl gw cs w Hps Ha Ht Hbk Htr _|st c g g' ps n cl pl gw cs err w Hps Hcs Hr
    |g ps n cl pl gw cs|p W W' Hs]; [..|by apply mstep_nearer]; left; unfold moves_left; cbn [po_server po_whole] in *.
  - pose proof (pstep_decreases _ _ Hs Hst). lia.
  - pose proof (pstep_decreases _ _ (step_acquire st c g g' ps n cl Hps Ha) Hst).
    assert (cs !! c = None) as Hnone.
    { apply eq_None_not_Some. intros Hsome. apply (Hc c) in Hsome. cbn in Hsome. congruence. }
    cbn [wh_conns]. rewrite map_sum_insert_None by done. cbn [place_rank]. lia.
  - pose proof (pstep_decreases _ _ (step_release st c g g' ps n cl Hps Hr) Hst). cbn [wh_conns].
    rewrite (map_sum_lookup _ cs c _ Hcs). lia.
  - pose proof (pstep_decreases _ _ (step_grace_over g ps n cl) Hst). cbn [wh_conns].
    rewrite (map_sum_agree place_rank (change_at (activeConn g) cut_place cs) cs); [lia|].
    intros i. rewrite lookup_change_at. destruct (cs !! i) as [q|]; [|done]. cbn.
    by case_bool_decide; [destruct q|].
Qed.

(** The random source is not dry for any relay that may ask for a key. *)
Definition supplied (P : process) : Prop :=
  ∀ i f, gt_flights (wh_gateway (po_whole P)) !! i = Some f →
    live (enter (wh_gateway (po_whole P)) (fl_session f)).

(** A connection that is handled and has lost its client can always move: one that is
    not relaying does not wait for its client without a deadline, and one that is may
    wait for both its peers, but not for a client that has been closed. *)
Lemma place_moves p W i pl :
  whole_inv ctx (boot api domain capacity) rand W → backed W → supplied (MkProcess p W) →
  severed W i → wh_conns W !! i = Some pl → (∀ err w, pl ≠ Over err w) → ∃ W', mstep cfg W W'.
Proof.
  intros Hwi [Htab Hbp Hbf Hbc] Hsup Hsev Hi Hno. specialize (Hsev pl Hi). pose proof (wi_places _ _ _ _ Hwi i pl Hi) as Hok.
  specialize (Hbp i pl Hi). destruct W as [q g cs]. cbn in *.
  destruct pl as [w|s w|route db s w|route db|err w]; [..|by destruct (Hno err w)].
  - destruct (greet_total w) as [[r w'] Hr]; [by destruct Hok|]. eexists. by eapply ms_greet.
  - destruct (IsCancelRequest s) eqn:Ec.
    + destruct (forwardCancel_run (DialTimeout cfg) (Cancel s) (put_cancels (gt_table g) w)) as (w' & Hr & _).
      eexists. by eapply ms_cancel.
    + destruct (reach_total (wh_store q) s w Htab) as [[r w'] Hr]. eexists. by eapply ms_reach.
  - destruct (introduce_total route db s w Hbp) as [[[err|[]] w'] Hr].
    + destruct (introduce_run _ _ _ _ _ _ Hr) as [_ [b Hb]].
      eexists. eapply ms_refused; [done|done|]. unfold hang_up, with_backend. by rewrite Hb.
    + eexists. by eapply ms_relay.
  - destruct Hok as (_ & f & Hf & _). destruct (finished (fl_session f)) as [err|] eqn:Ef.
    + destruct (Hbf i f Hf) as [b Hb]. eexists. eapply ms_end; [done..|].
      unfold part, hang_up, with_backend, mbind, gw_bind, emit. cbn. by rewrite Hb.
    + destruct (session_can_move (fl_route f) (fl_label f) (enter g (fl_session f))) as [[s' Hs']|Hw];
        [by apply (Hsup i)|by apply (Hbc i)|done|eexists; by eapply ms_flight|].
      destruct Hw as (_ & _ & Hopen & _). destruct (Hsev f Hf) as (_ & _ & Hclosed).
      cbn in Hopen. congruence.
Qed.

(** A goroutine that neither enters nor leaves [handle]. *)
Lemma handled_move c ph0 ph st g g' ps n cl :
  ps !! c = Some ph0 → ph0 ≠ Handling → ph ≠ Handling →
  handled (MkProc st g' (<[c := ph]> ps) n cl) = handled (MkProc st g ps n cl).
Proof.
  intros Hc Hn0 Hn1. apply set_eq. intros x. rewrite !elem_of_handled. cbn.
  destruct (decide (x = c)) as [->|Hne]; [|by rewrite lookup_insert_ne].
  rewrite lookup_insert_eq, Hc. naive_solver.
Qed.

(** A client that says nothing. *)
Definition silent : world :=
  World (cut_off (MkConn (Stream [] closed_error) [] None [] false false false false)) None ∅ [] None [].

Lemma phase_moves P c ph :
  inv P → pr_phases (po_server P) !! c = Some ph → ph ≠ Handling → ∃ P', dstep P P'.
Proof.
  intros [Hp _ _ _] Hc Hh. apply server_inv_reachable in Hp as (_ & _ & _ & Hw & _).
  destruct P as [[st g ps n cl] [pl gw cs]]. cbn in *.
  assert (∀ p', pstep (MkProc st g ps n cl) p' → handled p' = handled (MkProc st g ps n cl) →
    pr_closed p' = cl → ∃ P', dstep (MkProcess (MkProc st g ps n cl) (MkWhole pl gw cs)) P') as Hserver.
  { intros p' Hs Hsame Hcl. eexists. by apply jt_server. }
  destruct ph; try done.
  - eapply Hserver; [by apply (step_track _ c)|by eapply handled_move|done].
  - destruct (acquireSlot g) as [[] g'] eqn:Ea.
    + eexists. eapply (jt_begin st c g g' ps n cl pl gw cs silent); try done. by eexists.
    + eapply Hserver; [by apply (step_refuse _ c)|by eapply handled_move|done].
  - eapply Hserver; [by eapply (step_untrack _ c); [|right]|by eapply handled_move|done].
  - eapply Hserver; [by eapply (step_untrack _ c); [|left]|by eapply handled_move|done].
  - destruct n as [|n].
    { symmetry in Hw. apply map_size_empty_inv in Hw. by rewrite Hw, lookup_empty in Hc. }
    eapply Hserver; [by apply (step_done _ c)| |done]. apply set_eq. intros x. rewrite !elem_of_handled. cbn.
    destruct (decide (x = c)) as [->|Hne]; [|by rewrite lookup_delete_ne].
    rewrite lookup_delete_eq, Hc. naive_solver.
Qed.

(** What a step of the process is for the server. *)
Lemma jstep_server P P' :
  jstep P P' → po_server P' = po_server P ∨ pstep (po_server P) (po_server P').
Proof.
  intros Hs. destruct Hs as [P P' Hs|]; [|by left]. destruct Hs; cbn; try (by left); right; try done.
  - by apply step_acquire.
  - by apply step_release.
  - by apply step_grace_over.
Qed.

(** The goroutine of every connection that was accepted has come to its first statement,
    the one that enters the connection into the set [drain] closes. *)
Definition all_tracked (P : process) : Prop :=
  pr_stage (po_server P) = Forced → ∀ c, pr_phases (po_server P) !! c ≠ Some Spawned.

(** Once the grace period is over, the clients of all connections are closed. *)
Definition forced_closed (p : proc) : Prop :=
  pr_stage p = Forced → ∀ c ph, pr_phases p !! c = Some ph → ph = Tracked ∨ ph = Handling → c ∈ pr_closed p.

Lemma pstep_forced p p' :
  server_inv limit p → pstep p p' → (pr_stage p = Forced → ∀ c, pr_phases p !! c ≠ Some Spawned) →
  forced_closed p → forced_closed p'.
Proof.
  intros (_ & _ & Htr & _) Hs Hall Hf Hst c ph Hc Hph. destruct Hs; cbn in *; subst; try done.
  all: try (apply lookup_insert_Some in Hc as [[<- <-]|[_ Hc]]; [|by eauto]).
  - by edestruct (Hall eq_refl).
  - eapply (Hf eq_refl _ Tracked); auto.
  - naive_solver.
  - naive_solver.
  - naive_solver.
  - apply lookup_delete_Some in Hc as [_ Hc]. by eauto.
  - apply elem_of_union_l, Htr. exists ph. split; [done|]. by destruct Hph as [->| ->].
Qed.

(** As long as the server has not stopped, some goroutine can move: the grace period
    ends, and after it no session waits for its client. *)
Lemma drain_progress P :
  inv P → supplied P → forced_closed (po_server P) →
  pr_stage (po_server P) ≠ Accepting → pr_stage (po_server P) ≠ Stopped →
  ∃ P', dstep P P'.
Proof.
  intros Hinv Hsup Hfc Ha Hs. pose proof (process_whole_inv P Hinv) as Hwi.
  destruct (decide (pr_stage (po_server P) = Draining)) as [Hd|Hd].
  { destruct P as [[st g ps n cl] [q gw cs]]. cbn in Hd. subst st. eexists. apply jt_grace. }
  assert (pr_stage (po_server P) = Forced) as Hst by (by destruct (pr_stage (po_server P))).
  destruct (map_choose_or_empty (wh_conns (po_whole P))) as [(c & pl & Hc)|He].
  - assert (pr_phases (po_server P) !! c = Some Handling) as Hh
      by by apply (pv_coupled _ _ _ _ _ _ Hinv); eexists.
    assert ((∃ err w, pl = Over err w) ∨ ∀ err w, pl ≠ Over err w) as [(err & w & ->)|Hno]
      by (destruct pl; try (by right); left; eauto).
    + destruct (release_ready limit (po_server P) c) as [g' Hr];
        [by apply server_inv_reachable, (pv_server _ _ _ _ _ _ Hinv)|done|].
      destruct P as [[st g ps n cl] [q gw cs]]. eexists. by eapply jt_end.
    + destruct (place_moves (po_server P) (po_whole P) c pl) as [W' HW]; try done.
      { by apply backed_reachable, (pv_whole _ _ _ _ _ _ Hinv). }
      { apply (pv_severed _ _ _ _ _ _ Hinv). eapply Hfc; [done|done|]. by right. }
      destruct P. eexists. by apply jt_session.
  - destruct (map_choose_or_empty (pr_phases (po_server P))) as [(c & ph & Hc)|Hnone].
    + eapply (phase_moves P c ph); [done..|]. intros ->.
      apply (pv_coupled _ _ _ _ _ _ Hinv) in Hc as [pl Hpl]. by rewrite He in Hpl.
    + pose proof (server_inv_reachable _ _ (pv_server _ _ _ _ _ _ Hinv)) as (_ & _ & _ & Hw & _).
      rewrite Hnone, map_size_empty in Hw. destruct P as [[st g ps n cl] W]. cbn in *. subst n ps.
      eexists. apply jt_server; [apply step_drained|done|done]. by right.
Qed.

Lemma jstep_not_accepting P P' :
  jstep P P' → pr_stage (po_server P) ≠ Accepting → pr_stage (po_server P') ≠ Accepting.
Proof.
  intros Hs Hst. destruct Hs as [P P' Hs|]; [|done].
  destruct Hs as [p p' W Hs _ _| | | |]; cbn in *; try done. by eapply pstep_not_accepting.
Qed.

(** The control plane brings the end no further away. *)
Lemma jstep_nearer P P' :
  inv P → pr_stage (po_server P) ≠ Accepting → jstep P P' →
  nearer P' P ∨ (moves_left P' = moves_left P ∧ copies_left P' = copies_left P).
Proof. intros Hi Hst Hs. destruct Hs as [P P' Hs|]; [left; by apply dstep_nearer|by right]. Qed.

Lemma nearer_wf : well_founded nearer.
Proof.
  assert (∀ a b P, moves_left P = a → copies_left P = b → Acc nearer P) as Hacc;
    [|by intros P; eapply Hacc].
  induction a as [a IHa] using lt_wf_ind. induction b as [b IHb] using lt_wf_ind.
  intros P <- <-. constructor. intros P' [Hlt|[Heq Hlt]]; [by eapply IHa|by eapply IHb].
Qed.

(** C8: shutdown completes.  Take any unending run of the whole process, the control
    plane, the clients and all the goroutines in any order, from any moment at which the
    accept loop has returned and [drain] waits.  Sessions may be idle then, with a client
    and a backend that never say another word and never hang up: such a session does not
    move at all, until the grace period is over and its client is closed.  If, as long as
    a goroutine of the gateway can move, one does at some later point (whichever; the
    timer of the grace period among them), every accepted connection's goroutine has come
    to its first statement by the end of the grace period, and the random source does not
    run dry, then [Start] returns: the sessions that are left are negotiated, dialled,
    relayed or cut off and torn down, every one gives its slot back, and the server
    stops. *)
Theorem shutdown_completes (f : nat → process) :
  rtc jstep (power_up limit api domain capacity rand) (f 0%nat) →
  pr_stage (po_server (f 0%nat)) = Draining →
  (∀ i, jstep (f i) (f (S i))) →
  (∀ i, (∃ P', dstep (f i) P') → ∃ j, (i ≤ j)%nat ∧ dstep (f j) (f (S j))) →
  (∀ i, all_tracked (f i)) →
  (∀ i, supplied (f i)) →
  ∃ n, pr_stage (po_server (f n)) = Stopped ∧ pr_phases (po_server (f n)) = ∅ ∧
    wh_conns (po_whole (f n)) = ∅.
Proof.
  intros Hr Hst Hf Hfair Htr Hsup.
  assert (∀ i, inv (f i) ∧ pr_stage (po_server (f i)) ≠ Accepting) as Hall.
  { induction i as [|i [IHi IHs]]; [by split; [apply process_inv_reachable|congruence]|].
    split; [by eapply jstep_inv|by eapply jstep_not_accepting]. }
  assert (∀ i, forced_closed (po_server (f i))) as Hfc.
  { induction i as [|i IHi]; [intros Hfo; congruence|]. destruct (jstep_server _ _ (Hf i)) as [->|Hp]; [done|].
    destruct (Hall i) as [Hi _]. eapply pstep_forced; [|done|apply Htr|done].
    by apply server_inv_reachable, (pv_server _ _ _ _ _ _ Hi). }
  assert (∀ i j, (i ≤ j)%nat → nearer (f j) (f i) ∨
    (moves_left (f j) = moves_left (f i) ∧ copies_left (f j) = copies_left (f i))) as Hmono.
  { intros i j. induction 1 as [|j Hij IH]; [by right|]. destruct (Hall j) as [Hi Hs].
    pose proof (jstep_nearer _ _ Hi Hs (Hf j)) as Hn. unfold nearer in *. lia. }
  assert (∃ n, pr_stage (po_server (f n)) = Stopped) as [n Hn].
  { enough (∀ P, ∀ i, f i = P → ∃ n, pr_stage (po_server (f n)) = Stopped) as Hq by by eapply (Hq _ 0%nat).
    intros P. induction (nearer_wf P) as [P _ IH]. intros i <-.
    destruct (decide (pr_stage (po_server (f i)) = Stopped)) as [Hs|Hs]; [by exists i|].
    destruct (Hall i) as [Hi Ha]. destruct (Hfair i) as (j & Hij & Hd); [by apply drain_progress|].
    destruct (Hall j) as [Hj Haj]. pose proof (dstep_nearer _ _ Hj Haj Hd) as Hlt.
    apply (IH (f (S j))) with (S j); [|done]. destruct (Hmono i j Hij) as [Hn|Hn]; unfold nearer in *; lia. }
  exists n. destruct (Hall n) as [Hi _]. destruct (server_stopped _ _ (pv_server _ _ _ _ _ _ Hi) Hn) as [Hps _].
  split_and!; [done|done|]. apply map_empty. intros c. apply eq_None_not_Some. intros Hc.
  apply (pv_coupled _ _ _ _ _ _ Hi) in Hc. by rewrite Hps in Hc.
Qed.
End Run.
End Process.

(** ** A sample shutdown *)

(** A backend that accepts the connection and then neither speaks nor hangs up. *)
#[local] Instance quiet_backends : Network := {|
  Dial := λ _, Ok (MkConn (Stream [] (ESentinel io_EOF)) [] None [] true false false false);
  ServerHandshake := λ _ s, Ok s;
  ClientHandshake := λ _ s, Err (ENew "no TLS here");
  VerifyChain := λ _ _ _, None
|}.
#[local] Existing Instance ascii_tables.
#[local] Existing Instance sample_reader.
#[local] Existing Instance sample_kube_meta.
#[local] Existing Instance sample_kube_meta_ok.

(** A client that asks for a database and then does the same. *)
Definition quiet_client : world :=
  World (MkConn (Stream (ssl_request ++ Encode sample_startup) (ESentinel io_EOF)) [] None [] true false false false)
    None ∅ sample_draws None [].

(** It is greeted, routed and introduced, and its session is relayed. *)
Definition quiet_greeted : world := after (greet (sample_config ∅)) quiet_client.
Definition quiet_reached : world :=
  after (reach (sample_config ∅) (wh_store run_plane) sample_startup) quiet_greeted.
Definition quiet_introduced : world := after (introduce served_by_hand "billing" sample_startup) quiet_reached.
Definition quiet_gateway : gateway :=
  MkGateway newCancelRegistry sample_draws
    {[7%nat := MkFlight served_by_hand "billing" (unframed quiet_introduced) (begin quiet_introduced)]}.

(** Its goroutine, and the process around it. *)
Definition one_server (st : stage) (used : nat) (conns : gset nat) (ph : phase) (cl : gset nat) : proc :=
  MkProc st (MkGate (Some (1%nat, used)) conns) {[7%nat := ph]} 1 cl.
Definition one_process (p : proc) (g : gateway) (cs : gmap nat place) : process :=
  MkProcess p (MkWhole run_plane g cs).

(** The client is closed; the upstream copy ends and half-closes the backend, and the
    downstream copy ends with it. *)
Definition quiet_cut : gateway :=
  MkGateway newCancelRegistry sample_draws (change_at {[7%nat]} cut_flight (gt_flights quiet_gateway)).
Definition last_turns : list (nat * bool * nat) :=
  [(7, true, 0); (7, true, 0); (7, true, 0); (7, false, 0); (7, false, 0); (7, false, 0); (7, false, 0)]%nat.
Definition turned (i : nat) : gateway := default quiet_cut (run_gateway (take i last_turns) quiet_cut).

Definition quiet_end : option (option error) * world :=
  match gt_flights (turned 7) !! 7%nat with
  | Some f => (finished (fl_session f), after (part (fl_label f)) (ss_world (fl_session f)))
  | None => (None, quiet_client)
  end.
Definition quiet_error : option error := default None quiet_end.1.
Definition quiet_gone : gateway := MkGateway (gt_table (turned 7)) (gt_rand (turned 7)) ∅.

Definition sample_shutdown (i : nat) : process :=
  match i with
  | 0 => one_process (one_server Draining 1 {[7%nat]} Handling ∅) quiet_gateway
           {[7%nat := Relaying served_by_hand "billing"]}
  | 1 | 2 | 3 | 4 | 5 | 6 | 7 | 8 =>
      one_process (one_server Forced 1 {[7%nat]} Handling {[7%nat]}) (turned (i - 1))
        {[7%nat := Relaying served_by_hand "billing"]}
  | 9 => one_process (one_server Forced 1 {[7%nat]} Handling {[7%nat]}) quiet_gone
           {[7%nat := Over quiet_error quiet_end.2]}
  | 10 => one_process (one_server Forced 0 {[7%nat]} Leaving {[7%nat]}) quiet_gone ∅
  | 11 => one_process (one_server Forced 0 ∅ Closed {[7%nat]}) quiet_gone ∅
  | 12 => one_process (MkProc Forced (MkGate (Some (1, 0)%nat) ∅) ∅ 0 {[7%nat]}) quiet_gone ∅
  | _ => one_process (MkProc Stopped (MkGate (Some (1, 0)%nat) ∅) ∅ 0 {[7%nat]}) quiet_gone ∅
  end%nat.

Abbreviation sample_dstep := (dstep (sample_config ∅)).
Abbreviation sample_jstep := (jstep no_deadline (sample_config ∅)).
Abbreviation sample_power_up := (power_up (Some 1%nat) run_api "cluster.local" 1024 sample_draws).

(** A step to a state that evaluates to the one asked for. *)
Lemma dstep_to P Q R : sample_dstep P Q → Q = R → sample_dstep P R.
Proof. by intros ? <-. Qed.

Tactic Notation "steps_to" tactic3(t) := eapply dstep_to; [t|by vm_compute].

Lemma plane_turns p p' q g cs :
  rtc (cstep no_deadline) p p' → rtc sample_jstep (MkProcess q (MkWhole p g cs)) (MkProcess q (MkWhole p' g cs)).
Proof. induction 1 as [|p1 p2 p3 Hs _ IH]; [done|]. eapply rtc_l; [by apply jt_plane|exact IH]. Qed.

Lemma data_turn P Q R : sample_dstep P Q → rtc sample_jstep Q R → rtc sample_jstep P R.
Proof. intros Hs Hr. eapply rtc_l; [by apply jt_data|exact Hr]. Qed.

Lemma sample_shutdown_reachable : rtc sample_jstep sample_power_up (sample_shutdown 0).
Proof.
  etrans; [apply (plane_turns _ run_plane), run_plane_reachable|].
  apply (data_turn _ (one_process (MkProc Accepting (MkGate (Some (1, 0)%nat) ∅) {[7%nat := Spawned]} 1 ∅)
    (idle sample_draws) ∅)); [steps_to (apply jt_server; [by apply (step_accept 7)|by vm_compute|done])|].
  apply (data_turn _ (one_process (one_server Accepting 0 {[7%nat]} Tracked ∅) (idle sample_draws) ∅));
    [steps_to (apply jt_server; [by apply (step_track _ 7)|by vm_compute|done])|].
  apply (data_turn _ (one_process (one_server Accepting 1 {[7%nat]} Handling ∅) (idle sample_draws)
    {[7%nat := Greeting quiet_client]}));
    [steps_to (by apply (jt_begin _ _ 7 _ (MkGate (Some (1, 1)%nat) {[7%nat]}) _ _ _ _ _ _ quiet_client))|].
  apply (data_turn _ (one_process (one_server Accepting 1 {[7%nat]} Handling ∅) (idle sample_draws)
    {[7%nat := Asking sample_startup quiet_greeted]})).
  { steps_to (apply jt_session, (ms_greet _ _ _ _ 7 quiet_client (inr sample_startup) quiet_greeted);
      [done|by vm_compute]). }
  apply (data_turn _ (one_process (one_server Accepting 1 {[7%nat]} Handling ∅) (idle sample_draws)
    {[7%nat := Connected served_by_hand "billing" sample_startup quiet_reached]})).
  { steps_to (apply jt_session, (ms_reach _ _ _ _ 7 sample_startup quiet_greeted
      (inr (served_by_hand, "billing")) quiet_reached); [done|done|by vm_compute]). }
  apply (data_turn _ (one_process (one_server Accepting 1 {[7%nat]} Handling ∅) quiet_gateway
    {[7%nat := Relaying served_by_hand "billing"]})).
  { steps_to (apply jt_session, (ms_relay _ _ _ _ 7 served_by_hand "billing" sample_startup quiet_reached
      quiet_introduced); [done|by vm_compute]). }
  eapply data_turn; [|done]. apply jt_server; [apply step_shutdown|done|done].
Qed.

(** A turn of the relay is a step of the process. *)
Lemma relay_turn p g g' cs turn :
  run_gateway [turn] g = Some g' → sample_dstep (one_process p g cs) (one_process p g' cs).
Proof.
  destruct turn as [[i who] k]. cbn [run_gateway]. destruct (gt_flights g !! i) as [f|] eqn:Hi; [|done].
  cbn [mbind option_bind]. destruct (run_schedule _ _ _ _) as [s|] eqn:Es; [|done].
  cbn [mbind option_bind]. intros [= <-]. apply jt_session, ms_flight; [done|]. by eapply turn_istep.
Qed.

Lemma sample_shutdown_moves i :
  (i < 13)%nat → sample_dstep (sample_shutdown i) (sample_shutdown (S i)).
Proof.
  intros Hi. do 13 (try destruct i as [|i]); [..|lia]; cbn [sample_shutdown].
  - steps_to (apply jt_grace).
  - apply (relay_turn _ _ _ _ (7, true, 0)%nat). by vm_compute.
  - apply (relay_turn _ _ _ _ (7, true, 0)%nat). by vm_compute.
  - apply (relay_turn _ _ _ _ (7, true, 0)%nat). by vm_compute.
  - apply (relay_turn _ _ _ _ (7, false, 0)%nat). by vm_compute.
  - apply (relay_turn _ _ _ _ (7, false, 0)%nat). by vm_compute.
  - apply (relay_turn _ _ _ _ (7, false, 0)%nat). by vm_compute.
  - apply (relay_turn _ _ _ _ (7, false, 0)%nat). by vm_compute.
  - steps_to (eapply jt_session, (ms_end _ _ _ _ 7 _ quiet_error quiet_end.2); by vm_compute).
  - steps_to (by eapply (jt_end _ _ 7)).
  - steps_to (apply jt_server; [by eapply (step_untrack _ 7); [|left]|by vm_compute|done]).
  - steps_to (apply jt_server; [by apply (step_done _ 7)|by vm_compute|done]).
  - apply jt_server; [apply step_drained; by right|done|done].
Qed.

(** Once it has stopped, nothing of the gateway moves. *)
Lemma stopped_alone g cl pl gw P' :
  gt_flights gw = ∅ → ¬ sample_dstep (MkProcess (MkProc Stopped g ∅ 0 cl) (MkWhole pl gw ∅)) P'.
Proof.
  intros Hg Hs. inversion Hs as [p p' W Hp| | | |p W W' Hm]; subst; try done.
  - inversion Hp; subst; try done. naive_solver.
  - inversion Hm; subst; try done; by rewrite Hg in *.
Qed.

Lemma stopped_still i P' : (13 ≤ i)%nat → ¬ sample_dstep (sample_shutdown i) P'.
Proof. intros Hi. do 13 (destruct i as [|i]; [lia|]). by apply stopped_alone. Qed.

(** The control plane goes on delivering what it has delivered. *)
Lemma sample_shutdown_steps i : sample_jstep (sample_shutdown i) (sample_shutdown (S i)).
Proof.
  destruct (decide (i < 13)%nat) as [Hi|Hi]; [by apply jt_data, sample_shutdown_moves|].
  do 13 (destruct i as [|i]; [lia|]). cbn [sample_shutdown]. apply jt_plane.
  pose proof (cp_deliver no_deadline run_api ∅ run_api (cp_builder run_plane) {[route_key by_hand]} false
    (route_key by_hand)) as Hs. refine (eq_rect _ (cstep no_deadline run_plane) Hs _ _). by vm_compute.
Qed.

(** Before the grace period is over, the session is stuck. *)
Lemma sample_waits : waiting (begin quiet_introduced).
Proof.
  split_and!; [by eexists|done|done|by vm_compute|]. eexists. split_and!; by vm_compute.
Qed.

(** The relay of each moment, and that it has keys to draw. *)
Lemma sample_supplied i : supplied (sample_shutdown i).
Proof.
  intros j f Hj%elem_of_map_to_list. do 9 (destruct i as [|i];
    [match type of Hj with _ ∈ ?l => let v := eval vm_compute in l in change l with v in Hj end;
     apply list_elem_of_singleton in Hj as [= -> ->]; split; [by eexists|];
     first [exact I|split; [apply sample_draws_distinct|vm_compute; lia]]|]).
  do 4 (destruct i as [|i]; [by apply not_elem_of_nil in Hj|]). by apply not_elem_of_nil in Hj.
Qed.

Lemma sample_tracked i : all_tracked (sample_shutdown i).
Proof.
  intros Hst c. do 13 (destruct i as [|i];
    [first [done|cbn; rewrite ?lookup_singleton_Some, ?lookup_empty; by first [intros [? ?]|idtac]]|]). done.
Qed.

Lemma shutdown_completes_witness :
  waiting (begin quiet_introduced) ∧
  ∃ n, pr_stage (po_server (sample_shutdown n)) = Stopped ∧
    pr_phases (po_server (sample_shutdown n)) = ∅ ∧ wh_conns (po_whole (sample_shutdown n)) = ∅.
Proof.
  split; [exact sample_waits|].
  apply (shutdown_completes no_deadline (sample_config ∅) (Some 1%nat) run_api "cluster.local" 1024 sample_draws
           run_api_keys sample_shutdown).
  - exact sample_shutdown_reachable.
  - reflexivity.
  - exact sample_shutdown_steps.
  - intros i [P' Hs]. destruct (decide (i < 13)%nat) as [Hi|Hi].
    + exists i. split; [lia|by apply sample_shutdown_moves].
    + exfalso. eapply (stopped_still i); [lia|exact Hs].
  - exact sample_tracked.
  - exact sample_supplied.
Defined.

Lemma process_bounded_witness :
  rtc pstep (start (fresh_gate (Some 1%nat))) (po_server (sample_shutdown 0)) ∧
  rtc (wstep no_deadline (sample_config ∅)) (launch run_api "cluster.local" 1024 sample_draws)
    (po_whole (sample_shutdown 0)) ∧
  dom (gt_flights (wh_gateway (po_whole (sample_shutdown 0)))) ⊆ dom (wh_conns (po_whole (sample_shutdown 0))) ∧
  dom (wh_conns (po_whole (sample_shutdown 0))) = handled (po_server (sample_shutdown 0)) ∧
  handled (po_server (sample_shutdown 0)) ⊆ activeConn (pr_gate (po_server (sample_shutdown 0))) ∧
  (∀ n, Some 1%nat = Some n → size (wh_conns (po_whole (sample_shutdown 0))) ≤ n)%nat ∧
  (∀ c conn, c ∈ pr_closed (po_server (sample_shutdown 0)) →
     client_of (po_whole (sample_shutdown 0)) c = Some conn → dead conn) ∧
  (pr_stage (po_server (sample_shutdown 0)) = Stopped →
     wh_conns (po_whole (sample_shutdown 0)) = ∅ ∧
     gt_flights (wh_gateway (po_whole (sample_shutdown 0))) = ∅ ∧
     pr_gate (po_server (sample_shutdown 0)) = fresh_gate (Some 1%nat)).
Proof.
  apply (process_bounded no_deadline (sample_config ∅) (Some 1%nat) run_api "cluster.local" 1024 sample_draws
           run_api_keys (sample_shutdown 0)).
  exact sample_shutdown_reachable.
Defined.
